(** * Student analytics dashboard: parser, risk engine, analytics, filters

    A shallow embedding of the data pipeline of the dashboard
    ([js/csvParser.js], [js/riskDetection.js], [js/analytics.js],
    [js/filters.js] and the helpers of the utility file) together with
    the properties stated about it.

    Conventions of the embedding.
    - A JavaScript string is a list of code units; only code units below
      256 are represented ([ascii]).  Whitespace and lower-casing follow
      ECMAScript on that range.
    - A JavaScript number is [NaN], an infinity or an exact rational
      [Fin q].  The rounding of IEEE-754 doubles and the sign of zero are
      not represented; overflow of a decimal literal to an infinity is.
    - A JavaScript object is an association list in insertion order
      (the order [Object.keys] and the spread operator observe for
      non-index keys).  For the objects that are keyed by data, the
      groups and the entries of the students, [entries] gives the order
      of enumeration, the array indices first.
    - Methods that mutate [this] are state-passing functions; a thrown
      exception is the [Throw] case of [result]. *)

From Stdlib Require Import List String Ascii Bool Arith ZArith QArith Qabs Qround Qminmax Qpower Lia Lqa.
From Stdlib Require Import Permutation Sorted.
Import ListNotations.

Local Open Scope Z_scope.

(** ** Strings *)

Module Str.

Definition str := list ascii.

Definition lit (s : string) : str := list_ascii_of_string s.

Definition code (c : ascii) : N := N_of_ascii c.

Definition eqb (a b : str) : bool :=
  if list_eq_dec ascii_dec a b then true else false.

(** [WhiteSpace] and [LineTerminator] code units below 256. *)
Definition is_ws (c : ascii) : bool :=
  let n := code c in
  ((9 <=? n) && (n <=? 13) || (n =? 32) || (n =? 160))%N.

Fixpoint trimStart (s : str) : str :=
  match s with
  | c :: r => if is_ws c then trimStart r else s
  | [] => []
  end.

Definition trimEnd (s : str) : str := rev (trimStart (rev s)).

(** [String.prototype.trim]. *)
Definition trim (s : str) : str := trimEnd (trimStart s).

(** [String.prototype.toLowerCase] on code units below 256: the Latin
    capital letters and the Latin-1 capitals other than the times sign. *)
Definition lower_char (c : ascii) : ascii :=
  let n := code c in
  if ((65 <=? n) && (n <=? 90) ||
      (192 <=? n) && (n <=? 222) && negb (n =? 215))%N
  then ascii_of_N (n + 32) else c.

Definition toLowerCase (s : str) : str := map lower_char s.

Fixpoint startsWith (s p : str) : bool :=
  match p, s with
  | [], _ => true
  | _ :: _, [] => false
  | a :: p', b :: s' => Ascii.eqb a b && startsWith s' p'
  end.

(** [String.prototype.includes]. *)
Fixpoint includes (s sub : str) : bool :=
  startsWith s sub ||
  match s with
  | [] => false
  | _ :: r => includes r sub
  end.

Definition has_char (c : ascii) (s : str) : bool :=
  existsb (Ascii.eqb c) s.

(** [String.prototype.split] with a one-character separator. *)
Fixpoint split_on (sep : ascii) (s : str) : list str :=
  match s with
  | [] => [[]]
  | c :: r =>
      if Ascii.eqb c sep then [] :: split_on sep r
      else match split_on sep r with
           | w :: ws => (c :: w) :: ws
           | [] => [[c]]
           end
  end.

(** [Array.prototype.join] on strings. *)
Fixpoint join (sep : str) (l : list str) : str :=
  match l with
  | [] => []
  | [x] => x
  | x :: r => x ++ sep ++ join sep r
  end.

(** [a < b] on strings: the lexicographic order of the code units. *)
Fixpoint ltb (a b : str) : bool :=
  match a, b with
  | _, [] => false
  | [], _ :: _ => true
  | x :: a', y :: b' =>
      (code x <? code y)%N || ((code x =? code y)%N && ltb a' b')
  end.

End Str.

Import Str.

(** ** Numbers *)

Module Num.

Inductive num :=
| NaN
| Inf (negative : bool)
| Fin (q : Q).

Definition isNaN (n : num) : bool :=
  match n with NaN => true | _ => false end.

Definition isFinite (n : num) : bool :=
  match n with Fin _ => true | _ => false end.

Definition Qltb (a b : Q) : bool := negb (Qle_bool b a).

(** [a < b] on numbers; every comparison with [NaN] is false. *)
Definition ltb (a b : num) : bool :=
  match a, b with
  | NaN, _ | _, NaN => false
  | Inf true, Inf true => false
  | Inf true, _ => true
  | _, Inf true => false
  | Inf false, _ => false
  | _, Inf false => true
  | Fin x, Fin y => Qltb x y
  end.

(** [a <= b] on numbers. *)
Definition leb (a b : num) : bool :=
  match a, b with
  | NaN, _ | _, NaN => false
  | Inf true, _ => true
  | _, Inf false => true
  | _, Inf true => false
  | Inf false, _ => false
  | Fin x, Fin y => Qle_bool x y
  end.

(** [a >= b] on numbers. *)
Definition geb (a b : num) : bool := leb b a.

(** Strict equality of numbers. *)
Definition eqb (a b : num) : bool :=
  match a, b with
  | Fin x, Fin y => Qeq_bool x y
  | Inf s, Inf t => Bool.eqb s t
  | _, _ => false
  end.

(** [Math.min] and [Math.max] of two numbers. *)
Definition min (a b : num) : num :=
  match a, b with
  | NaN, _ | _, NaN => NaN
  | Inf true, _ | _, Inf true => Inf true
  | Inf false, x | x, Inf false => x
  | Fin x, Fin y => Fin (Qmin x y)
  end.

Definition max (a b : num) : num :=
  match a, b with
  | NaN, _ | _, NaN => NaN
  | Inf false, _ | _, Inf false => Inf false
  | Inf true, x | x, Inf true => x
  | Fin x, Fin y => Fin (Qmax x y)
  end.

(** [Math.round]: the nearest integer, halves towards plus infinity. *)
Definition round (n : num) : num :=
  match n with
  | Fin q => Fin (inject_Z (Qfloor (q + (1 # 2))%Q))
  | _ => n
  end.

Definition add (a b : num) : num :=
  match a, b with
  | NaN, _ | _, NaN => NaN
  | Inf s, Inf t => if Bool.eqb s t then Inf s else NaN
  | Inf s, _ | _, Inf s => Inf s
  | Fin x, Fin y => Fin (x + y)%Q
  end.

Definition opp (a : num) : num :=
  match a with
  | NaN => NaN
  | Inf s => Inf (negb s)
  | Fin x => Fin (- x)%Q
  end.

Definition sub (a b : num) : num := add a (opp b).

Definition of_Z (z : Z) : num := Fin (inject_Z z).
Definition of_nat (n : nat) : num := of_Z (Z.of_nat n).

(** [a * b].  The sign of a zero is not represented; an infinity times
    zero is [NaN]. *)
Definition mul (a b : num) : num :=
  match a, b with
  | NaN, _ | _, NaN => NaN
  | Inf s, Inf t => Inf (xorb s t)
  | Inf s, Fin q | Fin q, Inf s =>
      if Qeq_bool q 0 then NaN else Inf (xorb s (Qltb q 0))
  | Fin x, Fin y => Fin (x * y)%Q
  end.

(** [a / b]; a zero divisor stands for the positive zero. *)
Definition div (a b : num) : num :=
  match a, b with
  | NaN, _ | _, NaN => NaN
  | Inf _, Inf _ => NaN
  | Inf s, Fin q => Inf (xorb s (Qltb q 0))
  | Fin _, Inf _ => Fin 0
  | Fin x, Fin y =>
      if Qeq_bool y 0
      then (if Qeq_bool x 0 then NaN else Inf (Qltb x 0))
      else Fin (x / y)%Q
  end.

(** *** Binary64

    An operator of the language gives the double that is nearest to the
    exact result, the one with the even significand of two that are
    equally near.  The doubles are the rationals [m * 2^e] with
    [|m| < 2^53] and [-1074 <= e], below [2^1024]; a result that rounds
    to [2^1024] or beyond is an infinity. *)

Definition pow2 (e : Z) : Q := (2 ^ e)%Q.

(** The binary exponent of a positive rational: [2^e <= q < 2^(e+1)]. *)
Definition binade (q : Q) : Z :=
  let e := Z.log2 (Qnum q) - Z.log2 (Z.pos (Qden q)) in
  if Qle_bool (pow2 e) q then e else e - 1.

(** The nearest integer, the even one of two that are equally near. *)
Definition nearest_even (q : Q) : Z :=
  let f := Qfloor q in
  let r := (q - inject_Z f)%Q in
  if Qltb r (1 # 2) then f
  else if Qltb (1 # 2) r then f + 1
  else if Z.even f then f else f + 1.

(** The exponent of the last place of the doubles around [q]: 53 bits
    of significand, and the exponent -1074 for the subnormal ones. *)
Definition last_place (q : Q) : Z := Z.max (binade (Qabs q) - 52) (-1074).

Definition ulp (q : Q) : Q := pow2 (last_place q).

(** The nearest double, with no upper end of the range. *)
Definition rnd (q : Q) : Q :=
  if Qeq_bool q 0 then 0%Q
  else Qred (inject_Z (nearest_even (q / ulp q)) * ulp q)%Q.

(** The number that stands for the exact result [q]. *)
Definition round64 (q : Q) : num :=
  let r := rnd q in
  if Qle_bool (pow2 1024) (Qabs r) then Inf (Qltb q 0) else Fin r.

Definition rounded (n : num) : num :=
  match n with
  | Fin q => round64 q
  | _ => n
  end.

(** [a + b], [a - b], [a * b] and [a / b] on doubles.  The operations
    [add], [sub], [mul] and [div] above give the same results where the
    exact result is a double, as it is for the counters, the risk
    scores and the semester numbers, which are integers below [2^53];
    they are used for those. *)
Definition add64 (a b : num) : num := rounded (add a b).
Definition sub64 (a b : num) : num := rounded (sub a b).
Definition mul64 (a b : num) : num := rounded (mul a b).
Definition div64 (a b : num) : num := rounded (div a b).

(** A decimal literal of the source. *)
Definition literal (q : Q) : num := round64 q.

End Num.

Import Num.

(** ** Number literals and number printing *)

Module NumText.

Definition digit_of (c : ascii) : option Z :=
  let n := code c in
  if ((48 <=? n) && (n <=? 57))%N then Some (Z.of_N n - 48) else None.

(** The longest run of decimal digits at the head of a string, as its
    value, its length and the remainder. *)
Fixpoint take_digits (s : str) (acc : Z) (len : nat) : Z * nat * str :=
  match s with
  | c :: r =>
      match digit_of c with
      | Some d => take_digits r (10 * acc + d) (S len)
      | None => (acc, len, s)
      end
  | [] => (acc, len, [])
  end.

(** [ExponentPart]: consumed only when at least one digit follows. *)
Definition take_exponent (s : str) : Z * str :=
  match s with
  | c :: r =>
      if (Ascii.eqb c "e" || Ascii.eqb c "E")%char then
        let '(neg, r1) :=
          match r with
          | "-"%char :: r' => (true, r')
          | "+"%char :: r' => (false, r')
          | _ => (false, r)
          end in
        let '(e, n, r2) := take_digits r1 0 0%nat in
        match n with
        | O => (0, s)
        | _ => (if neg then - e else e, r2)
        end
      else (0, s)
  | [] => (0, [])
  end.

(** [StrUnsignedDecimalLiteral] other than [Infinity]: the exact value of
    the longest prefix that is one, and the remainder. *)
Definition take_decimal (s : str) : option (Q * str) :=
  let '(ip, ilen, r1) := take_digits s 0 0%nat in
  let '(fp, flen, r2) :=
    match r1 with
    | "."%char :: r => take_digits r 0 0%nat
    | _ => (0, 0%nat, r1)
    end in
  match ilen, flen with
  | O, O => None
  | _, _ =>
      let '(e, r3) := take_exponent r2 in
      let m := (inject_Z ip + inject_Z fp / inject_Z (10 ^ Z.of_nat flen))%Q in
      Some (Qred (m * Qpower (10 # 1) e)%Q, r3)
  end.

(** The number a decimal literal stands for: the nearest double; a
    literal at or beyond [2^1024 - 2^970] is an infinity, one at or
    below [2^-1075] is zero. *)
Definition in_range (negative : bool) (q : Q) : num :=
  match round64 q with
  | Fin r => Fin (if negative then (- r)%Q else r)
  | Inf _ => Inf negative
  | NaN => NaN
  end.

(** A signed [StrDecimalLiteral] at the head of a string. *)
Definition take_number (s : str) : option (num * str) :=
  let '(neg, r) :=
    match s with
    | "-"%char :: r' => (true, r')
    | "+"%char :: r' => (false, r')
    | _ => (false, s)
    end in
  if startsWith r (lit "Infinity")
  then Some (Inf neg, skipn 8 r)
  else match take_decimal r with
       | Some (q, r') => Some (in_range neg q, r')
       | None => None
       end.

(** The global [parseFloat] on a string. *)
Definition parseFloat (s : str) : num :=
  match take_number (trimStart s) with
  | Some (n, _) => n
  | None => NaN
  end.

(** [Number(s)] on a string (decimal literals; the [0x], [0o] and [0b]
    forms are not represented). *)
Definition string_to_number (s : str) : num :=
  match trim s with
  | [] => Fin 0
  | t => match take_number t with
         | Some (n, []) => n
         | _ => NaN
         end
  end.

Definition digit_char (d : Z) : ascii := ascii_of_N (Z.to_N d + 48).

Fixpoint nat_digits (fuel : nat) (z : Z) (acc : str) : str :=
  match fuel with
  | O => acc
  | S f =>
      let acc' := digit_char (z mod 10) :: acc in
      if z / 10 =? 0 then acc' else nat_digits f (z / 10) acc'
  end.

(** Decimal digits of a non-negative integer. *)
Definition Z_to_str (z : Z) : str :=
  nat_digits (S (Z.to_nat (Z.log2 z))) z [].

Definition pow10 (e : Z) : Q := (10 ^ e)%Q.

(** The decimal exponent of a positive rational, the [n] with
    [10^(n-1) <= q < 10^n], searched from [n]. *)
Fixpoint decade_search (fuel : nat) (n : Z) (q : Q) : Z :=
  match fuel with
  | O => n
  | S f =>
      if Qltb q (pow10 (n - 1)) then decade_search f (n - 1) q
      else if Qle_bool (pow10 n) q then decade_search f (n + 1) q
      else n
  end.

Definition decade (q : Q) : Z :=
  decade_search 700 (binade q * 1233 / 4096) q.

(** The decimal of [k] significant digits, at the decimal exponent [n],
    that rounds to the double [q]: the nearer one of the two around
    [q] if both do, the one with the even last digit if they are
    equally near. *)
Definition digits_for (q : Q) (n k : Z) : option Q :=
  let scale := pow10 (n - k) in
  let t := (q / scale)%Q in
  let lo := Qfloor t in
  let below := (inject_Z lo * scale)%Q in
  let above := (inject_Z (lo + 1) * scale)%Q in
  let r := (t - inject_Z lo)%Q in
  let below_first :=
    if Qltb r (1 # 2) then true
    else if Qltb (1 # 2) r then false
    else Z.even lo in
  let '(v1, v2) := if below_first then (below, above) else (above, below) in
  if Qeq_bool (rnd v1) q then Some v1
  else if Qeq_bool (rnd v2) q then Some v2
  else None.

Fixpoint shortest_from (fuel : nat) (k : Z) (q : Q) (n : Z) : option Q :=
  match fuel with
  | O => None
  | S f =>
      match digits_for q n k with
      | Some v => Some v
      | None => shortest_from f (k + 1) q n
      end
  end.

(** The decimal with the fewest significant digits that rounds to the
    positive double [q]; for a rational that is no double, which no
    operation gives, the nearest decimal of 17 digits. *)
Definition shortest (q : Q) : Q :=
  let n := decade q in
  match shortest_from 17 1 q n with
  | Some v => v
  | None =>
      (inject_Z (nearest_even (q / pow10 (n - 17))) * pow10 (n - 17))%Q
  end.

(** The significant digits of a positive decimal [v] with the decimal
    exponent [n], as an integer, and their number. *)
Fixpoint significant (fuel : nat) (k : Z) (v : Q) (n : Z) : Z * Z :=
  let t := (v / pow10 (n - k))%Q in
  match fuel with
  | O => (Qfloor t, k)
  | S f =>
      if Qeq_bool t (inject_Z (Qfloor t)) then (Qfloor t, k)
      else significant f (k + 1) v n
  end.

(** The text of a positive decimal: plain digits up to [10^21], a
    leading [0.] down to [10^-6], and the exponent notation beyond. *)
Definition format_decimal (v : Q) : str :=
  let n := decade v in
  let '(s, k) := significant 20 1 v n in
  let digits := Z_to_str s in
  if (k <=? n) && (n <=? 21) then
    digits ++ repeat "0"%char (Z.to_nat (n - k))
  else if (0 <? n) && (n <=? 21) then
    firstn (Z.to_nat n) digits ++ "."%char :: skipn (Z.to_nat n) digits
  else if (-6 <? n) && (n <=? 0) then
    "0"%char :: "."%char :: repeat "0"%char (Z.to_nat (- n)) ++ digits
  else
    let e := n - 1 in
    (match digits with
     | d :: (_ :: _) as r => d :: "."%char :: r
     | _ => digits
     end) ++
    "e"%char :: (if e <? 0 then "-"%char else "+"%char) :: Z_to_str (Z.abs e).

(** [Number::toString]. *)
Definition number_to_string (n : num) : str :=
  match n with
  | NaN => lit "NaN"
  | Inf false => lit "Infinity"
  | Inf true => lit "-Infinity"
  | Fin q =>
      if Qeq_bool q 0 then lit "0"
      else (if Qltb q 0 then lit "-" else []) ++
           format_decimal (shortest (Qabs q))
  end.

Definition nat_to_string (n : nat) : str := Z_to_str (Z.of_nat n).

Definition hex_digit_of (c : ascii) : option Z :=
  let n := code c in
  if ((48 <=? n) && (n <=? 57))%N then Some (Z.of_N n - 48)
  else if ((97 <=? n) && (n <=? 102))%N then Some (Z.of_N n - 87)
  else if ((65 <=? n) && (n <=? 70))%N then Some (Z.of_N n - 55)
  else None.

(** The value of the longest run of digits of the radix at the head of
    a string, if there is a digit. *)
Fixpoint take_int (digit : ascii -> option Z) (radix : Z) (s : str)
    (acc : option Z) : option Z :=
  match s with
  | c :: r =>
      match digit c with
      | Some d =>
          take_int digit radix r
            (Some (match acc with Some a => a * radix + d | None => d end))
      | None => acc
      end
  | [] => acc
  end.

(** The global [parseInt] on a string, without a radix: leading white
    space, a sign, the prefix [0x] or [0X] for radix 16, then the digits;
    [NaN] when there is no digit. *)
Definition parseInt (s : str) : num :=
  let s := trimStart s in
  let '(negative, s) :=
    match s with
    | "-"%char :: r => (true, r)
    | "+"%char :: r => (false, r)
    | _ => (false, s)
    end in
  let z :=
    match s with
    | "0"%char :: x :: r =>
        if (Ascii.eqb x "x" || Ascii.eqb x "X")%char
        then take_int hex_digit_of 16 r None
        else take_int digit_of 10 s None
    | _ => take_int digit_of 10 s None
    end in
  match z with
  | Some z => in_range negative (inject_Z z)
  | None => NaN
  end.

(** [Number.prototype.toFixed] with [f] fractional digits, for numbers
    below [10^21]: the nearest multiple of [10^-f], the larger one of
    two that are equally near, after the sign. *)
Definition to_fixed (f : nat) (n : num) : str :=
  match n with
  | Fin q =>
      let a := Qabs q in
      if Qle_bool (inject_Z (10 ^ 21)) a then number_to_string n
      else
        let m := Qfloor (a * inject_Z (10 ^ Z.of_nat f) + (1 # 2))%Q in
        let digits := Z_to_str m in
        let digits :=
          repeat "0"%char (S f - List.length digits) ++ digits in
        let k := List.length digits in
        (if Qltb q 0 then lit "-" else []) ++
        firstn (k - f) digits ++
        match f with
        | O => []
        | _ => "."%char :: skipn (k - f) digits
        end
  | _ => number_to_string n
  end.

End NumText.

Import NumText.

(** ** Values, objects and exceptions *)

Module JS.

Inductive value :=
| VUndef
| VNull
| VNum (n : num)
| VStr (s : str)
| VArr (items : list str).

(** [ToBoolean]. *)
Definition truthy (v : value) : bool :=
  match v with
  | VUndef | VNull => false
  | VNum NaN => false
  | VNum (Inf _) => true
  | VNum (Fin q) => negb (Qeq_bool q 0)
  | VStr s => match s with [] => false | _ => true end
  | VArr _ => true
  end.

(** [a || b]. *)
Definition or_else (a b : value) : value := if truthy a then a else b.

(** [ToString], as template literals and [join] apply it. *)
Definition to_string (v : value) : str :=
  match v with
  | VUndef => lit "undefined"
  | VNull => lit "null"
  | VNum n => number_to_string n
  | VStr s => s
  | VArr l => join (lit ",") l
  end.

(** [ToNumber]. *)
Definition to_number (v : value) : num :=
  match v with
  | VUndef => NaN
  | VNull => Fin 0
  | VNum n => n
  | VStr s => string_to_number s
  | VArr l => string_to_number (join (lit ",") l)
  end.

(** [v < c] and [v >= c] for a value and a number. *)
Definition lt_num (v : value) (c : num) : bool := Num.ltb (to_number v) c.
Definition le_num (v : value) (c : num) : bool := Num.leb (to_number v) c.
Definition ge_num (v : value) (c : num) : bool := Num.geb (to_number v) c.

(** [v === s] for a value and a string. *)
Definition strict_eq_str (v : value) (s : str) : bool :=
  match v with
  | VStr t => Str.eqb t s
  | _ => false
  end.

(** An object: its own properties in insertion order. *)
Definition obj := list (str * value).

Fixpoint get (k : str) (o : obj) : value :=
  match o with
  | [] => VUndef
  | (k', v) :: r => if Str.eqb k' k then v else get k r
  end.

Fixpoint has (k : str) (o : obj) : bool :=
  match o with
  | [] => false
  | (k', _) :: r => Str.eqb k' k || has k r
  end.

(** [o[k] = v]: an existing property keeps its place. *)
Fixpoint set (k : str) (v : value) (o : obj) : obj :=
  match o with
  | [] => [(k, v)]
  | (k', v') :: r =>
      if Str.eqb k' k then (k, v) :: r else (k', v') :: set k v r
  end.

(** [Object.keys]. *)
Definition keys (o : obj) : list str := map fst o.

Inductive exn :=
| Error (message : str)
| TypeError (message : str).

Inductive result (A : Type) :=
| Ok (a : A)
| Throw (e : exn).

Arguments Ok {A} a.
Arguments Throw {A} e.

Definition bind {A B} (r : result A) (f : A -> result B) : result B :=
  match r with
  | Ok a => f a
  | Throw e => Throw e
  end.

Definition is_ok {A} (r : result A) : bool :=
  match r with Ok _ => true | Throw _ => false end.

(** [a + b]: the concatenation of the texts when one of the two is a
    string or an array, the sum of the numbers otherwise. *)
Definition is_text (v : value) : bool :=
  match v with
  | VStr _ | VArr _ => true
  | _ => false
  end.

Definition add_values (a b : value) : value :=
  if is_text a || is_text b then VStr (to_string a ++ to_string b)
  else VNum (Num.add (to_number a) (to_number b)).

(** [a + b] on data: the sum of two numbers is rounded.  In
    [add_values] the numbers are counters, whose sums are exact. *)
Definition add_values64 (a b : value) : value :=
  if is_text a || is_text b then VStr (to_string a ++ to_string b)
  else VNum (Num.add64 (to_number a) (to_number b)).

(** [o[k]++] on an object whose own properties hold numbers.  A name
    that is not an own property reads as [undefined], or as a function
    of the prototype, and is written as [NaN]; the assignment to
    [__proto__] writes nothing. *)
Definition increment_property (k : str) (o : obj) : obj :=
  if Str.eqb k (lit "__proto__") then o
  else set k (VNum (Num.add (to_number (get k o)) (Fin 1))) o.

(** [SameValueZero], the equality of the elements of a [Set]; arrays
    are compared by identity, and each array of a record is an object
    of its own. *)
Definition same_value_zero (a b : value) : bool :=
  match a, b with
  | VUndef, VUndef | VNull, VNull => true
  | VNum NaN, VNum NaN => true
  | VNum x, VNum y => Num.eqb x y
  | VStr s, VStr t => Str.eqb s t
  | _, _ => false
  end.

(** [new Set(values)]: the values in the order of their first
    occurrence. *)
Fixpoint set_add (v : value) (s : list value) : list value :=
  match s with
  | [] => [v]
  | w :: r => if same_value_zero w v then s else w :: set_add v r
  end.

Definition set_of (values : list value) : list value :=
  fold_left (fun s v => set_add v s) values [].

(** The property names of [Object.prototype]. *)
Definition object_prototype_names : list str :=
  [ lit "constructor"; lit "__defineGetter__"; lit "__defineSetter__";
    lit "hasOwnProperty"; lit "__lookupGetter__"; lit "__lookupSetter__";
    lit "isPrototypeOf"; lit "propertyIsEnumerable"; lit "toString";
    lit "valueOf"; lit "__proto__"; lit "toLocaleString" ].

Definition inherited (k : str) : bool :=
  existsb (Str.eqb k) object_prototype_names.

(** The integer of a property name that is an array index: a canonical
    decimal numeral below [2^32 - 1]. *)
Definition is_digit (c : ascii) : bool :=
  let n := code c in ((48 <=? n) && (n <=? 57))%N.

Definition numeral (k : str) : N :=
  fold_left (fun acc c => (acc * 10 + (code c - 48))%N) k 0%N.

Definition array_index (k : str) : option N :=
  match k with
  | [] => None
  | c :: r =>
      if forallb is_digit k &&
         (negb (Ascii.eqb c "0"%char) || match r with [] => true | _ => false end) &&
         (numeral k <? 4294967295)%N
      then Some (numeral k) else None
  end.

(** The order in which the own properties of an object are enumerated:
    the array indices in ascending order, then the other names in the
    order of their creation. *)
Fixpoint insert_index {A} (i : N) (kv : str * A) (l : list (N * (str * A)))
    : list (N * (str * A)) :=
  match l with
  | [] => [(i, kv)]
  | (j, kv') :: r =>
      if (i <? j)%N then (i, kv) :: l else (j, kv') :: insert_index i kv r
  end.

Fixpoint index_entries {A} (o : list (str * A)) : list (N * (str * A)) :=
  match o with
  | [] => []
  | kv :: r =>
      match array_index (fst kv) with
      | Some i => insert_index i kv (index_entries r)
      | None => index_entries r
      end
  end.

Definition entries {A} (o : list (str * A)) : list (str * A) :=
  map snd (index_entries o) ++
  filter (fun kv => match array_index (fst kv) with
                    | Some _ => false
                    | None => true
                    end) o.

(** [Array.prototype.sort] with a comparator that does not throw: a
    stable sort, here by insertion.  A comparator result that is not
    positive, [NaN] included, leaves the first argument before the
    second. *)
Definition comes_after (n : num) : bool := Num.ltb (Fin 0) n.

Fixpoint array_insert {A} (cmp : A -> A -> num) (x : A) (l : list A)
    : list A :=
  match l with
  | [] => [x]
  | y :: r =>
      if comes_after (cmp x y) then y :: array_insert cmp x r
      else x :: y :: r
  end.

Fixpoint array_sort {A} (cmp : A -> A -> num) (l : list A) : list A :=
  match l with
  | [] => []
  | x :: r => array_insert cmp x (array_sort cmp r)
  end.

(** [a === b]; arrays are compared by identity, and each array of a
    record is an object of its own. *)
Definition strict_eq (a b : value) : bool :=
  match a, b with
  | VUndef, VUndef | VNull, VNull => true
  | VNum x, VNum y => Num.eqb x y
  | VStr s, VStr t => Str.eqb s t
  | _, _ => false
  end.

End JS.

Import JS.

Notation "x <- r ;; k" := (bind r (fun x => k))
  (at level 61, r at next level, right associativity).

(** ** The parser ([js/csvParser.js]) *)

Module CSVParser.

Record t := {
  rawData : list obj;
  parsedData : list obj;
  errors : list str
}.

(** [new CSVParser()]. *)
Definition new : t := {| rawData := []; parsedData := []; errors := [] |}.

Definition quote : ascii := "034"%char.
Definition comma : ascii := ","%char.

(** [parseCSVLine]: the loop over the characters of the line, with
    [current], [inQuotes] and [values] as its variables. *)
Fixpoint parseCSVLine_loop (line : str) (current : str) (inQuotes : bool)
    (values : list str) : list str :=
  match line with
  | [] => values ++ [trim current]
  | char :: rest =>
      if Ascii.eqb char quote then
        match rest with
        | nextChar :: rest' =>
            if inQuotes && Ascii.eqb nextChar quote
            then parseCSVLine_loop rest' (current ++ [quote]) inQuotes values
            else parseCSVLine_loop rest current (negb inQuotes) values
        | [] => parseCSVLine_loop rest current (negb inQuotes) values
        end
      else if Ascii.eqb char comma && negb inQuotes then
        parseCSVLine_loop rest [] inQuotes (values ++ [trim current])
      else parseCSVLine_loop rest (current ++ [char]) inQuotes values
  end.

Definition parseCSVLine (line : str) : list str :=
  parseCSVLine_loop line [] false [].

Definition underscore : ascii := "_"%char.

Definition is_alnum_lower (c : ascii) : bool :=
  let n := code c in
  ((97 <=? n) && (n <=? 122) || (48 <=? n) && (n <=? 57))%N.

(** [.replace(/_+/g, '_')]. *)
Fixpoint collapse_underscores (s : str) : str :=
  match s with
  | a :: r =>
      if Ascii.eqb a underscore then
        match r with
        | b :: _ =>
            if Ascii.eqb b underscore then collapse_underscores r
            else a :: collapse_underscores r
        | [] => [a]
        end
      else a :: collapse_underscores r
  | [] => []
  end.

Definition strip_leading (c : ascii) (s : str) : str :=
  match s with
  | a :: r => if Ascii.eqb a c then r else s
  | [] => []
  end.

Definition strip_trailing (c : ascii) (s : str) : str :=
  rev (strip_leading c (rev s)).

(** [.replace(/^c|c$/g, '')]: one [c] at the start and one at the end. *)
Definition strip_ends (c : ascii) (s : str) : str :=
  strip_trailing c (strip_leading c s).

Definition headerMap : list (str * str) :=
  [ (lit "student_id", lit "studentId");
    (lit "id", lit "studentId");
    (lit "studentid", lit "studentId");
    (lit "name", lit "name");
    (lit "student_name", lit "name");
    (lit "full_name", lit "name");
    (lit "subject", lit "subject");
    (lit "course", lit "subject");
    (lit "marks", lit "marks");
    (lit "score", lit "marks");
    (lit "grade", lit "marks");
    (lit "attendance", lit "attendance");
    (lit "attendance_percentage", lit "attendance");
    (lit "semester", lit "semester");
    (lit "term", lit "semester");
    (lit "assessment_type", lit "assessmentType");
    (lit "assessment", lit "assessmentType");
    (lit "type", lit "assessmentType") ].

Fixpoint lookup (k : str) (m : list (str * str)) : option str :=
  match m with
  | [] => None
  | (k', v) :: r => if Str.eqb k' k then Some v else lookup k r
  end.

(** [headerMap[normalized] || normalized].  The map is an object
    literal, so the one inherited property with a name the
    normalisation can produce, [constructor], is found as well; used as
    a property key it is the text of that function. *)
Definition headerMap_or (normalized : str) : str :=
  match lookup normalized headerMap with
  | Some v => v
  | None =>
      if Str.eqb normalized (lit "constructor")
      then lit "function Object() { [native code] }"
      else normalized
  end.

Definition normalizeHeader (header : str) : str :=
  let normalized :=
    strip_ends underscore
      (collapse_underscores
         (map (fun c => if is_alnum_lower c then c else underscore)
              (toLowerCase (trim header)))) in
  headerMap_or normalized.

(** [cleanValue]. *)
Definition cleanValue (value : str) : JS.value :=
  match value with
  | [] => VNull
  | _ =>
      match trim value with
      | [] => VNull
      | _ =>
          let value := strip_ends quote value in
          let numValue := parseFloat value in
          if negb (isNaN numValue) && isFinite numValue
          then VNum numValue
          else VStr (trim value)
      end
  end.

(** [parseFloat(v)] on a cell value: a number is printed and read back,
    which gives the number itself. *)
Definition parseFloat_value (v : value) : num :=
  match v with
  | VNum n => n
  | _ => parseFloat (to_string v)
  end.

(** The normalisation of [row.marks] and [row.attendance]. *)
Definition normalizeScore (v : value) : value :=
  match v with
  | VNull | VUndef => VNum (Fin 0)
  | _ =>
      let x := parseFloat_value v in
      let x := if isNaN x then Fin 0 else x in
      VNum (Num.max (Fin 0) (Num.min (Fin 100) x))
  end.

Definition row_prefix (rowNumber : nat) : str :=
  lit "Row " ++ nat_to_string rowNumber ++ lit ": ".

(** [if (!row[k]) { row[k] = v; }], where [v] may read the row. *)
Definition set_if_missing (k : str) (v : obj -> value) (row : obj) : obj :=
  if negb (truthy (get k row)) then set k (v row) row else row.

(** The text of [row.rowId], with [Date.now()] read for that row. *)
Definition rowId_of (now : nat -> N) (rowNumber : nat) (row : obj) : str :=
  to_string (get (lit "studentId") row) ++ lit "-" ++
  to_string (get (lit "subject") row) ++ lit "-" ++
  to_string (get (lit "semester") row) ++ lit "-" ++
  Z_to_str (Z.of_N (now rowNumber)).

Section WithClock.

(** [Date.now()], as read while the row with the given number is
    validated. *)
Variable now : nat -> N.

(** [validateAndTransformRow]; the error list of the parser is passed
    through. *)
Definition validateAndTransformRow (row : obj) (rowNumber : nat)
    (errs : list str) : option obj * list str :=
  if negb (truthy (get (lit "studentId") row)) &&
     negb (truthy (get (lit "name") row))
  then (None, errs ++ [row_prefix rowNumber ++ lit "Missing student ID or name"])
  else
    let row :=
      set_if_missing (lit "studentId")
        (fun _ => VStr (lit "STU-" ++ nat_to_string rowNumber)) row in
    let row :=
      set_if_missing (lit "name")
        (fun row =>
           VStr (lit "Student " ++ to_string (get (lit "studentId") row)))
        row in
    let row := set (lit "marks") (normalizeScore (get (lit "marks") row)) row in
    let row :=
      set (lit "attendance") (normalizeScore (get (lit "attendance") row)) row in
    let row :=
      set_if_missing (lit "subject") (fun _ => VStr (lit "General")) row in
    let row := set_if_missing (lit "semester") (fun _ => VStr (lit "1")) row in
    let row :=
      set_if_missing (lit "assessmentType") (fun _ => VStr (lit "Exam")) row in
    let row := set (lit "rowId") (VStr (rowId_of now rowNumber row)) row in
    (Some row, errs).

(** The object built from the header names and the cells of one line. *)
Definition build_row (headers values : list str) : obj :=
  fold_left (fun row hv => set (fst hv) (cleanValue (snd hv)) row)
            (combine headers values) [].

(** One iteration of the loop over the data lines: [i] is the index of
    the line, [acc] holds [data] and [this.errors].  No call in the
    [try] block throws, so the [catch] branch is never entered. *)
Definition parse_row (normalizedHeaders : list str) (i : nat) (line : str)
    (acc : list obj * list str) : list obj * list str :=
  let '(data, errs) := acc in
  let values := parseCSVLine line in
  if negb (List.length values =? List.length normalizedHeaders)%nat
  then (data, errs ++ [row_prefix (i + 1) ++ lit "Column count mismatch"])
  else
    let row := build_row normalizedHeaders values in
    match validateAndTransformRow row (i + 1) errs with
    | (Some validatedRow, errs') => (data ++ [validatedRow], errs')
    | (None, errs') => (data, errs')
    end.

Fixpoint parse_rows (normalizedHeaders : list str) (i : nat)
    (lines : list str) (acc : list obj * list str) : list obj * list str :=
  match lines with
  | [] => acc
  | line :: rest =>
      parse_rows normalizedHeaders (S i) rest
                 (parse_row normalizedHeaders i line acc)
  end.

(** [csv.split('\n').filter(line => line.trim())]. *)
Definition nonblank_lines (csv : str) : list str :=
  filter (fun line => match trim line with [] => false | _ => true end)
         (split_on "010"%char csv).

(** [parseCSV]: the result or the exception, and the parser afterwards. *)
Definition parseCSV (csv : str) (this : t) : result (list obj) * t :=
  let lines := nonblank_lines csv in
  match lines with
  | [] | [_] =>
      (Throw (Error (lit "CSV must have at least a header row and one data row")),
       this)
  | header :: rows =>
      let headers := parseCSVLine header in
      let normalizedHeaders := map normalizeHeader headers in
      let '(data, errs) := parse_rows normalizedHeaders 1 rows ([], []) in
      let this' := {| rawData := rawData this;
                      parsedData := parsedData this;
                      errors := errs |} in
      match errs, data with
      | _ :: _, [] =>
          (Throw (Error (lit "Failed to parse CSV: " ++ join (lit "; ") errs)),
           this')
      | _, _ => (Ok data, this')
      end
  end.

(** [getErrors]. *)
Definition getErrors (this : t) : list str := errors this.

End WithClock.

End CSVParser.

(** ** The risk engine ([js/riskDetection.js]) *)

Module RiskDetectionEngine.

Record rule := {
  name : str;
  weight : Q;
  check : obj -> bool
}.

(** [student.marks || 0] and [student.attendance || 0]. *)
Definition marks_or_0 (student : obj) : value :=
  or_else (get (lit "marks") student) (VNum (Fin 0)).
Definition attendance_or_0 (student : obj) : value :=
  or_else (get (lit "attendance") student) (VNum (Fin 0)).

(** [this.rules], as the constructor fills it. *)
Definition rules : list rule :=
  [ {| name := lit "Low Score"; weight := 4 # 10;
       check := fun student => lt_num (marks_or_0 student) (Fin 40) |};
    {| name := lit "Very Low Score"; weight := 6 # 10;
       check := fun student => lt_num (marks_or_0 student) (Fin 30) |};
    {| name := lit "Low Attendance"; weight := 3 # 10;
       check := fun student => lt_num (attendance_or_0 student) (Fin 60) |};
    {| name := lit "Very Low Attendance"; weight := 5 # 10;
       check := fun student => lt_num (attendance_or_0 student) (Fin 50) |};
    {| name := lit "Combined Risk"; weight := 7 # 10;
       check := fun student =>
         lt_num (marks_or_0 student) (Fin 50) &&
         lt_num (attendance_or_0 student) (Fin 70) |};
    {| name := lit "Critical Risk"; weight := 9 # 10;
       check := fun student =>
         lt_num (marks_or_0 student) (Fin 35) &&
         lt_num (attendance_or_0 student) (Fin 60) |} ].

(** The sum the [forEach] of [calculateRiskScore] accumulates. *)
Definition rule_sum (rs : list rule) (student : obj) (start : Q) : Q :=
  fold_left
    (fun riskScore r =>
       if check r student then (riskScore + weight r)%Q else riskScore)
    rs start.

(** [calculateRiskScore]: the raw score, between 0 and 1. *)
Definition calculateRiskScore (student : obj) : Q :=
  Qmin 1 (rule_sum rules student 0).

(** [getRiskLevel]. *)
Definition getRiskLevel (riskScore : Q) : str :=
  if Qle_bool (7 # 10) riskScore then lit "high"
  else if Qle_bool (4 # 10) riskScore then lit "medium"
  else if Qle_bool (2 # 10) riskScore then lit "low"
  else lit "none".

(** [getRiskFactors]. *)
Definition getRiskFactors (student : obj) : list str :=
  let marks := marks_or_0 student in
  let attendance := attendance_or_0 student in
  (if lt_num marks (Fin 30) then [lit "Very low score (<30%)"]
   else if lt_num marks (Fin 40) then [lit "Low score (<40%)"]
   else if lt_num marks (Fin 50) then [lit "Below passing threshold"]
   else []) ++
  (if lt_num attendance (Fin 50) then [lit "Very low attendance (<50%)"]
   else if lt_num attendance (Fin 60) then [lit "Low attendance (<60%)"]
   else if lt_num attendance (Fin 70) then [lit "Below recommended attendance"]
   else []) ++
  (if lt_num marks (Fin 50) && lt_num attendance (Fin 70)
   then [lit "Combined low performance"] else []).

Record assessment := {
  riskScore : num;
  riskLevel : str;
  factors : list str
}.

(** [assessStudent]. *)
Definition assessStudent (student : obj) : assessment :=
  let riskScore := calculateRiskScore student in
  let riskLevel := getRiskLevel riskScore in
  {| riskScore := Num.round (Fin (riskScore * 100));
     riskLevel := riskLevel;
     factors := getRiskFactors student |}.

(** The object literal of [assessAllStudents]: the spread of the
    student followed by the three risk properties. *)
Definition with_assessment (student : obj) : obj :=
  let assessment := assessStudent student in
  set (lit "riskFactors") (VArr (factors assessment))
    (set (lit "riskLevel") (VStr (riskLevel assessment))
       (set (lit "riskScore") (VNum (riskScore assessment)) student)).

(** [assessAllStudents]. *)
Definition assessAllStudents (students : list obj) : list obj :=
  map with_assessment students.

(** [s.riskLevel === level]. *)
Definition has_level (level : string) (s : obj) : bool :=
  strict_eq_str (get (lit "riskLevel") s) (lit level).

(** [getAtRiskCount]. *)
Definition getAtRiskCount (students : list obj) : nat :=
  List.length
    (filter (fun s => has_level "high" s || has_level "medium" s) students).

(** The comparator [(a, b) => b.riskScore - a.riskScore]. *)
Definition by_riskScore (a b : obj) : num :=
  Num.sub (to_number (get (lit "riskScore") b))
          (to_number (get (lit "riskScore") a)).

(** [getHighRiskStudents]. *)
Definition getHighRiskStudents (students : list obj) : list obj :=
  array_sort by_riskScore (filter (has_level "high") students).

(** [getMediumRiskStudents]. *)
Definition getMediumRiskStudents (students : list obj) : list obj :=
  array_sort by_riskScore (filter (has_level "medium") students).

(** [generateRiskSummary]. *)
Definition generateRiskSummary (students : list obj) : obj :=
  let summary :=
    [ (lit "total", VNum (of_nat (List.length students)));
      (lit "high", VNum (Fin 0));
      (lit "medium", VNum (Fin 0));
      (lit "low", VNum (Fin 0));
      (lit "none", VNum (Fin 0));
      (lit "atRiskTotal", VNum (Fin 0)) ] in
  let summary :=
    fold_left
      (fun summary student =>
         increment_property (to_string (get (lit "riskLevel") student))
                            summary)
      students summary in
  set (lit "atRiskTotal")
      (add_values (get (lit "high") summary) (get (lit "medium") summary))
      summary.

End RiskDetectionEngine.

(** ** Helpers of the utility file *)

Module Utils.

(** [calculatePercentage]: the quotient is rounded, and so is its
    product with 100.  The callers pass the lengths of two arrays, the
    first at most the second, so that the result is far from the end
    of the range of the doubles. *)
Definition calculatePercentage (part total : Q) : Q :=
  if Qeq_bool total 0 then 0 else rnd (rnd (part / total) * 100)%Q.

(** [result[groupKey].push(item)] for a group that exists. *)
Fixpoint push_item {A} (k : str) (item : A) (groups : list (str * list A))
    : list (str * list A) :=
  match groups with
  | [] => []
  | (k', items) :: r =>
      if Str.eqb k' k then (k', items ++ [item]) :: r
      else (k', items) :: push_item k item r
  end.

Definition own {A} (k : str) (o : list (str * A)) : bool :=
  existsb (fun kv => Str.eqb (fst kv) k) o.

(** One step of the reduction of [groupBy].  The group key is the
    property name of [item[key]].  A name of [Object.prototype] that is
    not an own property reads as truthy, so that no group is created
    for it, and has no [push]. *)
Definition group_step (key : str) (result : list (str * list obj))
    (item : obj) : JS.result (list (str * list obj)) :=
  let groupKey := to_string (get key item) in
  if own groupKey result then Ok (push_item groupKey item result)
  else if inherited groupKey
  then Throw (TypeError (lit "result[groupKey].push is not a function"))
  else Ok (result ++ [(groupKey, [item])]).

(** [groupBy], for a [key] that the records have as an own property or
    not at all; the groups are listed in the order of their creation. *)
Definition groupBy (array : list obj) (key : str)
    : JS.result (list (str * list obj)) :=
  fold_left (fun acc item => result <- acc ;; group_step key result item)
            array (Ok []).

End Utils.

(** ** The analytics engine ([js/analytics.js]) *)

Module AnalyticsEngine.

Definition count (n : nat) : Q := inject_Z (Z.of_nat n).

(** [getPassRate] over [this.data]. *)
Definition getPassRate (data : list obj) : Q :=
  match data with
  | [] => 0
  | _ =>
      let passingThreshold := Fin 50 in
      let passed :=
        List.length
          (filter (fun d => ge_num (RiskDetectionEngine.marks_or_0 d)
                                   passingThreshold) data) in
      Utils.calculatePercentage (count passed) (count (List.length data))
  end.

(** [getFailRate]. *)
Definition getFailRate (data : list obj) : Q := rnd (100 - getPassRate data)%Q.

(** The band a score is counted in by [getScoreDistribution]. *)
Definition score_band (score : value) : str :=
  if le_num score (Fin 20) then lit "0-20"
  else if le_num score (Fin 40) then lit "21-40"
  else if le_num score (Fin 60) then lit "41-60"
  else if le_num score (Fin 80) then lit "61-80"
  else lit "81-100".

(** [ranges[k]++] on an object of counters. *)
Fixpoint increment (k : str) (ranges : list (str * nat)) : list (str * nat) :=
  match ranges with
  | [] => []
  | (k', n) :: r =>
      if Str.eqb k' k then (k', S n) :: r else (k', n) :: increment k r
  end.

Fixpoint counter (k : str) (ranges : list (str * nat)) : nat :=
  match ranges with
  | [] => 0%nat
  | (k', n) :: r => if Str.eqb k' k then n else counter k r
  end.

Definition score_ranges : list (str * nat) :=
  [ (lit "0-20", 0%nat); (lit "21-40", 0%nat); (lit "41-60", 0%nat);
    (lit "61-80", 0%nat); (lit "81-100", 0%nat) ].

(** [getScoreDistribution] over [this.data]. *)
Definition getScoreDistribution (data : list obj) : list (str * nat) :=
  fold_left
    (fun ranges d =>
       increment (score_band (RiskDetectionEngine.marks_or_0 d)) ranges)
    data score_ranges.

(** The fields of the metrics object that the properties below refer
    to. *)
Record metrics := {
  totalStudents : nat;
  passRate : Q;
  failRate : Q;
  scoreDistribution : list (str * nat)
}.

(** [getEmptyMetrics]. *)
Definition getEmptyMetrics : metrics :=
  {| totalStudents := 0; passRate := 0; failRate := 0;
     scoreDistribution := [] |}.

(** [calculateMetrics], as run by [setData]. *)
Definition calculateMetrics (data : list obj) : metrics :=
  match data with
  | [] => getEmptyMetrics
  | _ =>
      {| totalStudents := List.length data;
         passRate := getPassRate data;
         failRate := getFailRate data;
         scoreDistribution := getScoreDistribution data |}
  end.

(** [getTotalStudents]. *)
Definition getTotalStudents (data : list obj) : nat := List.length data.

(** [getUniqueStudents]. *)
Definition getUniqueStudents (data : list obj) : nat :=
  List.length (set_of (map (get (lit "studentId")) data)).

(** [values.reduce((a, b) => a + b, 0) / values.length]. *)
Definition average (values : list value) : num :=
  Num.div64 (to_number (fold_left add_values64 values (VNum (Fin 0))))
            (of_nat (List.length values)).

(** [getAverageScore] and [getAverageAttendance]. *)
Definition getAverageScore (data : list obj) : num :=
  match data with
  | [] => Fin 0
  | _ =>
      let sum :=
        fold_left
          (fun acc d => add_values64 acc (RiskDetectionEngine.marks_or_0 d))
          data (VNum (Fin 0)) in
      Num.div64 (to_number sum) (of_nat (List.length data))
  end.

Definition getAverageAttendance (data : list obj) : num :=
  match data with
  | [] => Fin 0
  | _ =>
      let sum :=
        fold_left
          (fun acc d =>
             add_values64 acc (RiskDetectionEngine.attendance_or_0 d))
          data (VNum (Fin 0)) in
      Num.div64 (to_number sum) (of_nat (List.length data))
  end.

(** The band an attendance is counted in by
    [getAttendanceDistribution]. *)
Definition attendance_band (attendance : value) : str :=
  if le_num attendance (Fin 50) then lit "0-50"
  else if le_num attendance (Fin 70) then lit "51-70"
  else if le_num attendance (Fin 85) then lit "71-85"
  else lit "86-100".

Definition attendance_ranges : list (str * nat) :=
  [ (lit "0-50", 0%nat); (lit "51-70", 0%nat); (lit "71-85", 0%nat);
    (lit "86-100", 0%nat) ].

(** [getAttendanceDistribution]. *)
Definition getAttendanceDistribution (data : list obj) : list (str * nat) :=
  fold_left
    (fun ranges d =>
       increment (attendance_band (RiskDetectionEngine.attendance_or_0 d))
                 ranges)
    data attendance_ranges.

(** [Math.max(...values)] and [Math.min(...values)]. *)
Definition max_of (values : list value) : num :=
  fold_left (fun m v => Num.max m (to_number v)) values (Inf true).

Definition min_of (values : list value) : num :=
  fold_left (fun m v => Num.min m (to_number v)) values (Inf false).

(** The statistics of one subject. *)
Module SubjectStats.
Record t := {
  count : nat;
  averageScore : num;
  averageAttendance : num;
  maxScore : num;
  minScore : num;
  passRate : Q
}.
End SubjectStats.

Definition subject_stats (subjectData : list obj) : SubjectStats.t :=
  let scores := map RiskDetectionEngine.marks_or_0 subjectData in
  let attendances := map RiskDetectionEngine.attendance_or_0 subjectData in
  {| SubjectStats.count := List.length subjectData;
     SubjectStats.averageScore := average scores;
     SubjectStats.averageAttendance := average attendances;
     SubjectStats.maxScore := max_of scores;
     SubjectStats.minScore := min_of scores;
     SubjectStats.passRate :=
       Utils.calculatePercentage
         (count (List.length (filter (fun s => ge_num s (Fin 50)) scores)))
         (count (List.length scores)) |}.

(** [getSubjectStats]: the statistics of the groups, in the order in
    which the subjects are enumerated. *)
Definition getSubjectStats (data : list obj)
    : result (list (str * SubjectStats.t)) :=
  grouped <- Utils.groupBy data (lit "subject") ;;
  Ok (map (fun g => (fst g, subject_stats (snd g))) (entries grouped)).

(** The statistics of one semester. *)
Module SemesterStats.
Record t := {
  count : nat;
  averageScore : num;
  averageAttendance : num;
  uniqueStudents : nat
}.
End SemesterStats.

Definition semester_stats (semesterData : list obj) : SemesterStats.t :=
  let scores := map RiskDetectionEngine.marks_or_0 semesterData in
  let attendances := map RiskDetectionEngine.attendance_or_0 semesterData in
  {| SemesterStats.count := List.length semesterData;
     SemesterStats.averageScore := average scores;
     SemesterStats.averageAttendance := average attendances;
     SemesterStats.uniqueStudents := getUniqueStudents semesterData |}.

(** [getSemesterStats]. *)
Definition getSemesterStats (data : list obj)
    : result (list (str * SemesterStats.t)) :=
  grouped <- Utils.groupBy data (lit "semester") ;;
  Ok (map (fun g => (fst g, semester_stats (snd g))) (entries grouped)).

(** The entries of [studentAverages] and the objects made of them. *)
Module StudentAverages.
Record t := {
  studentId : value;
  name : value;
  scores : list value;
  attendances : list value
}.
End StudentAverages.

Module Performer.
Record t := {
  studentId : value;
  name : value;
  averageScore : num;
  averageAttendance : num
}.
End Performer.

(** The two [push] calls on the entry of a student. *)
Fixpoint push_scores (k : str) (d : obj)
    (studentAverages : list (str * StudentAverages.t))
    : list (str * StudentAverages.t) :=
  match studentAverages with
  | [] => []
  | (k', s) :: r =>
      if Str.eqb k' k then
        (k', {| StudentAverages.studentId := StudentAverages.studentId s;
                StudentAverages.name := StudentAverages.name s;
                StudentAverages.scores :=
                  StudentAverages.scores s ++ [RiskDetectionEngine.marks_or_0 d];
                StudentAverages.attendances :=
                  StudentAverages.attendances s ++
                  [RiskDetectionEngine.attendance_or_0 d] |}) :: r
      else (k', s) :: push_scores k d r
  end.

(** One round of the [forEach] that fills [studentAverages].  For an
    identifier that names a property of [Object.prototype] no entry is
    created, and the [push] on its missing [scores] throws. *)
Definition averages_step (studentAverages : list (str * StudentAverages.t))
    (d : obj) : result (list (str * StudentAverages.t)) :=
  let k := to_string (get (lit "studentId") d) in
  if Utils.own k studentAverages then Ok (push_scores k d studentAverages)
  else if inherited k
  then Throw (TypeError
                (lit "Cannot read properties of undefined (reading 'push')"))
  else Ok (studentAverages ++
           [(k, {| StudentAverages.studentId := get (lit "studentId") d;
                   StudentAverages.name := get (lit "name") d;
                   StudentAverages.scores := [RiskDetectionEngine.marks_or_0 d];
                   StudentAverages.attendances :=
                     [RiskDetectionEngine.attendance_or_0 d] |})]).

Definition student_averages (data : list obj)
    : result (list (str * StudentAverages.t)) :=
  fold_left (fun acc d => studentAverages <- acc ;;
                          averages_step studentAverages d)
            data (Ok []).

(** The local [students]: one object for each student, in the order of
    [Object.values]. *)
Definition performer_of (student : StudentAverages.t) : Performer.t :=
  {| Performer.studentId := StudentAverages.studentId student;
     Performer.name := StudentAverages.name student;
     Performer.averageScore := average (StudentAverages.scores student);
     Performer.averageAttendance :=
       average (StudentAverages.attendances student) |}.

Definition performers (data : list obj) : result (list Performer.t) :=
  studentAverages <- student_averages data ;;
  Ok (map (fun kv => performer_of (snd kv)) (entries studentAverages)).

(** [getTopPerformers] and [getBottomPerformers], for a limit that is a
    natural number. *)
Definition getTopPerformers (limit : nat) (data : list obj)
    : result (list Performer.t) :=
  students <- performers data ;;
  Ok (firstn limit
        (array_sort
           (fun a b => Num.sub64 (Performer.averageScore b)
                                 (Performer.averageScore a))
           students)).

Definition getBottomPerformers (limit : nat) (data : list obj)
    : result (list Performer.t) :=
  students <- performers data ;;
  Ok (firstn limit
        (array_sort
           (fun a b => Num.sub64 (Performer.averageScore a)
                                 (Performer.averageScore b))
           students)).

(** [parseInt(d.semester) || 0]. *)
Definition semester_of (d : obj) : num :=
  to_number
    (or_else (VNum (parseInt (to_string (get (lit "semester") d))))
             (VNum (Fin 0))).

(** The object [getStudentTrend] returns. *)
Module Trend.
Record t := {
  trend : str;
  change : value
}.
End Trend.

(** The local [studentData] of [getStudentTrend]. *)
Definition student_data (data : list obj) (studentId : value) : list obj :=
  array_sort (fun a b => Num.sub (semester_of a) (semester_of b))
             (filter (fun d => strict_eq (get (lit "studentId") d) studentId)
                     data).

(** [getStudentTrend]. *)
Definition getStudentTrend (data : list obj) (studentId : value) : Trend.t :=
  let studentData := student_data data studentId in
  match studentData with
  | [] | [_] => {| Trend.trend := lit "stable"; Trend.change := VNum (Fin 0) |}
  | first :: _ =>
      let firstScore := RiskDetectionEngine.marks_or_0 first in
      let lastScore :=
        RiskDetectionEngine.marks_or_0 (last studentData first) in
      let change := Num.sub64 (to_number lastScore) (to_number firstScore) in
      let trend :=
        if Num.ltb (Fin 5) change then lit "up"
        else if Num.ltb change (Fin (-5)) then lit "down"
        else lit "stable" in
      {| Trend.trend := trend; Trend.change := VStr (to_fixed 1 change) |}
  end.

End AnalyticsEngine.

(** ** The filter and sort engine ([js/filters.js]) *)

Module FilterEngine.

Record filters := {
  search : str;
  subject : str;
  semester : str;
  riskLevel : str
}.

Record sort := {
  key : str;
  direction : option str
}.

Record t := {
  originalData : list obj;
  filteredData : list obj;
  currentFilters : filters;
  currentSort : sort
}.

Definition default_filters : filters :=
  {| search := []; subject := []; semester := []; riskLevel := [] |}.

Definition default_sort : sort :=
  {| key := lit "name"; direction := Some (lit "asc") |}.

(** [new FilterEngine()]. *)
Definition new : t :=
  {| originalData := []; filteredData := [];
     currentFilters := default_filters; currentSort := default_sort |}.

Definition not_a_function (method : string) : exn :=
  TypeError (lit method ++ lit " is not a function").

(** [v.toLowerCase()] on a value that is neither [null] nor
    [undefined]: only strings have the method. *)
Definition toLowerCase_of (v : value) : result str :=
  match v with
  | VStr s => Ok (toLowerCase s)
  | _ => Throw (not_a_function "toLowerCase")
  end.

(** [v && v.toLowerCase().includes(searchLower)], as a condition. *)
Definition field_includes (v : value) (searchLower : str) : result bool :=
  if truthy v
  then s <- toLowerCase_of v ;; Ok (includes s searchLower)
  else Ok false.

(** The callback of the search filter. *)
Definition search_matches (searchLower : str) (item : obj) : result bool :=
  b <- field_includes (get (lit "name") item) searchLower ;;
  if b : bool then Ok true else
  b <- field_includes (get (lit "studentId") item) searchLower ;;
  if b : bool then Ok true else
  field_includes (get (lit "subject") item) searchLower.

(** [Array.prototype.filter] with a callback that may throw. *)
Fixpoint filterM {A} (p : A -> result bool) (l : list A) : result (list A) :=
  match l with
  | [] => Ok []
  | x :: r =>
      b <- p x ;;
      r' <- filterM p r ;;
      Ok (if b : bool then x :: r' else r')
  end.

Definition nonempty (s : str) : bool :=
  match s with [] => false | _ => true end.

Section WithLocale.

(** [String.prototype.localeCompare] of the host. *)
Variable localeCompare : str -> str -> Z.

(** The comparator of [sortData]. *)
Definition compare_by (s : sort) (a b : obj) : result num :=
  let k := key s in
  let asc :=
    match direction s with
    | Some d => Str.eqb d (lit "asc")
    | None => false
    end in
  vals <-
    (if Str.eqb k (lit "name") then
       aVal <- toLowerCase_of (or_else (get (lit "name") a) (VStr [])) ;;
       bVal <- toLowerCase_of (or_else (get (lit "name") b) (VStr [])) ;;
       Ok (VStr aVal, VStr bVal)
     else if Str.eqb k (lit "score") then
       Ok (or_else (get (lit "marks") a) (VNum (Fin 0)),
           or_else (get (lit "marks") b) (VNum (Fin 0)))
     else if Str.eqb k (lit "attendance") then
       Ok (or_else (get (lit "attendance") a) (VNum (Fin 0)),
           or_else (get (lit "attendance") b) (VNum (Fin 0)))
     else
       Ok (or_else (get k a) (VStr []), or_else (get k b) (VStr []))) ;;
  let '(aVal, bVal) := vals in
  match aVal with
  | VStr x =>
      if asc then Ok (of_Z (localeCompare x (to_string bVal)))
      else match bVal with
           | VStr y => Ok (of_Z (localeCompare y x))
           | _ => Throw (not_a_function "localeCompare")
           end
  | _ =>
      if asc then Ok (Num.sub (to_number aVal) (to_number bVal))
      else Ok (Num.sub (to_number bVal) (to_number aVal))
  end.

(** Whether a comparator result places the first argument after the
    second ([NaN] counts as zero). *)
Definition positive (n : num) : bool := Num.ltb (Fin 0) n.

(** [Array.prototype.sort]: a stable sort, here by insertion; a throw
    of the comparator ends it.  (In which order an engine passes the
    elements to the comparator is its own affair; nothing below depends
    on it.) *)
Fixpoint insert_sorted (cmp : obj -> obj -> result num) (x : obj)
    (l : list obj) : result (list obj) :=
  match l with
  | [] => Ok [x]
  | y :: r =>
      c <- cmp x y ;;
      if positive c
      then r' <- insert_sorted cmp x r ;; Ok (y :: r')
      else Ok (x :: y :: r)
  end.

Fixpoint sort_with (cmp : obj -> obj -> result num) (l : list obj)
    : result (list obj) :=
  match l with
  | [] => Ok []
  | x :: r => r' <- sort_with cmp r ;; insert_sorted cmp x r'
  end.

(** [sortData]. *)
Definition sortData (this : t) (data : list obj) : result (list obj) :=
  sort_with (compare_by (currentSort this)) data.

(** The value [applyFilters] assigns to [this.filteredData]. *)
Definition filtered_view (this : t) : result (list obj) :=
  let f := currentFilters this in
  let filtered := originalData this in
  filtered <-
    (if nonempty (search f)
     then filterM (search_matches (search f)) filtered
     else Ok filtered) ;;
  let filtered :=
    if nonempty (subject f)
    then filter (fun item => strict_eq_str (get (lit "subject") item) (subject f))
                filtered
    else filtered in
  let filtered :=
    if nonempty (semester f)
    then filter (fun item => strict_eq_str (get (lit "semester") item) (semester f))
                filtered
    else filtered in
  let filtered :=
    if nonempty (riskLevel f)
    then filter (fun item => strict_eq_str (get (lit "riskLevel") item) (riskLevel f))
                filtered
    else filtered in
  sortData this filtered.

(** [applyFilters]: when it throws, [this.filteredData] keeps its
    value. *)
Definition applyFilters (this : t) : result unit * t :=
  match filtered_view this with
  | Ok filtered =>
      (Ok tt,
       {| originalData := originalData this; filteredData := filtered;
          currentFilters := currentFilters this;
          currentSort := currentSort this |})
  | Throw e => (Throw e, this)
  end.

Definition with_filters (this : t) (f : filters) : t :=
  {| originalData := originalData this; filteredData := filteredData this;
     currentFilters := f; currentSort := currentSort this |}.

Definition with_sort (this : t) (s : sort) : t :=
  {| originalData := originalData this; filteredData := filteredData this;
     currentFilters := currentFilters this; currentSort := s |}.

(** [setData]. *)
Definition setData (data : list obj) (this : t) : result unit * t :=
  applyFilters
    {| originalData := data; filteredData := filteredData this;
       currentFilters := currentFilters this;
       currentSort := currentSort this |}.

(** [setSearch]. *)
Definition setSearch (query : str) (this : t) : result unit * t :=
  let f := currentFilters this in
  applyFilters
    (with_filters this
       {| search := trim (toLowerCase query); subject := subject f;
          semester := semester f; riskLevel := riskLevel f |}).

(** [setSubjectFilter]. *)
Definition setSubjectFilter (v : str) (this : t) : result unit * t :=
  let f := currentFilters this in
  applyFilters
    (with_filters this
       {| search := search f; subject := v;
          semester := semester f; riskLevel := riskLevel f |}).

(** [setSemesterFilter]. *)
Definition setSemesterFilter (v : str) (this : t) : result unit * t :=
  let f := currentFilters this in
  applyFilters
    (with_filters this
       {| search := search f; subject := subject f;
          semester := v; riskLevel := riskLevel f |}).

(** [setRiskFilter]. *)
Definition setRiskFilter (v : str) (this : t) : result unit * t :=
  let f := currentFilters this in
  applyFilters
    (with_filters this
       {| search := search f; subject := subject f;
          semester := semester f; riskLevel := v |}).

(** [setSort]: the key and the direction are the first two pieces of
    the argument split at the hyphens. *)
Definition setSort (sortKey : str) (this : t) : result unit * t :=
  let parts := split_on "-"%char sortKey in
  applyFilters
    (with_sort this
       {| key := hd [] parts; direction := nth_error parts 1 |}).

(** [clearFilters]. *)
Definition clearFilters (this : t) : result unit * t :=
  applyFilters (with_sort (with_filters this default_filters) default_sort).

(** [getFilteredData]. *)
Definition getFilteredData (this : t) : list obj := filteredData this.

(** A call of one of the setters of the query state. *)
Inductive call :=
| SetSearch (query : str)
| SetSubjectFilter (v : str)
| SetSemesterFilter (v : str)
| SetRiskFilter (v : str)
| SetSort (sortKey : str).

Definition do_call (c : call) (this : t) : result unit * t :=
  match c with
  | SetSearch q => setSearch q this
  | SetSubjectFilter v => setSubjectFilter v this
  | SetSemesterFilter v => setSemesterFilter v this
  | SetRiskFilter v => setRiskFilter v this
  | SetSort k => setSort k this
  end.

(** A sequence of setter calls, each made whether or not the one
    before it threw. *)
Definition do_calls (cs : list call) (this : t) : t :=
  fold_left (fun st c => snd (do_call c st)) cs this.

End WithLocale.

(** The comparator of [sort()] without an argument: the order of the
    texts of the elements. *)
Definition default_compare (a b : value) : num :=
  if Str.ltb (to_string a) (to_string b) then Fin (-1)
  else if Str.ltb (to_string b) (to_string a) then Fin 1
  else Fin 0.

(** [getUniqueSubjects]. *)
Definition getUniqueSubjects (this : t) : list value :=
  let subjects :=
    set_of (filter truthy (map (get (lit "subject")) (originalData this))) in
  array_sort default_compare subjects.

(** [parseInt(a) || 0]. *)
Definition semester_number (a : value) : num :=
  to_number (or_else (VNum (parseInt (to_string a))) (VNum (Fin 0))).

(** [getUniqueSemesters]. *)
Definition getUniqueSemesters (this : t) : list value :=
  let semesters :=
    set_of (filter truthy (map (get (lit "semester")) (originalData this))) in
  array_sort
    (fun a b => Num.sub (semester_number a) (semester_number b))
    semesters.

(** [getFilterSummary]. *)
Record summary := {
  total : nat;
  filtered : nat;
  activeFilters : nat
}.

Definition getFilterSummary (this : t) : summary :=
  let f := currentFilters this in
  {| total := List.length (originalData this);
     filtered := List.length (filteredData this);
     activeFilters :=
       List.length
         (filter nonempty [search f; subject f; semester f; riskLevel f]) |}.

End FilterEngine.

(** ** The forecasts and the success estimate ([js/analytics.js]) *)

Module AIAnalyticsEngine.

(** [calculateSuccessProbability], given the data and the three fields
    of the metrics that it reads. *)
Definition calculateSuccessProbability (data : list obj)
    (averageScore averageAttendance passRate : value) : num :=
  match data with
  | [] => Fin 0
  | _ =>
      let avgScore := to_number (or_else averageScore (VNum (Fin 0))) in
      let avgAttendance :=
        to_number (or_else averageAttendance (VNum (Fin 0))) in
      let passRate := to_number (or_else passRate (VNum (Fin 0))) in
      let scoreWeight := literal (4 # 10) in
      let attendanceWeight := literal (3 # 10) in
      let passRateWeight := literal (3 # 10) in
      let probability :=
        Num.mul64
          (Num.add64
             (Num.add64
                (Num.mul64 (Num.div64 avgScore (Fin 100)) scoreWeight)
                (Num.mul64 (Num.div64 avgAttendance (Fin 100))
                           attendanceWeight))
             (Num.mul64 (Num.div64 passRate (Fin 100)) passRateWeight))
          (Fin 100) in
      Num.max (Fin 0) (Num.min (Fin 100) probability)
  end.

(** [calculateConfidence]. *)
Definition calculateConfidence (data : list obj) : num :=
  match data with
  | [] => Fin 0
  | _ =>
      let dataPoints := of_nat (List.length data) in
      Num.min (Fin 95) (Num.add64 (Fin 50) (Num.div64 dataPoints (Fin 10)))
  end.

End AIAnalyticsEngine.

Module ForecastingEngine.

(** The sums of the first loop of [linearForecast], from index [i]
    on.  [Math.pow(x, 2)] is the rounded product of [x] with itself. *)
Fixpoint regression_sums (avgX avgY : num) (i : nat) (data : list num)
    (numerator denominator : num) : num * num :=
  match data with
  | [] => (numerator, denominator)
  | y :: rest =>
      let dx := Num.sub64 (of_nat i) avgX in
      regression_sums avgX avgY (S i) rest
        (Num.add64 numerator (Num.mul64 dx (Num.sub64 y avgY)))
        (Num.add64 denominator (Num.mul64 dx dx))
  end.

(** [linearForecast] on an array of numbers. *)
Definition linearForecast (data : list num) (periods : nat) : list num :=
  match data with
  | [] => repeat (Fin 0) periods
  | [y] => repeat (to_number (or_else (VNum y) (VNum (Fin 0)))) periods
  | _ =>
      let n := of_nat (List.length data) in
      let avgX := Num.div64 (Num.sub64 n (Fin 1)) (Fin 2) in
      let avgY := Num.div64 (fold_left Num.add64 data (Fin 0)) n in
      let '(numerator, denominator) :=
        regression_sums avgX avgY 0 data (Fin 0) (Fin 0) in
      let slope :=
        if negb (Num.eqb denominator (Fin 0))
        then Num.div64 numerator denominator else Fin 0 in
      let intercept := Num.sub64 avgY (Num.mul64 slope avgX) in
      map (fun i =>
             let x := Num.add64 n (of_nat i) in
             let y := Num.add64 (Num.mul64 slope x) intercept in
             Num.max (Fin 0) (Num.min (Fin 100) y))
          (seq 0 periods)
  end.

End ForecastingEngine.

(** ** The export serialiser ([downloadCSV] of the utility file) *)

Module CsvExport.

Import CSVParser.

(** The replacement of every quote by two quotes. *)
Definition double_quotes (s : str) : str :=
  flat_map (fun c => if Ascii.eqb c quote then [quote; quote] else [c]) s.

(** The text of one cell: a string with a comma or a quote is quoted,
    [null] and [undefined] give the empty text, any other value is
    converted by [join]. *)
Definition csv_cell (v : value) : str :=
  match v with
  | VStr s =>
      if has_char comma s || has_char quote s
      then quote :: double_quotes s ++ [quote]
      else s
  | VNull | VUndef => []
  | _ => to_string v
  end.

Definition csv_line (headers : list str) (row : obj) : str :=
  join [comma] (map (fun header => csv_cell (get header row)) headers).

(** [csvContent] of [downloadCSV]; nothing is produced for no data. *)
Definition csvContent (data : list obj) : option str :=
  match data with
  | [] => None
  | first :: _ =>
      let headers := keys first in
      Some (join ["010"%char]
                 (join [comma] headers :: map (csv_line headers) data))
  end.

End CsvExport.

(** * Vocabulary of the statements *)

(** The text of the scenario with the two students. *)
Definition scenario_csv : str :=
  lit "id,name,subject,marks,attendance,semester" ++ ["010"%char] ++
  lit "S1,Alice,Math,25,45,1" ++ ["010"%char] ++
  lit "S2,Bob,Math,85,95,1".

(** The number compared by a rule: [v || 0] for a numeric [v]. *)
Definition or0 (n : num) : num :=
  to_number (or_else (VNum n) (VNum (Fin 0))).

(** [r1] and [r2] agree on the field [other] and hold numbers in
    [field], the one of [r1] lower than or equal to the one of [r2]. *)
Definition lower_in (field other : string) (r1 r2 : obj) : Prop :=
  get (lit other) r1 = get (lit other) r2 /\
  exists x1 x2 : num,
    get (lit field) r1 = VNum x1 /\ get (lit field) r2 = VNum x2 /\
    Num.leb x1 x2 = true.

(** A record with the given marks and attendance. *)
Definition sample_record (marks attendance : Q) : obj :=
  [ (lit "studentId", VStr (lit "S1")); (lit "name", VStr (lit "Alice"));
    (lit "marks", VNum (Fin marks)); (lit "attendance", VNum (Fin attendance)) ].

(** The labels of the score bands, in the order of the source. *)
Definition band_labels : list str :=
  [ lit "0-20"; lit "21-40"; lit "41-60"; lit "61-80"; lit "81-100" ].

(** The number of records counted in a band. *)
Definition in_band (band : str) (data : list obj) : nat :=
  List.length
    (filter (fun d => Str.eqb (AnalyticsEngine.score_band
                                 (RiskDetectionEngine.marks_or_0 d)) band)
            data).

(** The property names written by [assessAllStudents]. *)
Definition risk_keys : list str :=
  [ lit "riskScore"; lit "riskLevel"; lit "riskFactors" ].

(** Whether an object of counters has the property [k]. *)
Definition has_counter (k : str) (ranges : list (str * nat)) : bool :=
  existsb (fun kv => Str.eqb (fst kv) k) ranges.

(** The sum of the counters of the five bands. *)
Definition band_total (ranges : list (str * nat)) : nat :=
  fold_right plus 0%nat
    (map (fun band => AnalyticsEngine.counter band ranges) band_labels).

(** The field [k] of a record holds a number between 0 and 100. *)
Definition percent_field (k : string) (record : obj) : Prop :=
  exists q : Q, get (lit k) record = VNum (Fin q) /\ (0 <= q <= 100)%Q.

(** The header names of a text, normalised. *)
Definition header_names (csv : str) : list str :=
  match CSVParser.nonblank_lines csv with
  | header :: _ => map CSVParser.normalizeHeader (CSVParser.parseCSVLine header)
  | [] => []
  end.

(** The rows of a text that survive the validation of the rows, and the
    messages about the others. *)
Definition survivors (now : nat -> N) (csv : str) : list obj * list str :=
  CSVParser.parse_rows now (header_names csv) 1
    (tl (CSVParser.nonblank_lines csv)) ([], []).

(** A clock for the examples. *)
Definition sample_clock : nat -> N := fun _ => 1700000000000%N.

(** The records of the scenario, as parsed under the sample clock. *)
Definition scenario_records : list obj :=
  match fst (CSVParser.parseCSV sample_clock scenario_csv CSVParser.new) with
  | Ok records => records
  | Throw _ => []
  end.

(** A text with one good row and one row with a column too many. *)
Definition one_bad_row_csv : str :=
  lit "id,name" ++ ["010"%char] ++ lit "S1,Alice" ++ ["010"%char] ++
  lit "S2,Bob,extra".

(** A text whose identifiers are numbers, and one whose names are. *)
Definition numeric_id_csv : str :=
  lit "id,name" ++ ["010"%char] ++ lit "101,Alice".

Definition numeric_name_csv : str :=
  lit "id,name" ++ ["010"%char] ++ lit "S1,42" ++ ["010"%char] ++ lit "S2,7".

(** The records the dashboard hands to its engines for a text: parsed,
    then assessed. *)
Definition processed (csv : str) : list obj :=
  match fst (CSVParser.parseCSV sample_clock csv CSVParser.new) with
  | Ok records => RiskDetectionEngine.assessAllStudents records
  | Throw _ => []
  end.

(** A value that is a string or is falsy: the values on which the
    guarded [toLowerCase] calls of the filter engine do not throw. *)
Definition text_or_falsy (v : value) : bool :=
  match v with
  | VStr _ => true
  | _ => negb (truthy v)
  end.

(** The fields the search reads are all strings or falsy. *)
Definition searchable (item : obj) : bool :=
  text_or_falsy (get (lit "name") item) &&
  text_or_falsy (get (lit "studentId") item) &&
  text_or_falsy (get (lit "subject") item).

(** A truthy string value whose lower-cased text contains [s]. *)
Definition text_has (s : str) (v : value) : bool :=
  match v with
  | VStr t => FilterEngine.nonempty t && includes (toLowerCase t) s
  | _ => false
  end.

Definition search_selects (s : str) (item : obj) : bool :=
  text_has s (get (lit "name") item) ||
  text_has s (get (lit "studentId") item) ||
  text_has s (get (lit "subject") item).

(** [sub] occurs in [s]. *)
Definition substring (sub s : str) : Prop :=
  exists pre post : str, s = pre ++ sub ++ post.

(** The key of the default sort: [(a.name || '').toLowerCase()] of a
    record whose name is a string or falsy. *)
Definition name_key (item : obj) : str :=
  match get (lit "name") item with
  | VStr t => toLowerCase t
  | _ => []
  end.

(** The name of a record is a string or falsy. *)
Definition text_name (item : obj) : bool :=
  text_or_falsy (get (lit "name") item).

(** The insertion sort of [Array.prototype.sort] for a comparator that
    does not throw. *)
Fixpoint insert_pure (c : obj -> obj -> num) (x : obj) (l : list obj)
    : list obj :=
  match l with
  | [] => [x]
  | y :: r =>
      if FilterEngine.positive (c x y) then y :: insert_pure c x r
      else x :: y :: r
  end.

Fixpoint sort_pure (c : obj -> obj -> num) (l : list obj) : list obj :=
  match l with
  | [] => []
  | x :: r => insert_pure c x (sort_pure c r)
  end.

(** The comparator of the default sort on records with text names. *)
Definition by_name (localeCompare : str -> str -> Z) (a b : obj) : num :=
  of_Z (localeCompare (name_key a) (name_key b)).

(** The comparator [c] does not place [a] after [b]. *)
Definition not_after (c : obj -> obj -> num) (a b : obj) : Prop :=
  FilterEngine.positive (c a b) = false.


(** The quoting rule of the export: a text with a comma or a quote is
    wrapped in quotes, its own quotes doubled. *)
Definition quote_cell (t : str) : str :=
  if has_char CSVParser.comma t || has_char CSVParser.quote t
  then CSVParser.quote :: CsvExport.double_quotes t ++ [CSVParser.quote]
  else t.

(** Neither a comma nor a quote occurs in the text. *)
Definition no_special (t : str) : bool :=
  negb (has_char CSVParser.comma t) && negb (has_char CSVParser.quote t).

Definition newline : ascii := "010"%char.




(** The text begins with a quote. *)
Definition starts_with_quote (s : str) : bool :=
  match s with
  | c :: _ => Ascii.eqb c CSVParser.quote
  | [] => false
  end.

(** The fields the round trip is stated for. *)
Definition core_fields : list str :=
  [ lit "studentId"; lit "name"; lit "subject"; lit "marks";
    lit "attendance"; lit "semester" ].


Definition no_newline (t : str) : bool := negb (has_char newline t).

(** Neither a comma, nor a quote, nor a line feed occurs in the text. *)
Definition clean_text (t : str) : bool := no_special t && no_newline t.

(** A value the export writes as one cell of one line. *)
Definition plain (v : value) : bool :=
  match v with
  | VStr s => no_newline s
  | VNull | VUndef => true
  | VNum n => clean_text (number_to_string n)
  | VArr _ => false
  end.






(** A character other than the comma, the quote and the line feed. *)
Definition clean_char (c : ascii) : bool :=
  negb (Ascii.eqb c CSVParser.comma) && negb (Ascii.eqb c CSVParser.quote) &&
  negb (Ascii.eqb c newline).

(** The characters of a normalised header name. *)
Definition name_char (c : ascii) : bool :=
  CSVParser.is_alnum_lower c || Ascii.eqb c CSVParser.underscore.

(** No two underscores follow each other. *)
Definition no_double (t : str) : Prop :=
  forall pre post : str,
    t <> pre ++ CSVParser.underscore :: CSVParser.underscore :: post.

(** The text does not begin with an underscore. *)
Definition first_ok (t : str) : bool :=
  match t with
  | c :: _ => negb (Ascii.eqb c CSVParser.underscore)
  | [] => true
  end.

(** The form of the names the header normalisation produces before the
    look-up of the synonyms. *)
Definition normal_form (t : str) : Prop :=
  forallb name_char t = true /\ no_double t /\
  first_ok t = true /\ first_ok (rev t) = true.

(** The local [normalized] of [normalizeHeader]. *)
Definition normalized_name (header : str) : str :=
  CSVParser.strip_ends CSVParser.underscore
    (CSVParser.collapse_underscores
       (map (fun c => if CSVParser.is_alnum_lower c then c
                      else CSVParser.underscore)
            (toLowerCase (trim header)))).

(** The property names the parser can give to a column it recognises. *)
Definition canonical_names : list str :=
  [ lit "studentId"; lit "name"; lit "subject"; lit "marks";
    lit "attendance"; lit "semester"; lit "assessmentType" ].

(** The property names [validateAndTransformRow] writes. *)
Definition own_keys : list str := canonical_names ++ [lit "rowId"].


(** The text is empty or begins with a character that is not white
    space. *)
Definition first_char_ok (t : str) : Prop :=
  match t with
  | c :: _ => is_ws c = false
  | [] => True
  end.

(** A character other than the line feed. *)
Definition not_newline (c : ascii) : bool := negb (Ascii.eqb c newline).

(** A row under construction in the parser: distinct property names,
    each a header of the text or a name the validation writes, and
    values the export writes as one cell. *)
Record row_inv (hs : list str) (o : obj) : Prop := {
  ri_nodup : NoDup (keys o);
  ri_keys : forall k : str, In k (keys o) -> In k hs \/ In k own_keys;
  ri_plain : Forall (fun kv => plain (snd kv) = true) o
}.

(** A record as [parseCSV] returns it for a text with the normalised
    header names [hs]. *)
Record parsed_record (hs : list str) (r : obj) : Prop := {
  pr_row : row_inv hs r;
  pr_core : forall c : str, In c core_fields -> In c (keys r);
  pr_truthy :
    forall c : str,
      In c [lit "studentId"; lit "name"; lit "subject"; lit "semester"] ->
      truthy (get c r) = true;
  pr_marks : percent_field "marks" r;
  pr_attendance : percent_field "attendance" r
}.

(** The row [validateAndTransformRow] returns when it accepts one. *)
Definition validated_row (now : nat -> N) (row : obj) (rowNumber : nat)
    : obj :=
  let r1 :=
    CSVParser.set_if_missing (lit "studentId")
      (fun _ => VStr (lit "STU-" ++ nat_to_string rowNumber)) row in
  let r2 :=
    CSVParser.set_if_missing (lit "name")
      (fun row =>
         VStr (lit "Student " ++ to_string (get (lit "studentId") row)))
      r1 in
  let r3 :=
    set (lit "marks") (CSVParser.normalizeScore (get (lit "marks") r2)) r2 in
  let r4 :=
    set (lit "attendance")
        (CSVParser.normalizeScore (get (lit "attendance") r3)) r3 in
  let r5 :=
    CSVParser.set_if_missing (lit "subject")
      (fun _ => VStr (lit "General")) r4 in
  let r6 :=
    CSVParser.set_if_missing (lit "semester") (fun _ => VStr (lit "1")) r5 in
  let r7 :=
    CSVParser.set_if_missing (lit "assessmentType")
      (fun _ => VStr (lit "Exam")) r6 in
  set (lit "rowId") (VStr (CSVParser.rowId_of now rowNumber r7)) r7.





(** The four risk levels. *)
Definition risk_levels : list string :=
  [ "high"%string; "medium"%string; "low"%string; "none"%string ].

(** The risk level of the record is one of the four. *)
Definition level_known (s : obj) : bool :=
  existsb (fun level => RiskDetectionEngine.has_level level s) risk_levels.

(** The number of records of a level. *)
Definition count_level (level : string) (students : list obj) : nat :=
  List.length (filter (RiskDetectionEngine.has_level level) students).

(** The value is the number [n]. *)
Definition holds_count (v : value) (n : nat) : Prop :=
  exists q : Q, v = VNum (Fin q) /\ (q == inject_Z (Z.of_nat n))%Q.

(** The risk score of an assessed record, and the records whose score
    is a finite number. *)
Definition score_of (s : obj) : num := to_number (get (lit "riskScore") s).

Definition finite_score (s : obj) : Prop :=
  exists q : Q, get (lit "riskScore") s = VNum (Fin q).

(** The first record has at least the score of the second. *)
Definition score_not_below (a b : obj) : Prop :=
  Num.leb (score_of b) (score_of a) = true.

(** The property names of a risk summary. *)
Definition summary_keys : list str :=
  [ lit "total"; lit "high"; lit "medium"; lit "low"; lit "none";
    lit "atRiskTotal" ].

(** The labels of the attendance bands, in the order of the source, and
    the number of records counted in a band. *)
Definition attendance_labels : list str :=
  [ lit "0-50"; lit "51-70"; lit "71-85"; lit "86-100" ].

Definition in_attendance_band (band : str) (data : list obj) : nat :=
  List.length
    (filter (fun d => Str.eqb (AnalyticsEngine.attendance_band
                                 (RiskDetectionEngine.attendance_or_0 d)) band)
            data).

(** The number a record holds in a field, 0 if it holds none, and the
    sum of these numbers over the data. *)
Definition field_number (k : string) (d : obj) : Q :=
  match get (lit k) d with
  | VNum (Fin q) => q
  | _ => 0%Q
  end.

Definition field_total (k : string) (data : list obj) : Q :=
  fold_right (fun d s => (field_number k d + s)%Q) 0%Q data.

(** The group key of a record, and the records of a group. *)
Definition group_key (key : str) (item : obj) : str :=
  to_string (get key item).

Definition in_group (key k : str) (item : obj) : bool :=
  Str.eqb (group_key key item) k.

(** The value of the own property [k] of an object. *)
Fixpoint group_of {A} (k : str) (groups : list (str * A)) : option A :=
  match groups with
  | [] => None
  | (k', v) :: r => if Str.eqb k' k then Some v else group_of k r
  end.

(** The number of records in the groups. *)
Definition grouped_total {A} (groups : list (str * list A)) : nat :=
  fold_right (fun g n => (List.length (snd g) + n)%nat) 0%nat groups.

(** The group key of the record is not a property name of
    [Object.prototype]. *)
Definition plain_key (key : str) (item : obj) : bool :=
  negb (inherited (group_key key item)).

(** The property whose name is an array index, and the number of such
    a name. *)
Definition is_index_entry {A} (kv : str * A) : bool :=
  match array_index (fst kv) with
  | Some _ => true
  | None => false
  end.

Definition key_number (k : str) : N :=
  match array_index k with
  | Some i => i
  | None => 0%N
  end.

(** The sum of the counts of the statistics of the subjects. *)
Definition stats_total (stats : list (str * AnalyticsEngine.SubjectStats.t))
    : nat :=
  fold_right
    (fun s n => (AnalyticsEngine.SubjectStats.count (snd s) + n)%nat)
    0%nat stats.

(** The records of a subject. *)
Definition of_subject (subject : str) (data : list obj) : list obj :=
  filter (in_group (lit "subject") subject) data.

(** [d.k || 0]. *)
Definition field_or_0 (k : string) (d : obj) : value :=
  or_else (get (lit k) d) (VNum (Fin 0)).

(** The records of a semester. *)
Definition of_semester (semester : str) (data : list obj) : list obj :=
  filter (in_group (lit "semester") semester) data.

(** A text with a record of the second semester before one of the
    first. *)
Definition two_semesters_csv : str :=
  lit "id,name,marks,semester" ++ ["010"%char] ++
  lit "S1,Alice,40,2" ++ ["010"%char] ++
  lit "S1,Alice,60,1".

(** The entry of [studentAverages] and the object of [students] for
    the records of one student. *)
Definition student_entry (g : str * list obj)
    : str * AnalyticsEngine.StudentAverages.t :=
  (fst g,
   {| AnalyticsEngine.StudentAverages.studentId :=
        get (lit "studentId") (hd [] (snd g));
      AnalyticsEngine.StudentAverages.name := get (lit "name") (hd [] (snd g));
      AnalyticsEngine.StudentAverages.scores :=
        map RiskDetectionEngine.marks_or_0 (snd g);
      AnalyticsEngine.StudentAverages.attendances :=
        map RiskDetectionEngine.attendance_or_0 (snd g) |}).

Definition student_performer (items : list obj)
    : AnalyticsEngine.Performer.t :=
  {| AnalyticsEngine.Performer.studentId :=
       get (lit "studentId") (hd [] items);
     AnalyticsEngine.Performer.name := get (lit "name") (hd [] items);
     AnalyticsEngine.Performer.averageScore :=
       AnalyticsEngine.average (map RiskDetectionEngine.marks_or_0 items);
     AnalyticsEngine.Performer.averageAttendance :=
       AnalyticsEngine.average
         (map RiskDetectionEngine.attendance_or_0 items) |}.

(** The average score of the first is at least that of the second. *)
Definition ranks_above (a b : AnalyticsEngine.Performer.t) : Prop :=
  Num.leb (AnalyticsEngine.Performer.averageScore b)
          (AnalyticsEngine.Performer.averageScore a) = true.

Definition ranks_below (a b : AnalyticsEngine.Performer.t) : Prop :=
  ranks_above b a.

(** The average score is a number between 0 and 100. *)
Definition percent_average (p : AnalyticsEngine.Performer.t) : Prop :=
  exists q : Q,
    AnalyticsEngine.Performer.averageScore p = Fin q /\ (0 <= q <= 100)%Q.

(** The records of the data are those of a parsed file: marks and
    attendance between 0 and 100. *)
Definition percent_data (data : list obj) : Prop :=
  Forall (fun d => percent_field "marks" d /\ percent_field "attendance" d)
         data.

(** Three students, the second with two records. *)
Definition three_students_csv : str :=
  lit "id,name,marks" ++ ["010"%char] ++
  lit "S1,Alice,40" ++ ["010"%char] ++
  lit "S2,Bob,90" ++ ["010"%char] ++
  lit "S3,Carol,70" ++ ["010"%char] ++
  lit "S2,Bob,70".

(** The clamping of a forecast. *)
Definition clamp (q : Q) : Q := Qmax 0 (Qmin 100 q).

(** A number between 0 and 100. *)
Definition percent (y : num) : Prop :=
  exists q : Q, y = Fin q /\ (0 <= q <= 100)%Q.

(** The search callback selects the record (and does not throw). *)
Definition search_ok (s : str) (item : obj) : bool :=
  match FilterEngine.search_matches s item with
  | Ok b => b
  | Throw _ => false
  end.

(** The record passes every filter that is set. *)
Definition passes (f : FilterEngine.filters) (item : obj) : bool :=
  (negb (FilterEngine.nonempty (FilterEngine.search f)) ||
   search_ok (FilterEngine.search f) item) &&
  (negb (FilterEngine.nonempty (FilterEngine.subject f)) ||
   strict_eq_str (get (lit "subject") item) (FilterEngine.subject f)) &&
  (negb (FilterEngine.nonempty (FilterEngine.semester f)) ||
   strict_eq_str (get (lit "semester") item) (FilterEngine.semester f)) &&
  (negb (FilterEngine.nonempty (FilterEngine.riskLevel f)) ||
   strict_eq_str (get (lit "riskLevel") item) (FilterEngine.riskLevel f)).

(** The part of the query state a setter call writes. *)
Definition call_kind (c : FilterEngine.call) : nat :=
  match c with
  | FilterEngine.SetSearch _ => 0
  | FilterEngine.SetSubjectFilter _ => 1
  | FilterEngine.SetSemesterFilter _ => 2
  | FilterEngine.SetRiskFilter _ => 3
  | FilterEngine.SetSort _ => 4
  end%nat.

(** The filtered view as a function of the three parts of the state it
    reads. *)
Definition view_of (localeCompare : str -> str -> Z) (data : list obj)
    (f : FilterEngine.filters) (s : FilterEngine.sort)
    : result (list obj) :=
  FilterEngine.filtered_view localeCompare
    {| FilterEngine.originalData := data;
       FilterEngine.filteredData := [];
       FilterEngine.currentFilters := f;
       FilterEngine.currentSort := s |}.

(** The filters and the sort after a setter call. *)
Definition filters_after (c : FilterEngine.call) (f : FilterEngine.filters)
    : FilterEngine.filters :=
  match c with
  | FilterEngine.SetSearch query =>
      {| FilterEngine.search := trim (toLowerCase query);
         FilterEngine.subject := FilterEngine.subject f;
         FilterEngine.semester := FilterEngine.semester f;
         FilterEngine.riskLevel := FilterEngine.riskLevel f |}
  | FilterEngine.SetSubjectFilter v =>
      {| FilterEngine.search := FilterEngine.search f;
         FilterEngine.subject := v;
         FilterEngine.semester := FilterEngine.semester f;
         FilterEngine.riskLevel := FilterEngine.riskLevel f |}
  | FilterEngine.SetSemesterFilter v =>
      {| FilterEngine.search := FilterEngine.search f;
         FilterEngine.subject := FilterEngine.subject f;
         FilterEngine.semester := v;
         FilterEngine.riskLevel := FilterEngine.riskLevel f |}
  | FilterEngine.SetRiskFilter v =>
      {| FilterEngine.search := FilterEngine.search f;
         FilterEngine.subject := FilterEngine.subject f;
         FilterEngine.semester := FilterEngine.semester f;
         FilterEngine.riskLevel := v |}
  | FilterEngine.SetSort _ => f
  end.

Definition sort_after (c : FilterEngine.call) (s : FilterEngine.sort)
    : FilterEngine.sort :=
  match c with
  | FilterEngine.SetSort sortKey =>
      {| FilterEngine.key := hd [] (split_on "-"%char sortKey);
         FilterEngine.direction := nth_error (split_on "-"%char sortKey) 1 |}
  | _ => s
  end.

(** No two values of the list are equal as elements of a [Set]. *)
Definition distinct_values (l : list value) : Prop :=
  ForallOrdPairs (fun a b => same_value_zero a b = false) l.

(** The text of the second value is not before that of the first. *)
Definition text_not_after (a b : value) : Prop :=
  Str.ltb (to_string b) (to_string a) = false.

(** The truthy values of a field of the base set. *)
Definition present_values (k : string) (this : FilterEngine.t) : list value :=
  filter truthy (map (get (lit k)) (FilterEngine.originalData this)).

(** The semester number of a value is a finite number. *)
Definition finite_semester (v : value) : Prop :=
  isFinite (FilterEngine.semester_number v) = true.

Definition semester_not_after (a b : value) : Prop :=
  Num.leb (FilterEngine.semester_number a) (FilterEngine.semester_number b)
  = true.

(** A text with the subjects Physics, Art and Physics, and the
    semesters 10, 9 and 10. *)
Definition subjects_csv : str :=
  lit "id,name,subject,semester" ++ ["010"%char] ++
  lit "S1,Alice,Physics,10" ++ ["010"%char] ++
  lit "S2,Bob,Art,9" ++ ["010"%char] ++
  lit "S3,Carol,Physics,10".

(** The records of a student, in the order of the data. *)
Definition records_of (studentId : value) (data : list obj) : list obj :=
  filter (fun d => strict_eq (get (lit "studentId") d) studentId) data.

(** The semester number of the first record is at most that of the
    second. *)
Definition not_later (a b : obj) : Prop :=
  Num.leb (AnalyticsEngine.semester_of a) (AnalyticsEngine.semester_of b)
  = true.

Definition finite_semester_of (d : obj) : Prop :=
  isFinite (AnalyticsEngine.semester_of d) = true.

(** Two records of one student: 60 marks in the second semester, 72 in
    the first. *)
Definition trend_csv : str :=
  lit "id,name,marks,semester" ++ ["010"%char] ++
  lit "S1,Alice,60,2" ++ ["010"%char] ++
  lit "S1,Alice,72,1".

(** The groups after the reduction of [groupBy] has gone through
    [done]. *)
Record groups_of (key : str) (done : list obj) (g : list (str * list obj))
    : Prop := {
  go_nodup : NoDup (map fst g);
  go_group :
    forall k : str,
      group_of k g
      = match filter (in_group key k) done with
        | [] => None
        | items => Some items
        end;
  go_plain : forallb (plain_key key) done = true;
  go_total : grouped_total g = List.length done
}.

(** The rationals that are doubles, but for the end of the range:
    [m * 2^e] with a significand of at most 53 bits and an exponent
    that is at least -1074. *)
Definition double (q : Q) : Prop :=
  exists m e : Z, -1074 <= e /\ Z.abs m <= 2 ^ 53 /\
                  (q == inject_Z m * pow2 e)%Q.

(** The sum and the mean of numbers in binary64, as the reduction
    [(a, b) => a + b] from 0 and the division by the length compute
    them: every partial sum is rounded, and so is the quotient. *)
Definition sum64 (qs : list Q) : Q :=
  fold_left (fun acc q => rnd (acc + q)) qs 0%Q.

Definition mean64 (qs : list Q) : Q :=
  rnd (sum64 qs / inject_Z (Z.of_nat (List.length qs))).

(** The length of an array is below [2^32]. *)
Definition array_length {A} (l : list A) : Prop :=
  Z.of_nat (List.length l) < 2 ^ 32.

(** The number a value holds, 0 if it holds none. *)
Definition number_of (v : value) : Q :=
  match v with
  | VNum (Fin q) => q
  | _ => 0%Q
  end.

(** A value that is a number between 0 and 100. *)
Definition percent_value (v : value) : Prop :=
  exists q : Q, v = VNum (Fin q) /\ (0 <= q <= 100)%Q.
(** Three records with the marks 99.9. *)
Definition repeated_marks_csv : str :=
  lit "id,name,marks,attendance" ++ ["010"%char] ++
  lit "S1,Alice,99.9,80" ++ ["010"%char] ++
  lit "S2,Bob,99.9,90" ++ ["010"%char] ++
  lit "S3,Carol,99.9,70".

(** The average score is a double between 0 and 100. *)
Definition double_average (p : AnalyticsEngine.Performer.t) : Prop :=
  exists q : Q,
    AnalyticsEngine.Performer.averageScore p = Fin q /\ double q /\
    (0 <= q <= 100)%Q.

(** A number between 0 and 100, or [NaN]. *)
Definition percent_or_NaN (y : num) : Prop := y = NaN \/ percent y.

(** The weighted sum of [calculateSuccessProbability] before the
    clamping, as binary64 computes it. *)
Definition weighted64 (s a p : Q) : Q :=
  rnd (rnd (rnd (rnd (rnd (s / 100) * rnd (4 # 10)) +
                 rnd (rnd (a / 100) * rnd (3 # 10))) +
            rnd (rnd (p / 100) * rnd (3 # 10))) * 100).

(** Two records of one student: 60 marks in the first semester, 70.05
    in the second.  The double nearest to 70.05 is below 70.05. *)
Definition trend_rounding_csv : str :=
  lit "id,name,marks,semester" ++ ["010"%char] ++
  lit "S1,Alice,60,1" ++ ["010"%char] ++
  lit "S1,Alice,70.05,2".

(** The score that the specification gives to a cell: the number of the
    cell clamped to the range from 0 to 100, where a text counts for
    the number [parseFloat] reads from it, and 0 when the cell is
    missing or holds no number. *)
Definition clamped_number (n : num) : Q :=
  match n with
  | Fin q => Qmax 0 (Qmin 100 q)
  | Inf false => 100%Q
  | Inf true | NaN => 0%Q
  end.

Definition specified_score (cell : value) : Q :=
  match cell with
  | VNum n => clamped_number n
  | VStr s => clamped_number (parseFloat s)
  | VUndef | VNull | VArr _ => 0%Q
  end.

(** The field [k] of the record holds the specified score of the cell
    [k] of the row. *)
Definition scored_from (row record : obj) (k : string) : Prop :=
  exists q : Q,
    get (lit k) record = VNum (Fin q) /\
    (q == specified_score (get (lit k) row))%Q.

(** The record was made from one of the lines, read under the
    headers. *)
Definition made_from (headers : list str) (lines : list str) (record : obj)
    : Prop :=
  exists line : str,
    In line lines /\
    let row := CSVParser.build_row headers (CSVParser.parseCSVLine line) in
    scored_from row record "marks" /\ scored_from row record "attendance".

(** A text with scores out of the range, a text that is no number and
    an empty cell. *)
Definition clamping_csv : str :=
  lit "id,name,marks,attendance" ++ ["010"%char] ++
  lit "S1,Ann,150,-5" ++ ["010"%char] ++
  lit "S2,Bob,abc," ++ ["010"%char] ++
  lit "S3,Cy,85.5,100".

(** * Properties *)

(** ** Facts about strings, numbers and objects *)

Lemma str_eqb_eq (a b : str) : Str.eqb a b = true <-> a = b.
Proof.
  unfold Str.eqb. destruct (list_eq_dec ascii_dec a b); split; congruence.
Qed.

Lemma str_eqb_refl (a : str) : Str.eqb a a = true.
Proof. apply str_eqb_eq. reflexivity. Qed.

Lemma str_eqb_neq (a b : str) : a <> b -> Str.eqb a b = false.
Proof.
  intros H. destruct (Str.eqb a b) eqn:E; [|reflexivity].
  apply str_eqb_eq in E. contradiction.
Qed.

Lemma get_set_eq (k : str) (v : value) (o : obj) : get k (set k v o) = v.
Proof.
  induction o as [|[k' v'] r IH]; simpl.
  - now rewrite str_eqb_refl.
  - destruct (Str.eqb k' k) eqn:E; simpl.
    + now rewrite str_eqb_refl.
    + now rewrite E.
Qed.

Lemma get_set_neq (k k' : str) (v : value) (o : obj) :
  k <> k' -> get k' (set k v o) = get k' o.
Proof.
  intros Hne. induction o as [|[k0 v0] r IH]; simpl.
  - now rewrite (str_eqb_neq k k').
  - destruct (Str.eqb k0 k) eqn:E; simpl.
    + apply str_eqb_eq in E. subst k0. now rewrite (str_eqb_neq k k').
    + now rewrite IH.
Qed.

Lemma get_set_if_missing_neq (k k' : str) (v : obj -> value) (o : obj) :
  k' <> k -> get k (CSVParser.set_if_missing k' v o) = get k o.
Proof.
  intros H. unfold CSVParser.set_if_missing.
  destruct (negb (truthy (get k' o))); [now apply get_set_neq|reflexivity].
Qed.



Lemma Qltb_lt (a b : Q) : Qltb a b = true <-> (a < b)%Q.
Proof.
  unfold Qltb. rewrite negb_true_iff. split; intros H.
  - apply Qnot_le_lt. intros Hle. apply Qle_bool_iff in Hle. congruence.
  - destruct (Qle_bool b a) eqn:E; [|reflexivity].
    apply Qle_bool_iff in E. exfalso. exact (Qlt_not_le _ _ H E).
Qed.

Lemma num_ltb_leb_trans (a b c : num) :
  Num.leb a b = true -> Num.ltb b c = true -> Num.ltb a c = true.
Proof.
  destruct a as [|[]|x], b as [|[]|y], c as [|[]|z]; simpl;
    try congruence; intros H1 H2.
  apply Qle_bool_iff in H1. apply Qltb_lt in H2. apply Qltb_lt.
  eapply Qle_lt_trans; eauto.
Qed.

(** ** The scenario of the two students *)

(** C1.  Parsing the scenario text gives two records, Alice with marks
    25 and attendance 45 and Bob with marks 85 and attendance 95.
    Assessing them, all six rules fire for Alice (raw sum 3.4, capped at
    1), her riskScore is 100 and her riskLevel is high; no rule fires
    for Bob, whose riskScore is 0 and riskLevel none; the pass rate over
    the two records is 50.  This holds whatever the clock and the
    earlier state of the parser are. *)
Theorem scenario_alice_bob (now : nat -> N) (this : CSVParser.t) :
  match fst (CSVParser.parseCSV now scenario_csv this) with
  | Ok [alice; bob] =>
      get (lit "name") alice = VStr (lit "Alice") /\
      get (lit "marks") alice = VNum (Fin 25) /\
      get (lit "attendance") alice = VNum (Fin 45) /\
      get (lit "name") bob = VStr (lit "Bob") /\
      get (lit "marks") bob = VNum (Fin 85) /\
      get (lit "attendance") bob = VNum (Fin 95) /\
      forallb (fun r => RiskDetectionEngine.check r alice)
              RiskDetectionEngine.rules = true /\
      (RiskDetectionEngine.rule_sum RiskDetectionEngine.rules alice 0
       == 34 # 10)%Q /\
      existsb (fun r => RiskDetectionEngine.check r bob)
              RiskDetectionEngine.rules = false /\
      match RiskDetectionEngine.assessAllStudents [alice; bob] with
      | [alice'; bob'] =>
          get (lit "riskScore") alice' = VNum (Fin 100) /\
          get (lit "riskLevel") alice' = VStr (lit "high") /\
          get (lit "riskScore") bob' = VNum (Fin 0) /\
          get (lit "riskLevel") bob' = VStr (lit "none")
      | _ => False
      end /\
      (AnalyticsEngine.passRate
         (AnalyticsEngine.calculateMetrics
            (RiskDetectionEngine.assessAllStudents [alice; bob])) == 50)%Q
  | _ => False
  end.
Proof.
  vm_compute. repeat split.
Qed.

(** ** Monotonicity of the risk score *)

Section RiskMonotone.

Import RiskDetectionEngine.

Lemma or0_leb (m1 m2 : num) :
  Num.leb m1 m2 = true -> Num.leb (or0 m1) (or0 m2) = true.
Proof.
  unfold or0, or_else.
  destruct m1 as [|[]|x], m2 as [|[]|y]; simpl; try congruence;
    repeat match goal with
           | |- context [Qeq_bool ?q 0] => destruct (Qeq_bool q 0) eqn:?
           end; simpl; try congruence;
    repeat match goal with
           | H : Qeq_bool _ 0 = true |- _ => apply Qeq_bool_iff in H
           end;
    intros H; apply Qle_bool_iff in H; apply Qle_bool_iff.
  all: lra.
Qed.

Lemma lt_or0_mono (m1 m2 c : num) :
  Num.leb m1 m2 = true ->
  lt_num (or_else (VNum m2) (VNum (Fin 0))) c = true ->
  lt_num (or_else (VNum m1) (VNum (Fin 0))) c = true.
Proof.
  intros H. apply (num_ltb_leb_trans (or0 m1) (or0 m2) c).
  now apply or0_leb.
Qed.

Lemma rule_sum_mono (rs : list rule) (s1 s2 : obj) :
  Forall (fun r => (0 <= weight r)%Q /\
                   (check r s2 = true -> check r s1 = true)) rs ->
  forall a1 a2 : Q, (a2 <= a1)%Q ->
  (rule_sum rs s2 a2 <= rule_sum rs s1 a1)%Q.
Proof.
  unfold rule_sum. induction 1 as [|r rs [Hw Hc] _ IH]; intros a1 a2 Ha; simpl.
  - exact Ha.
  - apply IH. destruct (check r s2) eqn:E2.
    + rewrite (Hc eq_refl). now apply Qplus_le_compat; [|apply Qle_refl].
    + destruct (check r s1).
      * rewrite <- (Qplus_0_r a2). now apply Qplus_le_compat.
      * exact Ha.
Qed.

Lemma riskScore_mono (s1 s2 : obj) :
  Forall (fun r => (0 <= weight r)%Q /\
                   (check r s2 = true -> check r s1 = true)) rules ->
  Num.leb (riskScore (assessStudent s2)) (riskScore (assessStudent s1)) = true.
Proof.
  intros H.
  cbv beta iota delta [assessStudent riskScore Num.round Num.leb calculateRiskScore].
  apply Qle_bool_iff. rewrite <- Zle_Qle. apply Qfloor_resp_le.
  apply Qplus_le_compat; [|apply Qle_refl].
  apply Qmult_le_compat_r; [|discriminate].
  apply Q.min_le_compat_l. apply rule_sum_mono; [exact H|apply Qle_refl].
Qed.

Lemma weights_nonneg : Forall (fun r => (0 <= weight r)%Q) rules.
Proof. repeat constructor; discriminate. Qed.

End RiskMonotone.

Lemma riskScore_monotone_each :
  (forall (r1 r2 : obj) (m1 m2 : num),
     get (lit "attendance") r1 = get (lit "attendance") r2 ->
     get (lit "marks") r1 = VNum m1 ->
     get (lit "marks") r2 = VNum m2 ->
     Num.leb m1 m2 = true ->
     Num.leb (RiskDetectionEngine.riskScore (RiskDetectionEngine.assessStudent r2))
             (RiskDetectionEngine.riskScore (RiskDetectionEngine.assessStudent r1))
     = true) /\
  (forall (r1 r2 : obj) (a1 a2 : num),
     get (lit "marks") r1 = get (lit "marks") r2 ->
     get (lit "attendance") r1 = VNum a1 ->
     get (lit "attendance") r2 = VNum a2 ->
     Num.leb a1 a2 = true ->
     Num.leb (RiskDetectionEngine.riskScore (RiskDetectionEngine.assessStudent r2))
             (RiskDetectionEngine.riskScore (RiskDetectionEngine.assessStudent r1))
     = true).
Proof.
  split; intros r1 r2 x1 x2 Hsame H1 H2 Hle; apply riskScore_mono;
    unfold RiskDetectionEngine.rules;
    repeat (apply Forall_cons; [split; [discriminate|]|]);
    try apply Forall_nil; simpl;
    unfold RiskDetectionEngine.marks_or_0, RiskDetectionEngine.attendance_or_0;
    rewrite ?Hsame, ?H1, ?H2; rewrite ?andb_true_iff;
    try (intros [Ha Hb]; split); intros; try assumption;
    eapply lt_or0_mono; eassumption.
Qed.

(** C5.  Of two records with the same attendance and numeric marks,
    the one with the lower marks has the greater or equal riskScore; of
    two records with the same marks and numeric attendance, the one with
    the lower attendance has the greater or equal riskScore. *)
Theorem riskScore_monotone (r1 r2 : obj) :
  lower_in "marks" "attendance" r1 r2 \/
  lower_in "attendance" "marks" r1 r2 ->
  Num.leb (RiskDetectionEngine.riskScore (RiskDetectionEngine.assessStudent r2))
          (RiskDetectionEngine.riskScore (RiskDetectionEngine.assessStudent r1))
  = true.
Proof.
  intros [[Hsame (x1 & x2 & H1 & H2 & Hle)]|[Hsame (x1 & x2 & H1 & H2 & Hle)]].
  - exact (proj1 riskScore_monotone_each r1 r2 x1 x2 Hsame H1 H2 Hle).
  - exact (proj2 riskScore_monotone_each r1 r2 x1 x2 Hsame H1 H2 Hle).
Qed.

Lemma riskScore_monotone_witness :
  lower_in "marks" "attendance" (sample_record 25 45) (sample_record 85 45) /\
  Num.leb (RiskDetectionEngine.riskScore
             (RiskDetectionEngine.assessStudent (sample_record 85 45)))
          (RiskDetectionEngine.riskScore
             (RiskDetectionEngine.assessStudent (sample_record 25 45)))
  = true.
Proof.
  assert (H : lower_in "marks" "attendance"
                (sample_record 25 45) (sample_record 85 45)).
  { split; [reflexivity|]. exists (Fin 25), (Fin 85). repeat split. }
  split; [exact H|]. apply (riskScore_monotone _ _ (or_introl H)).
Defined.

(** ** Rounding to the nearest double *)

Lemma Qltb_ge (a b : Q) : Qltb a b = false <-> (b <= a)%Q.
Proof.
  unfold Qltb. rewrite negb_false_iff. apply Qle_bool_iff.
Qed.

Lemma pow2_pos (e : Z) : (0 < pow2 e)%Q.
Proof. apply Qpower_0_lt. reflexivity. Qed.

Lemma pow2_add (a b : Z) : (pow2 (a + b) == pow2 a * pow2 b)%Q.
Proof. apply Qpower_plus. discriminate. Qed.

Lemma pow2_sub (a b : Z) : (pow2 (a - b) == pow2 a / pow2 b)%Q.
Proof. apply Qpower_minus. discriminate. Qed.

Lemma pow2_S (e : Z) : (pow2 (e + 1) == 2 * pow2 e)%Q.
Proof. rewrite pow2_add. change (pow2 1) with 2%Q. ring. Qed.

Lemma pow2_le (a b : Z) : a <= b -> (pow2 a <= pow2 b)%Q.
Proof. intros H. apply Qpower_le_compat_l; [exact H|]. unfold Qle; simpl; lia. Qed.

Lemma pow2_lt (a b : Z) : a < b -> (pow2 a < pow2 b)%Q.
Proof. intros H. apply Qpower_lt_compat_l; [exact H|reflexivity]. Qed.

Lemma pow2_lt_inv (a b : Z) : (pow2 a < pow2 b)%Q -> a < b.
Proof. intros H. apply (Qpower_lt_compat_l_inv 2); [exact H|reflexivity]. Qed.

Lemma pow2_Z (e : Z) : 0 <= e -> (pow2 e == inject_Z (2 ^ e))%Q.
Proof. intros H. unfold pow2. now rewrite Zpower_Qpower. Qed.

Lemma binade_spec (q : Q) :
  (0 < q)%Q -> (pow2 (binade q) <= q)%Q /\ (q < pow2 (binade q + 1))%Q.
Proof.
  intros Hq. unfold binade.
  destruct q as [n d]. cbn [Qnum Qden].
  assert (Hn : 0 < n) by (unfold Qlt in Hq; simpl in Hq; lia).
  set (a := Z.log2 n). set (b := Z.log2 (Z.pos d)).
  assert (Ha : 2 ^ a <= n < 2 ^ (a + 1)).
  { pose proof (Z.log2_spec n Hn) as H. unfold a. now rewrite <- Z.add_1_r in H. }
  assert (Hb : 2 ^ b <= Z.pos d < 2 ^ (b + 1)).
  { pose proof (Z.log2_spec (Z.pos d) eq_refl) as H. unfold b.
    now rewrite <- Z.add_1_r in H. }
  assert (Ha0 : 0 <= a) by apply Z.log2_nonneg.
  assert (Hb0 : 0 <= b) by apply Z.log2_nonneg.
  assert (Hq' : (n # d == inject_Z n / inject_Z (Z.pos d))%Q) by apply Qmake_Qdiv.
  assert (Hd : (0 < inject_Z (Z.pos d))%Q) by (unfold Qlt; simpl; lia).
  assert (Hlow : (pow2 (a - b - 1) < n # d)%Q).
  { replace (a - b - 1) with (a - (b + 1)) by lia.
    rewrite pow2_sub, !pow2_Z by lia. rewrite Hq'.
    apply Qlt_shift_div_l; [exact Hd|].
    unfold Qdiv. rewrite <- Qmult_assoc, (Qmult_comm (/ _)), Qmult_assoc.
    apply Qlt_shift_div_r.
    - change 0%Q with (inject_Z 0). rewrite <- Zlt_Qlt. lia.
    - rewrite <- !inject_Z_mult, <- Zlt_Qlt. nia. }
  assert (Hhigh : (n # d < pow2 (a - b + 1))%Q).
  { replace (a - b + 1) with (a + 1 - b) by lia.
    rewrite pow2_sub, !pow2_Z by lia. rewrite Hq'.
    apply Qlt_shift_div_l.
    - change 0%Q with (inject_Z 0). rewrite <- Zlt_Qlt. lia.
    - unfold Qdiv. rewrite <- Qmult_assoc, (Qmult_comm (/ _)), Qmult_assoc.
      apply Qlt_shift_div_r; [exact Hd|].
      rewrite <- !inject_Z_mult, <- Zlt_Qlt. nia. }
  destruct (Qle_bool (pow2 (a - b)) (n # d)) eqn:E.
  - apply Qle_bool_iff in E. split; assumption.
  - split; [apply Qlt_le_weak; exact Hlow|].
    replace (a - b - 1 + 1) with (a - b) by lia.
    apply Qnot_le_lt. intros H. apply Qle_bool_iff in H. congruence.
Qed.

Lemma binade_unique (q : Q) (e : Z) :
  (pow2 e <= q)%Q -> (q < pow2 (e + 1))%Q -> binade q = e.
Proof.
  intros Hl Hh.
  assert (Hq : (0 < q)%Q) by (pose proof (pow2_pos e); lra).
  destruct (binade_spec q Hq) as [Hl' Hh'].
  assert (H1 : binade q < e + 1) by (apply pow2_lt_inv; lra).
  assert (H2 : e < binade q + 1) by (apply pow2_lt_inv; lra).
  lia.
Qed.

Lemma binade_comp (p q : Q) : (0 < p)%Q -> (p == q)%Q -> binade p = binade q.
Proof.
  intros Hp E. symmetry. apply binade_unique.
  - rewrite <- E. now apply binade_spec.
  - rewrite <- E. now apply binade_spec.
Qed.

Lemma Qabs_cases (x : Q) :
  (0 <= x)%Q /\ (Qabs x == x)%Q \/ (x <= 0)%Q /\ (Qabs x == - x)%Q.
Proof.
  destruct (Qlt_le_dec x 0) as [H|H].
  - right. split; [lra|]. apply Qabs_neg. lra.
  - left. split; [exact H|]. now apply Qabs_pos.
Qed.

Lemma nearest_even_cases (q : Q) :
  let f := Qfloor q in
  let r := (q - inject_Z f)%Q in
  (0 <= r < 1)%Q /\
  ((r < 1 # 2)%Q /\ nearest_even q = f \/
   (1 # 2 < r)%Q /\ nearest_even q = f + 1 \/
   (r == 1 # 2)%Q /\ Z.even (nearest_even q) = true /\
   (nearest_even q = f \/ nearest_even q = f + 1)).
Proof.
  intros f r.
  assert (Hr : (0 <= r < 1)%Q).
  { unfold r, f. pose proof (Qfloor_le q). pose proof (Qlt_floor q) as H1.
    rewrite inject_Z_plus in H1. change (inject_Z 1) with 1%Q in H1. lra. }
  split; [exact Hr|].
  unfold nearest_even. fold f. fold r.
  destruct (Qltb r (1 # 2)) eqn:E1.
  - left. apply Qltb_lt in E1. now split.
  - apply Qltb_ge in E1. destruct (Qltb (1 # 2) r) eqn:E2.
    + right; left. apply Qltb_lt in E2. now split.
    + apply Qltb_ge in E2. right; right. split; [lra|].
      destruct (Z.even f) eqn:E3.
      * split; [exact E3|now left].
      * split; [|now right]. rewrite Z.even_add, E3. reflexivity.
Qed.

Lemma nearest_even_error (q : Q) :
  (Qabs (inject_Z (nearest_even q) - q) <= 1 # 2)%Q.
Proof.
  destruct (nearest_even_cases q) as [Hr H]. cbv zeta in Hr, H.
  apply Qabs_Qle_condition.
  destruct H as [[H1 ->]|[[H1 ->]|[H1 [_ [-> | ->]]]]];
    rewrite ?inject_Z_plus; change (inject_Z 1) with 1%Q; lra.
Qed.

Lemma nearest_even_le (q : Q) (z : Z) :
  (q <= inject_Z z)%Q -> nearest_even q <= z.
Proof.
  intros Hq.
  destruct (nearest_even_cases q) as [Hr H]. cbv zeta in Hr, H.
  assert (Hf : Qfloor q <= z).
  { rewrite <- (Qfloor_Z z). now apply Qfloor_resp_le. }
  assert (Hlt : (0 < q - inject_Z (Qfloor q))%Q -> Qfloor q + 1 <= z).
  { intros Hpos. assert (Hs : (inject_Z (Qfloor q) < inject_Z z)%Q) by lra.
    rewrite <- Zlt_Qlt in Hs. lia. }
  destruct H as [[H1 ->]|[[H1 ->]|[H1 [_ [-> | ->]]]]];
    try exact Hf; apply Hlt; lra.
Qed.

Lemma nearest_even_ge (q : Q) (z : Z) :
  (inject_Z z <= q)%Q -> z <= nearest_even q.
Proof.
  intros Hq.
  destruct (nearest_even_cases q) as [Hr H]. cbv zeta in Hr, H.
  assert (Hf : z <= Qfloor q).
  { rewrite <- (Qfloor_Z z). now apply Qfloor_resp_le. }
  destruct H as [[H1 ->]|[[H1 ->]|[H1 [_ [-> | ->]]]]]; lia.
Qed.

Lemma nearest_even_Z (z : Z) : nearest_even (inject_Z z) = z.
Proof.
  apply Z.le_antisymm.
  - apply nearest_even_le. apply Qle_refl.
  - apply nearest_even_ge. apply Qle_refl.
Qed.

Lemma nearest_even_comp (p q : Q) : (p == q)%Q -> nearest_even p = nearest_even q.
Proof.
  intros E. unfold nearest_even. rewrite (Qfloor_comp _ _ E).
  set (f := Qfloor q).
  assert (E' : (p - inject_Z f == q - inject_Z f)%Q) by (rewrite E; reflexivity).
  assert (H1 : Qltb (p - inject_Z f) (1 # 2) = Qltb (q - inject_Z f) (1 # 2)).
  { unfold Qltb. f_equal. destruct (Qle_bool (1 # 2) (q - inject_Z f)) eqn:H.
    - apply Qle_bool_iff. apply Qle_bool_iff in H. lra.
    - destruct (Qle_bool (1 # 2) (p - inject_Z f)) eqn:H'; [|reflexivity].
      apply Qle_bool_iff in H'.
      assert (H2 : Qle_bool (1 # 2) (q - inject_Z f) = true)
        by (apply Qle_bool_iff; lra).
      congruence. }
  assert (H2 : Qltb (1 # 2) (p - inject_Z f) = Qltb (1 # 2) (q - inject_Z f)).
  { unfold Qltb. f_equal. destruct (Qle_bool (q - inject_Z f) (1 # 2)) eqn:H.
    - apply Qle_bool_iff. apply Qle_bool_iff in H. lra.
    - destruct (Qle_bool (p - inject_Z f) (1 # 2)) eqn:H'; [|reflexivity].
      apply Qle_bool_iff in H'.
      assert (H3 : Qle_bool (q - inject_Z f) (1 # 2) = true)
        by (apply Qle_bool_iff; lra).
      congruence. }
  now rewrite H1, H2.
Qed.

Lemma nearest_even_monotone (p q : Q) :
  (p <= q)%Q -> nearest_even p <= nearest_even q.
Proof.
  intros Hpq.
  pose proof (Qfloor_resp_le _ _ Hpq) as Hf.
  destruct (nearest_even_cases p) as [Hrp Hp]. cbv zeta in Hrp, Hp.
  destruct (nearest_even_cases q) as [Hrq Hq]. cbv zeta in Hrq, Hq.
  destruct (Z.eq_dec (Qfloor p) (Qfloor q)) as [E|NE].
  - rewrite E in *.
    destruct Hp as [[H1 Ep]|[[H1 Ep]|[H1 [Hev [Ep | Ep]]]]];
    destruct Hq as [[H2 Eq]|[[H2 Eq]|[H2 [Hev' [Eq | Eq]]]]];
      rewrite Ep, Eq; try lia; try lra.
    rewrite Ep in Hev. rewrite Eq in Hev'.
    rewrite Z.even_add in Hev. rewrite Hev' in Hev. discriminate.
  - assert (H1 : nearest_even p <= Qfloor p + 1)
      by (destruct Hp as [[_ ->]|[[_ ->]|[_ [_ [-> | ->]]]]]; lia).
    assert (H2 : Qfloor q <= nearest_even q)
      by (destruct Hq as [[_ ->]|[[_ ->]|[_ [_ [-> | ->]]]]]; lia).
    lia.
Qed.

Lemma nearest_even_near (q : Q) (z : Z) :
  (Qabs (q - inject_Z z) < 1 # 2)%Q -> nearest_even q = z.
Proof.
  intros H. apply Qabs_Qlt_condition in H.
  pose proof (nearest_even_error q) as He. apply Qabs_Qle_condition in He.
  assert (H1 : (inject_Z (nearest_even q) < inject_Z (z + 1))%Q).
  { rewrite inject_Z_plus. change (inject_Z 1) with 1%Q. lra. }
  assert (H2 : (inject_Z (z - 1) < inject_Z (nearest_even q))%Q).
  { unfold Z.sub. rewrite inject_Z_plus, inject_Z_opp.
    change (inject_Z 1) with 1%Q. lra. }
  rewrite <- Zlt_Qlt in H1, H2. lia.
Qed.

Lemma nearest_even_tie (q : Q) (z : Z) :
  (Qabs (q - inject_Z z) <= 1 # 2)%Q -> Z.even z = true -> nearest_even q = z.
Proof.
  intros H Hev. apply Qabs_Qle_condition in H.
  destruct (Qlt_le_dec (Qabs (q - inject_Z z)) (1 # 2)) as [Hlt|Hge].
  { now apply nearest_even_near. }
  destruct (nearest_even_cases q) as [Hr Hc]. cbv zeta in Hr, Hc.
  set (f := Qfloor q) in *.
  assert (Hz : z = f \/ z = f + 1).
  { assert (H1 : (inject_Z (f - 1) < inject_Z z)%Q).
    { unfold Z.sub. rewrite inject_Z_plus, inject_Z_opp.
      change (inject_Z 1) with 1%Q. lra. }
    assert (H2 : (inject_Z z < inject_Z (f + 2))%Q).
    { rewrite inject_Z_plus. change (inject_Z 2) with 2%Q. lra. }
    rewrite <- Zlt_Qlt in H1, H2. lia. }
  assert (Hhalf : (q - inject_Z f == 1 # 2)%Q).
  { destruct (Qabs_cases (q - inject_Z z)) as [[Hs E]|[Hs E]]; rewrite E in Hge;
    destruct Hz as [Hz|Hz]; rewrite Hz in *; rewrite ?inject_Z_plus in *;
      change (inject_Z 1) with 1%Q in *; lra. }
  destruct Hc as [[H1 _]|[[H1 _]|[_ [Hev' Hn]]]]; [lra|lra|].
  destruct Hz as [-> | ->]; destruct Hn as [Hn|Hn]; rewrite Hn in *; try reflexivity.
  - rewrite Z.even_add, Hev in Hev'. discriminate.
  - rewrite Z.even_add in Hev. rewrite Hev' in Hev. discriminate.
Qed.

Lemma nearest_even_opp (q : Q) : nearest_even (- q) = - nearest_even q.
Proof.
  pose proof (nearest_even_error q) as He.
  destruct (Qlt_le_dec (Qabs (inject_Z (nearest_even q) - q)) (1 # 2)) as [Hlt|Hge].
  - apply nearest_even_near. rewrite inject_Z_opp.
    setoid_replace (- q - - inject_Z (nearest_even q))%Q
      with (inject_Z (nearest_even q) - q)%Q by ring.
    exact Hlt.
  - apply nearest_even_tie.
    + rewrite inject_Z_opp.
      setoid_replace (- q - - inject_Z (nearest_even q))%Q
        with (inject_Z (nearest_even q) - q)%Q by ring.
      exact He.
    + rewrite Z.even_opp.
      destruct (nearest_even_cases q) as [Hr Hc]. cbv zeta in Hr, Hc.
      destruct Hc as [[H1 E]|[[H1 E]|[_ [Hev _]]]]; [| |exact Hev];
        rewrite E in Hge; exfalso.
      * destruct (Qabs_cases (inject_Z (Qfloor q) - q)) as [[Hs E']|[Hs E']];
          rewrite E' in Hge; lra.
      * destruct (Qabs_cases (inject_Z (Qfloor q + 1) - q)) as [[Hs E']|[Hs E']];
          rewrite E' in Hge; rewrite inject_Z_plus in *;
          change (inject_Z 1) with 1%Q in *; lra.
Qed.

Lemma ulp_pos (q : Q) : (0 < ulp q)%Q.
Proof. apply pow2_pos. Qed.

Lemma Qabs_nonzero (q : Q) : ~ (q == 0)%Q -> (0 < Qabs q)%Q.
Proof.
  intros H. destruct (Qabs_cases q) as [[Hs E]|[Hs E]]; rewrite E.
  - destruct (Qlt_le_dec 0 q); [assumption|]. exfalso. apply H. lra.
  - destruct (Qlt_le_dec q 0); [lra|]. exfalso. apply H. lra.
Qed.

Lemma ulp_comp (p q : Q) : ~ (p == 0)%Q -> (p == q)%Q -> ulp p = ulp q.
Proof.
  intros Hp E. unfold ulp, last_place.
  rewrite (binade_comp (Qabs p) (Qabs q)); [reflexivity| |now rewrite E].
  now apply Qabs_nonzero.
Qed.

Lemma ulp_opp (q : Q) : ulp (- q) = ulp q.
Proof.
  unfold ulp, last_place. destruct q as [n d]. unfold Qopp, Qabs.
  cbn [Qnum Qden].
  now rewrite Z.abs_opp.
Qed.

Lemma rnd_zero (q : Q) : (q == 0)%Q -> rnd q = 0%Q.
Proof.
  intros H. unfold rnd. apply Qeq_bool_iff in H. now rewrite H.
Qed.

Lemma rnd_value (q : Q) :
  ~ (q == 0)%Q ->
  (rnd q == inject_Z (nearest_even (q / ulp q)) * ulp q)%Q.
Proof.
  intros H. unfold rnd. destruct (Qeq_bool q 0) eqn:E.
  - apply Qeq_bool_iff in E. contradiction.
  - apply Qred_correct.
Qed.

Lemma rnd_comp (p q : Q) : (p == q)%Q -> rnd p = rnd q.
Proof.
  intros E. unfold rnd.
  destruct (Qeq_bool p 0) eqn:Hp.
  - apply Qeq_bool_iff in Hp.
    assert (Hq : Qeq_bool q 0 = true) by (apply Qeq_bool_iff; now rewrite <- E).
    now rewrite Hq.
  - assert (Hp' : ~ (p == 0)%Q).
    { intros H. apply Qeq_bool_iff in H. congruence. }
    assert (Hq : Qeq_bool q 0 = false).
    { destruct (Qeq_bool q 0) eqn:Hq; [|reflexivity].
      apply Qeq_bool_iff in Hq. exfalso. apply Hp'. now rewrite E. }
    rewrite Hq. apply Qred_complete.
    rewrite (ulp_comp p q Hp' E).
    rewrite (nearest_even_comp (p / ulp q) (q / ulp q)); [reflexivity|].
    now rewrite E.
Qed.

Lemma rnd_opp (q : Q) : (rnd (- q) == - rnd q)%Q.
Proof.
  destruct (Qeq_dec q 0) as [E|NE].
  - rewrite (rnd_zero q E), (rnd_zero (- q)); [reflexivity|]. rewrite E. reflexivity.
  - assert (NE' : ~ (- q == 0)%Q) by (intros H; apply NE; lra).
    rewrite (rnd_value _ NE), (rnd_value _ NE'), ulp_opp.
    rewrite (nearest_even_comp (- q / ulp q)%Q (- (q / ulp q))%Q).
    + rewrite nearest_even_opp, inject_Z_opp. ring.
    + pose proof (ulp_pos q). field. lra.
Qed.

Lemma rnd_error (q : Q) : (Qabs (rnd q - q) <= (1 # 2) * ulp q)%Q.
Proof.
  pose proof (ulp_pos q) as Hu.
  destruct (Qeq_dec q 0) as [E|NE].
  - rewrite (rnd_zero q E). setoid_replace (0 - q)%Q with 0%Q by lra.
    change (Qabs 0) with 0%Q. lra.
  - rewrite (rnd_value _ NE).
    pose proof (nearest_even_error (q / ulp q)) as He.
    apply Qabs_Qle_condition in He. apply Qabs_Qle_condition.
    set (z := inject_Z (nearest_even (q / ulp q))) in *.
    assert (Hq : (q == q / ulp q * ulp q)%Q) by (field; lra).
    set (t := (q / ulp q)%Q) in *. set (u := ulp q) in *.
    rewrite Hq. clearbody z t u. split; nra.
Qed.

Lemma rnd_nonneg (q : Q) : (0 <= q)%Q -> (0 <= rnd q)%Q.
Proof.
  intros Hq. destruct (Qeq_dec q 0) as [E|NE].
  - rewrite (rnd_zero q E). lra.
  - rewrite (rnd_value _ NE). pose proof (ulp_pos q) as Hu.
    apply Qmult_le_0_compat; [|lra].
    change 0%Q with (inject_Z 0). rewrite <- Zle_Qle.
    apply nearest_even_ge. change (inject_Z 0) with 0%Q.
    apply Qle_shift_div_l; lra.
Qed.

Lemma ulp_last_place (q : Q) : ulp q = pow2 (last_place q).
Proof. reflexivity. Qed.

Lemma pow2_ratio_Z (a b : Z) :
  b <= a -> (pow2 a / pow2 b == inject_Z (2 ^ (a - b)))%Q.
Proof.
  intros H. rewrite <- pow2_sub. apply pow2_Z. lia.
Qed.

Lemma binade_abs_spec (q : Q) :
  (0 < q)%Q ->
  (pow2 (binade (Qabs q)) <= q)%Q /\ (q < pow2 (binade (Qabs q) + 1))%Q.
Proof.
  intros Hq. destruct (binade_spec (Qabs q)) as [Hl Hh].
  - apply Qabs_nonzero. lra.
  - set (e := binade (Qabs q)) in *. rewrite (Qabs_pos q) in Hl, Hh by lra.
    now split.
Qed.

Lemma rnd_upper (q : Q) (b : Z) :
  (0 < q)%Q -> (q <= pow2 b)%Q -> -1074 <= b -> (rnd q <= pow2 b)%Q.
Proof.
  intros Hq Hb Hmin.
  assert (NE : ~ (q == 0)%Q) by lra.
  rewrite (rnd_value _ NE). pose proof (ulp_pos q) as Hu.
  destruct (binade_abs_spec q Hq) as [Hl Hh].
  assert (Hlp : last_place q <= b).
  { unfold last_place. apply Z.max_lub; [|exact Hmin].
    assert (binade (Qabs q) < b + 1); [|lia].
    apply pow2_lt_inv. rewrite pow2_S in *. lra. }
  rewrite ulp_last_place in *.
  assert (Hz : (pow2 b == inject_Z (2 ^ (b - last_place q)) * pow2 (last_place q))%Q).
  { rewrite <- pow2_ratio_Z by exact Hlp. field.
    pose proof (pow2_pos (last_place q)). lra. }
  rewrite Hz. apply Qmult_le_compat_r; [|lra].
  rewrite <- Zle_Qle. apply nearest_even_le.
  rewrite <- pow2_ratio_Z by exact Hlp.
  apply Qle_shift_div_l; [exact Hu|].
  unfold Qdiv. rewrite <- Qmult_assoc, (Qmult_comm (/ _)), Qmult_inv_r; lra.
Qed.

Lemma rnd_lower (q : Q) (b : Z) :
  (pow2 b <= q)%Q -> -1074 <= b -> (pow2 b <= rnd q)%Q.
Proof.
  intros Hb Hmin. pose proof (pow2_pos b) as Hpb.
  assert (Hq : (0 < q)%Q) by lra.
  assert (NE : ~ (q == 0)%Q) by lra.
  destruct (binade_abs_spec q Hq) as [Hl Hh].
  set (e := binade (Qabs q)) in *.
  assert (He : b <= e).
  { assert (b < e + 1); [|lia]. apply pow2_lt_inv. lra. }
  apply Qle_trans with (pow2 e); [now apply pow2_le|].
  rewrite (rnd_value _ NE). pose proof (ulp_pos q) as Hu.
  assert (Hlp : last_place q <= e) by (unfold last_place; fold e; lia).
  rewrite ulp_last_place in *.
  assert (Hz : (pow2 e == inject_Z (2 ^ (e - last_place q)) * pow2 (last_place q))%Q).
  { rewrite <- pow2_ratio_Z by exact Hlp. field.
    pose proof (pow2_pos (last_place q)). lra. }
  rewrite Hz. apply Qmult_le_compat_r; [|lra].
  rewrite <- Zle_Qle. apply nearest_even_ge.
  rewrite <- pow2_ratio_Z by exact Hlp.
  apply Qle_shift_div_l; [exact Hu|].
  unfold Qdiv. rewrite <- Qmult_assoc, (Qmult_comm (/ _)), Qmult_inv_r; lra.
Qed.

Lemma rnd_monotone_pos (p q : Q) :
  (0 < p)%Q -> (p <= q)%Q -> (rnd p <= rnd q)%Q.
Proof.
  intros Hp Hpq.
  assert (Hq : (0 < q)%Q) by lra.
  destruct (Z.eq_dec (last_place p) (last_place q)) as [E|NE].
  - rewrite (rnd_value p), (rnd_value q) by lra.
    rewrite !ulp_last_place, E.
    pose proof (pow2_pos (last_place q)) as Hu.
    apply Qmult_le_compat_r; [|lra].
    rewrite <- Zle_Qle. apply nearest_even_monotone.
    apply Qmult_le_compat_r; [exact Hpq|].
    apply Qlt_le_weak, Qinv_lt_0_compat, Hu.
  - destruct (binade_abs_spec p Hp) as [Hlp Hhp].
    destruct (binade_abs_spec q Hq) as [Hlq Hhq].
    assert (Hb : binade (Qabs p) <= binade (Qabs q)).
    { assert (binade (Qabs p) < binade (Qabs q) + 1); [|lia].
      apply pow2_lt_inv. lra. }
    unfold last_place in NE.
    set (b := Z.max (binade (Qabs p) + 1) (-1074)).
    apply Qle_trans with (pow2 b).
    + apply rnd_upper; [exact Hp| |unfold b; lia].
      apply Qle_trans with (pow2 (binade (Qabs p) + 1)); [lra|].
      apply pow2_le. unfold b. lia.
    + apply rnd_lower; [|unfold b; lia].
      apply Qle_trans with (pow2 (binade (Qabs q))); [|exact Hlq].
      apply pow2_le. unfold b. lia.
Qed.

Lemma rnd_monotone (p q : Q) : (p <= q)%Q -> (rnd p <= rnd q)%Q.
Proof.
  intros Hpq.
  destruct (Qlt_le_dec 0 p) as [Hp|Hp].
  - now apply rnd_monotone_pos.
  - destruct (Qlt_le_dec q 0) as [Hq|Hq].
    + assert (H : (rnd (- q) <= rnd (- p))%Q)
        by (apply rnd_monotone_pos; lra).
      rewrite !rnd_opp in H. lra.
    + assert (H1 : (0 <= rnd q)%Q) by now apply rnd_nonneg.
      assert (H2 : (0 <= rnd (- p))%Q) by (apply rnd_nonneg; lra).
      rewrite rnd_opp in H2. lra.
Qed.

Lemma binade_scaled (m e : Z) :
  0 < m -> binade (inject_Z m * pow2 e) = Z.log2 m + e.
Proof.
  intros Hm. pose proof (Z.log2_spec m Hm) as [Hl Hh].
  rewrite <- Z.add_1_r in Hh.
  assert (H0 : 0 <= Z.log2 m) by apply Z.log2_nonneg.
  pose proof (pow2_pos e) as He.
  apply binade_unique.
  - rewrite pow2_add, (pow2_Z (Z.log2 m)) by lia.
    apply Qmult_le_compat_r; [|lra]. now rewrite <- Zle_Qle.
  - replace (Z.log2 m + e + 1) with (Z.log2 m + 1 + e) by lia.
    rewrite pow2_add, (pow2_Z (Z.log2 m + 1)) by lia.
    apply Qmult_lt_compat_r; [exact He|]. now rewrite <- Zlt_Qlt.
Qed.

Lemma rnd_fixes_pos (m e : Z) :
  0 < m < 2 ^ 53 -> -1074 <= e ->
  (rnd (inject_Z m * pow2 e) == inject_Z m * pow2 e)%Q.
Proof.
  intros Hm He. pose proof (pow2_pos e) as Hpe.
  set (q := (inject_Z m * pow2 e)%Q).
  assert (Hq : (0 < q)%Q).
  { unfold q. apply Qmult_lt_0_compat; [|exact Hpe].
    change 0%Q with (inject_Z 0). rewrite <- Zlt_Qlt. lia. }
  assert (Hb : binade (Qabs q) = Z.log2 m + e).
  { rewrite <- (binade_scaled m e) by lia.
    apply binade_comp; [apply Qabs_nonzero; lra|].
    apply Qabs_pos, Qlt_le_weak, Hq. }
  assert (Hlog : Z.log2 m < 53) by (apply Z.log2_lt_pow2; lia).
  assert (Hlp : last_place q <= e) by (unfold last_place; rewrite Hb; lia).
  rewrite (rnd_value q) by lra. rewrite ulp_last_place.
  set (lp := last_place q) in *. clearbody lp.
  pose proof (pow2_pos lp) as Hu.
  assert (Hz : (q / pow2 lp == inject_Z (m * 2 ^ (e - lp)))%Q).
  { unfold q. rewrite inject_Z_mult, <- pow2_ratio_Z by exact Hlp.
    field. lra. }
  rewrite (nearest_even_comp _ _ Hz), nearest_even_Z.
  rewrite inject_Z_mult, <- pow2_ratio_Z by exact Hlp.
  unfold q. field. lra.
Qed.

Lemma pow2_53 : (pow2 53 == inject_Z (2 ^ 53))%Q.
Proof. reflexivity. Qed.

Lemma rnd_fixes (q : Q) : double q -> (rnd q == q)%Q.
Proof.
  intros (m & e & He & Hm & E).
  assert (Hpos : forall m' : Z, 0 < m' <= 2 ^ 53 ->
            (rnd (inject_Z m' * pow2 e) == inject_Z m' * pow2 e)%Q).
  { intros m' Hm'. destruct (Z.eq_dec m' (2 ^ 53)) as [->|NE].
    - assert (E' : (inject_Z (2 ^ 53) * pow2 e ==
                    inject_Z (2 ^ 52) * pow2 (e + 1))%Q).
      { rewrite pow2_S. change (2 ^ 53) with (2 ^ 52 * 2).
        rewrite inject_Z_mult. change (inject_Z 2) with 2%Q. ring. }
      rewrite (rnd_comp _ _ E'), E'. apply rnd_fixes_pos; lia.
    - apply rnd_fixes_pos; lia. }
  rewrite (rnd_comp _ _ E), E.
  destruct (Z.lt_trichotomy m 0) as [Hneg|[->|Hp]].
  - assert (E' : (inject_Z m * pow2 e == - (inject_Z (- m) * pow2 e))%Q)
      by (rewrite inject_Z_opp; ring).
    rewrite (rnd_comp _ _ E'), rnd_opp, E'. rewrite Hpos; [reflexivity|lia].
  - rewrite rnd_zero; [|change (inject_Z 0) with 0%Q; ring].
    change (inject_Z 0) with 0%Q; ring.
  - apply Hpos. lia.
Qed.

Lemma double_Z (z : Z) : Z.abs z <= 2 ^ 53 -> double (inject_Z z).
Proof.
  intros H. exists z, 0. split; [lia|]. split; [exact H|].
  change (pow2 0) with 1%Q. ring.
Qed.

Lemma rnd_Z (z : Z) : Z.abs z <= 2 ^ 53 -> (rnd (inject_Z z) == inject_Z z)%Q.
Proof. intros H. apply rnd_fixes. now apply double_Z. Qed.

Lemma rnd_double (q : Q) : double (rnd q).
Proof.
  destruct (Qeq_dec q 0) as [E|NE].
  { rewrite (rnd_zero q E). exists 0, 0. split; [lia|]. split; [simpl; lia|reflexivity]. }
  assert (Hsym : forall p : Q, (0 < p)%Q ->
            0 <= nearest_even (p / ulp p) <= 2 ^ 53).
  { intros p Hp. pose proof (ulp_pos p) as Hu.
    destruct (binade_abs_spec p Hp) as [Hl Hh].
    split.
    - apply nearest_even_ge. change (inject_Z 0) with 0%Q.
      apply Qle_shift_div_l; lra.
    - apply nearest_even_le. rewrite <- pow2_53.
      apply Qle_shift_div_r; [exact Hu|].
      rewrite ulp_last_place, <- pow2_add.
      apply Qle_trans with (pow2 (binade (Qabs p) + 1)); [lra|].
      apply pow2_le. unfold last_place. lia. }
  exists (nearest_even (q / ulp q)), (last_place q).
  split; [unfold last_place; lia|]. split; [|now apply rnd_value].
  destruct (Qlt_le_dec 0 q) as [Hq|Hq].
  - specialize (Hsym q Hq). lia.
  - assert (Hq' : (0 < - q)%Q).
    { destruct (Qlt_le_dec q 0); [lra|]. exfalso. apply NE. lra. }
    specialize (Hsym (- q)%Q Hq'). rewrite ulp_opp in Hsym.
    rewrite (nearest_even_comp (- q / ulp q)%Q (- (q / ulp q))%Q) in Hsym.
    + rewrite nearest_even_opp in Hsym. lia.
    + pose proof (ulp_pos q). field. lra.
Qed.

Lemma rnd_idempotent (q : Q) : (rnd (rnd q) == rnd q)%Q.
Proof. apply rnd_fixes, rnd_double. Qed.

(** Every double is a multiple of the least one. *)
Lemma double_grid (q : Q) :
  double q -> exists k : Z, (q == inject_Z k * pow2 (-1074))%Q.
Proof.
  intros (m & e & He & _ & E). exists (m * 2 ^ (e + 1074)).
  rewrite E, inject_Z_mult.
  replace (e + 1074) with (e - (-1074)) by lia.
  rewrite <- pow2_ratio_Z by lia.
  pose proof (pow2_pos (-1074)). field. lra.
Qed.

Lemma rnd_grid_pos (k : Z) :
  0 < k -> (0 < rnd (inject_Z k * pow2 (-1074)))%Q.
Proof.
  intros Hk. pose proof (pow2_pos (-1074)) as Hp.
  apply Qlt_le_trans with (pow2 (-1074)); [exact Hp|].
  apply rnd_lower; [|lia].
  assert (H : (1 <= inject_Z k)%Q).
  { change 1%Q with (inject_Z 1). rewrite <- Zle_Qle. lia. }
  nra.
Qed.

(** The sign of a difference of doubles survives the rounding. *)
Lemma rnd_sub_sign (p q : Q) :
  double p -> double q ->
  ((0 < rnd (q - p))%Q <-> (p < q)%Q).
Proof.
  intros Hp Hq. split.
  - intros H. destruct (Qlt_le_dec p q) as [Hlt|Hle]; [exact Hlt|].
    assert (H' : (rnd (q - p) <= rnd 0)%Q) by (apply rnd_monotone; lra).
    rewrite (rnd_zero 0) in H' by reflexivity. lra.
  - intros H. destruct (double_grid p Hp) as [kp Ep].
    destruct (double_grid q Hq) as [kq Eq].
    assert (E : (q - p == inject_Z (kq - kp) * pow2 (-1074))%Q).
    { rewrite Ep, Eq. unfold Z.sub. rewrite inject_Z_plus, inject_Z_opp. ring. }
    rewrite (rnd_comp _ _ E). apply rnd_grid_pos.
    pose proof (pow2_pos (-1074)) as Hpw.
    assert (Hk : (inject_Z kp < inject_Z kq)%Q) by nra.
    rewrite <- Zlt_Qlt in Hk. lia.
Qed.

Lemma rnd_le_Z (q : Q) (z : Z) :
  Z.abs z <= 2 ^ 53 -> (q <= inject_Z z)%Q -> (rnd q <= inject_Z z)%Q.
Proof.
  intros Hz Hq. rewrite <- (rnd_Z z Hz). now apply rnd_monotone.
Qed.

Lemma rnd_ge_Z (q : Q) (z : Z) :
  Z.abs z <= 2 ^ 53 -> (inject_Z z <= q)%Q -> (inject_Z z <= rnd q)%Q.
Proof.
  intros Hz Hq. rewrite <- (rnd_Z z Hz). now apply rnd_monotone.
Qed.

Lemma ulp_below (q : Q) (b : Z) :
  (0 < q)%Q -> (q < pow2 (b + 1))%Q -> -1074 <= b - 52 ->
  (ulp q <= pow2 (b - 52))%Q.
Proof.
  intros Hq Hb Hmin. destruct (binade_abs_spec q Hq) as [Hl Hh].
  unfold ulp, last_place. apply pow2_le.
  assert (binade (Qabs q) < b + 1); [|lia].
  apply pow2_lt_inv. lra.
Qed.

Lemma ulp_in_binade (q : Q) (b : Z) :
  (pow2 b <= q)%Q -> (q < pow2 (b + 1))%Q -> -1074 <= b - 52 ->
  ulp q = pow2 (b - 52).
Proof.
  intros Hl Hh Hmin. unfold ulp, last_place.
  assert (Hq : (0 < q)%Q) by (pose proof (pow2_pos b); lra).
  rewrite (binade_comp (Qabs q) q), (binade_unique q b Hl Hh).
  - f_equal. lia.
  - apply Qabs_nonzero. lra.
  - apply Qabs_pos. lra.
Qed.

(** [p + (100 - p)] in binary64, for [p] between 0 and 100. *)
Lemma rnd_complement_100 (p : Q) :
  (0 <= p <= 100)%Q -> (rnd (p + rnd (100 - p)) == 100)%Q.
Proof.
  intros Hp.
  assert (H47 : (pow2 (-46) == 1 # (2 ^ 46))%Q) by reflexivity.
  assert (Hf : (Qabs (rnd (100 - p) - (100 - p)) <= 1 # (2 ^ 47))%Q).
  { destruct (Qeq_dec (100 - p) 0) as [E|NE].
    - rewrite (rnd_zero _ E). rewrite E. vm_compute. discriminate.
    - eapply Qle_trans; [apply rnd_error|].
      assert (Hu : (ulp (100 - p) <= pow2 (6 - 52))%Q).
      { apply ulp_below; [| |lia].
        - destruct (Qlt_le_dec 0 (100 - p)); [assumption|].
          exfalso. apply NE. lra.
        - change (pow2 (6 + 1)) with 128%Q. lra. }
      change (6 - 52) with (-46) in Hu. rewrite H47 in Hu.
      setoid_replace (1 # 2 ^ 47)%Q with ((1 # 2) * (1 # 2 ^ 46))%Q
        by reflexivity.
      lra. }
  apply Qabs_Qle_condition in Hf.
  set (f := rnd (100 - p)) in *. clearbody f.
  set (y := (p + f)%Q).
  assert (Hy : (- (1 # 2 ^ 47) <= y - 100 <= 1 # 2 ^ 47)%Q) by (unfold y; lra).
  assert (Hy64 : (pow2 6 <= y)%Q /\ (y < pow2 (6 + 1))%Q).
  { change (pow2 6) with 64%Q. change (pow2 (6 + 1)) with 128%Q.
    assert ((1 # 2 ^ 47) <= 1)%Q by (vm_compute; discriminate). lra. }
  clearbody y.
  assert (NE : ~ (y == 0)%Q).
  { change (pow2 6) with 64%Q in Hy64. lra. }
  rewrite (rnd_value _ NE).
  rewrite (ulp_in_binade y 6) by (tauto || lia).
  change (pow2 (6 - 52)) with (1 # 2 ^ 46)%Q.
  rewrite (nearest_even_tie _ (100 * 2 ^ 46)).
  - vm_compute. reflexivity.
  - apply Qabs_Qle_condition.
    assert (E : (y / (1 # 2 ^ 46) - inject_Z (100 * 2 ^ 46) ==
                 (y - 100) * inject_Z (2 ^ 46))%Q).
    { rewrite inject_Z_mult. change (inject_Z 100) with 100%Q.
      setoid_replace (y / (1 # 2 ^ 46))%Q with (y * inject_Z (2 ^ 46))%Q.
      - ring.
      - unfold Qdiv. apply Qmult_comp; [reflexivity|]. reflexivity. }
    rewrite E.
    assert (H46 : (inject_Z (2 ^ 46) * (1 # 2 ^ 47) == 1 # 2)%Q) by reflexivity.
    assert (Hpos : (0 < inject_Z (2 ^ 46))%Q) by reflexivity.
    set (k := inject_Z (2 ^ 46)) in *. clearbody k. split; nra.
  - reflexivity.
Qed.

(** ** Pass rate and fail rate *)

Lemma count_S_nonzero (n : nat) :
  Qeq_bool (AnalyticsEngine.count (S n)) 0 = false.
Proof.
  destruct (Qeq_bool (AnalyticsEngine.count (S n)) 0) eqn:E; [|reflexivity].
  apply Qeq_bool_iff in E. unfold AnalyticsEngine.count, Qeq in E.
  simpl in E. lia.
Qed.

Lemma rnd_reduced (q : Q) : Qred (rnd q) = rnd q.
Proof.
  unfold rnd. destruct (Qeq_bool q 0); [reflexivity|].
  apply Qred_complete, Qred_correct.
Qed.

Lemma rnd_eq (q r : Q) : (rnd q == r)%Q -> rnd q = Qred r.
Proof.
  intros H. rewrite <- rnd_reduced. now apply Qred_complete.
Qed.

Lemma round64_fin (q : Q) :
  (Qabs (rnd q) < pow2 1024)%Q -> round64 q = Fin (rnd q).
Proof.
  intros H. unfold round64. cbv zeta.
  destruct (Qle_bool (pow2 1024) (Qabs (rnd q))) eqn:E; [|reflexivity].
  apply Qle_bool_iff in E. lra.
Qed.

Lemma pow2_1024_large : (inject_Z (2 ^ 53) < pow2 1024)%Q.
Proof. reflexivity. Qed.

(** A result between two integers of at most 53 bits is a number. *)
Lemma round64_between (q : Q) (lo hi : Z) :
  Z.abs lo <= 2 ^ 53 -> Z.abs hi <= 2 ^ 53 ->
  (inject_Z lo <= q <= inject_Z hi)%Q ->
  round64 q = Fin (rnd q) /\ (inject_Z lo <= rnd q <= inject_Z hi)%Q.
Proof.
  intros Hlo Hhi [H1 H2].
  assert (Hr : (inject_Z lo <= rnd q <= inject_Z hi)%Q).
  { split; [now apply rnd_ge_Z|now apply rnd_le_Z]. }
  split; [|exact Hr]. apply round64_fin.
  apply Qle_lt_trans with (inject_Z (2 ^ 53)); [|exact pow2_1024_large].
  apply Qabs_Qle_condition.
  assert (Hb : (inject_Z (- 2 ^ 53) <= inject_Z lo)%Q /\
               (inject_Z hi <= inject_Z (2 ^ 53))%Q)
    by (rewrite <- !Zle_Qle; lia).
  rewrite inject_Z_opp in Hb. destruct Hb as [Hb1 Hb2]. split; lra.
Qed.

Lemma count_nonneg (n : nat) : (0 <= AnalyticsEngine.count n)%Q.
Proof.
  unfold AnalyticsEngine.count. change 0%Q with (inject_Z 0).
  rewrite <- Zle_Qle. lia.
Qed.

Lemma count_le (p n : nat) :
  (p <= n)%nat -> (AnalyticsEngine.count p <= AnalyticsEngine.count n)%Q.
Proof.
  intros H. unfold AnalyticsEngine.count. rewrite <- Zle_Qle. lia.
Qed.

(** A percentage of a part of a whole lies between 0 and 100. *)
Lemma calculatePercentage_range (p n : nat) :
  (p <= n)%nat ->
  (0 <= Utils.calculatePercentage (AnalyticsEngine.count p)
                                  (AnalyticsEngine.count n) <= 100)%Q.
Proof.
  intros Hle. unfold Utils.calculatePercentage.
  destruct (Qeq_bool (AnalyticsEngine.count n) 0) eqn:E; [lra|].
  pose proof (count_nonneg p) as Hp. pose proof (count_nonneg n) as Hn.
  pose proof (count_le p n Hle) as Hpn.
  assert (Hn' : (0 < AnalyticsEngine.count n)%Q).
  { destruct (Qlt_le_dec 0 (AnalyticsEngine.count n)) as [H|H]; [exact H|].
    assert (E' : Qeq_bool (AnalyticsEngine.count n) 0 = true)
      by (apply Qeq_bool_iff; lra).
    congruence. }
  set (x := (AnalyticsEngine.count p / AnalyticsEngine.count n)%Q).
  assert (Hx : (0 <= x <= 1)%Q).
  { unfold x. split.
    - apply Qle_shift_div_l; lra.
    - apply Qle_shift_div_r; lra. }
  assert (Hr : (0 <= rnd x <= 1)%Q).
  { split.
    - apply (rnd_ge_Z x 0); [simpl; lia|apply Hx].
    - apply (rnd_le_Z x 1); [simpl; lia|apply Hx]. }
  split.
  - apply (rnd_ge_Z _ 0); [simpl; lia|]. change (inject_Z 0) with 0%Q. lra.
  - apply (rnd_le_Z _ 100); [simpl; lia|]. change (inject_Z 100) with 100%Q. lra.
Qed.

Lemma passRate_range (data : list obj) :
  (0 <= AnalyticsEngine.getPassRate data <= 100)%Q.
Proof.
  unfold AnalyticsEngine.getPassRate. destruct data as [|d data]; [lra|].
  apply calculatePercentage_range, filter_length_le.
Qed.

(** C6.  For a non-empty record set the pass rate is the percentage of
    the records whose marks are at least 50, computed in binary64 as
    [passed / total * 100], and lies between 0 and 100; the fail rate is
    [100 - passRate]; and the sum [passRate + failRate], computed in
    binary64 as well, is exactly 100. *)
Theorem passRate_plus_failRate (data : list obj) :
  data <> [] ->
  let m := AnalyticsEngine.calculateMetrics data in
  let passed :=
    AnalyticsEngine.count
      (List.length
         (filter (fun d => ge_num (RiskDetectionEngine.marks_or_0 d) (Fin 50))
                 data)) in
  (AnalyticsEngine.passRate m ==
     rnd (rnd (passed / AnalyticsEngine.count (List.length data)) * 100))%Q /\
  (0 <= AnalyticsEngine.passRate m <= 100)%Q /\
  (AnalyticsEngine.failRate m == rnd (100 - AnalyticsEngine.passRate m))%Q /\
  add64 (Fin (AnalyticsEngine.passRate m)) (Fin (AnalyticsEngine.failRate m))
  = Fin 100.
Proof.
  intros Hne. cbv zeta.
  assert (Hm : AnalyticsEngine.passRate (AnalyticsEngine.calculateMetrics data)
               = AnalyticsEngine.getPassRate data /\
               AnalyticsEngine.failRate (AnalyticsEngine.calculateMetrics data)
               = AnalyticsEngine.getFailRate data).
  { destruct data as [|d data]; [congruence|]. split; reflexivity. }
  destruct Hm as [-> ->].
  pose proof (passRate_range data) as Hp.
  split; [|split; [exact Hp|split; [reflexivity|]]].
  - destruct data as [|d data]; [congruence|].
    unfold AnalyticsEngine.getPassRate, Utils.calculatePercentage.
    change (List.length (d :: data)) with (S (List.length data)).
    rewrite count_S_nonzero. reflexivity.
  - unfold AnalyticsEngine.getFailRate, add64. cbn [add rounded].
    pose proof (rnd_complement_100 _ Hp) as E.
    rewrite round64_fin.
    + f_equal. exact (rnd_eq _ _ E).
    + rewrite E. reflexivity.
Qed.

Lemma passRate_plus_failRate_witness :
  let data := [sample_record 25 45; sample_record 45 80;
               sample_record 85 90] in
  data <> [] /\
  (AnalyticsEngine.passRate (AnalyticsEngine.calculateMetrics data)
   == 2345624805922133 # 70368744177664)%Q /\
  add64 (Fin (AnalyticsEngine.passRate (AnalyticsEngine.calculateMetrics data)))
        (Fin (AnalyticsEngine.failRate (AnalyticsEngine.calculateMetrics data)))
  = Fin 100.
Proof.
  cbv zeta.
  assert (H : [sample_record 25 45; sample_record 45 80; sample_record 85 90]
              <> []) by discriminate.
  split; [exact H|]. split; [vm_compute; reflexivity|].
  exact (proj2 (proj2 (proj2 (passRate_plus_failRate _ H)))).
Defined.

(** ** The frame of the assessment *)

Lemma assessStudent_depends (s s' : obj) :
  get (lit "marks") s = get (lit "marks") s' ->
  get (lit "attendance") s = get (lit "attendance") s' ->
  RiskDetectionEngine.assessStudent s = RiskDetectionEngine.assessStudent s'.
Proof.
  intros Hm Ha.
  unfold RiskDetectionEngine.assessStudent,
    RiskDetectionEngine.calculateRiskScore, RiskDetectionEngine.getRiskFactors,
    RiskDetectionEngine.rule_sum, RiskDetectionEngine.rules,
    RiskDetectionEngine.marks_or_0, RiskDetectionEngine.attendance_or_0.
  cbn [fold_left RiskDetectionEngine.check RiskDetectionEngine.weight].
  rewrite Hm, Ha. reflexivity.
Qed.

Lemma with_assessment_frame (student : obj) (k : str) :
  ~ In k risk_keys ->
  get k (RiskDetectionEngine.with_assessment student) = get k student.
Proof.
  intros Hk. unfold RiskDetectionEngine.with_assessment.
  rewrite !get_set_neq; [reflexivity| | |];
    intros <-; apply Hk; simpl; auto.
Qed.

(** C10.  [assessAllStudents] keeps the length and the order of its
    input; the i-th output agrees with the i-th input on every field
    other than riskScore, riskLevel and riskFactors, and these three are
    the assessment of that input alone, which is the same for any record
    with the same marks and attendance. *)
Theorem assessAllStudents_frame (students : list obj) :
  List.length (RiskDetectionEngine.assessAllStudents students)
  = List.length students /\
  forall (i : nat) (student : obj),
    nth_error students i = Some student ->
    exists out : obj,
      nth_error (RiskDetectionEngine.assessAllStudents students) i = Some out /\
      (forall k : str, ~ In k risk_keys -> get k out = get k student) /\
      (forall other : obj,
         get (lit "marks") other = get (lit "marks") student ->
         get (lit "attendance") other = get (lit "attendance") student ->
         let a := RiskDetectionEngine.assessStudent other in
         get (lit "riskScore") out = VNum (RiskDetectionEngine.riskScore a) /\
         get (lit "riskLevel") out = VStr (RiskDetectionEngine.riskLevel a) /\
         get (lit "riskFactors") out = VArr (RiskDetectionEngine.factors a)).
Proof.
  unfold RiskDetectionEngine.assessAllStudents. split.
  - apply length_map.
  - intros i student Hi.
    exists (RiskDetectionEngine.with_assessment student). split.
    + rewrite nth_error_map, Hi. reflexivity.
    + split.
      * intros k. apply with_assessment_frame.
      * intros other Hm Ha. cbv zeta.
        rewrite (assessStudent_depends other student Hm Ha).
        unfold RiskDetectionEngine.with_assessment.
        rewrite get_set_neq by discriminate.
        rewrite get_set_neq by discriminate.
        rewrite get_set_eq.
        rewrite get_set_neq by discriminate.
        rewrite !get_set_eq. auto.
Qed.

Lemma assessAllStudents_frame_witness :
  exists out : obj,
    nth_error (RiskDetectionEngine.assessAllStudents
                 [sample_record 85 95; sample_record 25 45]) 1 = Some out /\
    get (lit "name") out = VStr (lit "Alice") /\
    get (lit "riskLevel") out = VStr (lit "high").
Proof.
  destruct (proj2 (assessAllStudents_frame
                     [sample_record 85 95; sample_record 25 45])
                  1%nat (sample_record 25 45) eq_refl)
    as (out & Hout & Hframe & Hrisk).
  exists out. split; [exact Hout|]. split.
  - rewrite Hframe; [reflexivity|].
    simpl. intros [H|[H|[H|[]]]]; discriminate H.
  - exact (proj1 (proj2 (Hrisk (sample_record 25 45) eq_refl eq_refl))).
Defined.

(** ** The score distribution *)

Section ScoreBands.

Import AnalyticsEngine.

Lemma has_counter_increment (k k' : str) (ranges : list (str * nat)) :
  has_counter k (increment k' ranges) = has_counter k ranges.
Proof.
  unfold has_counter.
  induction ranges as [|[k0 n] r IH]; simpl; [reflexivity|].
  destruct (Str.eqb k0 k'); simpl; [reflexivity|]. now rewrite IH.
Qed.

Lemma counter_increment (k k' : str) (ranges : list (str * nat)) :
  has_counter k ranges = true ->
  counter k (increment k' ranges)
  = ((if Str.eqb k' k then 1 else 0) + counter k ranges)%nat.
Proof.
  unfold has_counter.
  induction ranges as [|[k0 n] r IH]; simpl; [discriminate|].
  intros H. destruct (Str.eqb k0 k') eqn:E0; simpl.
  - apply str_eqb_eq in E0. subst k0.
    destruct (Str.eqb k' k); reflexivity.
  - destruct (Str.eqb k0 k) eqn:E1; simpl in *.
    + apply str_eqb_eq in E1. subst k0. rewrite str_eqb_neq; [reflexivity|].
      intros ->. rewrite str_eqb_refl in E0. discriminate.
    + now apply IH.
Qed.

Lemma in_band_cons (band : str) (d : obj) (data : list obj) :
  in_band band (d :: data)
  = ((if Str.eqb (score_band (RiskDetectionEngine.marks_or_0 d)) band
      then 1 else 0) + in_band band data)%nat.
Proof.
  unfold in_band. simpl.
  destruct (Str.eqb (score_band (RiskDetectionEngine.marks_or_0 d)) band);
    reflexivity.
Qed.

Lemma counter_distribution (band : str) (data : list obj) :
  forall ranges : list (str * nat),
    has_counter band ranges = true ->
    counter band
      (fold_left
         (fun ranges d =>
            increment (score_band (RiskDetectionEngine.marks_or_0 d)) ranges)
         data ranges)
    = (counter band ranges + in_band band data)%nat.
Proof.
  induction data as [|d data IH]; intros ranges H; simpl.
  - unfold in_band. simpl. lia.
  - rewrite IH by now rewrite has_counter_increment.
    rewrite counter_increment by exact H. rewrite in_band_cons. lia.
Qed.

Lemma score_band_cases (v : value) :
  score_band v = lit "0-20" \/ score_band v = lit "21-40" \/
  score_band v = lit "41-60" \/ score_band v = lit "61-80" \/
  score_band v = lit "81-100".
Proof.
  unfold score_band.
  destruct (le_num v (Fin 20)); [auto|].
  destruct (le_num v (Fin 40)); [auto|].
  destruct (le_num v (Fin 60)); [auto|].
  destruct (le_num v (Fin 80)); auto 6.
Qed.

Lemma in_band_total (data : list obj) :
  fold_right plus 0%nat (map (fun band => in_band band data) band_labels)
  = List.length data.
Proof.
  unfold band_labels. cbn [map fold_right].
  induction data as [|d data IH]; [reflexivity|].
  rewrite !in_band_cons. cbn [List.length]. rewrite <- IH.
  destruct (score_band_cases (RiskDetectionEngine.marks_or_0 d))
    as [H|[H|[H|[H|H]]]]; rewrite H;
    repeat match goal with
           | |- context [Str.eqb (lit ?a) (lit ?b)] =>
               let v := eval vm_compute in (Str.eqb (lit a) (lit b)) in
               change (Str.eqb (lit a) (lit b)) with v
           end; cbv iota; lia.
Qed.

Lemma le_or0 (q c : Q) :
  le_num (or_else (VNum (Fin q)) (VNum (Fin 0))) (Fin c) = Qle_bool q c.
Proof.
  unfold le_num, or_else. simpl.
  destruct (Qeq_bool q 0) eqn:E; simpl; [|reflexivity].
  apply Qeq_bool_iff in E.
  destruct (Qle_bool 0 c) eqn:E0, (Qle_bool q c) eqn:E1; try reflexivity;
    exfalso.
  - apply Qle_bool_iff in E0.
    assert (H : ~ (q <= c)%Q) by (rewrite <- Qle_bool_iff; congruence). lra.
  - apply Qle_bool_iff in E1.
    assert (H : ~ (0 <= c)%Q) by (rewrite <- Qle_bool_iff; congruence). lra.
Qed.

Lemma score_band_numeric (d : obj) (q : Q) :
  get (lit "marks") d = VNum (Fin q) ->
  let band := score_band (RiskDetectionEngine.marks_or_0 d) in
  (band = lit "0-20" <-> (q <= 20)%Q) /\
  (band = lit "21-40" <-> (20 < q <= 40)%Q) /\
  (band = lit "41-60" <-> (40 < q <= 60)%Q) /\
  (band = lit "61-80" <-> (60 < q <= 80)%Q) /\
  (band = lit "81-100" <-> (80 < q)%Q).
Proof.
  intros Hm. unfold RiskDetectionEngine.marks_or_0, score_band.
  rewrite Hm, !le_or0. cbv zeta.
  destruct (Qle_bool q 20) eqn:E1; [|destruct (Qle_bool q 40) eqn:E2;
    [|destruct (Qle_bool q 60) eqn:E3; [|destruct (Qle_bool q 80) eqn:E4]]];
    repeat match goal with
           | H : Qle_bool _ _ = true |- _ => apply Qle_bool_iff in H
           | H : Qle_bool ?a ?b = false |- _ =>
               assert (~ (a <= b)%Q) by (rewrite <- Qle_bool_iff; congruence);
               clear H
           end;
    repeat split; intros; try reflexivity; try discriminate; try lra.
Qed.

End ScoreBands.

(** C8.  In the score distribution every record is counted once, in the
    band its score selects among 0-20, 21-40, 41-60, 61-80 and 81-100:
    the counter of a band is the number of records of that band and the
    five counters add up to the number of records.  The upper boundary
    of a band belongs to it: a score up to 20 is in 0-20, one above 20
    and up to 40 in 21-40, and so on; marks of exactly 20 are counted in
    0-20 and not in 21-40, marks of exactly 40 in 21-40 and not in
    41-60. *)
Theorem scoreDistribution_bands (data : list obj) :
  let dist := AnalyticsEngine.getScoreDistribution data in
  NoDup band_labels /\
  (forall d : obj,
     In (AnalyticsEngine.score_band (RiskDetectionEngine.marks_or_0 d))
        band_labels) /\
  (forall band : str,
     In band band_labels ->
     AnalyticsEngine.counter band dist = in_band band data) /\
  band_total dist = List.length data /\
  (forall (d : obj) (q : Q),
     get (lit "marks") d = VNum (Fin q) ->
     let band :=
       AnalyticsEngine.score_band (RiskDetectionEngine.marks_or_0 d) in
     (band = lit "0-20" <-> (q <= 20)%Q) /\
     (band = lit "21-40" <-> (20 < q <= 40)%Q) /\
     (band = lit "41-60" <-> (40 < q <= 60)%Q) /\
     (band = lit "61-80" <-> (60 < q <= 80)%Q) /\
     (band = lit "81-100" <-> (80 < q)%Q)) /\
  (forall d : obj,
     get (lit "marks") d = VNum (Fin 20) ->
     AnalyticsEngine.score_band (RiskDetectionEngine.marks_or_0 d)
     = lit "0-20") /\
  (forall d : obj,
     get (lit "marks") d = VNum (Fin 40) ->
     AnalyticsEngine.score_band (RiskDetectionEngine.marks_or_0 d)
     = lit "21-40").
Proof.
  assert (Hcount : forall band : str,
             In band band_labels ->
             AnalyticsEngine.counter band
               (AnalyticsEngine.getScoreDistribution data)
             = in_band band data).
  { intros band Hin. unfold AnalyticsEngine.getScoreDistribution.
    rewrite counter_distribution.
    - simpl in Hin.
      destruct Hin as [<-|[<-|[<-|[<-|[<-|[]]]]]]; reflexivity.
    - simpl in Hin.
      destruct Hin as [<-|[<-|[<-|[<-|[<-|[]]]]]]; reflexivity. }
  cbv zeta. repeat apply conj.
  - repeat constructor; simpl; intuition discriminate.
  - intros d. simpl.
    destruct (score_band_cases (RiskDetectionEngine.marks_or_0 d))
      as [H|[H|[H|[H|H]]]]; rewrite H; auto 6.
  - exact Hcount.
  - unfold band_total. rewrite <- (in_band_total data).
    simpl. rewrite !Hcount; simpl; auto 6.
  - exact score_band_numeric.
  - intros d H. apply (score_band_numeric d 20 H). lra.
  - intros d H. apply (score_band_numeric d 40 H). lra.
Qed.

Lemma scoreDistribution_bands_witness :
  AnalyticsEngine.counter (lit "0-20")
    (AnalyticsEngine.getScoreDistribution
       [sample_record 20 90; sample_record 40 90; sample_record 21 90])
  = 1%nat /\
  AnalyticsEngine.counter (lit "21-40")
    (AnalyticsEngine.getScoreDistribution
       [sample_record 20 90; sample_record 40 90; sample_record 21 90])
  = 2%nat.
Proof.
  pose proof (scoreDistribution_bands
                [sample_record 20 90; sample_record 40 90; sample_record 21 90])
    as (_ & _ & Hcount & _).
  split.
  - rewrite Hcount; [reflexivity|simpl; auto].
  - rewrite Hcount; [reflexivity|simpl; auto].
Defined.

(** ** The parser: ranges of marks and attendance *)

Section ParserRanges.

Import CSVParser.

Variable now : nat -> N.

Lemma normalizeScore_range (v : value) :
  exists q : Q, normalizeScore v = VNum (Fin q) /\ (0 <= q <= 100)%Q.
Proof.
  assert (Hclamp : forall x : num, isNaN x = false ->
            exists q : Q, Num.max (Fin 0) (Num.min (Fin 100) x) = Fin q /\
                          (0 <= q <= 100)%Q).
  { intros [|[]|y] Hx; try discriminate; simpl.
    - exists 0%Q. split; [reflexivity|lra].
    - exists (Qmax 0 100). split; [reflexivity|].
      split; [apply Q.le_max_l|apply Q.max_lub; lra].
    - exists (Qmax 0 (Qmin 100 y)). split; [reflexivity|].
      split; [apply Q.le_max_l|].
      apply Q.max_lub; [lra|apply Q.le_min_l]. }
  assert (Hnorm : forall x : num,
            exists q : Q,
              VNum (Num.max (Fin 0)
                      (Num.min (Fin 100) (if isNaN x then Fin 0 else x)))
              = VNum (Fin q) /\ (0 <= q <= 100)%Q).
  { intros x.
    destruct (Hclamp (if isNaN x then Fin 0 else x)) as (q & Hq & Hr).
    - destruct x; reflexivity.
    - exists q. now rewrite Hq. }
  destruct v; unfold normalizeScore;
    try (exists 0%Q; split; [reflexivity|lra]); apply Hnorm.
Qed.

Lemma validateAndTransformRow_fields (row row' : obj) (n : nat)
    (errs errs' : list str) :
  validateAndTransformRow now row n errs = (Some row', errs') ->
  errs' = errs /\
  (exists row0 : obj,
     get (lit "marks") row' = normalizeScore (get (lit "marks") row0)) /\
  (exists row1 : obj,
     get (lit "attendance") row' = normalizeScore (get (lit "attendance") row1)).
Proof.
  unfold validateAndTransformRow.
  destruct (negb (truthy (get (lit "studentId") row)) &&
            negb (truthy (get (lit "name") row))); [discriminate|].
  intros H. injection H as <- <-. split; [reflexivity|]. split.
  - eexists.
    rewrite get_set_neq by discriminate.
    rewrite !get_set_if_missing_neq by discriminate.
    rewrite get_set_neq by discriminate.
    rewrite get_set_eq. reflexivity.
  - eexists.
    rewrite get_set_neq by discriminate.
    rewrite !get_set_if_missing_neq by discriminate.
    rewrite get_set_eq. reflexivity.
Qed.

Lemma validateAndTransformRow_rejects (row : obj) (n : nat)
    (errs errs' : list str) :
  validateAndTransformRow now row n errs = (None, errs') ->
  exists message : str, errs' = errs ++ [message].
Proof.
  unfold validateAndTransformRow.
  destruct (negb (truthy (get (lit "studentId") row)) &&
            negb (truthy (get (lit "name") row))); [|discriminate].
  intros H. injection H as <-. eexists. reflexivity.
Qed.

Lemma validated_in_range (row row' : obj) (n : nat) (errs errs' : list str) :
  validateAndTransformRow now row n errs = (Some row', errs') ->
  percent_field "marks" row' /\ percent_field "attendance" row'.
Proof.
  intros H. apply validateAndTransformRow_fields in H.
  destruct H as (_ & (r0 & H0) & (r1 & H1)). unfold percent_field.
  rewrite H0, H1. split; apply normalizeScore_range.
Qed.

(** What one iteration of the loop does to [data] and to the errors. *)
Lemma parse_row_step (headers : list str) (i : nat) (line : str)
    (data : list obj) (errs : list str) :
  (exists row : obj,
     parse_row now headers i line (data, errs) = (data ++ [row], errs) /\
     percent_field "marks" row /\ percent_field "attendance" row) \/
  (exists message : str,
     parse_row now headers i line (data, errs) = (data, errs ++ [message])).
Proof.
  unfold parse_row.
  destruct (negb (List.length (parseCSVLine line) =? List.length headers)%nat).
  - right. eexists. reflexivity.
  - destruct (validateAndTransformRow now
                (build_row headers (parseCSVLine line)) (i + 1) errs)
      as [[row'|] errs'] eqn:E.
    + left. exists row'.
      pose proof (validated_in_range _ _ _ _ _ E) as Hr.
      apply validateAndTransformRow_fields in E. destruct E as (-> & _).
      split; [reflexivity|exact Hr].
    + right. apply validateAndTransformRow_rejects in E.
      destruct E as (message & ->). eexists. reflexivity.
Qed.

Lemma parse_rows_invariant (headers : list str) (lines : list str) :
  forall (i : nat) (data : list obj) (errs : list str),
    Forall (fun r => percent_field "marks" r /\ percent_field "attendance" r)
           data ->
    let out := parse_rows now headers i lines (data, errs) in
    Forall (fun r => percent_field "marks" r /\ percent_field "attendance" r)
           (fst out) /\
    (List.length (fst out) + List.length (snd out)
     = List.length data + List.length errs + List.length lines)%nat.
Proof.
  induction lines as [|line rest IH]; intros i data errs Hd;
    cbv zeta; cbn [parse_rows].
  - cbn [fst snd List.length]. split; [exact Hd|lia].
  - destruct (parse_row_step headers i line data errs)
      as [(row & -> & Hrow)|(message & ->)].
    + destruct (IH (S i) (data ++ [row]) errs) as (H1 & H2).
      * apply Forall_app. split; [exact Hd|]. constructor; [exact Hrow|constructor].
      * split; [exact H1|]. rewrite H2, length_app. cbn [List.length]. lia.
    + destruct (IH (S i) data (errs ++ [message]) Hd) as (H1 & H2).
      split; [exact H1|]. rewrite H2, length_app. cbn [List.length]. lia.
Qed.

(** The result of [parseCSV] in terms of the lines and the survivors. *)
Lemma parseCSV_unfold (csv : str) (this : t) :
  parseCSV now csv this =
  match nonblank_lines csv with
  | [] | [_] =>
      (Throw (Error (lit "CSV must have at least a header row and one data row")),
       this)
  | _ :: _ :: _ =>
      let '(data, errs) := survivors now csv in
      let this' := {| rawData := rawData this; parsedData := parsedData this;
                      errors := errs |} in
      match errs, data with
      | _ :: _, [] =>
          (Throw (Error (lit "Failed to parse CSV: " ++ join (lit "; ") errs)),
           this')
      | _, _ => (Ok data, this')
      end
  end.
Proof.
  unfold parseCSV, survivors, header_names.
  destruct (nonblank_lines csv) as [|header [|row rows]]; reflexivity.
Qed.

Lemma survivors_invariant (csv : str) :
  Forall (fun r => percent_field "marks" r /\ percent_field "attendance" r)
         (fst (survivors now csv)) /\
  (List.length (fst (survivors now csv)) + List.length (snd (survivors now csv))
   = List.length (tl (nonblank_lines csv)))%nat.
Proof.
  unfold survivors.
  destruct (parse_rows_invariant (header_names csv) (tl (nonblank_lines csv))
              1 [] [] (Forall_nil _)) as (H1 & H2).
  split; [exact H1|exact H2].
Qed.

End ParserRanges.

Section ParserScores.

Import CSVParser.

Variable now : nat -> N.

(** The normalisation gives the specified score. *)
Lemma normalizeScore_specified (cell : value) :
  (forall l : list str, cell <> VArr l) ->
  exists q : Q,
    normalizeScore cell = VNum (Fin q) /\ (q == specified_score cell)%Q.
Proof.
  intros Harr.
  assert (Hnum : forall x : num,
            exists q : Q,
              VNum (Num.max (Fin 0)
                      (Num.min (Fin 100) (if isNaN x then Fin 0 else x)))
              = VNum (Fin q) /\ (q == clamped_number x)%Q).
  { intros [|[]|y]; cbn [isNaN Num.min Num.max clamped_number].
    - exists (Qmax 0 (Qmin 100 0)). split; [reflexivity|]. reflexivity.
    - exists 0%Q. split; reflexivity.
    - exists (Qmax 0 100). split; reflexivity.
    - eexists. split; reflexivity. }
  destruct cell as [| |n|s|l]; unfold normalizeScore.
  - exists 0%Q. split; reflexivity.
  - exists 0%Q. split; reflexivity.
  - apply Hnum.
  - cbn [parseFloat_value to_string specified_score]. apply Hnum.
  - exfalso. now apply (Harr l).
Qed.

(** The cells of a row are what [cleanValue] returns: no arrays. *)
Lemma cleanValue_not_array (text : str) (l : list str) :
  cleanValue text <> VArr l.
Proof.
  unfold cleanValue.
  repeat match goal with
         | |- context [if ?b then _ else _] => destruct b
         | |- context [match ?x with _ => _ end] => destruct x
         end; discriminate.
Qed.

Lemma build_row_not_array (headers values : list str) (k : str)
    (l : list str) :
  get k (build_row headers values) <> VArr l.
Proof.
  unfold build_row.
  assert (H : forall (pairs : list (str * str)) (row : obj),
            get k row <> VArr l ->
            get k (fold_left
                     (fun row hv => set (fst hv) (cleanValue (snd hv)) row)
                     pairs row) <> VArr l).
  { induction pairs as [|[h v] pairs IH]; intros row Hrow; cbn [fold_left].
    - exact Hrow.
    - apply IH. cbn [fst snd].
      destruct (list_eq_dec ascii_dec k h) as [->|NE].
      + rewrite get_set_eq. apply cleanValue_not_array.
      + rewrite get_set_neq by (intros E; apply NE; now symmetry).
        exact Hrow. }
  apply H. discriminate.
Qed.

Lemma validateAndTransformRow_scores (row row' : obj) (n : nat)
    (errs errs' : list str) :
  validateAndTransformRow now row n errs = (Some row', errs') ->
  get (lit "marks") row' = normalizeScore (get (lit "marks") row) /\
  get (lit "attendance") row' = normalizeScore (get (lit "attendance") row).
Proof.
  unfold validateAndTransformRow.
  destruct (negb (truthy (get (lit "studentId") row)) &&
            negb (truthy (get (lit "name") row))); [discriminate|].
  intros H. injection H as <- <-. split.
  - rewrite get_set_neq by discriminate.
    rewrite !get_set_if_missing_neq by discriminate.
    rewrite get_set_neq by discriminate.
    rewrite get_set_eq.
    rewrite ?get_set_if_missing_neq by discriminate. reflexivity.
  - rewrite get_set_neq by discriminate.
    rewrite !get_set_if_missing_neq by discriminate.
    rewrite get_set_eq.
    rewrite ?get_set_neq by discriminate.
    rewrite ?get_set_if_missing_neq by discriminate. reflexivity.
Qed.

Lemma parse_row_made (headers : list str) (i : nat) (line : str)
    (data : list obj) (errs : list str) :
  (exists row : obj,
     parse_row now headers i line (data, errs) = (data ++ [row], errs) /\
     made_from headers [line] row) \/
  (exists message : str,
     parse_row now headers i line (data, errs) = (data, errs ++ [message])).
Proof.
  unfold parse_row.
  destruct (negb (List.length (parseCSVLine line) =? List.length headers)%nat).
  - right. eexists. reflexivity.
  - destruct (validateAndTransformRow now
                (build_row headers (parseCSVLine line)) (i + 1) errs)
      as [[row'|] errs'] eqn:E.
    + left. exists row'.
      pose proof (validateAndTransformRow_scores _ _ _ _ _ E) as [Hm Ha].
      apply validateAndTransformRow_fields in E. destruct E as (-> & _).
      split; [reflexivity|]. exists line. split; [now left|]. cbv zeta.
      unfold scored_from. rewrite Hm, Ha.
      split; apply normalizeScore_specified; intros l;
        apply build_row_not_array.
    + right. apply validateAndTransformRow_rejects in E.
      destruct E as (message & ->). eexists. reflexivity.
Qed.

Lemma made_from_more (headers : list str) (lines lines' : list str)
    (record : obj) :
  (forall line : str, In line lines -> In line lines') ->
  made_from headers lines record -> made_from headers lines' record.
Proof.
  intros Hsub (line & Hin & H). exists line. split; [now apply Hsub|exact H].
Qed.

Lemma parse_rows_made (headers : list str) (all : list str)
    (lines : list str) :
  (forall line : str, In line lines -> In line all) ->
  forall (i : nat) (data : list obj) (errs : list str),
    Forall (made_from headers all) data ->
    Forall (made_from headers all)
           (fst (parse_rows now headers i lines (data, errs))).
Proof.
  induction lines as [|line rest IH]; intros Hsub i data errs Hd;
    cbn [parse_rows].
  - exact Hd.
  - assert (Hrest : forall l : str, In l rest -> In l all)
      by (intros l Hl; apply Hsub; now right).
    destruct (parse_row_made headers i line data errs)
      as [(row & -> & Hrow)|(message & ->)].
    + apply (IH Hrest). apply Forall_app. split; [exact Hd|].
      constructor; [|constructor].
      apply (made_from_more headers [line]); [|exact Hrow].
      intros l [<-|[]]. apply Hsub. now left.
    + now apply (IH Hrest).
Qed.

Lemma survivors_made (csv : str) :
  Forall (made_from (header_names csv) (tl (nonblank_lines csv)))
         (fst (survivors now csv)).
Proof.
  unfold survivors. apply parse_rows_made; [auto|constructor].
Qed.

End ParserScores.

(** C2.  Whenever [parseCSV] succeeds, every record it returns has
    numeric marks and attendance between 0 and 100: the record was made
    from one of the data lines of the text, and its marks and its
    attendance are the numbers of the cells of that line clamped to the
    range from 0 to 100, so that 150 becomes 100 and -5 becomes 0, and
    are 0 where the cell is missing, is empty or holds a text that is
    no number. *)
Theorem parsed_marks_attendance_in_range (now : nat -> N) (csv : str)
    (this this' : CSVParser.t) (records : list obj) :
  CSVParser.parseCSV now csv this = (Ok records, this') ->
  forall record : obj,
    In record records ->
    percent_field "marks" record /\ percent_field "attendance" record /\
    made_from (header_names csv) (tl (CSVParser.nonblank_lines csv)) record.
Proof.
  rewrite parseCSV_unfold.
  destruct (CSVParser.nonblank_lines csv) as [|header [|row rows]] eqn:El;
    try discriminate.
  pose proof (survivors_invariant now csv) as (Hall & _).
  pose proof (survivors_made now csv) as Hmade. rewrite El in Hmade.
  destruct (survivors now csv) as [data errs]. cbn [fst] in Hall, Hmade.
  intros H record Hin.
  assert (Hd : records = data).
  { destruct errs, data; injection H as -> _ || discriminate H; reflexivity. }
  subst records. rewrite Forall_forall in Hall, Hmade.
  destruct (Hall _ Hin) as [Hm Ha]. split; [exact Hm|]. split; [exact Ha|].
  now apply Hmade.
Qed.

Lemma parsed_marks_attendance_in_range_witness :
  exists records : list obj,
    fst (CSVParser.parseCSV sample_clock clamping_csv CSVParser.new)
    = Ok records /\
    map (get (lit "marks")) records
    = [VNum (Fin 100); VNum (Fin 0); VNum (Fin (171 # 2))] /\
    map (get (lit "attendance")) records
    = [VNum (Fin 0); VNum (Fin 0); VNum (Fin 100)] /\
    Forall (fun r =>
              percent_field "marks" r /\ percent_field "attendance" r /\
              made_from (header_names clamping_csv)
                        (tl (CSVParser.nonblank_lines clamping_csv)) r)
           records.
Proof.
  destruct (CSVParser.parseCSV sample_clock clamping_csv CSVParser.new)
    as [[records|e] this'] eqn:E.
  - exists records. split; [reflexivity|].
    pose proof (parsed_marks_attendance_in_range _ _ _ _ _ E) as H.
    vm_compute in E. injection E as <- _.
    split; [vm_compute; reflexivity|]. split; [vm_compute; reflexivity|].
    apply Forall_forall. exact H.
  - vm_compute in E. discriminate E.
Defined.

(** What the normalisation does to a cell: an absent cell gives 0, a
    text [parseFloat] reads no number from gives 0, and a number is
    clamped to the range from 0 to 100. *)
Lemma normalizeScore_cases :
  CSVParser.normalizeScore VNull = VNum (Fin 0) /\
  CSVParser.normalizeScore VUndef = VNum (Fin 0) /\
  (forall s : str,
     parseFloat s = NaN ->
     CSVParser.normalizeScore (VStr s) = VNum (Fin 0)) /\
  (forall q : Q,
     CSVParser.normalizeScore (VNum (Fin q)) = VNum (Fin (Qmax 0 (Qmin 100 q)))).
Proof.
  repeat split.
  - intros s H. unfold CSVParser.normalizeScore, CSVParser.parseFloat_value.
    simpl to_string. rewrite H. reflexivity.
Qed.

(** ** The parser: when it throws *)

(** C3.  [parseCSV] throws exactly when the text has fewer than two
    non-blank lines or no data row survives the validation of the rows.
    Otherwise it returns the surviving rows, whether or not others were
    rejected; the messages about the rejected rows, one for each, are
    then what [getErrors] returns. *)
Theorem parseCSV_throws_exactly (now : nat -> N) (csv : str)
    (this : CSVParser.t) :
  let lines := CSVParser.nonblank_lines csv in
  let data := fst (survivors now csv) in
  let errs := snd (survivors now csv) in
  let out := CSVParser.parseCSV now csv this in
  (is_ok (fst out) = false <-> (List.length lines < 2)%nat \/ data = []) /\
  (is_ok (fst out) = true ->
   fst out = Ok data /\
   CSVParser.getErrors (snd out) = errs /\
   (List.length data + List.length errs = List.length lines - 1)%nat).
Proof.
  cbv zeta. rewrite parseCSV_unfold.
  pose proof (survivors_invariant now csv) as (_ & Hcount).
  destruct (CSVParser.nonblank_lines csv) as [|header [|row rows]].
  - simpl. split; [split; auto; intros _; left; lia|discriminate].
  - simpl. split; [split; auto; intros _; left; lia|discriminate].
  - destruct (survivors now csv) as [data errs].
    cbn [fst snd tl List.length] in *.
    destruct errs as [|e errs], data as [|d data];
      cbn [fst snd is_ok CSVParser.getErrors CSVParser.errors List.length] in *.
    + lia.
    + split; [split; [discriminate|intros [H|H]; [lia|discriminate]]|].
      intros _. repeat split. lia.
    + split; [split; auto|discriminate].
    + split; [split; [discriminate|intros [H|H]; [lia|discriminate]]|].
      intros _. repeat split. lia.
Qed.

Lemma parseCSV_throws_exactly_witness :
  is_ok (fst (CSVParser.parseCSV sample_clock one_bad_row_csv CSVParser.new))
  = true /\
  List.length (fst (survivors sample_clock one_bad_row_csv)) = 1%nat /\
  CSVParser.getErrors
    (snd (CSVParser.parseCSV sample_clock one_bad_row_csv CSVParser.new))
  = [lit "Row 3: Column count mismatch"].
Proof.
  assert (H : is_ok (fst (CSVParser.parseCSV sample_clock one_bad_row_csv
                            CSVParser.new)) = true)
    by (vm_compute; reflexivity).
  destruct (proj2 (parseCSV_throws_exactly sample_clock one_bad_row_csv
                     CSVParser.new) H) as (_ & Herrs & _).
  split; [exact H|]. split; [vm_compute; reflexivity|].
  rewrite Herrs. vm_compute. reflexivity.
Defined.

(** ** The search filter *)

Section Search.

Import FilterEngine.

Lemma startsWith_spec (s p : str) :
  startsWith s p = true <-> exists post : str, s = p ++ post.
Proof.
  revert s. induction p as [|a p IH]; intros s; simpl.
  - split; [intros _; now exists s|destruct s; reflexivity].
  - destruct s as [|b s]; simpl.
    + split; [discriminate|intros (post & H); discriminate].
    + rewrite andb_true_iff, IH. split.
      * intros (Hab & post & ->). apply Ascii.eqb_eq in Hab. subst b.
        now exists post.
      * intros (post & H). injection H as -> ->.
        split; [apply Ascii.eqb_refl|now exists post].
Qed.

Lemma includes_spec (s sub : str) :
  includes s sub = true <-> substring sub s.
Proof.
  unfold substring. induction s as [|c s IH].
  - cbn [includes]. rewrite orb_false_r, startsWith_spec. split.
    + intros (post & H). now exists [], post.
    + intros (pre & post & H). destruct pre; [now exists post|discriminate].
  - cbn [includes]. rewrite orb_true_iff, startsWith_spec, IH. split.
    + intros [(post & H)|(pre & post & H)].
      * now exists [], post.
      * exists (c :: pre), post. now rewrite H.
    + intros ([|c' pre] & post & H).
      * left. now exists post.
      * right. injection H as _ ->. now exists pre, post.
Qed.

Lemma field_includes_text (v : value) (s : str) :
  text_or_falsy v = true -> field_includes v s = Ok (text_has s v).
Proof.
  unfold field_includes, text_has, text_or_falsy.
  destruct v as [| |n|t|l]; simpl; try reflexivity.
  - intros H. apply negb_true_iff in H. simpl in H. now rewrite H.
  - destruct t; reflexivity.
  - discriminate.
Qed.

Lemma search_matches_text (s : str) (item : obj) :
  searchable item = true ->
  search_matches s item = Ok (search_selects s item).
Proof.
  unfold searchable, search_matches, search_selects.
  rewrite !andb_true_iff. intros [[Hn Hi] Hs].
  rewrite (field_includes_text _ s Hn), (field_includes_text _ s Hi),
    (field_includes_text _ s Hs). cbn [bind].
  destruct (text_has s (get (lit "name") item)); [reflexivity|].
  destruct (text_has s (get (lit "studentId") item)); reflexivity.
Qed.

Lemma filterM_pure {A} (p : A -> result bool) (q : A -> bool) (l : list A) :
  Forall (fun x => p x = Ok (q x)) l -> filterM p l = Ok (filter q l).
Proof.
  induction 1 as [|x l Hx _ IH]; simpl; [reflexivity|].
  rewrite Hx, IH. reflexivity.
Qed.

(** On records whose name, identifier and subject are strings (or
    falsy) the search filter does not throw, and it keeps exactly the
    records one of whose three texts, lower-cased, contains the search
    text. *)
Lemma search_filter_on_text (s : str) (data : list obj) :
  forallb searchable data = true ->
  filterM (search_matches s) data = Ok (filter (search_selects s) data) /\
  forall item : obj,
    search_selects s item = true <->
    exists (field : str) (t : str),
      In field [lit "name"; lit "studentId"; lit "subject"] /\
      get field item = VStr t /\ t <> [] /\ substring s (toLowerCase t).
Proof.
  intros H. split.
  - apply filterM_pure. rewrite forallb_forall in H. apply Forall_forall.
    intros item Hin. apply search_matches_text. now apply H.
  - intros item. unfold search_selects. rewrite !orb_true_iff.
    assert (Hfield : forall v : value,
               text_has s v = true <->
               exists t : str, v = VStr t /\ t <> [] /\
                               substring s (toLowerCase t)).
    { intros v. unfold text_has. destruct v as [| |n|t|l];
        try (split; [discriminate|intros (t' & Hv & _); discriminate]).
      rewrite andb_true_iff, includes_spec. split.
      - intros [Hne Hsub]. exists t. repeat split; [|exact Hsub].
        intros ->. discriminate.
      - intros (t' & Hv & Hne & Hsub). injection Hv as <-.
        split; [destruct t; [congruence|reflexivity]|exact Hsub]. }
    rewrite !Hfield. split.
    + intros [[(t & Hv & Ht)|(t & Hv & Ht)]|(t & Hv & Ht)].
      * exists (lit "name"), t. simpl. auto.
      * exists (lit "studentId"), t. simpl. auto.
      * exists (lit "subject"), t. simpl. auto 6.
    + intros (field & t & Hin & Hv & Ht). simpl in Hin.
      destruct Hin as [<-|[<-|[<-|[]]]]; eauto.
Qed.

End Search.

(** C7, at the failing input.  The text [numeric_id_csv] has the
    identifier 101, which the parser keeps as a number.  With its record
    as the data of the filter engine, the search for [bob] throws a
    TypeError: the name does not match, and the identifier has no
    [toLowerCase]. *)
Theorem search_throws_on_numeric_id (localeCompare : str -> str -> Z) :
  exists (record : obj) (this : FilterEngine.t),
    processed numeric_id_csv = [record] /\
    get (lit "studentId") record = VNum (Fin 101) /\
    FilterEngine.setData localeCompare (processed numeric_id_csv)
      FilterEngine.new = (Ok tt, this) /\
    fst (FilterEngine.setSearch localeCompare (lit "bob") this)
    = Throw (TypeError (lit "toLowerCase is not a function")).
Proof.
  eexists. eexists.
  split; [vm_compute; reflexivity|].
  split; [vm_compute; reflexivity|].
  split; [vm_compute; reflexivity|].
  vm_compute; reflexivity.
Qed.

(** ** Clearing the filters *)

Section ClearFilters.

Import FilterEngine.

Variable localeCompare : str -> str -> Z.

Lemma insert_pure_perm (c : obj -> obj -> num) (x : obj) (l : list obj) :
  Permutation (x :: l) (insert_pure c x l).
Proof.
  induction l as [|y r IH]; simpl; [apply Permutation_refl|].
  destruct (positive (c x y)); [|apply Permutation_refl].
  eapply perm_trans; [apply perm_swap|]. now apply perm_skip.
Qed.

Lemma sort_pure_perm (c : obj -> obj -> num) (l : list obj) :
  Permutation l (sort_pure c l).
Proof.
  induction l as [|x r IH]; simpl; [apply perm_nil|].
  eapply perm_trans; [apply perm_skip, IH|apply insert_pure_perm].
Qed.

Lemma insert_sorted_pure (cmp : obj -> obj -> result num)
    (c : obj -> obj -> num) (x : obj) (l : list obj) :
  (forall y : obj, In y l -> cmp x y = Ok (c x y)) ->
  insert_sorted cmp x l = Ok (insert_pure c x l).
Proof.
  induction l as [|y r IH]; intros H; simpl; [reflexivity|].
  rewrite (H y (or_introl eq_refl)). cbn [bind].
  destruct (positive (c x y)); [|reflexivity].
  rewrite IH; [reflexivity|]. intros z Hz. apply H. now right.
Qed.

Lemma sort_with_pure (cmp : obj -> obj -> result num)
    (c : obj -> obj -> num) (l : list obj) :
  (forall a b : obj, In a l -> In b l -> cmp a b = Ok (c a b)) ->
  sort_with cmp l = Ok (sort_pure c l).
Proof.
  induction l as [|x r IH]; intros H; simpl; [reflexivity|].
  rewrite IH by (intros a b Ha Hb; apply H; now right). cbn [bind].
  apply insert_sorted_pure. intros y Hy. apply H; [now left|right].
  eapply Permutation_in; [apply Permutation_sym, sort_pure_perm|exact Hy].
Qed.

Section Ordered.

Variable c : obj -> obj -> num.

(** A comparator that never places each of two elements after the
    other. *)
Hypothesis c_asym :
  forall a b : obj, positive (c a b) = true -> positive (c b a) = false.

Lemma insert_pure_sorted (x : obj) (l : list obj) :
  Sorted (not_after c) l -> Sorted (not_after c) (insert_pure c x l).
Proof.
  induction l as [|y r IH]; intros Hs; simpl.
  - repeat constructor.
  - destruct (positive (c x y)) eqn:E.
    + apply Sorted_inv in Hs. destruct Hs as (Hr & Hhd).
      constructor; [now apply IH|].
      destruct r as [|z r]; simpl.
      * constructor. now apply c_asym.
      * destruct (positive (c x z)).
        -- constructor. now inversion Hhd.
        -- constructor. now apply c_asym.
    + constructor; [exact Hs|]. constructor. exact E.
Qed.

Lemma sort_pure_sorted (l : list obj) : Sorted (not_after c) (sort_pure c l).
Proof.
  induction l as [|x r IH]; simpl; [constructor|].
  now apply insert_pure_sorted.
Qed.

End Ordered.

Lemma Sorted_weaken (R R' : obj -> obj -> Prop) (l : list obj) :
  (forall a b : obj, R a b -> R' a b) -> Sorted R l -> Sorted R' l.
Proof.
  intros HR. induction 1 as [|x l _ IH Hhd]; constructor; [exact IH|].
  destruct Hhd; constructor. now apply HR.
Qed.

Lemma compare_by_name (a b : obj) :
  text_name a = true -> text_name b = true ->
  compare_by localeCompare default_sort a b = Ok (by_name localeCompare a b).
Proof.
  assert (Hkey : forall item : obj,
             text_name item = true ->
             toLowerCase_of (or_else (get (lit "name") item) (VStr []))
             = Ok (name_key item)).
  { intros item. unfold text_name, name_key, text_or_falsy, or_else.
    destruct (get (lit "name") item) as [| |n|t|l]; simpl; try reflexivity.
    - intros H. apply negb_true_iff in H. simpl in H. now rewrite H.
    - intros _. destruct t; reflexivity.
    - discriminate. }
  intros Ha Hb. unfold compare_by, by_name.
  change (Str.eqb (key default_sort) (lit "name")) with true.
  cbv iota. rewrite (Hkey a Ha), (Hkey b Hb). reflexivity.
Qed.

Lemma do_calls_originalData (cs : list call) (this : t) :
  originalData (do_calls localeCompare cs this) = originalData this.
Proof.
  revert this. induction cs as [|c cs IH]; intros this; [reflexivity|].
  unfold do_calls in *. cbn [fold_left]. rewrite IH.
  destruct c; cbn [do_call]; unfold setSearch, setSubjectFilter,
    setSemesterFilter, setRiskFilter, setSort, applyFilters;
    match goal with
    | |- context [filtered_view ?l ?x] => destruct (filtered_view l x)
    end; reflexivity.
Qed.

(** Whatever the state, [clearFilters] leaves the default query state
    and the base set in place; and when every name of the base set is a
    string (or falsy) it does not throw and the filtered data are the
    whole base set in the order of the stable sort by lower-cased
    name. *)
Lemma clearFilters_on_text_names (this : t) :
  let this' := snd (clearFilters localeCompare this) in
  currentFilters this' = default_filters /\
  currentSort this' = default_sort /\
  originalData this' = originalData this /\
  (forallb text_name (originalData this) = true ->
   fst (clearFilters localeCompare this) = Ok tt /\
   getFilteredData this'
   = sort_pure (by_name localeCompare) (originalData this) /\
   Permutation (originalData this) (getFilteredData this') /\
   ((forall x y : str, 0 < localeCompare x y -> localeCompare y x <= 0) ->
    Sorted (fun a b => localeCompare (name_key a) (name_key b) <= 0)
           (getFilteredData this'))).
Proof.
  cbv zeta. unfold clearFilters, applyFilters.
  assert (Hview : filtered_view localeCompare
                    (with_sort (with_filters this default_filters) default_sort)
                  = sort_with (compare_by localeCompare default_sort)
                              (originalData this)) by reflexivity.
  rewrite Hview.
  destruct (sort_with (compare_by localeCompare default_sort)
                      (originalData this)) as [view|e] eqn:E;
    cbn [fst snd currentFilters currentSort originalData getFilteredData
         filteredData with_sort with_filters];
    (split; [reflexivity|]; split; [reflexivity|]; split; [reflexivity|]);
    intros Htext;
    rewrite (sort_with_pure _ (by_name localeCompare)) in E
      by (rewrite forallb_forall in Htext;
          intros a b Ha Hb; apply compare_by_name; now apply Htext);
    [|discriminate].
  injection E as <-. split; [reflexivity|]. split; [reflexivity|].
  split; [apply sort_pure_perm|].
  intros Hasym.
  assert (Hpos : forall a b : obj,
             positive (by_name localeCompare a b) = true <->
             0 < localeCompare (name_key a) (name_key b)).
  { intros a b. unfold positive, by_name, of_Z. cbn [Num.ltb].
    rewrite Qltb_lt. change 0%Q with (inject_Z 0).
    rewrite <- Zlt_Qlt. reflexivity. }
  eapply Sorted_weaken; [|apply (sort_pure_sorted (by_name localeCompare))].
  - intros a b Hab. unfold not_after in Hab.
    destruct (Z_lt_le_dec 0 (localeCompare (name_key a) (name_key b)))
      as [Hlt|Hle]; [|exact Hle].
    apply Hpos in Hlt. congruence.
  - intros a b Hab. apply Hpos in Hab.
    destruct (positive (by_name localeCompare b a)) eqn:E; [|reflexivity].
    apply Hpos in E. specialize (Hasym _ _ Hab). lia.
Qed.

(** The same after any sequence of setter calls on an engine that was
    given the base set: the calls leave no trace once the filters are
    cleared. *)
Lemma clearFilters_after_calls (base : list obj) (cs : list call) :
  let this :=
    do_calls localeCompare cs (snd (setData localeCompare base new)) in
  let this' := snd (clearFilters localeCompare this) in
  currentFilters this' = default_filters /\
  currentSort this' = default_sort /\
  originalData this' = base /\
  (forallb text_name base = true ->
   fst (clearFilters localeCompare this) = Ok tt /\
   getFilteredData this' = sort_pure (by_name localeCompare) base /\
   Permutation base (getFilteredData this')).
Proof.
  cbv zeta.
  set (this := do_calls localeCompare cs (snd (setData localeCompare base new))).
  assert (Hbase : originalData this = base).
  { subst this. rewrite do_calls_originalData. unfold setData, applyFilters.
    match goal with
    | |- context [filtered_view ?l ?x] => destruct (filtered_view l x)
    end; reflexivity. }
  destruct (clearFilters_on_text_names this) as (Hf & Hs & Ho & Htext).
  rewrite Hbase in *. repeat split; try assumption;
    now destruct (Htext H) as (? & ? & ? & _).
Qed.

End ClearFilters.

(** C9, at the failing input.  The text [numeric_name_csv] has the
    names 42 and 7, which the parser keeps as numbers.  With its two
    records as the base set, [clearFilters] resets the query state and
    then throws a TypeError in the default sort by name, so that the
    filtered data stay empty instead of being the base set. *)
Theorem clearFilters_throws_on_numeric_names
    (localeCompare : str -> str -> Z) :
  let base := processed numeric_name_csv in
  let this := snd (FilterEngine.setData localeCompare base FilterEngine.new) in
  let out := FilterEngine.clearFilters localeCompare this in
  List.length base = 2%nat /\
  map (get (lit "name")) base = [VNum (Fin 42); VNum (Fin 7)] /\
  FilterEngine.originalData (snd out) = base /\
  FilterEngine.currentFilters (snd out) = FilterEngine.default_filters /\
  FilterEngine.currentSort (snd out) = FilterEngine.default_sort /\
  fst out = Throw (TypeError (lit "toLowerCase is not a function")) /\
  FilterEngine.getFilteredData (snd out) = [].
Proof.
  vm_compute. repeat split.
Qed.

(** ** Export and parse: cells and lines *)

Section Tokenizer.

Import CSVParser CsvExport.


Lemma no_special_cons (c : ascii) (t : str) :
  no_special (c :: t) = true ->
  Ascii.eqb c quote = false /\ Ascii.eqb c comma = false /\
  no_special t = true.
Proof.
  unfold no_special, has_char. cbn [existsb].
  rewrite !negb_orb, !andb_true_iff, !negb_true_iff.
  intros [[H1 H2] [H3 H4]].
  rewrite Ascii.eqb_sym in H1. rewrite Ascii.eqb_sym in H3.
  rewrite H2, H4. auto.
Qed.

(** A text without commas and quotes is taken over as it is. *)
Lemma loop_plain (t rest cur : str) (vals : list str) :
  no_special t = true ->
  parseCSVLine_loop (t ++ rest) cur false vals
  = parseCSVLine_loop rest (cur ++ t) false vals.
Proof.
  revert cur. induction t as [|c t IH]; intros cur H.
  - now rewrite app_nil_r.
  - apply no_special_cons in H. destruct H as (Hq & Hc & Ht).
    cbn [app parseCSVLine_loop]. rewrite Hq, Hc. cbn [andb].
    rewrite IH by exact Ht. now rewrite <- app_assoc.
Qed.

(** Inside quotes: the doubled quotes of a text up to the closing
    quote give the text. *)
Lemma loop_quoted (t rest cur : str) (vals : list str) :
  starts_with_quote rest = false ->
  parseCSVLine_loop (double_quotes t ++ quote :: rest) cur true vals
  = parseCSVLine_loop rest (cur ++ t) false vals.
Proof.
  intros Hrest. revert cur. induction t as [|c t IH]; intros cur.
  - cbn [double_quotes flat_map app parseCSVLine_loop].
    rewrite Ascii.eqb_refl, app_nil_r.
    destruct rest as [|n rest']; [reflexivity|].
    cbn [starts_with_quote] in Hrest. rewrite Hrest. reflexivity.
  - unfold double_quotes in *. cbn [flat_map].
    destruct (Ascii.eqb c quote) eqn:E.
    + apply Ascii.eqb_eq in E. subst c.
      cbn [app parseCSVLine_loop]. rewrite Ascii.eqb_refl. cbn [andb].
      rewrite IH. now rewrite <- app_assoc.
    + cbn [app parseCSVLine_loop]. rewrite E.
      rewrite andb_false_r. rewrite IH. now rewrite <- app_assoc.
Qed.

(** One exported cell, followed by the end of the line or a comma. *)
Lemma loop_cell (t rest cur : str) (vals : list str) :
  starts_with_quote rest = false ->
  parseCSVLine_loop (quote_cell t ++ rest) cur false vals
  = parseCSVLine_loop rest (cur ++ t) false vals.
Proof.
  intros Hrest. unfold quote_cell.
  destruct (has_char comma t || has_char quote t) eqn:E.
  - cbn [app parseCSVLine_loop]. rewrite Ascii.eqb_refl. cbn [andb negb].
    rewrite <- app_assoc. cbn [app].
    destruct (double_quotes t ++ quote :: rest) eqn:Ed.
    + destruct (double_quotes t); discriminate.
    + rewrite <- Ed. now apply loop_quoted.
  - apply loop_plain. unfold no_special.
    apply orb_false_iff in E. destruct E as [-> ->]. reflexivity.
Qed.

Lemma loop_line (ts : list str) :
  ts <> [] ->
  forall vals : list str,
    parseCSVLine_loop (join [comma] (map quote_cell ts)) [] false vals
    = vals ++ map trim ts.
Proof.
  induction ts as [|t ts IH]; [congruence|]. intros _ vals.
  destruct ts as [|t' ts].
  - cbn [map join]. rewrite <- (app_nil_r (quote_cell t)).
    rewrite loop_cell by reflexivity. reflexivity.
  - change (join [comma] (map quote_cell (t :: t' :: ts)))
      with (quote_cell t ++ comma :: join [comma] (map quote_cell (t' :: ts))).
    rewrite loop_cell by reflexivity.
    cbn [parseCSVLine_loop app].
    change (Ascii.eqb comma quote) with false.
    rewrite Ascii.eqb_refl. cbn [andb negb].
    rewrite IH by discriminate. cbn [map]. now rewrite <- app_assoc.
Qed.

(** The tokenizer undoes the quoting of the export: the cells of an
    exported line are the texts that were exported, trimmed. *)
Lemma parseCSVLine_quote_cells (ts : list str) :
  ts <> [] ->
  parseCSVLine (join [comma] (map quote_cell ts)) = map trim ts.
Proof. intros H. unfold parseCSVLine. now rewrite loop_line. Qed.

End Tokenizer.

Section Lines.

Import CSVParser CsvExport.







Lemma forallb_rev {A} (f : A -> bool) (l : list A) :
  forallb f (rev l) = forallb f l.
Proof.
  induction l as [|x l IH]; [reflexivity|].
  simpl. rewrite forallb_app, IH. simpl. rewrite andb_true_r. apply andb_comm.
Qed.





End Lines.

Section Rows.

Import CSVParser CsvExport.

Variable now : nat -> N.




End Rows.

Section ExportedText.

Import CSVParser CsvExport.

Variable now : nat -> N.




















End ExportedText.

(** ** Export and parse: the texts of numbers *)

Section NumberText.

Lemma clean_text_forallb (t : str) : clean_text t = forallb clean_char t.
Proof.
  unfold clean_text, no_special, no_newline, has_char, clean_char.
  induction t as [|c t IH]; [reflexivity|].
  cbn [existsb forallb]. rewrite <- IH.
  rewrite (Ascii.eqb_sym CSVParser.comma c), (Ascii.eqb_sym CSVParser.quote c),
    (Ascii.eqb_sym newline c).
  destruct (Ascii.eqb c CSVParser.comma), (Ascii.eqb c CSVParser.quote),
    (Ascii.eqb c newline), (existsb (Ascii.eqb CSVParser.comma) t),
    (existsb (Ascii.eqb CSVParser.quote) t), (existsb (Ascii.eqb newline) t);
    reflexivity.
Qed.

Lemma clean_text_app (a b : str) :
  clean_text (a ++ b) = clean_text a && clean_text b.
Proof. rewrite !clean_text_forallb. apply forallb_app. Qed.

Lemma clean_text_cons (c : ascii) (t : str) :
  clean_text (c :: t) = clean_char c && clean_text t.
Proof. now rewrite !clean_text_forallb. Qed.

Lemma clean_text_no_newline (t : str) :
  clean_text t = true -> no_newline t = true.
Proof. unfold clean_text. rewrite andb_true_iff. tauto. Qed.

Lemma clean_digit_char (d : Z) :
  0 <= d <= 9 -> clean_char (digit_char d) = true.
Proof.
  intros H.
  assert (Hd : d = 0 \/ d = 1 \/ d = 2 \/ d = 3 \/ d = 4 \/ d = 5 \/
               d = 6 \/ d = 7 \/ d = 8 \/ d = 9) by lia.
  destruct Hd as [->|[->|[->|[->|[->|[->|[->|[->|[->| ->]]]]]]]]];
    reflexivity.
Qed.

Lemma clean_nat_digits (fuel : nat) :
  forall (z : Z) (acc : str),
    clean_text acc = true -> clean_text (nat_digits fuel z acc) = true.
Proof.
  induction fuel as [|fuel IH]; intros z acc Hacc; cbn [nat_digits];
    [exact Hacc|].
  assert (Hacc' : clean_text (digit_char (z mod 10) :: acc) = true).
  { rewrite clean_text_cons, Hacc.
    rewrite clean_digit_char; [reflexivity|].
    pose proof (Z.mod_pos_bound z 10). lia. }
  destruct (z / 10 =? 0); [exact Hacc'|now apply IH].
Qed.

Lemma clean_Z_to_str (z : Z) : clean_text (Z_to_str z) = true.
Proof. unfold Z_to_str. now apply clean_nat_digits. Qed.

Lemma clean_repeat (c : ascii) (n : nat) :
  clean_char c = true -> clean_text (repeat c n) = true.
Proof.
  intros H. induction n as [|n IH]; [reflexivity|].
  cbn [repeat]. now rewrite clean_text_cons, H, IH.
Qed.

Lemma clean_firstn (n : nat) (t : str) :
  clean_text t = true -> clean_text (firstn n t) = true.
Proof.
  rewrite !clean_text_forallb. revert t.
  induction n as [|n IH]; intros [|c t]; cbn [firstn forallb]; try reflexivity.
  rewrite !andb_true_iff. intros [Hc Ht]. split; [exact Hc|now apply IH].
Qed.

Lemma clean_skipn (n : nat) (t : str) :
  clean_text t = true -> clean_text (skipn n t) = true.
Proof.
  rewrite !clean_text_forallb. revert t.
  induction n as [|n IH]; intros [|c t]; cbn [skipn forallb]; try reflexivity.
  - auto.
  - rewrite andb_true_iff. intros [_ Ht]. now apply IH.
Qed.

Lemma clean_format_decimal (v : Q) : clean_text (format_decimal v) = true.
Proof.
  unfold format_decimal.
  destruct (significant 20 1 v (decade v)) as [s k].
  pose proof (clean_Z_to_str s) as Hd.
  destruct ((k <=? decade v) && (decade v <=? 21)).
  { rewrite clean_text_app, Hd. now apply clean_repeat. }
  destruct ((0 <? decade v) && (decade v <=? 21)).
  { rewrite clean_text_app, clean_text_cons, clean_firstn, clean_skipn
      by exact Hd. reflexivity. }
  destruct ((-6 <? decade v) && (decade v <=? 0)).
  { rewrite !clean_text_cons, clean_text_app, Hd, clean_repeat by reflexivity.
    reflexivity. }
  rewrite clean_text_app. apply andb_true_intro. split.
  - destruct (Z_to_str s) as [|d [|d' r]]; exact Hd.
  - rewrite !clean_text_cons, clean_Z_to_str.
    destruct (decade v - 1 <? 0); reflexivity.
Qed.

(** The text of a number has no comma, no quote and no line feed. *)
Lemma clean_number_to_string (n : num) :
  clean_text (number_to_string n) = true.
Proof.
  destruct n as [|[]|q]; try reflexivity.
  cbn [number_to_string]. destruct (Qeq_bool q 0); [reflexivity|].
  rewrite clean_text_app, clean_format_decimal.
  destruct (Qltb q 0); reflexivity.
Qed.

End NumberText.

(** ** Export and parse: header names *)

Section HeaderNames.

Import CSVParser.

Lemma name_char_facts (c : ascii) :
  name_char c = true ->
  is_ws c = false /\ lower_char c = c /\
  (if is_alnum_lower c then c else underscore) = c /\
  clean_char c = true.
Proof.
  destruct c as [[] [] [] [] [] [] [] []]; intros H;
    try discriminate H; repeat split.
Qed.

Lemma no_double_tail (a : ascii) (t : str) : no_double (a :: t) -> no_double t.
Proof. intros H pre post E. apply (H (a :: pre) post). now rewrite E. Qed.

Lemma no_double_cons (a : ascii) (t : str) :
  no_double t ->
  first_ok t = true \/ Ascii.eqb a underscore = false ->
  no_double (a :: t).
Proof.
  intros Ht Hor [|p pre] post E.
  - cbn [app] in E. injection E as Ea Et. subst a t.
    destruct Hor as [H|H]; discriminate H.
  - cbn [app] in E. injection E as _ E. exact (Ht pre post E).
Qed.

Lemma no_double_rev (t : str) : no_double t -> no_double (rev t).
Proof.
  intros H pre post E. apply (H (rev post) (rev pre)).
  rewrite <- (rev_involutive t), E, rev_app_distr. cbn [rev].
  now rewrite <- !app_assoc.
Qed.

Lemma first_ok_collapse (s : str) :
  first_ok (collapse_underscores s) = first_ok s.
Proof.
  induction s as [|a r IH]; [reflexivity|]. cbn [collapse_underscores].
  destruct (Ascii.eqb a underscore) eqn:Ea; [|cbn [first_ok]; now rewrite Ea].
  destruct r as [|b r']; [reflexivity|].
  destruct (Ascii.eqb b underscore) eqn:Eb.
  - rewrite IH. cbn [first_ok]. now rewrite Ea, Eb.
  - cbn [first_ok]. now rewrite Ea.
Qed.

Lemma no_double_collapse (s : str) : no_double (collapse_underscores s).
Proof.
  induction s as [|a r IH].
  - intros [|p pre] post E; discriminate E.
  - cbn [collapse_underscores].
    destruct (Ascii.eqb a underscore) eqn:Ea.
    + destruct r as [|b r'].
      * intros [|p [|p' pre]] post E; discriminate E.
      * destruct (Ascii.eqb b underscore) eqn:Eb; [exact IH|].
        apply no_double_cons; [exact IH|]. left.
        rewrite first_ok_collapse. cbn [first_ok]. now rewrite Eb.
    + apply no_double_cons; [exact IH|now right].
Qed.

Lemma forallb_collapse (P : ascii -> bool) (s : str) :
  forallb P s = true -> forallb P (collapse_underscores s) = true.
Proof.
  induction s as [|a r IH]; [reflexivity|]. cbn [forallb collapse_underscores].
  rewrite andb_true_iff. intros [Ha Hr].
  destruct (Ascii.eqb a underscore).
  - destruct r as [|b r']; [cbn [forallb]; now rewrite Ha|].
    destruct (Ascii.eqb b underscore); [now apply IH|].
    cbn [forallb] in *. now rewrite Ha, IH.
  - cbn [forallb]. now rewrite Ha, IH.
Qed.

Lemma first_ok_app (a b : str) :
  a <> [] -> first_ok (a ++ b) = first_ok a.
Proof. destruct a; [congruence|reflexivity]. Qed.

(** What removing one leading underscore keeps and gives. *)
Lemma strip_leading_facts (P : ascii -> bool) (u : str) :
  forallb P u = true -> no_double u ->
  forallb P (strip_leading underscore u) = true /\
  no_double (strip_leading underscore u) /\
  first_ok (strip_leading underscore u) = true /\
  (first_ok (rev u) = true ->
   first_ok (rev (strip_leading underscore u)) = true).
Proof.
  intros HP Hnd. destruct u as [|a r]; [now repeat split|].
  cbn [strip_leading]. destruct (Ascii.eqb a underscore) eqn:Ea.
  - apply Ascii.eqb_eq in Ea. subst a.
    cbn [forallb] in HP. apply andb_true_iff in HP. destruct HP as [_ HP].
    split; [exact HP|]. split; [now apply no_double_tail in Hnd|]. split.
    + destruct r as [|b r']; [reflexivity|]. cbn [first_ok].
      destruct (Ascii.eqb b underscore) eqn:Eb; [|reflexivity].
      apply Ascii.eqb_eq in Eb. subst b. exfalso. exact (Hnd [] r' eq_refl).
    + cbn [rev]. destruct r as [|b r']; [discriminate|].
      rewrite first_ok_app; [auto|].
      cbn [rev]. destruct (rev r'); discriminate.
  - split; [exact HP|]. split; [exact Hnd|]. split; [|auto].
    cbn [first_ok]. now rewrite Ea.
Qed.

(** The name computed by the normalisation is in normal form. *)
Lemma normal_form_normalized (header : str) :
  normal_form (normalized_name header).
Proof.
  unfold normalized_name, strip_ends, strip_trailing.
  set (m := map _ (toLowerCase (trim header))).
  assert (Hm : forallb name_char m = true).
  { subst m. apply forallb_forall. intros c Hc. apply in_map_iff in Hc.
    destruct Hc as (c0 & <- & _). unfold name_char.
    destruct (is_alnum_lower c0) eqn:E; [now rewrite E|reflexivity]. }
  destruct (strip_leading_facts name_char (collapse_underscores m))
    as (H1 & H2 & H3 & _);
    [now apply forallb_collapse|apply no_double_collapse|].
  set (w := strip_leading underscore (collapse_underscores m)) in *.
  destruct (strip_leading_facts name_char (rev w)) as (H4 & H5 & H6 & H7);
    [now rewrite forallb_rev|now apply no_double_rev|].
  rewrite rev_involutive in H7. specialize (H7 H3).
  unfold normal_form. rewrite forallb_rev, rev_involutive.
  split; [exact H4|]. split; [now apply no_double_rev|]. split; assumption.
Qed.

Lemma trimStart_id (t : str) : first_char_ok t -> trimStart t = t.
Proof.
  destruct t as [|c t]; [reflexivity|]. cbn [first_char_ok trimStart].
  now intros ->.
Qed.

Lemma collapse_id (t : str) : no_double t -> collapse_underscores t = t.
Proof.
  induction t as [|a r IH]; [reflexivity|]. intros H.
  pose proof (IH (no_double_tail _ _ H)) as Hr. cbn [collapse_underscores].
  destruct (Ascii.eqb a underscore) eqn:Ea; [|now rewrite Hr].
  destruct r as [|b r']; [reflexivity|].
  destruct (Ascii.eqb b underscore) eqn:Eb; [|now rewrite Hr].
  apply Ascii.eqb_eq in Ea, Eb. subst a b. exfalso. exact (H [] r' eq_refl).
Qed.

Lemma strip_leading_id (t : str) :
  first_ok t = true -> strip_leading underscore t = t.
Proof.
  destruct t as [|c t]; [reflexivity|]. cbn [first_ok strip_leading].
  rewrite negb_true_iff. now intros ->.
Qed.

(** The normalisation leaves a name in normal form as it is. *)
Lemma normalized_normal_form (t : str) :
  normal_form t -> normalized_name (trim t) = t.
Proof.
  intros (Hc & Hnd & Hf & Hl).
  assert (Hall : forall c : ascii, In c t -> name_char c = true).
  { now apply forallb_forall. }
  assert (Hfirst : forall s : str,
             forallb name_char s = true -> first_char_ok s).
  { intros [|c s] Hs; [exact I|]. cbn [forallb] in Hs.
    apply andb_true_iff in Hs. cbn [first_char_ok].
    now apply name_char_facts. }
  assert (Htrim : trim t = t).
  { unfold trim, trimEnd. rewrite (trimStart_id t) by now apply Hfirst.
    rewrite trimStart_id by (apply Hfirst; now rewrite forallb_rev).
    apply rev_involutive. }
  unfold normalized_name. rewrite !Htrim.
  assert (Hlow : toLowerCase t = t).
  { unfold toLowerCase. rewrite <- (map_id t) at 2. apply map_ext_in.
    intros c Hin. now apply name_char_facts, Hall. }
  rewrite Hlow.
  assert (Hmap : map (fun c => if is_alnum_lower c then c else underscore) t
                 = t).
  { rewrite <- (map_id t) at 2. apply map_ext_in.
    intros c Hin. now apply name_char_facts, Hall. }
  rewrite Hmap, collapse_id by exact Hnd.
  unfold strip_ends, strip_trailing. rewrite (strip_leading_id t Hf).
  rewrite (strip_leading_id (rev t) Hl). apply rev_involutive.
Qed.

Lemma lookup_headerMap (n v : str) :
  lookup n headerMap = Some v -> In v canonical_names.
Proof.
  unfold headerMap. cbn [lookup].
  repeat match goal with
         | |- context [Str.eqb ?a n] =>
             destruct (Str.eqb a n);
             [intros H; injection H as <-; simpl; tauto|]
         end.
  discriminate.
Qed.

Lemma headerMap_or_cases (n : str) :
  (exists v : str, lookup n headerMap = Some v /\ headerMap_or n = v) \/
  headerMap_or n = lit "function Object() { [native code] }" \/
  headerMap_or n = n.
Proof.
  unfold headerMap_or. destruct (lookup n headerMap) as [v|].
  - left. now exists v.
  - destruct (Str.eqb n (lit "constructor")); [now right; left|now right; right].
Qed.

Lemma normalizeHeader_cases (header : str) :
  In (normalizeHeader header) canonical_names \/
  normalizeHeader header = lit "function Object() { [native code] }" \/
  (normal_form (normalizeHeader header) /\
   headerMap_or (normalizeHeader header) = normalizeHeader header).
Proof.
  change (normalizeHeader header) with (headerMap_or (normalized_name header)).
  pose proof (normal_form_normalized header) as Hn.
  destruct (headerMap_or_cases (normalized_name header))
    as [(v & Hv & ->)|[->| Hfix]].
  - left. eapply lookup_headerMap. exact Hv.
  - right. now left.
  - right. right. rewrite !Hfix. split; [exact Hn|reflexivity].
Qed.



End HeaderNames.

(** ** Export and parse: the records the parser returns *)

Section ParsedRecords.

Import CSVParser.

Variable now : nat -> N.

Lemma no_newline_forallb (t : str) : no_newline t = forallb not_newline t.
Proof.
  unfold no_newline, has_char, not_newline.
  induction t as [|c t IH]; [reflexivity|]. cbn [existsb forallb].
  rewrite <- IH, negb_orb, (Ascii.eqb_sym newline c). reflexivity.
Qed.

Lemma no_newline_app (a b : str) :
  no_newline (a ++ b) = no_newline a && no_newline b.
Proof. rewrite !no_newline_forallb. apply forallb_app. Qed.

Lemma forallb_trimStart_keeps (P : ascii -> bool) (s : str) :
  forallb P s = true -> forallb P (trimStart s) = true.
Proof.
  induction s as [|c s IH]; [reflexivity|]. cbn [trimStart].
  destruct (is_ws c); [|auto]. cbn [forallb]. rewrite andb_true_iff.
  intros [_ H]. now apply IH.
Qed.

Lemma forallb_trim (P : ascii -> bool) (s : str) :
  forallb P s = true -> forallb P (trim s) = true.
Proof.
  intros H. unfold trim, trimEnd. rewrite forallb_rev.
  apply forallb_trimStart_keeps. rewrite forallb_rev.
  now apply forallb_trimStart_keeps.
Qed.

Lemma forallb_strip_leading (P : ascii -> bool) (c : ascii) (s : str) :
  forallb P s = true -> forallb P (strip_leading c s) = true.
Proof.
  destruct s as [|a s]; [reflexivity|]. cbn [strip_leading].
  destruct (Ascii.eqb a c); [|auto]. cbn [forallb]. rewrite andb_true_iff.
  tauto.
Qed.

Lemma forallb_strip_ends (P : ascii -> bool) (c : ascii) (s : str) :
  forallb P s = true -> forallb P (strip_ends c s) = true.
Proof.
  intros H. unfold strip_ends, strip_trailing. rewrite forallb_rev.
  apply forallb_strip_leading. rewrite forallb_rev.
  now apply forallb_strip_leading.
Qed.

(** The cells of a line keep a property of its characters that the
    quote has. *)
Lemma forallb_parseCSVLine_loop (P : ascii -> bool) :
  P quote = true ->
  forall (fuel : nat) (line cur : str) (inQuotes : bool) (vals : list str),
    (List.length line <= fuel)%nat ->
    forallb P line = true -> forallb P cur = true ->
    Forall (fun v => forallb P v = true) vals ->
    Forall (fun v => forallb P v = true)
           (parseCSVLine_loop line cur inQuotes vals).
Proof.
  intros Hq. induction fuel as [|fuel IH];
    intros line cur inQuotes vals Hlen Hline Hcur Hvals.
  - destruct line; [|simpl in Hlen; lia]. cbn [parseCSVLine_loop].
    apply Forall_app. split; [exact Hvals|].
    constructor; [now apply forallb_trim|constructor].
  - destruct line as [|char rest]; cbn [parseCSVLine_loop].
    + apply Forall_app. split; [exact Hvals|].
      constructor; [now apply forallb_trim|constructor].
    + cbn [forallb] in Hline. apply andb_true_iff in Hline.
      destruct Hline as [Hchar Hrest]. cbn [List.length] in Hlen.
      assert (Hpush : forallb P (cur ++ [char]) = true).
      { rewrite forallb_app, Hcur. cbn [forallb]. now rewrite Hchar. }
      assert (Hpushq : forallb P (cur ++ [quote]) = true).
      { rewrite forallb_app, Hcur. cbn [forallb]. now rewrite Hq. }
      destruct (Ascii.eqb char quote).
      * destruct rest as [|nextChar rest'].
        -- apply IH; auto. simpl. lia.
        -- destruct (inQuotes && Ascii.eqb nextChar quote).
           ++ cbn [forallb] in Hrest. apply andb_true_iff in Hrest.
              apply IH; try tauto. cbn [List.length] in Hlen. lia.
           ++ apply IH; auto. lia.
      * destruct (Ascii.eqb char comma && negb inQuotes).
        -- apply IH; auto; [lia|]. apply Forall_app. split; [exact Hvals|].
           constructor; [now apply forallb_trim|constructor].
        -- apply IH; auto. lia.
Qed.

Lemma no_newline_parseCSVLine (line : str) :
  no_newline line = true ->
  Forall (fun v => no_newline v = true) (parseCSVLine line).
Proof.
  intros H. rewrite no_newline_forallb in H.
  eapply Forall_impl;
    [|apply (forallb_parseCSVLine_loop not_newline eq_refl
               (List.length line) line [] false []); auto].
  intros v Hv. now rewrite no_newline_forallb.
Qed.

Lemma split_on_no_sep (c : ascii) (s : str) :
  Forall (fun l => has_char c l = false) (split_on c s).
Proof.
  induction s as [|a s IH]; [repeat constructor|]. cbn [split_on].
  destruct (Ascii.eqb a c) eqn:E; [now constructor|].
  destruct (split_on c s) as [|w ws].
  - constructor; [|constructor]. unfold has_char. cbn [existsb].
    now rewrite Ascii.eqb_sym, E.
  - inversion IH as [|? ? Hw Hws]; subst. constructor; [|exact Hws].
    unfold has_char in *. cbn [existsb]. now rewrite Ascii.eqb_sym, E, Hw.
Qed.

Lemma no_newline_nonblank_lines (csv : str) :
  Forall (fun l => no_newline l = true) (nonblank_lines csv).
Proof.
  unfold nonblank_lines. apply Forall_forall. intros l Hl.
  apply filter_In in Hl. destruct Hl as [Hl _].
  pose proof (split_on_no_sep "010"%char csv) as H.
  rewrite Forall_forall in H. unfold no_newline.
  change newline with "010"%char. now rewrite (H l Hl).
Qed.

Lemma plain_cleanValue (cell : str) :
  no_newline cell = true -> plain (cleanValue cell) = true.
Proof.
  intros H. unfold cleanValue.
  destruct cell as [|c cell]; [reflexivity|].
  destruct (trim (c :: cell)); [reflexivity|].
  destruct (negb (isNaN (parseFloat (strip_ends quote (c :: cell)))) &&
            isFinite (parseFloat (strip_ends quote (c :: cell)))).
  - cbn [plain]. apply clean_number_to_string.
  - cbn [plain]. rewrite no_newline_forallb in *.
    now apply forallb_trim, forallb_strip_ends.
Qed.

Lemma no_newline_to_string (v : value) :
  plain v = true -> no_newline (to_string v) = true.
Proof.
  destruct v as [| |n|s|l]; cbn [plain to_string];
    try reflexivity; try discriminate; [|auto].
  apply clean_text_no_newline.
Qed.

Lemma plain_get (k : str) (o : obj) :
  Forall (fun kv => plain (snd kv) = true) o -> plain (get k o) = true.
Proof.
  induction 1 as [|[k' v] o Hv _ IH]; [reflexivity|]. cbn [get].
  destruct (Str.eqb k' k); [exact Hv|exact IH].
Qed.

Lemma in_keys_set (k k' : str) (v : value) (o : obj) :
  In k' (keys (set k v o)) <-> k' = k \/ In k' (keys o).
Proof.
  unfold keys. induction o as [|[k0 v0] o IH]; cbn [set map fst In].
  - intuition congruence.
  - destruct (Str.eqb k0 k) eqn:E; cbn [map fst In].
    + apply str_eqb_eq in E. subst k0. intuition congruence.
    + rewrite IH. intuition congruence.
Qed.

Lemma NoDup_keys_set (k : str) (v : value) (o : obj) :
  NoDup (keys o) -> NoDup (keys (set k v o)).
Proof.
  unfold keys. induction o as [|[k0 v0] o IH]; cbn [set map fst]; intros H.
  - repeat constructor. intros [].
  - inversion H as [|? ? Hnotin Hnd]; subst.
    destruct (Str.eqb k0 k) eqn:E; cbn [map fst].
    + apply str_eqb_eq in E. subst k0. now constructor.
    + constructor; [|now apply IH].
      intros Hin. apply (in_keys_set k k0 v o) in Hin.
      destruct Hin as [->|Hin]; [|contradiction].
      rewrite str_eqb_refl in E. discriminate.
Qed.

Lemma row_inv_set (hs : list str) (k : str) (v : value) (o : obj) :
  row_inv hs o -> In k hs \/ In k own_keys -> plain v = true ->
  row_inv hs (set k v o).
Proof.
  intros [Hnd Hk Hp] Hin Hv. split.
  - now apply NoDup_keys_set.
  - intros k' Hk'. apply in_keys_set in Hk'.
    destruct Hk' as [->|Hk']; [exact Hin|now apply Hk].
  - clear Hnd Hk. induction Hp as [|[k0 v0] o Hv0 Hp IH]; cbn [set].
    + constructor; [exact Hv|constructor].
    + destruct (Str.eqb k0 k); constructor; assumption.
Qed.

Lemma row_inv_set_if_missing (hs : list str) (k : str) (v : obj -> value)
    (o : obj) :
  row_inv hs o -> In k own_keys -> plain (v o) = true ->
  row_inv hs (set_if_missing k v o).
Proof.
  intros Ho Hk Hv. unfold set_if_missing.
  destruct (negb (truthy (get k o))); [|exact Ho].
  apply row_inv_set; auto.
Qed.

Lemma in_keys_truthy (k : str) (o : obj) :
  truthy (get k o) = true -> In k (keys o).
Proof.
  unfold keys. induction o as [|[k0 v0] o IH]; cbn [get map fst In].
  - discriminate.
  - destruct (Str.eqb k0 k) eqn:E; [|auto].
    apply str_eqb_eq in E. auto.
Qed.

Lemma in_keys_set_if_missing (k : str) (v : obj -> value) (o : obj) :
  In k (keys (set_if_missing k v o)).
Proof.
  unfold set_if_missing. destruct (truthy (get k o)) eqn:E; cbn [negb].
  - now apply in_keys_truthy.
  - apply in_keys_set. now left.
Qed.

Lemma in_keys_kept (k k' : str) (v : obj -> value) (o : obj) :
  In k' (keys o) -> In k' (keys (set_if_missing k v o)).
Proof.
  intros H. unfold set_if_missing.
  destruct (negb (truthy (get k o))); [|exact H].
  apply in_keys_set. now right.
Qed.

Lemma truthy_set_if_missing (k : str) (v : obj -> value) (o : obj) :
  truthy (v o) = true -> truthy (get k (set_if_missing k v o)) = true.
Proof.
  intros H. unfold set_if_missing.
  destruct (truthy (get k o)) eqn:E; cbn [negb]; [exact E|].
  now rewrite get_set_eq.
Qed.

Lemma row_inv_build_row (hs : list str) (cells : list str) :
  Forall (fun v => no_newline v = true) cells ->
  row_inv hs (build_row hs cells).
Proof.
  intros Hcells. unfold build_row.
  assert (Hgen : forall (hs' : list str) (cells : list str) (o : obj),
             incl hs' hs ->
             Forall (fun v => no_newline v = true) cells ->
             row_inv hs o ->
             row_inv hs
               (fold_left (fun row hv => set (fst hv) (cleanValue (snd hv)) row)
                          (combine hs' cells) o)).
  { induction hs' as [|h hs' IH]; intros cells' o Hincl Hc Ho; [exact Ho|].
    destruct cells' as [|cell cells']; [exact Ho|].
    cbn [combine fold_left fst snd]. inversion Hc; subst.
    apply IH; [intros x Hx; apply Hincl; now right|assumption|].
    apply row_inv_set; [exact Ho|left; apply Hincl; now left|].
    now apply plain_cleanValue. }
  apply Hgen; [apply incl_refl|exact Hcells|].
  split; [constructor|intros k []|constructor].
Qed.

Lemma plain_normalizeScore (v : value) : plain (normalizeScore v) = true.
Proof.
  destruct (normalizeScore_range v) as (q & -> & _).
  apply clean_number_to_string.
Qed.

Lemma in_keys_set_kept (k k' : str) (v : value) (o : obj) :
  In k' (keys o) -> In k' (keys (set k v o)).
Proof. intros H. apply in_keys_set. now right. Qed.

(** An accepted row is a record with all the properties the export
    relies on. *)
Lemma validated_parsed_record (hs : list str) (row row' : obj) (n : nat)
    (errs errs' : list str) :
  row_inv hs row ->
  validateAndTransformRow now row n errs = (Some row', errs') ->
  parsed_record hs row'.
Proof.
  intros Hrow Hv.
  pose proof (validated_in_range now _ _ _ _ _ Hv) as [Hmarks Hatt].
  assert (Hrow' : row' = validated_row now row n).
  { change (validateAndTransformRow now row n errs)
      with (if negb (truthy (get (lit "studentId") row)) &&
               negb (truthy (get (lit "name") row))
            then (None,
                  errs ++ [row_prefix n ++ lit "Missing student ID or name"])
            else (Some (validated_row now row n), errs)) in Hv.
    destruct (negb (truthy (get (lit "studentId") row)) &&
              negb (truthy (get (lit "name") row))); congruence. }
  clear Hv. unfold validated_row in Hrow'. cbv zeta in Hrow'.
  set (r1 := set_if_missing (lit "studentId") _ row) in Hrow'.
  set (r2 := set_if_missing (lit "name") _ r1) in Hrow'.
  set (r3 := set (lit "marks") _ r2) in Hrow'.
  set (r4 := set (lit "attendance") _ r3) in Hrow'.
  set (r5 := set_if_missing (lit "subject") _ r4) in Hrow'.
  set (r6 := set_if_missing (lit "semester") _ r5) in Hrow'.
  set (r7 := set_if_missing (lit "assessmentType") _ r6) in Hrow'.
  assert (H1 : row_inv hs r1).
  { apply row_inv_set_if_missing; [exact Hrow|simpl; tauto|].
    cbn [plain]. rewrite no_newline_app.
    unfold nat_to_string. now rewrite (clean_text_no_newline _ (clean_Z_to_str _)). }
  assert (H2 : row_inv hs r2).
  { apply row_inv_set_if_missing; [exact H1|simpl; tauto|].
    cbn [plain]. rewrite no_newline_app.
    rewrite no_newline_to_string; [reflexivity|]. apply plain_get, H1. }
  assert (H3 : row_inv hs r3).
  { apply row_inv_set; [exact H2|right; simpl; tauto|].
    apply plain_normalizeScore. }
  assert (H4 : row_inv hs r4).
  { apply row_inv_set; [exact H3|right; simpl; tauto|].
    apply plain_normalizeScore. }
  assert (H5 : row_inv hs r5).
  { apply row_inv_set_if_missing; [exact H4|simpl; tauto|reflexivity]. }
  assert (H6 : row_inv hs r6).
  { apply row_inv_set_if_missing; [exact H5|simpl; tauto|reflexivity]. }
  assert (H7 : row_inv hs r7).
  { apply row_inv_set_if_missing; [exact H6|simpl; tauto|reflexivity]. }
  subst row'. split.
  - apply row_inv_set; [exact H7|right; simpl; tauto|].
    cbn [plain]. unfold rowId_of. rewrite !no_newline_app.
    rewrite !no_newline_to_string by apply plain_get, H7.
    now rewrite (clean_text_no_newline _ (clean_Z_to_str _)).
  - intros c Hc. apply in_keys_set_kept.
    assert (Hin1 : In (lit "studentId") (keys r1))
      by apply in_keys_set_if_missing.
    assert (Hin2 : In (lit "name") (keys r2))
      by apply in_keys_set_if_missing.
    assert (Hin3 : In (lit "marks") (keys r3)) by (apply in_keys_set; now left).
    assert (Hin4 : In (lit "attendance") (keys r4))
      by (apply in_keys_set; now left).
    assert (Hin5 : In (lit "subject") (keys r5))
      by apply in_keys_set_if_missing.
    assert (Hin6 : In (lit "semester") (keys r6))
      by apply in_keys_set_if_missing.
    simpl in Hc. destruct Hc as [<-|[<-|[<-|[<-|[<-|[<-|[]]]]]]];
      repeat first [ assumption
                   | apply in_keys_kept
                   | apply in_keys_set_kept ].
  - intros c Hc. rewrite get_set_neq
      by (simpl in Hc; destruct Hc as [<-|[<-|[<-|[<-|[]]]]]; discriminate).
    simpl in Hc. destruct Hc as [<-|[<-|[<-|[<-|[]]]]];
      subst r7 r6 r5 r4 r3 r2 r1;
      repeat first [ rewrite get_set_neq by discriminate
                   | rewrite get_set_if_missing_neq by discriminate ];
      apply truthy_set_if_missing; reflexivity.
  - exact Hmarks.
  - exact Hatt.
Qed.

Lemma parse_rows_parsed (hs : list str) (lines : list str) :
  forall (i : nat) (data : list obj) (errs : list str),
    Forall (fun l => no_newline l = true) lines ->
    Forall (parsed_record hs) data ->
    Forall (parsed_record hs) (fst (parse_rows now hs i lines (data, errs))).
Proof.
  induction lines as [|line rest IH]; intros i data errs Hl Hd;
    cbn [parse_rows]; [exact Hd|].
  inversion Hl as [|? ? Hline Hrest]; subst.
  unfold parse_row.
  destruct (negb (List.length (parseCSVLine line) =? List.length hs)%nat);
    [now apply IH|].
  destruct (validateAndTransformRow now (build_row hs (parseCSVLine line))
              (i + 1) errs) as [[row'|] errs'] eqn:E; [|now apply IH].
  apply IH; [exact Hrest|]. apply Forall_app. split; [exact Hd|].
  constructor; [|constructor].
  eapply validated_parsed_record; [|exact E].
  now apply row_inv_build_row, no_newline_parseCSVLine.
Qed.

(** The records [parseCSV] returns: there is at least one, and each is
    a parsed record for the header names of the text. *)
Lemma parseCSV_parsed (csv : str) (this this' : t) (records : list obj) :
  parseCSV now csv this = (Ok records, this') ->
  records <> [] /\ Forall (parsed_record (header_names csv)) records.
Proof.
  rewrite parseCSV_unfold.
  pose proof (survivors_invariant now csv) as (_ & Hcount).
  pose proof (parse_rows_parsed (header_names csv) (tl (nonblank_lines csv))
                1 [] []) as Hall.
  fold (survivors now csv) in Hall.
  destruct (nonblank_lines csv) as [|header [|row rows]] eqn:El;
    try discriminate.
  destruct (survivors now csv) as [data errs].
  cbn [fst snd tl List.length] in *. intros H.
  assert (Hd : records = data).
  { destruct errs, data; injection H as -> _ || discriminate H; reflexivity. }
  subst records. split.
  - intros ->. destruct errs; [simpl in Hcount; lia|discriminate H].
  - apply Hall; [|constructor].
    pose proof (no_newline_nonblank_lines csv) as Hn. rewrite El in Hn.
    now inversion Hn.
Qed.

End ParsedRecords.

(** ** Export and parse: the round trip *)






(** The scenario, exported and parsed again: the six core fields of
    both records come back unchanged. *)
Example roundtrip_scenario :
  match CsvExport.csvContent scenario_records with
  | Some text =>
      match fst (CSVParser.parseCSV sample_clock text CSVParser.new) with
      | Ok records' =>
          map (fun r => map (fun c => get c r) core_fields) records'
          = map (fun r => map (fun c => get c r) core_fields) scenario_records
      | Throw _ => False
      end
  | None => False
  end.
Proof. vm_compute. reflexivity. Qed.

(** * Further properties of the code *)

(** ** The parser: what its records hold *)

(** X1.  Whenever [parseCSV] returns, it returns at least one record,
    so that the test [parsed.length === 0] of [parseFile] never fires
    after the call, and in every record the identifier, the name, the
    subject and the semester are truthy: present, and neither empty nor
    zero. *)
Theorem parseCSV_records_complete (now : nat -> N) (csv : str)
    (this this' : CSVParser.t) (records : list obj) :
  CSVParser.parseCSV now csv this = (Ok records, this') ->
  records <> [] /\
  forall (record : obj) (field : str),
    In record records ->
    In field [lit "studentId"; lit "name"; lit "subject"; lit "semester"] ->
    truthy (get field record) = true.
Proof.
  intros H. destruct (parseCSV_parsed now csv this this' records H)
    as (Hne & Hall).
  split; [exact Hne|]. intros record field Hin Hf.
  rewrite Forall_forall in Hall. exact (pr_truthy _ _ (Hall _ Hin) _ Hf).
Qed.

Lemma parseCSV_records_complete_witness :
  scenario_records <> [] /\
  forall (record : obj) (field : str),
    In record scenario_records ->
    In field [lit "studentId"; lit "name"; lit "subject"; lit "semester"] ->
    truthy (get field record) = true.
Proof.
  apply (parseCSV_records_complete sample_clock scenario_csv CSVParser.new
           (snd (CSVParser.parseCSV sample_clock scenario_csv CSVParser.new))).
  vm_compute. reflexivity.
Defined.

(** ** The tokenizer *)

Section TokenizerFacts.

Import CSVParser CsvExport.

Lemma split_on_cons (sep : ascii) (s : str) :
  exists (w : str) (ws : list str), split_on sep s = w :: ws.
Proof.
  induction s as [|c s (w & ws & IH)]; cbn [split_on]; [now eauto|].
  destruct (Ascii.eqb c sep); [now eauto|]. rewrite IH. eauto.
Qed.

Lemma loop_without_quotes (line : str) :
  has_char quote line = false ->
  forall (cur : str) (vals : list str),
    parseCSVLine_loop line cur false vals
    = vals ++
      match split_on comma line with
      | w :: ws => trim (cur ++ w) :: map trim ws
      | [] => []
      end.
Proof.
  unfold has_char. induction line as [|c line IH]; intros H cur vals.
  - cbn [parseCSVLine_loop split_on map]. now rewrite app_nil_r.
  - cbn [existsb] in H. apply orb_false_iff in H. destruct H as [Hc Hl].
    rewrite Ascii.eqb_sym in Hc. cbn [parseCSVLine_loop split_on].
    rewrite Hc. cbn [negb]. rewrite andb_true_r.
    destruct (Ascii.eqb c comma).
    + rewrite (IH Hl). destruct (split_on_cons comma line) as (w & ws & ->).
      cbn [map app]. rewrite app_nil_r, <- app_assoc. reflexivity.
    + rewrite (IH Hl). destruct (split_on_cons comma line) as (w & ws & ->).
      now rewrite <- app_assoc.
Qed.

End TokenizerFacts.

(** X2.  On a line without quotes the tokenizer is the split at the
    commas followed by the trimming of every piece; in particular it
    returns one cell more than the line has commas, and never no cell
    at all. *)
Theorem parseCSVLine_without_quotes (line : str) :
  has_char CSVParser.quote line = false ->
  CSVParser.parseCSVLine line = map trim (split_on CSVParser.comma line) /\
  List.length (CSVParser.parseCSVLine line)
  = S (List.length (filter (Ascii.eqb CSVParser.comma) line)).
Proof.
  intros H. assert (E : CSVParser.parseCSVLine line
                        = map trim (split_on CSVParser.comma line)).
  { unfold CSVParser.parseCSVLine. rewrite (loop_without_quotes line H).
    destruct (split_on_cons CSVParser.comma line) as (w & ws & ->).
    reflexivity. }
  split; [exact E|]. rewrite E, length_map. clear.
  induction line as [|c line IH]; [reflexivity|].
  cbn [split_on filter]. rewrite (Ascii.eqb_sym CSVParser.comma c).
  destruct (Ascii.eqb c CSVParser.comma).
  - cbn [List.length]. now rewrite IH.
  - destruct (split_on_cons CSVParser.comma line) as (w & ws & Hs).
    rewrite Hs in *. exact IH.
Qed.

Lemma parseCSVLine_without_quotes_witness :
  CSVParser.parseCSVLine (lit "S1, Alice ,Math,,45")
  = map trim (split_on CSVParser.comma (lit "S1, Alice ,Math,,45")) /\
  List.length (CSVParser.parseCSVLine (lit "S1, Alice ,Math,,45"))
  = S (List.length (filter (Ascii.eqb CSVParser.comma)
                           (lit "S1, Alice ,Math,,45"))).
Proof.
  apply (parseCSVLine_without_quotes (lit "S1, Alice ,Math,,45")).
  reflexivity.
Defined.

(** X3.  The tokenizer undoes the quoting of the export: from a line
    made of cells that [downloadCSV] wrote, commas and quotes inside
    the cells included, it reads the texts of the cells, trimmed. *)
Theorem parseCSVLine_reads_exported_cells (texts : list str) :
  texts <> [] ->
  CSVParser.parseCSVLine
    (join [CSVParser.comma] (map quote_cell texts))
  = map trim texts.
Proof. exact (parseCSVLine_quote_cells texts). Qed.

Lemma parseCSVLine_reads_exported_cells_witness :
  CSVParser.parseCSVLine
    (join [CSVParser.comma]
          (map quote_cell
               [lit "Doe, Jane"; lit "6' 2" ++ [CSVParser.quote]; lit "7"]))
  = map trim [lit "Doe, Jane"; lit "6' 2" ++ [CSVParser.quote]; lit "7"].
Proof.
  apply (parseCSVLine_reads_exported_cells
           [lit "Doe, Jane"; lit "6' 2" ++ [CSVParser.quote]; lit "7"]).
  discriminate.
Defined.

(** ** The header names *)

Section HeaderIdempotence.

Import CSVParser.

Lemma trim_normal_form (t : str) : normal_form t -> trim t = t.
Proof.
  intros (Hc & _ & _ & _).
  assert (Hfirst : forall s : str,
             forallb name_char s = true -> first_char_ok s).
  { intros [|c s] Hs; [exact I|]. cbn [forallb] in Hs.
    apply andb_true_iff in Hs. cbn [first_char_ok].
    now apply name_char_facts. }
  unfold trim, trimEnd. rewrite (trimStart_id t) by now apply Hfirst.
  rewrite trimStart_id by (apply Hfirst; now rewrite forallb_rev).
  apply rev_involutive.
Qed.

End HeaderIdempotence.

(** X4.  The header normalisation maps each of its results to itself,
    with two exceptions: the name [assessmentType], which it turns into
    the unknown column [assessmenttype], and the text it returns for
    the header [constructor].  So a header row made of the names the
    parser produced is read back with the same names, but for the
    assessment type. *)
Theorem normalizeHeader_idempotent (header : str) :
  CSVParser.normalizeHeader header <> lit "assessmentType" ->
  CSVParser.normalizeHeader header
  <> lit "function Object() { [native code] }" ->
  CSVParser.normalizeHeader (CSVParser.normalizeHeader header)
  = CSVParser.normalizeHeader header.
Proof.
  intros Ha Hc.
  destruct (normalizeHeader_cases header) as [Hin|[H|[Hn Hfix]]].
  - simpl in Hin.
    destruct Hin as [E|[E|[E|[E|[E|[E|[E|[]]]]]]]];
      try (symmetry in E; contradiction);
      rewrite <- E; vm_compute; reflexivity.
  - contradiction.
  - change (CSVParser.normalizeHeader (CSVParser.normalizeHeader header))
      with (CSVParser.headerMap_or
              (normalized_name (CSVParser.normalizeHeader header))).
    rewrite <- (trim_normal_form _ Hn) at 1.
    rewrite (normalized_normal_form _ Hn). exact Hfix.
Qed.

Lemma normalizeHeader_idempotent_witness :
  CSVParser.normalizeHeader (CSVParser.normalizeHeader (lit " Student ID "))
  = CSVParser.normalizeHeader (lit " Student ID ") /\
  CSVParser.normalizeHeader (lit " Student ID ") = lit "studentId" /\
  CSVParser.normalizeHeader (lit "assessmentType") = lit "assessmenttype".
Proof.
  split; [|split; vm_compute; reflexivity].
  apply (normalizeHeader_idempotent (lit " Student ID "));
    vm_compute; discriminate.
Defined.

(** ** The risk engine: the scores it can give *)

Section RiskValues.

Import RiskDetectionEngine.

Lemma lt_num_weaken (v : value) (a b : Q) :
  (a <= b)%Q -> lt_num v (Fin a) = true -> lt_num v (Fin b) = true.
Proof.
  unfold lt_num. intros Hab. destruct (to_number v) as [|[]|x]; simpl; auto.
  rewrite !Qltb_lt. intros H. eapply Qlt_le_trans; eauto.
Qed.

End RiskValues.

(** The assessment of a record, by the cases of its marks and its
    attendance. *)
Lemma assessStudent_cases (student : obj) :
  let a := RiskDetectionEngine.assessStudent student in
  exists score : Z,
    RiskDetectionEngine.riskScore a = of_Z score /\
    In score [0; 30; 40; 70; 80; 100] /\
    RiskDetectionEngine.riskLevel a
    = (if 70 <=? score then lit "high"
       else if 40 <=? score then lit "medium"
       else if 30 <=? score then lit "low"
       else lit "none").
Proof.
  cbv zeta.
  unfold RiskDetectionEngine.assessStudent,
    RiskDetectionEngine.calculateRiskScore, RiskDetectionEngine.rule_sum,
    RiskDetectionEngine.rules.
  cbn [fold_left RiskDetectionEngine.check RiskDetectionEngine.weight
       RiskDetectionEngine.riskScore RiskDetectionEngine.riskLevel].
  set (m := RiskDetectionEngine.marks_or_0 student).
  set (t := RiskDetectionEngine.attendance_or_0 student).
  pose proof (lt_num_weaken m 30 35 ltac:(discriminate)) as M1.
  pose proof (lt_num_weaken m 35 40 ltac:(discriminate)) as M2.
  pose proof (lt_num_weaken m 40 50 ltac:(discriminate)) as M3.
  pose proof (lt_num_weaken t 50 60 ltac:(discriminate)) as T1.
  pose proof (lt_num_weaken t 60 70 ltac:(discriminate)) as T2.
  destruct (lt_num m (Fin 30)), (lt_num m (Fin 35)), (lt_num m (Fin 40)),
    (lt_num m (Fin 50)), (lt_num t (Fin 50)), (lt_num t (Fin 60)),
    (lt_num t (Fin 70));
    try (specialize (M1 eq_refl); discriminate M1);
    try (specialize (M2 eq_refl); discriminate M2);
    try (specialize (M3 eq_refl); discriminate M3);
    try (specialize (T1 eq_refl); discriminate T1);
    try (specialize (T2 eq_refl); discriminate T2);
    cbn [andb];
    match goal with
    | |- exists _, Num.round (Fin ?q) = _ /\ _ =>
        let z := eval vm_compute in (Qfloor (q + (1 # 2))) in
        exists z; vm_compute; intuition congruence
    end.
Qed.

(** X5.  The risk score of a record is one of 0, 30, 40, 70, 80 and
    100, whatever the record holds, and the level follows from it: high
    from 70 on, medium at 40, low at 30, none at 0. *)
Theorem riskScore_values (student : obj) :
  let a := RiskDetectionEngine.assessStudent student in
  exists score : Z,
    RiskDetectionEngine.riskScore a = of_Z score /\
    In score [0; 30; 40; 70; 80; 100] /\
    RiskDetectionEngine.riskLevel a
    = (if 70 <=? score then lit "high"
       else if 40 <=? score then lit "medium"
       else if 30 <=? score then lit "low"
       else lit "none").
Proof. exact (assessStudent_cases student). Qed.

(** X6.  An assessment lists at most three risk factors, and a record
    for which it lists none has the risk score 0 and the level none:
    every rule that adds to the score is matched by a factor. *)
Theorem no_factors_no_risk (student : obj) :
  let a := RiskDetectionEngine.assessStudent student in
  (List.length (RiskDetectionEngine.factors a) <= 3)%nat /\
  (RiskDetectionEngine.factors a = [] ->
   RiskDetectionEngine.riskScore a = of_Z 0 /\
   RiskDetectionEngine.riskLevel a = lit "none").
Proof.
  cbv zeta.
  unfold RiskDetectionEngine.assessStudent,
    RiskDetectionEngine.getRiskFactors,
    RiskDetectionEngine.calculateRiskScore, RiskDetectionEngine.rule_sum,
    RiskDetectionEngine.rules.
  cbn [fold_left RiskDetectionEngine.check RiskDetectionEngine.weight
       RiskDetectionEngine.riskScore RiskDetectionEngine.riskLevel
       RiskDetectionEngine.factors].
  set (m := RiskDetectionEngine.marks_or_0 student).
  set (t := RiskDetectionEngine.attendance_or_0 student).
  pose proof (lt_num_weaken m 30 35 ltac:(discriminate)) as M1.
  pose proof (lt_num_weaken m 35 40 ltac:(discriminate)) as M2.
  pose proof (lt_num_weaken m 40 50 ltac:(discriminate)) as M3.
  pose proof (lt_num_weaken t 50 60 ltac:(discriminate)) as T1.
  pose proof (lt_num_weaken t 60 70 ltac:(discriminate)) as T2.
  destruct (lt_num m (Fin 30)), (lt_num m (Fin 35)), (lt_num m (Fin 40)),
    (lt_num m (Fin 50)), (lt_num t (Fin 50)), (lt_num t (Fin 60)),
    (lt_num t (Fin 70));
    try (specialize (M1 eq_refl); discriminate M1);
    try (specialize (M2 eq_refl); discriminate M2);
    try (specialize (M3 eq_refl); discriminate M3);
    try (specialize (T1 eq_refl); discriminate T1);
    try (specialize (T2 eq_refl); discriminate T2);
    cbn [andb app List.length];
    (split; [lia|]);
    first [ intros H; discriminate H
          | intros _; vm_compute; split; reflexivity ].
Qed.

Lemma no_factors_no_risk_witness :
  RiskDetectionEngine.factors
    (RiskDetectionEngine.assessStudent (sample_record 85 95)) = [] /\
  RiskDetectionEngine.riskScore
    (RiskDetectionEngine.assessStudent (sample_record 85 95)) = of_Z 0 /\
  RiskDetectionEngine.riskLevel
    (RiskDetectionEngine.assessStudent (sample_record 85 95)) = lit "none".
Proof.
  split; [reflexivity|].
  apply (proj2 (no_factors_no_risk (sample_record 85 95))). reflexivity.
Defined.

(** ** The pass rate *)

(** The pass rate and the fail rate lie between 0 and 100 for every
    data set, the empty one included. *)
Theorem passRate_bounds (data : list obj) :
  (0 <= AnalyticsEngine.getPassRate data <= 100)%Q /\
  (0 <= AnalyticsEngine.getFailRate data <= 100)%Q.
Proof.
  pose proof (passRate_range data) as H.
  split; [exact H|]. unfold AnalyticsEngine.getFailRate. split.
  - apply (rnd_ge_Z _ 0); [simpl; lia|]. change (inject_Z 0) with 0%Q. lra.
  - apply (rnd_le_Z _ 100); [simpl; lia|]. change (inject_Z 100) with 100%Q. lra.
Qed.

(** ** The filter engine: search and reset on text fields *)

(** X8.  On records whose name, identifier and subject are strings or
    falsy, the search filter of [applyFilters] does not throw and keeps,
    in their order, exactly the records one of whose three texts,
    lower-cased, contains the search text. *)
Theorem search_keeps_matching_records (s : str) (data : list obj) :
  forallb searchable data = true ->
  FilterEngine.filterM (FilterEngine.search_matches s) data
  = Ok (filter (search_selects s) data) /\
  forall item : obj,
    search_selects s item = true <->
    exists (field : str) (t : str),
      In field [lit "name"; lit "studentId"; lit "subject"] /\
      get field item = VStr t /\ t <> [] /\ substring s (toLowerCase t).
Proof. exact (search_filter_on_text s data). Qed.

Lemma search_keeps_matching_records_witness :
  FilterEngine.filterM (FilterEngine.search_matches (lit "ali"))
    (processed scenario_csv)
  = Ok (filter (search_selects (lit "ali")) (processed scenario_csv)) /\
  map (get (lit "name"))
      (filter (search_selects (lit "ali")) (processed scenario_csv))
  = [VStr (lit "Alice")].
Proof.
  split; [|vm_compute; reflexivity].
  apply (search_keeps_matching_records (lit "ali") (processed scenario_csv)).
  vm_compute. reflexivity.
Defined.

(** X9.  On an engine that was given a base set whose names are strings
    or falsy, [clearFilters] after any sequence of setter calls, thrown
    or not, resets the filters and the sort, does not throw, and leaves
    as filtered data the whole base set in the order of the insertion
    sort by lower-cased name: a permutation of the base set. *)
Theorem clearFilters_restores_base (localeCompare : str -> str -> Z)
    (base : list obj) (cs : list FilterEngine.call) :
  let this :=
    FilterEngine.do_calls localeCompare cs
      (snd (FilterEngine.setData localeCompare base FilterEngine.new)) in
  let this' := snd (FilterEngine.clearFilters localeCompare this) in
  FilterEngine.currentFilters this' = FilterEngine.default_filters /\
  FilterEngine.currentSort this' = FilterEngine.default_sort /\
  FilterEngine.originalData this' = base /\
  (forallb text_name base = true ->
   fst (FilterEngine.clearFilters localeCompare this) = Ok tt /\
   FilterEngine.getFilteredData this'
   = sort_pure (by_name localeCompare) base /\
   Permutation base (FilterEngine.getFilteredData this')).
Proof. exact (clearFilters_after_calls localeCompare base cs). Qed.

Lemma clearFilters_restores_base_witness :
  let this :=
    FilterEngine.do_calls (fun _ _ => 0)
      [FilterEngine.SetSearch (lit "bob"); FilterEngine.SetRiskFilter (lit "high")]
      (snd (FilterEngine.setData (fun _ _ => 0) (processed scenario_csv)
              FilterEngine.new)) in
  FilterEngine.getFilteredData this = [] /\
  Permutation (processed scenario_csv)
    (FilterEngine.getFilteredData
       (snd (FilterEngine.clearFilters (fun _ _ => 0) this))).
Proof.
  cbv zeta. split; [vm_compute; reflexivity|].
  apply (clearFilters_restores_base (fun _ _ => 0) (processed scenario_csv)
           [FilterEngine.SetSearch (lit "bob");
            FilterEngine.SetRiskFilter (lit "high")]).
  vm_compute. reflexivity.
Defined.

(** ** The sort of arrays *)

Section ArraySort.

Context {A : Type}.
Variable cmp : A -> A -> num.

Lemma array_insert_perm (x : A) (l : list A) :
  Permutation (x :: l) (array_insert cmp x l).
Proof.
  induction l as [|y r IH]; simpl; [apply Permutation_refl|].
  destruct (comes_after (cmp x y)); [|apply Permutation_refl].
  eapply perm_trans; [apply perm_swap|]. now apply perm_skip.
Qed.

Lemma array_sort_perm (l : list A) : Permutation l (array_sort cmp l).
Proof.
  induction l as [|x r IH]; simpl; [constructor|].
  eapply perm_trans; [|apply array_insert_perm]. now apply perm_skip.
Qed.

Lemma array_sort_length (l : list A) :
  List.length (array_sort cmp l) = List.length l.
Proof. symmetry. apply Permutation_length, array_sort_perm. Qed.

(** When no element comes after a later one, the sort changes
    nothing. *)
Lemma array_sort_fixed (l : list A) :
  (forall x y : A, In x l -> In y l -> comes_after (cmp x y) = false) ->
  array_sort cmp l = l.
Proof.
  induction l as [|x r IH]; intros H; simpl; [reflexivity|].
  rewrite IH by (intros; apply H; now right).
  destruct r as [|y r]; [reflexivity|]. simpl.
  rewrite H; [reflexivity|now left|right; now left].
Qed.

Section Sortedness.

Variable P : A -> Prop.
Variable R : A -> A -> Prop.
Hypothesis R_before :
  forall x y : A, P x -> P y -> comes_after (cmp x y) = false -> R x y.
Hypothesis R_after :
  forall x y : A, P x -> P y -> comes_after (cmp x y) = true -> R y x.

Lemma array_insert_all (x : A) (l : list A) :
  P x -> Forall P l -> Forall P (array_insert cmp x l).
Proof.
  intros Hx Hl. eapply Permutation_Forall; [apply array_insert_perm|].
  now constructor.
Qed.

Lemma array_sort_all (l : list A) : Forall P l -> Forall P (array_sort cmp l).
Proof. intros Hl. eapply Permutation_Forall; [apply array_sort_perm|exact Hl]. Qed.

Lemma array_insert_sorted (x : A) (l : list A) :
  P x -> Forall P l -> Sorted R l -> Sorted R (array_insert cmp x l).
Proof.
  intros Hx. induction l as [|y r IH]; intros Hl Hs; simpl.
  - repeat constructor.
  - inversion Hl as [|? ? Hy Hr']; subst.
    destruct (comes_after (cmp x y)) eqn:E.
    + apply Sorted_inv in Hs. destruct Hs as (Hr & Hhd).
      constructor; [now apply IH|].
      destruct r as [|z r]; simpl.
      * constructor. now apply R_after.
      * destruct (comes_after (cmp x z)).
        -- constructor. now inversion Hhd.
        -- constructor. now apply R_after.
    + constructor; [exact Hs|]. constructor. now apply R_before.
Qed.

Lemma array_sort_sorted (l : list A) :
  Forall P l -> Sorted R (array_sort cmp l).
Proof.
  induction l as [|x r IH]; intros Hl; simpl; [constructor|].
  inversion Hl; subst.
  apply array_insert_sorted; [assumption|now apply array_sort_all|now apply IH].
Qed.

End Sortedness.

End ArraySort.

(** ** The risk summary and the lists of the students at risk *)

Section RiskSummary.

Import RiskDetectionEngine.

Lemma lit_inj (a b : string) : lit a = lit b -> a = b.
Proof.
  unfold lit. intros H.
  rewrite <- (string_of_list_ascii_of_string a),
    <- (string_of_list_ascii_of_string b). now rewrite H.
Qed.

Lemma keys_set_own (k : str) (v : value) (o : obj) :
  In k (keys o) -> keys (set k v o) = keys o.
Proof.
  unfold keys. induction o as [|[k' v'] r IH]; simpl; [tauto|].
  destruct (Str.eqb k' k) eqn:E.
  - apply str_eqb_eq in E. now subst.
  - intros [H|H]; [subst k'; now rewrite str_eqb_refl in E|].
    simpl. now rewrite IH.
Qed.

(** The level of a record whose level is known. *)
Lemma level_known_inv (s : obj) :
  level_known s = true ->
  exists level : string,
    In level risk_levels /\ get (lit "riskLevel") s = VStr (lit level).
Proof.
  unfold level_known. rewrite existsb_exists.
  intros (level & Hin & H). exists level. split; [exact Hin|].
  unfold has_level, strict_eq_str in H.
  destruct (get (lit "riskLevel") s); try discriminate.
  apply str_eqb_eq in H. now subst.
Qed.

Lemma has_level_of (s : obj) (l0 level : string) :
  get (lit "riskLevel") s = VStr (lit l0) ->
  has_level level s = if string_dec l0 level then true else false.
Proof.
  intros H. unfold has_level. rewrite H. cbn [strict_eq_str].
  destruct (string_dec l0 level) as [->|Hne].
  - apply str_eqb_refl.
  - apply str_eqb_neq. intros E. apply lit_inj in E. contradiction.
Qed.

Lemma count_level_cons (level l0 : string) (s : obj) (rest : list obj) :
  get (lit "riskLevel") s = VStr (lit l0) ->
  count_level level (s :: rest)
  = ((if string_dec l0 level then 1 else 0) + count_level level rest)%nat.
Proof.
  intros H. unfold count_level. cbn [filter].
  rewrite (has_level_of s l0 level H).
  destruct (string_dec l0 level); reflexivity.
Qed.

Lemma levels_partition (students : list obj) :
  forallb level_known students = true ->
  (count_level "high" students + count_level "medium" students +
   count_level "low" students + count_level "none" students
   = List.length students)%nat.
Proof.
  induction students as [|s rest IH]; [reflexivity|].
  cbn [forallb]. rewrite andb_true_iff. intros [Hs Hrest].
  destruct (level_known_inv s Hs) as (l0 & Hin & Hget).
  rewrite !(count_level_cons _ l0 s rest Hget). specialize (IH Hrest).
  cbn [List.length]. simpl in Hin.
  destruct Hin as [<-|[<-|[<-|[<-|[]]]]]; simpl; lia.
Qed.

Lemma atRisk_high_medium (students : list obj) :
  getAtRiskCount students
  = (count_level "high" students + count_level "medium" students)%nat.
Proof.
  unfold getAtRiskCount, count_level.
  induction students as [|s rest IH]; [reflexivity|]. cbn [filter].
  assert (H : has_level "high" s && has_level "medium" s = false).
  { unfold has_level, strict_eq_str.
    destruct (get (lit "riskLevel") s) as [| | |t|]; try reflexivity.
    destruct (Str.eqb t (lit "high")) eqn:E; [|reflexivity].
    apply str_eqb_eq in E. subst t. reflexivity. }
  destruct (has_level "high" s), (has_level "medium" s);
    try discriminate; cbn [orb List.length]; lia.
Qed.

Lemma summary_fold (students : list obj) :
  forallb level_known students = true ->
  forall s : obj,
    keys s = summary_keys ->
    (forall level : string,
       In level risk_levels -> exists q : Q, get (lit level) s = VNum (Fin q)) ->
    let s' :=
      fold_left
        (fun summary student =>
           increment_property (to_string (get (lit "riskLevel") student))
                              summary)
        students s in
    keys s' = summary_keys /\
    get (lit "total") s' = get (lit "total") s /\
    forall level : string,
      In level risk_levels ->
      exists q q' : Q,
        get (lit level) s = VNum (Fin q) /\
        get (lit level) s' = VNum (Fin q') /\
        (q' == q + inject_Z (Z.of_nat (count_level level students)))%Q.
Proof.
  induction students as [|a rest IH]; intros Hall s Hk Hnum; cbv zeta.
  - cbn [fold_left]. repeat split; try assumption.
    intros level Hin. destruct (Hnum level Hin) as (q & Hq).
    exists q, q. repeat split; try assumption.
    change (inject_Z (Z.of_nat (count_level level []))) with 0%Q. lra.
  - cbn [forallb] in Hall. apply andb_true_iff in Hall.
    destruct Hall as [Ha Hrest].
    destruct (level_known_inv a Ha) as (l0 & Hin0 & Hget).
    cbn [fold_left]. rewrite Hget. cbn [to_string].
    assert (Hproto : Str.eqb (lit l0) (lit "__proto__") = false).
    { simpl in Hin0. destruct Hin0 as [<-|[<-|[<-|[<-|[]]]]]; reflexivity. }
    assert (Hown : In (lit l0) (keys s)).
    { rewrite Hk. simpl in Hin0.
      destruct Hin0 as [<-|[<-|[<-|[<-|[]]]]]; simpl; tauto. }
    assert (Htotal : lit l0 <> lit "total").
    { simpl in Hin0. destruct Hin0 as [<-|[<-|[<-|[<-|[]]]]]; discriminate. }
    destruct (Hnum l0 Hin0) as (q0 & Hq0).
    replace (increment_property (lit l0) s)
      with (set (lit l0) (VNum (Fin (q0 + 1))) s)
      by (unfold increment_property; now rewrite Hproto, Hq0).
    set (s1 := set (lit l0) (VNum (Fin (q0 + 1))) s).
    assert (Hk1 : keys s1 = summary_keys).
    { unfold s1. now rewrite keys_set_own. }
    assert (Hget1 : forall level : string,
               get (lit level) s1
               = if string_dec l0 level then VNum (Fin (q0 + 1))
                 else get (lit level) s).
    { intros level. unfold s1. destruct (string_dec l0 level) as [->|Hne].
      - apply get_set_eq.
      - apply get_set_neq. intros E. apply lit_inj in E. contradiction. }
    assert (Hnum1 : forall level : string,
               In level risk_levels ->
               exists q : Q, get (lit level) s1 = VNum (Fin q)).
    { intros level Hin. rewrite Hget1.
      destruct (string_dec l0 level); [now eauto|now apply Hnum]. }
    destruct (IH Hrest s1 Hk1 Hnum1) as (Hk' & Ht' & Hl').
    split; [exact Hk'|]. split.
    { rewrite Ht'. unfold s1. now apply get_set_neq. }
    intros level Hin. destruct (Hl' level Hin) as (q1 & q' & H1 & H' & Hq).
    destruct (Hnum level Hin) as (q & Hq1).
    exists q, q'. split; [exact Hq1|]. split; [exact H'|].
    rewrite (count_level_cons level l0 a rest Hget).
    rewrite Hget1 in H1.
    rewrite Nat2Z.inj_add, inject_Z_plus, Hq.
    destruct (string_dec l0 level) as [->|Hne].
    + injection H1 as <-. rewrite Hq0 in Hq1. injection Hq1 as <-.
      change (inject_Z (Z.of_nat 1)) with 1%Q. lra.
    + rewrite Hq1 in H1. injection H1 as <-.
      change (inject_Z (Z.of_nat 0)) with 0%Q. lra.
Qed.

End RiskSummary.

Section AssessedStudents.

Import RiskDetectionEngine.

Lemma with_assessment_level (student : obj) :
  get (lit "riskLevel") (with_assessment student)
  = VStr (riskLevel (assessStudent student)).
Proof.
  unfold with_assessment. cbv zeta.
  rewrite get_set_neq by discriminate. apply get_set_eq.
Qed.

Lemma with_assessment_score (student : obj) :
  get (lit "riskScore") (with_assessment student)
  = VNum (riskScore (assessStudent student)).
Proof.
  unfold with_assessment. cbv zeta.
  rewrite !get_set_neq by discriminate. apply get_set_eq.
Qed.

(** The records of medium risk that [assessAllStudents] returns have
    the score 40. *)
Lemma medium_score (student : obj) :
  has_level "medium" (with_assessment student) = true ->
  score_of (with_assessment student) = Fin 40.
Proof.
  unfold has_level, score_of.
  rewrite with_assessment_level, with_assessment_score.
  destruct (assessStudent_cases student) as (z & -> & Hin & ->).
  cbn [strict_eq_str to_number]. simpl in Hin.
  destruct Hin as [<-|[<-|[<-|[<-|[<-|[<-|[]]]]]]];
    vm_compute; intros H; congruence.
Qed.

Lemma assessed_finite_score (students : list obj) :
  Forall finite_score (assessAllStudents students).
Proof.
  unfold assessAllStudents. apply Forall_forall. intros s Hin.
  apply in_map_iff in Hin. destruct Hin as (x & <- & _).
  unfold finite_score. rewrite with_assessment_score.
  destruct (assessStudent_cases x) as (z & -> & _). now eexists.
Qed.

End AssessedStudents.

(** X10.  For students whose risk level is one of the four levels, as
    after [assessAllStudents], the risk summary has the six properties
    it starts with and no other; its total is the number of students,
    its four counters are the numbers of students of each level, which
    add up to the total, and [atRiskTotal] is the number that
    [getAtRiskCount] returns: the students of high or medium risk. *)
Theorem riskSummary_counts (students : list obj) :
  forallb level_known students = true ->
  let summary := RiskDetectionEngine.generateRiskSummary students in
  keys summary = summary_keys /\
  get (lit "total") summary = VNum (of_nat (List.length students)) /\
  (forall level : string,
     In level risk_levels ->
     holds_count (get (lit level) summary) (count_level level students)) /\
  holds_count (get (lit "atRiskTotal") summary)
              (RiskDetectionEngine.getAtRiskCount students) /\
  (count_level "high" students + count_level "medium" students +
   count_level "low" students + count_level "none" students
   = List.length students)%nat.
Proof.
  intros Hall. cbv zeta. unfold RiskDetectionEngine.generateRiskSummary.
  cbv zeta.
  set (s0 := [ (lit "total", VNum (of_nat (List.length students)));
               (lit "high", VNum (Fin 0)); (lit "medium", VNum (Fin 0));
               (lit "low", VNum (Fin 0)); (lit "none", VNum (Fin 0));
               (lit "atRiskTotal", VNum (Fin 0)) ]).
  assert (Hnum0 : forall level : string,
             In level risk_levels -> get (lit level) s0 = VNum (Fin 0)).
  { intros level Hin. simpl in Hin.
    destruct Hin as [<-|[<-|[<-|[<-|[]]]]]; reflexivity. }
  destruct (summary_fold students Hall s0 eq_refl
              (fun level Hin => ex_intro _ 0%Q (Hnum0 level Hin)))
    as (Hk & Ht & Hl).
  match type of Hk with
  | keys ?f = _ => set (s' := f) in *
  end.
  assert (Hcount : forall level : string,
             In level risk_levels ->
             holds_count (get (lit level) s') (count_level level students)).
  { intros level Hin. destruct (Hl level Hin) as (q & q' & Hq & Hq' & E).
    rewrite (Hnum0 level Hin) in Hq. injection Hq as <-.
    exists q'. split; [exact Hq'|]. rewrite E. lra. }
  split; [|split; [|split; [|split]]].
  - rewrite keys_set_own; [exact Hk|]. rewrite Hk. simpl. tauto.
  - rewrite get_set_neq by discriminate. exact Ht.
  - intros level Hin. rewrite get_set_neq; [now apply Hcount|].
    simpl in Hin. destruct Hin as [<-|[<-|[<-|[<-|[]]]]]; discriminate.
  - rewrite get_set_eq.
    destruct (Hcount "high"%string) as (qh & -> & Eh); [simpl; tauto|].
    destruct (Hcount "medium"%string) as (qm & -> & Em); [simpl; tauto|].
    exists (qh + qm)%Q. split; [reflexivity|].
    rewrite atRisk_high_medium, Nat2Z.inj_add, inject_Z_plus, Eh, Em. lra.
  - now apply levels_partition.
Qed.

Lemma riskSummary_counts_witness :
  let students := processed scenario_csv in
  get (lit "total") (RiskDetectionEngine.generateRiskSummary students)
  = VNum (of_nat 2) /\
  holds_count
    (get (lit "high") (RiskDetectionEngine.generateRiskSummary students)) 1 /\
  holds_count
    (get (lit "atRiskTotal")
         (RiskDetectionEngine.generateRiskSummary students)) 1.
Proof.
  cbv zeta.
  assert (H : forallb level_known (processed scenario_csv) = true)
    by (vm_compute; reflexivity).
  destruct (riskSummary_counts (processed scenario_csv) H)
    as (_ & Ht & Hl & Ha & _).
  split; [exact Ht|]. split.
  - exact (Hl "high"%string (or_introl eq_refl)).
  - exact Ha.
Defined.

(** X11.  [getHighRiskStudents] returns the students of high risk and
    no others, each as often as it occurs; when the risk scores are
    finite numbers, as after [assessAllStudents], they are in descending
    order of the score. *)
Theorem highRisk_students_sorted (students : list obj) :
  let high := RiskDetectionEngine.getHighRiskStudents students in
  Permutation (filter (RiskDetectionEngine.has_level "high") students) high /\
  (Forall finite_score students -> Sorted score_not_below high).
Proof.
  cbv zeta. unfold RiskDetectionEngine.getHighRiskStudents.
  split; [apply array_sort_perm|]. intros Hfin.
  apply (array_sort_sorted RiskDetectionEngine.by_riskScore finite_score).
  - intros x y (qx & Hx) (qy & Hy).
    unfold comes_after, score_not_below, score_of,
      RiskDetectionEngine.by_riskScore.
    rewrite Hx, Hy. cbn [to_number Num.sub Num.add Num.opp Num.ltb Num.leb].
    intros H. apply Qle_bool_iff.
    destruct (Qltb 0 (qy + - qx)) eqn:E; [discriminate|].
    apply not_true_iff_false in E. rewrite Qltb_lt in E. lra.
  - intros x y (qx & Hx) (qy & Hy).
    unfold comes_after, score_not_below, score_of,
      RiskDetectionEngine.by_riskScore.
    rewrite Hx, Hy. cbn [to_number Num.sub Num.add Num.opp Num.ltb Num.leb].
    rewrite Qltb_lt. intros H. apply Qle_bool_iff. lra.
  - apply Forall_forall. intros s Hin. apply filter_In in Hin.
    rewrite Forall_forall in Hfin. now apply Hfin.
Qed.

Lemma highRisk_students_sorted_witness :
  Sorted score_not_below
    (RiskDetectionEngine.getHighRiskStudents
       (RiskDetectionEngine.assessAllStudents
          [sample_record 45 65; sample_record 25 45; sample_record 85 95])) /\
  map score_of
    (RiskDetectionEngine.getHighRiskStudents
       (RiskDetectionEngine.assessAllStudents
          [sample_record 45 65; sample_record 25 45; sample_record 85 95]))
  = [Fin 100; Fin 70].
Proof.
  split; [|vm_compute; reflexivity].
  apply (proj2 (highRisk_students_sorted
                  (RiskDetectionEngine.assessAllStudents
                     [sample_record 45 65; sample_record 25 45;
                      sample_record 85 95]))).
  repeat constructor; eexists; vm_compute; reflexivity.
Defined.

(** X12.  On the records that [assessAllStudents] returns,
    [getMediumRiskStudents] is the selection of the records of medium
    risk in the order of the data: they all have the score 40, and the
    sort moves none of them. *)
Theorem mediumRisk_students_in_order (records : list obj) :
  let students := RiskDetectionEngine.assessAllStudents records in
  RiskDetectionEngine.getMediumRiskStudents students
  = filter (RiskDetectionEngine.has_level "medium") students /\
  forall s : obj,
    In s (RiskDetectionEngine.getMediumRiskStudents students) ->
    score_of s = Fin 40.
Proof.
  cbv zeta. unfold RiskDetectionEngine.getMediumRiskStudents.
  assert (H40 : forall s : obj,
             In s (filter (RiskDetectionEngine.has_level "medium")
                          (RiskDetectionEngine.assessAllStudents records)) ->
             score_of s = Fin 40).
  { intros s Hin. apply filter_In in Hin. destruct Hin as (Hin & Hm).
    unfold RiskDetectionEngine.assessAllStudents in Hin.
    apply in_map_iff in Hin. destruct Hin as (x & <- & _).
    now apply medium_score. }
  assert (E : array_sort RiskDetectionEngine.by_riskScore
                (filter (RiskDetectionEngine.has_level "medium")
                        (RiskDetectionEngine.assessAllStudents records))
              = filter (RiskDetectionEngine.has_level "medium")
                       (RiskDetectionEngine.assessAllStudents records)).
  { apply array_sort_fixed. intros x y Hx Hy.
    unfold RiskDetectionEngine.by_riskScore.
    fold (score_of x). fold (score_of y).
    rewrite (H40 x Hx), (H40 y Hy). reflexivity. }
  rewrite E. split; [reflexivity|exact H40].
Qed.

(** ** The attendance distribution *)

Section AttendanceBands.

Import AnalyticsEngine.

Lemma in_attendance_band_cons (band : str) (d : obj) (data : list obj) :
  in_attendance_band band (d :: data)
  = ((if Str.eqb (attendance_band (RiskDetectionEngine.attendance_or_0 d))
                 band
      then 1 else 0) + in_attendance_band band data)%nat.
Proof.
  unfold in_attendance_band. simpl.
  destruct (Str.eqb (attendance_band (RiskDetectionEngine.attendance_or_0 d))
                    band); reflexivity.
Qed.

Lemma counter_attendance (band : str) (data : list obj) :
  forall ranges : list (str * nat),
    has_counter band ranges = true ->
    counter band
      (fold_left
         (fun ranges d =>
            increment
              (attendance_band (RiskDetectionEngine.attendance_or_0 d))
              ranges)
         data ranges)
    = (counter band ranges + in_attendance_band band data)%nat.
Proof.
  induction data as [|d data IH]; intros ranges H; simpl.
  - unfold in_attendance_band. simpl. lia.
  - rewrite IH by now rewrite has_counter_increment.
    rewrite counter_increment by exact H.
    rewrite in_attendance_band_cons. lia.
Qed.

Lemma attendance_band_cases (v : value) :
  attendance_band v = lit "0-50" \/ attendance_band v = lit "51-70" \/
  attendance_band v = lit "71-85" \/ attendance_band v = lit "86-100".
Proof.
  unfold attendance_band.
  destruct (le_num v (Fin 50)); [auto|].
  destruct (le_num v (Fin 70)); [auto|].
  destruct (le_num v (Fin 85)); auto.
Qed.

Lemma in_attendance_band_total (data : list obj) :
  fold_right plus 0%nat
    (map (fun band => in_attendance_band band data) attendance_labels)
  = List.length data.
Proof.
  unfold attendance_labels. cbn [map fold_right].
  induction data as [|d data IH]; [reflexivity|].
  rewrite !in_attendance_band_cons. cbn [List.length]. rewrite <- IH.
  destruct (attendance_band_cases (RiskDetectionEngine.attendance_or_0 d))
    as [H|[H|[H|H]]]; rewrite H;
    repeat match goal with
           | |- context [Str.eqb (lit ?a) (lit ?b)] =>
               let v := eval vm_compute in (Str.eqb (lit a) (lit b)) in
               change (Str.eqb (lit a) (lit b)) with v
           end; cbv iota; lia.
Qed.

Lemma attendance_band_numeric (d : obj) (q : Q) :
  get (lit "attendance") d = VNum (Fin q) ->
  let band := attendance_band (RiskDetectionEngine.attendance_or_0 d) in
  (band = lit "0-50" <-> (q <= 50)%Q) /\
  (band = lit "51-70" <-> (50 < q <= 70)%Q) /\
  (band = lit "71-85" <-> (70 < q <= 85)%Q) /\
  (band = lit "86-100" <-> (85 < q)%Q).
Proof.
  intros Hm. unfold RiskDetectionEngine.attendance_or_0, attendance_band.
  rewrite Hm, !le_or0. cbv zeta.
  destruct (Qle_bool q 50) eqn:E1; [|destruct (Qle_bool q 70) eqn:E2;
    [|destruct (Qle_bool q 85) eqn:E3]];
    repeat match goal with
           | H : Qle_bool _ _ = true |- _ => apply Qle_bool_iff in H
           | H : Qle_bool ?a ?b = false |- _ =>
               assert (~ (a <= b)%Q) by (rewrite <- Qle_bool_iff; congruence);
               clear H
           end;
    repeat split; intros; try reflexivity; try discriminate; try lra.
Qed.

End AttendanceBands.

(** X13.  In the attendance distribution every record is counted once,
    in the band its attendance selects among 0-50, 51-70, 71-85 and
    86-100: the counter of a band is the number of records of that band
    and the four counters add up to the number of records.  The upper
    boundary of a band belongs to it, so that an attendance of exactly
    50 is counted in 0-50 and one between 50 and 51 in 51-70; a record
    without a numeric attendance is counted in a band as well. *)
Theorem attendanceDistribution_bands (data : list obj) :
  let dist := AnalyticsEngine.getAttendanceDistribution data in
  (forall d : obj,
     In (AnalyticsEngine.attendance_band
           (RiskDetectionEngine.attendance_or_0 d))
        attendance_labels) /\
  (forall band : str,
     In band attendance_labels ->
     AnalyticsEngine.counter band dist = in_attendance_band band data) /\
  fold_right plus 0%nat
    (map (fun band => AnalyticsEngine.counter band dist) attendance_labels)
  = List.length data /\
  (forall (d : obj) (q : Q),
     get (lit "attendance") d = VNum (Fin q) ->
     let band :=
       AnalyticsEngine.attendance_band
         (RiskDetectionEngine.attendance_or_0 d) in
     (band = lit "0-50" <-> (q <= 50)%Q) /\
     (band = lit "51-70" <-> (50 < q <= 70)%Q) /\
     (band = lit "71-85" <-> (70 < q <= 85)%Q) /\
     (band = lit "86-100" <-> (85 < q)%Q)).
Proof.
  assert (Hcount : forall band : str,
             In band attendance_labels ->
             AnalyticsEngine.counter band
               (AnalyticsEngine.getAttendanceDistribution data)
             = in_attendance_band band data).
  { intros band Hin. unfold AnalyticsEngine.getAttendanceDistribution.
    rewrite counter_attendance.
    - simpl in Hin. destruct Hin as [<-|[<-|[<-|[<-|[]]]]]; reflexivity.
    - simpl in Hin. destruct Hin as [<-|[<-|[<-|[<-|[]]]]]; reflexivity. }
  cbv zeta. repeat apply conj.
  - intros d. simpl.
    destruct (attendance_band_cases (RiskDetectionEngine.attendance_or_0 d))
      as [H|[H|[H|H]]]; rewrite H; auto 6.
  - exact Hcount.
  - rewrite <- (in_attendance_band_total data).
    simpl. rewrite !Hcount; simpl; auto 6.
  - exact attendance_band_numeric.
Qed.

Lemma attendanceDistribution_bands_witness :
  AnalyticsEngine.attendance_band
    (RiskDetectionEngine.attendance_or_0 (sample_record 40 50)) = lit "0-50" /\
  AnalyticsEngine.attendance_band
    (RiskDetectionEngine.attendance_or_0 (sample_record 40 (101 # 2)))
  = lit "51-70".
Proof.
  destruct (attendanceDistribution_bands []) as (_ & _ & _ & H).
  split.
  - apply (H (sample_record 40 50) 50%Q eq_refl). discriminate.
  - apply (H (sample_record 40 (101 # 2)) (101 # 2)%Q eq_refl).
    split; [reflexivity|discriminate].
Defined.

(** ** The averages *)

Section Averages.

Import AnalyticsEngine.

Lemma percent_field_number (k : string) (d : obj) :
  percent_field k d ->
  get (lit k) d = VNum (Fin (field_number k d)) /\
  (0 <= field_number k d <= 100)%Q.
Proof.
  intros (q & Hq & Hr). unfold field_number. rewrite Hq. now split.
Qed.

Lemma field_total_bounds (k : string) (data : list obj) :
  Forall (percent_field k) data ->
  (0 <= field_total k data
   <= 100 * inject_Z (Z.of_nat (List.length data)))%Q.
Proof.
  induction 1 as [|d data Hd _ IH]; cbn [List.length].
  - change (inject_Z (Z.of_nat 0)) with 0%Q.
    change (field_total k []) with 0%Q. lra.
  - destruct (percent_field_number k d Hd) as (_ & Hr).
    change (field_total k (d :: data))
      with (field_number k d + field_total k data)%Q.
    rewrite Nat2Z.inj_succ, <- Z.add_1_r, inject_Z_plus.
    change (inject_Z 1) with 1%Q. lra.
Qed.

(** The rounded sum of numbers between 0 and 100, from a partial sum
    that is at most [100 k]. *)
Lemma sum64_step (values : list value) :
  Forall percent_value values ->
  forall (acc : Q) (k : Z),
    0 <= k -> k + Z.of_nat (List.length values) <= 2 ^ 46 ->
    (0 <= acc <= 100 * inject_Z k)%Q ->
    let s := fold_left (fun a q => rnd (a + q)) (map number_of values) acc in
    fold_left add_values64 values (VNum (Fin acc)) = VNum (Fin s) /\
    (0 <= s <= 100 * inject_Z (k + Z.of_nat (List.length values)))%Q.
Proof.
  induction 1 as [|v values (q & -> & Hq) _ IH]; intros acc k Hk Hlen Hacc;
    cbn [fold_left map List.length number_of] in *.
  - rewrite Z.add_0_r. now split.
  - assert (Hs : (inject_Z 0 <= acc + q <= inject_Z (100 * (k + 1)))%Q).
    { rewrite inject_Z_mult, inject_Z_plus.
      change (inject_Z 0) with 0%Q. change (inject_Z 100) with 100%Q.
      change (inject_Z 1) with 1%Q. lra. }
    destruct (round64_between (acc + q) 0 (100 * (k + 1))) as [E Hr];
      [simpl; lia|lia|exact Hs|].
    change (add_values64 (VNum (Fin acc)) (VNum (Fin q)))
      with (VNum (round64 (acc + q))).
    rewrite E. rewrite inject_Z_mult in Hr.
    change (inject_Z 0) with 0%Q in Hr. change (inject_Z 100) with 100%Q in Hr.
    specialize (IH (rnd (acc + q)) (k + 1)).
    replace (k + 1 + Z.of_nat (List.length values))
      with (k + Z.of_nat (S (List.length values))) in IH by lia.
    apply IH; [lia|exact Hlen|exact Hr].
Qed.

(** The average of numbers between 0 and 100 is their rounded mean,
    and lies between 0 and 100. *)
Lemma average_percent (values : list value) :
  Forall percent_value values -> values <> [] -> array_length values ->
  average values = Fin (mean64 (map number_of values)) /\
  (0 <= mean64 (map number_of values) <= 100)%Q.
Proof.
  intros Hall Hne Hlen. unfold array_length in Hlen.
  destruct (sum64_step values Hall 0 0) as [E Hs];
    [lia|lia|change (inject_Z 0) with 0%Q; lra|].
  cbv zeta in E, Hs. rewrite Z.add_0_l in Hs.
  unfold average, mean64, sum64. rewrite E, length_map. cbn [to_number].
  set (s := fold_left _ (map number_of values) 0%Q) in *. clearbody s.
  assert (Hn : (0 < inject_Z (Z.of_nat (List.length values)))%Q).
  { change 0%Q with (inject_Z 0). rewrite <- Zlt_Qlt.
    destruct values; [congruence|simpl; lia]. }
  set (n := inject_Z (Z.of_nat (List.length values))) in *.
  unfold div64, of_nat, of_Z, Num.div. fold n.
  destruct (Qeq_bool n 0) eqn:E0.
  { apply Qeq_bool_iff in E0. lra. }
  cbn [rounded].
  assert (Hq : (inject_Z 0 <= s / n <= inject_Z 100)%Q).
  { change (inject_Z 0) with 0%Q. change (inject_Z 100) with 100%Q. split.
    - apply Qle_shift_div_l; [exact Hn|]. lra.
    - apply Qle_shift_div_r; [exact Hn|]. lra. }
  destruct (round64_between (s / n) 0 100) as [E' Hr];
    [simpl; lia|simpl; lia|exact Hq|].
  rewrite E'. split; [reflexivity|exact Hr].
Qed.

Lemma or_else_percent (v : value) :
  percent_value v ->
  percent_value (or_else v (VNum (Fin 0))) /\
  (number_of (or_else v (VNum (Fin 0))) == number_of v)%Q.
Proof.
  intros (q & -> & Hq). unfold or_else, truthy.
  destruct (Qeq_bool q 0) eqn:E; cbn [negb number_of].
  - apply Qeq_bool_iff in E. split; [|now rewrite E].
    exists 0%Q. split; [reflexivity|lra].
  - split; [|reflexivity]. exists q. now split.
Qed.

Lemma sum64_comp (qs qs' : list Q) :
  Forall2 Qeq qs qs' ->
  forall acc : Q,
    fold_left (fun a q => rnd (a + q)) qs acc
    = fold_left (fun a q => rnd (a + q)) qs' acc.
Proof.
  induction 1 as [|q q' qs qs' Hq _ IH]; intros acc; cbn [fold_left].
  - reflexivity.
  - rewrite (rnd_comp (acc + q) (acc + q')) by (now rewrite Hq). apply IH.
Qed.

Lemma mean64_comp (qs qs' : list Q) :
  Forall2 Qeq qs qs' -> mean64 qs = mean64 qs'.
Proof.
  intros H. unfold mean64, sum64.
  rewrite (sum64_comp qs qs' H), (Forall2_length H). reflexivity.
Qed.

(** The values [d.k || 0] of records whose field [k] is a number
    between 0 and 100. *)
Lemma field_values (k : string) (data : list obj) :
  Forall (percent_field k) data ->
  Forall percent_value (map (field_or_0 k) data) /\
  Forall2 Qeq (map number_of (map (field_or_0 k) data))
              (map (field_number k) data).
Proof.
  induction 1 as [|d data Hd _ [IH1 IH2]]; cbn [map].
  - split; constructor.
  - destruct (percent_field_number k d Hd) as (Hq & Hr).
    assert (Hv : percent_value (get (lit k) d)).
    { rewrite Hq. eexists. split; [reflexivity|exact Hr]. }
    destruct (or_else_percent _ Hv) as [Hp Hn].
    split; constructor; assumption.
Qed.

Lemma average_of_field (k : string) (data : list obj) :
  Forall (percent_field k) data -> data <> [] -> array_length data ->
  average (map (field_or_0 k) data)
  = Fin (mean64 (map (field_number k) data)) /\
  (0 <= mean64 (map (field_number k) data) <= 100)%Q.
Proof.
  intros Hall Hne Hlen. destruct (field_values k data Hall) as [Hv Hn].
  destruct (average_percent (map (field_or_0 k) data) Hv) as [E Hr].
  - destruct data; [congruence|discriminate].
  - unfold array_length in *. now rewrite length_map.
  - rewrite (mean64_comp _ _ Hn) in E, Hr. now split.
Qed.

Lemma fold_left_map_values {B C D} (f : B -> C -> B) (g : D -> C)
    (l : list D) (b : B) :
  fold_left (fun acc d => f acc (g d)) l b = fold_left f (map g l) b.
Proof. revert b. induction l as [|d l IH]; intros b; [reflexivity|apply IH]. Qed.

Lemma getAverageScore_average (data : list obj) :
  data <> [] ->
  getAverageScore data = average (map (field_or_0 "marks") data).
Proof.
  intros Hne. destruct data as [|d data]; [congruence|].
  unfold getAverageScore, average.
  rewrite (fold_left_map_values add_values64 RiskDetectionEngine.marks_or_0).
  rewrite length_map. reflexivity.
Qed.

Lemma getAverageAttendance_average (data : list obj) :
  data <> [] ->
  getAverageAttendance data = average (map (field_or_0 "attendance") data).
Proof.
  intros Hne. destruct data as [|d data]; [congruence|].
  unfold getAverageAttendance, average.
  rewrite (fold_left_map_values add_values64
             RiskDetectionEngine.attendance_or_0).
  rewrite length_map. reflexivity.
Qed.

End Averages.

(** X14.  On data whose marks and attendance are numbers between 0 and
    100, as the parser leaves them, the average score and the average
    attendance of a non-empty data set are the means of the marks and
    of the attendance as binary64 computes them, every partial sum and
    the quotient rounded to the nearest double, and they lie between 0
    and 100.  They need not be the exact means: the average of three
    marks of 99.9 is 99.90000000000002. *)
Theorem averages_rounded_means (data : list obj) :
  percent_data data ->
  data <> [] ->
  array_length data ->
  exists score attendance : Q,
    AnalyticsEngine.getAverageScore data = Fin score /\
    AnalyticsEngine.getAverageAttendance data = Fin attendance /\
    score = mean64 (map (field_number "marks") data) /\
    attendance = mean64 (map (field_number "attendance") data) /\
    (0 <= score <= 100)%Q /\ (0 <= attendance <= 100)%Q.
Proof.
  intros Hall Hne Hlen.
  assert (Hm : Forall (percent_field "marks") data).
  { eapply Forall_impl; [|exact Hall]. now intros a [H _]. }
  assert (Ha : Forall (percent_field "attendance") data).
  { eapply Forall_impl; [|exact Hall]. now intros a [_ H]. }
  destruct (average_of_field "marks" data Hm Hne Hlen) as [Es Bs].
  destruct (average_of_field "attendance" data Ha Hne Hlen) as [Ea Ba].
  exists (mean64 (map (field_number "marks") data)),
         (mean64 (map (field_number "attendance") data)).
  rewrite getAverageScore_average, getAverageAttendance_average by exact Hne.
  repeat split; try assumption; tauto.
Qed.
Lemma averages_rounded_means_witness :
  exists score attendance : Q,
    AnalyticsEngine.getAverageScore (processed repeated_marks_csv)
    = Fin score /\
    AnalyticsEngine.getAverageAttendance (processed repeated_marks_csv)
    = Fin attendance /\
    (score == 7029837543348635 # 70368744177664)%Q /\
    (attendance == 80)%Q.
Proof.
  assert (H : percent_data (processed repeated_marks_csv)).
  { let v := eval vm_compute in (processed repeated_marks_csv) in
    assert (E : processed repeated_marks_csv = v) by (vm_compute; reflexivity).
    rewrite E.
    repeat constructor;
      (eexists; split; [vm_compute; reflexivity|split; discriminate]). }
  assert (Hne : processed repeated_marks_csv <> [])
    by (vm_compute; discriminate).
  assert (Hlen : array_length (processed repeated_marks_csv))
    by (vm_compute; reflexivity).
  destruct (averages_rounded_means _ H Hne Hlen)
    as (s & a & Es & Ea & Hs & Ha & _).
  exists s, a. repeat split; try assumption.
  - rewrite Hs. vm_compute. reflexivity.
  - rewrite Ha. vm_compute. reflexivity.
Defined.

(** ** The number of students *)

Section UniqueValues.

Lemma set_add_in (v w : value) (s : list value) :
  In w (set_add v s) -> In w s \/ w = v.
Proof.
  induction s as [|x r IH]; simpl.
  - intros [H|[]]; auto.
  - destruct (same_value_zero x v); [now left|].
    simpl. intros [H|H]; [auto|]. destruct (IH H); auto.
Qed.

Lemma set_add_keeps (v w : value) (s : list value) :
  In w s -> In w (set_add v s).
Proof.
  induction s as [|x r IH]; simpl; [tauto|].
  destruct (same_value_zero x v); [trivial|].
  simpl. intros [H|H]; auto.
Qed.

Lemma set_add_holds (v : value) (s : list value) :
  exists w : value,
    In w (set_add v s) /\ (w = v \/ same_value_zero w v = true).
Proof.
  induction s as [|x r (w & Hin & Hw)]; simpl.
  - exists v. auto.
  - destruct (same_value_zero x v) eqn:E.
    + exists x. simpl. auto.
    + exists w. simpl. auto.
Qed.

Lemma set_add_length (v : value) (s : list value) :
  (List.length s <= List.length (set_add v s) <= S (List.length s))%nat /\
  (1 <= List.length (set_add v s))%nat.
Proof.
  induction s as [|x r IH]; simpl; [lia|].
  destruct (same_value_zero x v); simpl; lia.
Qed.

Lemma set_add_distinct (v : value) (s : list value) :
  ForallOrdPairs (fun a b => same_value_zero a b = false) s ->
  ForallOrdPairs (fun a b => same_value_zero a b = false) (set_add v s).
Proof.
  induction 1 as [|x r Hx Hr IH]; simpl.
  - repeat constructor.
  - destruct (same_value_zero x v) eqn:E; [now constructor|].
    constructor; [|exact IH].
    apply Forall_forall. intros w Hin.
    destruct (set_add_in _ _ _ Hin) as [H| ->]; [|exact E].
    rewrite Forall_forall in Hx. now apply Hx.
Qed.

Lemma set_of_fold (values : list value) :
  forall s : list value,
    let s' := fold_left (fun s v => set_add v s) values s in
    (List.length s <= List.length s'
     <= List.length s + List.length values)%nat /\
    (values <> [] -> (1 <= List.length s')%nat) /\
    (forall w : value, In w s' -> In w s \/ In w values) /\
    (forall w : value, In w s -> In w s') /\
    (forall v : value,
       In v values ->
       exists w : value,
         In w s' /\ (w = v \/ same_value_zero w v = true)) /\
    (ForallOrdPairs (fun a b => same_value_zero a b = false) s ->
     ForallOrdPairs (fun a b => same_value_zero a b = false) s').
Proof.
  induction values as [|v values IH]; intros s; cbv zeta; cbn [fold_left].
  - repeat split; try tauto; try (cbn [List.length]; lia).
    intros v [].
  - destruct (IH (set_add v s)) as (Hlen & _ & Hin & Hkeep & Hall & Hd).
    pose proof (set_add_length v s) as Hl.
    repeat split.
    + lia.
    + cbn [List.length]. lia.
    + intros _. lia.
    + intros w Hw. destruct (Hin w Hw) as [H|H]; [|right; now right].
      destruct (set_add_in _ _ _ H) as [H'| ->]; [now left|right; now left].
    + intros w Hw. now apply Hkeep, set_add_keeps.
    + intros u [<-|Hu]; [|now apply Hall].
      destruct (set_add_holds v s) as (w & Hw & Hv).
      exists w. split; [now apply Hkeep|exact Hv].
    + intros H. now apply Hd, set_add_distinct.
Qed.

End UniqueValues.

(** X15.  The number of unique students is the size of a set of
    identifiers taken from the data: it is at most the number of
    records and at least 1 on data that are not empty; every identifier
    of the data is in the set or equal to a member of it, and no two
    members are equal.  The equality is that of [Set]: a number and the
    string of its digits are two identifiers. *)
Theorem uniqueStudents_counts_identifiers (data : list obj) :
  let ids := map (get (lit "studentId")) data in
  let unique := set_of ids in
  AnalyticsEngine.getUniqueStudents data = List.length unique /\
  (AnalyticsEngine.getUniqueStudents data
   <= AnalyticsEngine.getTotalStudents data)%nat /\
  (data <> [] -> (1 <= AnalyticsEngine.getUniqueStudents data)%nat) /\
  (forall w : value, In w unique -> In w ids) /\
  (forall v : value,
     In v ids ->
     exists w : value,
       In w unique /\ (w = v \/ same_value_zero w v = true)) /\
  ForallOrdPairs (fun a b => same_value_zero a b = false) unique /\
  same_value_zero (VNum (Fin 101)) (VStr (lit "101")) = false.
Proof.
  cbv zeta. unfold AnalyticsEngine.getUniqueStudents,
    AnalyticsEngine.getTotalStudents, set_of.
  destruct (set_of_fold (map (get (lit "studentId")) data) [])
    as (Hlen & Hpos & Hin & _ & Hall & Hd).
  rewrite length_map in Hlen. cbn [List.length] in Hlen.
  repeat split.
  - lia.
  - intros Hne. apply Hpos. destruct data; [congruence|discriminate].
  - intros w Hw. destruct (Hin w Hw) as [[]|H]. exact H.
  - exact Hall.
  - apply Hd. constructor.
Qed.

Lemma uniqueStudents_counts_identifiers_witness :
  AnalyticsEngine.getUniqueStudents
    (scenario_records ++ scenario_records) = 2%nat /\
  (1 <= AnalyticsEngine.getUniqueStudents
          (scenario_records ++ scenario_records))%nat.
Proof.
  split; [vm_compute; reflexivity|].
  apply (proj1 (proj2 (proj2 (uniqueStudents_counts_identifiers
                                (scenario_records ++ scenario_records))))).
  vm_compute. discriminate.
Defined.

(** ** Grouping *)

Section Grouping.

Import Utils.

Lemma own_group_of {A} (k : str) (g : list (str * A)) :
  own k g = match group_of k g with Some _ => true | None => false end.
Proof.
  unfold own. induction g as [|[k' v] r IH]; simpl; [reflexivity|].
  destruct (Str.eqb k' k); [reflexivity|exact IH].
Qed.

Lemma group_of_push {A} (k k' : str) (item : A) (g : list (str * list A)) :
  group_of k' (push_item k item g)
  = if Str.eqb k k'
    then option_map (fun l => l ++ [item]) (group_of k' g)
    else group_of k' g.
Proof.
  induction g as [|[k0 items] r IH]; simpl.
  - now destruct (Str.eqb k k').
  - destruct (Str.eqb k0 k) eqn:E0; simpl.
    + apply str_eqb_eq in E0. subst k0.
      destruct (Str.eqb k k'); reflexivity.
    + rewrite IH. destruct (Str.eqb k0 k') eqn:E1; [|reflexivity].
      apply str_eqb_eq in E1. subst k0.
      destruct (Str.eqb k k') eqn:E2; [|reflexivity].
      apply str_eqb_eq in E2. subst k'. now rewrite str_eqb_refl in E0.
Qed.

Lemma group_of_new {A} (k k' : str) (v : A) (g : list (str * A)) :
  group_of k' (g ++ [(k, v)])
  = match group_of k' g with
    | Some x => Some x
    | None => if Str.eqb k k' then Some v else None
    end.
Proof.
  induction g as [|[k0 x] r IH]; simpl; [reflexivity|].
  destruct (Str.eqb k0 k'); [reflexivity|exact IH].
Qed.

Lemma keys_push_item {A} (k : str) (item : A) (g : list (str * list A)) :
  map fst (push_item k item g) = map fst g.
Proof.
  induction g as [|[k0 items] r IH]; simpl; [reflexivity|].
  destruct (Str.eqb k0 k); simpl; [reflexivity|now rewrite IH].
Qed.

Lemma group_of_none {A} (k : str) (g : list (str * A)) :
  group_of k g = None <-> ~ In k (map fst g).
Proof.
  induction g as [|[k0 x] r IH]; simpl; [tauto|].
  destruct (Str.eqb k0 k) eqn:E.
  - apply str_eqb_eq in E. split; [discriminate|]. intros H. tauto.
  - rewrite IH. split; [|tauto]. intros H [H'|H']; [|tauto].
    subst k0. now rewrite str_eqb_refl in E.
Qed.

Lemma in_group_of {A} (k : str) (v : A) (g : list (str * A)) :
  NoDup (map fst g) -> (In (k, v) g <-> group_of k g = Some v).
Proof.
  induction g as [|[k0 x] r IH]; simpl; intros Hnd.
  - split; [tauto|discriminate].
  - inversion Hnd as [|? ? Hk0 Hr]; subst.
    destruct (Str.eqb k0 k) eqn:E.
    + apply str_eqb_eq in E. subst k0. split.
      * intros [H|H]; [congruence|].
        exfalso. apply Hk0. apply in_map_iff. now exists (k, v).
      * intros H. left. congruence.
    + rewrite <- (IH Hr). split; [|tauto]. intros [H|H]; [|exact H].
      injection H as -> _. now rewrite str_eqb_refl in E.
Qed.

Lemma grouped_total_push {A} (k : str) (item : A) (g : list (str * list A)) :
  own k g = true ->
  grouped_total (push_item k item g) = S (grouped_total g).
Proof.
  unfold own, grouped_total.
  induction g as [|[k0 items] r IH]; simpl; [discriminate|].
  destruct (Str.eqb k0 k); simpl.
  - intros _. rewrite length_app. simpl. lia.
  - intros H. rewrite IH by exact H. lia.
Qed.

Lemma grouped_total_new {A} (k : str) (item : A) (g : list (str * list A)) :
  grouped_total (g ++ [(k, [item])]) = S (grouped_total g).
Proof.
  unfold grouped_total. induction g as [|[k0 items] r IH]; simpl; [reflexivity|].
  rewrite IH. lia.
Qed.

Variable key : str.

Lemma filter_snoc (k : str) (done : list obj) (item : obj) :
  filter (in_group key k) (done ++ [item])
  = filter (in_group key k) done ++
    (if Str.eqb (group_key key item) k then [item] else []).
Proof. rewrite filter_app. reflexivity. Qed.

Lemma group_step_inv (done : list obj) (g : list (str * list obj))
    (item : obj) :
  groups_of key done g ->
  if plain_key key item
  then exists g' : list (str * list obj),
         group_step key g item = Ok g' /\ groups_of key (done ++ [item]) g'
  else group_step key g item
       = Throw (TypeError (lit "result[groupKey].push is not a function")).
Proof.
  intros [Hnd Hg Hp Ht]. unfold group_step, plain_key.
  fold (group_key key item). set (k := group_key key item).
  rewrite own_group_of.
  destruct (inherited k) eqn:Ei; cbn [negb].
  - (* no own property can have the name *)
    rewrite Hg. destruct (filter (in_group key k) done) as [|x l] eqn:Ef;
      [reflexivity|].
    exfalso. assert (Hx : In x (filter (in_group key k) done))
      by (rewrite Ef; now left).
    apply filter_In in Hx. destruct Hx as (Hx & Hk).
    rewrite forallb_forall in Hp. specialize (Hp x Hx).
    unfold plain_key in Hp. unfold in_group in Hk.
    apply str_eqb_eq in Hk. rewrite Hk, Ei in Hp. discriminate.
  - assert (Hp' : forallb (plain_key key) (done ++ [item]) = true).
    { rewrite forallb_app, Hp. cbn [forallb]. unfold plain_key.
      fold k. now rewrite Ei. }
    destruct (group_of k g) as [items|] eqn:Ek.
    + exists (push_item k item g). split; [reflexivity|]. split.
      * now rewrite keys_push_item.
      * intros k'. rewrite group_of_push, filter_snoc. fold k.
        rewrite Hg.
        destruct (Str.eqb k k') eqn:E; [|now rewrite app_nil_r].
        apply str_eqb_eq in E. subst k'. rewrite Hg in Ek.
        destruct (filter (in_group key k) done) as [|x l]; [discriminate|].
        reflexivity.
      * exact Hp'.
      * rewrite grouped_total_push, length_app, Ht; [simpl; lia|].
        rewrite own_group_of. now rewrite Ek.
    + exists (g ++ [(k, [item])]). split; [reflexivity|]. split.
      * rewrite map_app. cbn [map fst].
        apply NoDup_app; [exact Hnd|repeat constructor; tauto|].
        intros x Hx [<-|[]]. now apply group_of_none in Ek.
      * intros k'. rewrite group_of_new, filter_snoc. fold k. rewrite Hg.
        destruct (Str.eqb k k') eqn:E.
        -- apply str_eqb_eq in E. subst k'. rewrite Hg in Ek.
           destruct (filter (in_group key k) done); [reflexivity|discriminate].
        -- rewrite app_nil_r.
           destruct (filter (in_group key k') done); reflexivity.
      * exact Hp'.
      * rewrite grouped_total_new, length_app, Ht. simpl. lia.
Qed.

Lemma group_fold_throw (rest : list obj) (e : exn) :
  fold_left (fun acc item => result <- acc ;; group_step key result item)
            rest (Throw e)
  = Throw e.
Proof. induction rest as [|x rest IH]; simpl; [reflexivity|exact IH]. Qed.

Lemma group_fold_inv (rest : list obj) :
  forall (done : list obj) (g : list (str * list obj)),
    groups_of key done g ->
    if forallb (plain_key key) rest
    then exists g' : list (str * list obj),
           fold_left
             (fun acc item => result <- acc ;; group_step key result item)
             rest (Ok g)
           = Ok g' /\ groups_of key (done ++ rest) g'
    else fold_left
           (fun acc item => result <- acc ;; group_step key result item)
           rest (Ok g)
         = Throw (TypeError (lit "result[groupKey].push is not a function")).
Proof.
  induction rest as [|item rest IH]; intros done g Hg; cbn [forallb fold_left].
  - exists g. rewrite app_nil_r. now split.
  - cbn [bind]. pose proof (group_step_inv done g item Hg) as Hstep.
    destruct (plain_key key item); cbn [andb].
    + destruct Hstep as (g1 & -> & Hg1).
      specialize (IH (done ++ [item]) g1 Hg1).
      rewrite <- app_assoc in IH. exact IH.
    + rewrite Hstep. apply group_fold_throw.
Qed.

End Grouping.

(** What [groupBy] returns. *)
Lemma groupBy_spec (array : list obj) (key : str) :
  if forallb (plain_key key) array
  then exists groups : list (str * list obj),
         Utils.groupBy array key = Ok groups /\
         NoDup (map fst groups) /\
         (forall (k : str) (items : list obj),
            In (k, items) groups <->
            items <> [] /\ items = filter (in_group key k) array) /\
         grouped_total groups = List.length array
  else Utils.groupBy array key
       = Throw (TypeError (lit "result[groupKey].push is not a function")).
Proof.
  assert (H0 : groups_of key [] []).
  { split; [constructor|reflexivity|reflexivity|reflexivity]. }
  pose proof (group_fold_inv key array [] [] H0) as H.
  unfold Utils.groupBy. destruct (forallb (plain_key key) array); [|exact H].
  destruct H as (g & Hg & [Hnd Hgroup _ Htotal]). cbn [app] in *.
  exists g. split; [exact Hg|]. split; [exact Hnd|]. split; [|exact Htotal].
  intros k items. rewrite (in_group_of k items g Hnd), Hgroup.
  destruct (filter (in_group key k) array) as [|x l].
  - split; [discriminate|]. intros [Hne ->]. congruence.
  - split.
    + intros H. injection H as <-. split; [discriminate|reflexivity].
    + intros [_ ->]. reflexivity.
Qed.

(** X16.  [groupBy] puts every record in exactly one group, the one of
    its group key, and keeps the order of the records inside a group:
    the groups have distinct keys, the group of a key is the non-empty
    selection of the records with that key, and the groups hold as many
    records as the array.  It throws a TypeError exactly when the group
    key of some record is a property name of [Object.prototype], such
    as [constructor] or [toString].  (The property [key] itself is one
    that the records have as their own or not at all.) *)
Theorem groupBy_partitions (array : list obj) (key : str) :
  if forallb (plain_key key) array
  then exists groups : list (str * list obj),
         Utils.groupBy array key = Ok groups /\
         NoDup (map fst groups) /\
         (forall (k : str) (items : list obj),
            In (k, items) groups <->
            items <> [] /\ items = filter (in_group key k) array) /\
         grouped_total groups = List.length array
  else Utils.groupBy array key
       = Throw (TypeError (lit "result[groupKey].push is not a function")).
Proof. exact (groupBy_spec array key). Qed.

(** ** The order of the properties of an object *)

Section Entries.

Context {A : Type}.

Lemma insert_index_perm (i : N) (kv : str * A) (l : list (N * (str * A))) :
  Permutation (insert_index i kv l) ((i, kv) :: l).
Proof.
  induction l as [|[j kv'] r IH]; simpl; [apply Permutation_refl|].
  destruct (i <? j)%N; [apply Permutation_refl|].
  eapply perm_trans; [apply perm_skip, IH|apply perm_swap].
Qed.

Lemma index_entries_perm (o : list (str * A)) :
  Permutation (map snd (index_entries o)) (filter is_index_entry o).
Proof.
  induction o as [|kv r IH]; simpl; [constructor|].
  unfold is_index_entry at 1. destruct (array_index (fst kv)) as [i|].
  - eapply perm_trans;
      [apply Permutation_map, insert_index_perm|].
    simpl. now apply perm_skip.
  - exact IH.
Qed.

Lemma filter_split_perm (p : str * A -> bool) (o : list (str * A)) :
  Permutation (filter p o ++ filter (fun x => negb (p x)) o) o.
Proof.
  induction o as [|x r IH]; simpl; [constructor|].
  destruct (p x); simpl.
  - now apply perm_skip.
  - eapply perm_trans; [apply Permutation_sym, Permutation_middle|].
    now apply perm_skip.
Qed.

(** The enumeration of the properties lists each of them once. *)
Lemma entries_perm (o : list (str * A)) : Permutation (entries o) o.
Proof.
  unfold entries.
  eapply perm_trans; [|apply (filter_split_perm is_index_entry)].
  apply Permutation_app; [apply index_entries_perm|].
  erewrite filter_ext; [apply Permutation_refl|].
  intros kv. unfold is_index_entry.
  destruct (array_index (fst kv)); reflexivity.
Qed.

Lemma insert_index_in (i : N) (kv : str * A) (l : list (N * (str * A)))
    (x : N * (str * A)) :
  In x (insert_index i kv l) -> x = (i, kv) \/ In x l.
Proof.
  intros H. apply (Permutation_in _ (insert_index_perm i kv l)) in H.
  destruct H; auto.
Qed.

Lemma index_entries_index (o : list (str * A)) (x : N * (str * A)) :
  In x (index_entries o) -> array_index (fst (snd x)) = Some (fst x).
Proof.
  induction o as [|kv r IH]; simpl; [tauto|].
  destruct (array_index (fst kv)) as [i|] eqn:E; [|exact IH].
  intros H. apply insert_index_in in H. destruct H as [->|H]; auto.
Qed.

Lemma insert_index_sorted (i : N) (kv : str * A) (l : list (N * (str * A))) :
  Sorted (fun a b => (fst a <= fst b)%N) l ->
  Sorted (fun a b => (fst a <= fst b)%N) (insert_index i kv l).
Proof.
  induction l as [|[j kv'] r IH]; intros Hs; simpl.
  - repeat constructor.
  - destruct (i <? j)%N eqn:E.
    + constructor; [exact Hs|]. constructor. simpl.
      apply N.ltb_lt in E. lia.
    + apply N.ltb_ge in E. apply Sorted_inv in Hs. destruct Hs as (Hr & Hhd).
      constructor; [now apply IH|].
      destruct r as [|[j' kv''] r]; simpl.
      * constructor. exact E.
      * destruct (i <? j')%N; constructor; simpl; [exact E|].
        now inversion Hhd.
Qed.

Lemma index_entries_sorted (o : list (str * A)) :
  Sorted (fun a b => (fst a <= fst b)%N) (index_entries o).
Proof.
  induction o as [|kv r IH]; simpl; [constructor|].
  destruct (array_index (fst kv)); [now apply insert_index_sorted|exact IH].
Qed.

End Entries.

(** ** The statistics of the subjects *)

Section SubjectStatistics.

Import AnalyticsEngine.

Lemma grouped_total_perm {A} (g g' : list (str * list A)) :
  Permutation g g' -> grouped_total g = grouped_total g'.
Proof.
  unfold grouped_total. induction 1; simpl; lia.
Qed.

Lemma stats_total_grouped (g : list (str * list obj)) :
  stats_total (map (fun g => (fst g, subject_stats (snd g))) g)
  = grouped_total g.
Proof.
  unfold stats_total, grouped_total.
  induction g as [|x r IH]; simpl; [reflexivity|]. now rewrite IH.
Qed.

Lemma getSubjectStats_spec (data : list obj) :
  if forallb (plain_key (lit "subject")) data
  then exists stats : list (str * SubjectStats.t),
         getSubjectStats data = Ok stats /\
         NoDup (map fst stats) /\
         (forall (subject : str) (st : SubjectStats.t),
            In (subject, st) stats <->
            of_subject subject data <> [] /\
            st = subject_stats (of_subject subject data)) /\
         stats_total stats = List.length data
  else getSubjectStats data
       = Throw (TypeError (lit "result[groupKey].push is not a function")).
Proof.
  pose proof (groupBy_spec data (lit "subject")) as H.
  unfold getSubjectStats.
  destruct (forallb (plain_key (lit "subject")) data);
    [|now rewrite H].
  destruct H as (g & -> & Hnd & Hin & Htotal). cbn [bind].
  pose proof (entries_perm g) as Hp.
  eexists. split; [reflexivity|]. split; [|split].
  - rewrite map_map. cbn [fst].
    apply (Permutation_NoDup (l := map fst g)); [|exact Hnd].
    apply Permutation_sym, Permutation_map, Hp.
  - intros subject st. rewrite in_map_iff. unfold of_subject. split.
    + intros ([k items] & E & Hk). cbn [fst snd] in E. injection E as -> <-.
      apply (Permutation_in _ Hp) in Hk. apply Hin in Hk.
      destruct Hk as (Hne & ->). now split.
    + intros (Hne & ->).
      exists (subject, filter (in_group (lit "subject") subject) data).
      split; [reflexivity|].
      apply (Permutation_in _ (Permutation_sym Hp)). now apply Hin.
  - rewrite stats_total_grouped, (grouped_total_perm _ _ Hp). exact Htotal.
Qed.

End SubjectStatistics.

(** X17.  [getSubjectStats] lists every subject of the data once, with
    the statistics of the records of that subject, and the counts of
    the subjects add up to the number of records.  It throws a
    TypeError exactly when the subject of some record is a property
    name of [Object.prototype]. *)
Theorem subjectStats_per_subject (data : list obj) :
  if forallb (plain_key (lit "subject")) data
  then exists stats : list (str * AnalyticsEngine.SubjectStats.t),
         AnalyticsEngine.getSubjectStats data = Ok stats /\
         NoDup (map fst stats) /\
         (forall (subject : str) (st : AnalyticsEngine.SubjectStats.t),
            In (subject, st) stats <->
            of_subject subject data <> [] /\
            st = AnalyticsEngine.subject_stats (of_subject subject data)) /\
         stats_total stats = List.length data
  else AnalyticsEngine.getSubjectStats data
       = Throw (TypeError (lit "result[groupKey].push is not a function")).
Proof. exact (getSubjectStats_spec data). Qed.

Section StatisticsBounds.

Import AnalyticsEngine.

Lemma or_else_number (q : Q) :
  exists q' : Q,
    or_else (VNum (Fin q)) (VNum (Fin 0)) = VNum (Fin q') /\ (q' == q)%Q.
Proof.
  unfold or_else, truthy. destruct (Qeq_bool q 0) eqn:E; cbn [negb].
  - apply Qeq_bool_iff in E. exists 0%Q. split; [reflexivity|lra].
  - exists q. split; [reflexivity|lra].
Qed.

Lemma percentage_bounds (p n : nat) :
  (p <= n)%nat ->
  (0 <= Utils.calculatePercentage (count p) (count n) <= 100)%Q.
Proof. apply calculatePercentage_range. Qed.

Section Extremes.

Variable k : string.

Lemma max_fold (items : list obj) :
  Forall (percent_field k) items ->
  forall m : Q,
    (m <= 100)%Q ->
    exists hi : Q,
      fold_left (fun m v => Num.max m (to_number v)) (map (field_or_0 k) items) (Fin m)
      = Fin hi /\
      (m <= hi <= 100)%Q /\
      forall d : obj, In d items -> (field_number k d <= hi)%Q.
Proof.
  induction 1 as [|d items Hd _ IH]; intros m Hm; cbn [map fold_left].
  - exists m. split; [reflexivity|]. split; [lra|]. intros d [].
  - destruct (percent_field_number k d Hd) as (Hq & Hr).
    change (field_or_0 k d) with (or_else (get (lit k) d) (VNum (Fin 0))).
    rewrite Hq.
    destruct (or_else_number (field_number k d)) as (q' & -> & Hq').
    cbn [to_number Num.max].
    destruct (IH (Qmax m q')) as (hi & -> & Hhi & Hall).
    { apply Q.max_lub; lra. }
    exists hi. split; [reflexivity|].
    pose proof (Q.le_max_l m q'). pose proof (Q.le_max_r m q').
    split; [lra|]. intros x [<-|Hx]; [lra|now apply Hall].
Qed.

Lemma min_fold (items : list obj) :
  Forall (percent_field k) items ->
  forall m : Q,
    (0 <= m)%Q ->
    exists lo : Q,
      fold_left (fun m v => Num.min m (to_number v)) (map (field_or_0 k) items) (Fin m)
      = Fin lo /\
      (0 <= lo <= m)%Q /\
      forall d : obj, In d items -> (lo <= field_number k d)%Q.
Proof.
  induction 1 as [|d items Hd _ IH]; intros m Hm; cbn [map fold_left].
  - exists m. split; [reflexivity|]. split; [lra|]. intros d [].
  - destruct (percent_field_number k d Hd) as (Hq & Hr).
    change (field_or_0 k d) with (or_else (get (lit k) d) (VNum (Fin 0))).
    rewrite Hq.
    destruct (or_else_number (field_number k d)) as (q' & -> & Hq').
    cbn [to_number Num.min].
    destruct (IH (Qmin m q')) as (lo & -> & Hlo & Hall).
    { apply Q.min_glb; lra. }
    exists lo. split; [reflexivity|].
    pose proof (Q.le_min_l m q'). pose proof (Q.le_min_r m q').
    split; [lra|]. intros x [<-|Hx]; [lra|now apply Hall].
Qed.

Lemma extremes_of_percent_field (d : obj) (items : list obj) :
  Forall (percent_field k) (d :: items) ->
  exists lo hi : Q,
    min_of (map (field_or_0 k) (d :: items)) = Fin lo /\
    max_of (map (field_or_0 k) (d :: items)) = Fin hi /\
    (0 <= lo)%Q /\ (hi <= 100)%Q /\
    forall x : obj,
      In x (d :: items) -> (lo <= field_number k x <= hi)%Q.
Proof.
  intros Hall. inversion Hall as [|? ? Hd Hitems]; subst.
  destruct (percent_field_number k d Hd) as (Hq & Hr).
  unfold min_of, max_of. cbn [map fold_left].
  change (field_or_0 k d) with (or_else (get (lit k) d) (VNum (Fin 0))).
  rewrite Hq. destruct (or_else_number (field_number k d)) as (q' & -> & Hq').
  cbn [to_number Num.min Num.max].
  destruct (min_fold items Hitems q') as (lo & -> & Hlo & Hmin); [lra|].
  destruct (max_fold items Hitems q') as (hi & -> & Hhi & Hmax); [lra|].
  exists lo, hi. repeat split; try reflexivity; try lra.
  - destruct H as [<-|H]; [lra|now apply Hmin].
  - destruct H as [<-|H]; [lra|now apply Hmax].
Qed.

End Extremes.

End StatisticsBounds.

(** X18.  For the records of a subject whose marks and attendance are
    numbers between 0 and 100, the statistics that [getSubjectStats]
    computes are numbers in that range: every score of the subject lies
    between the lowest and the highest score, which lie between 0 and
    100; the average score and the average attendance are the means as
    binary64 computes them and lie between 0 and 100, and so does the
    pass rate; the count is the number of the records.  The average
    score need not lie between the lowest and the highest score: for
    three marks of 99.9 it is 99.90000000000002. *)
Theorem subject_stats_range (items : list obj) :
  items <> [] ->
  percent_data items ->
  array_length items ->
  let st := AnalyticsEngine.subject_stats items in
  exists lo avg hi att : Q,
    AnalyticsEngine.SubjectStats.minScore st = Fin lo /\
    AnalyticsEngine.SubjectStats.averageScore st = Fin avg /\
    AnalyticsEngine.SubjectStats.maxScore st = Fin hi /\
    AnalyticsEngine.SubjectStats.averageAttendance st = Fin att /\
    (0 <= lo)%Q /\ (lo <= hi)%Q /\ (hi <= 100)%Q /\
    avg = mean64 (map (field_number "marks") items) /\
    (0 <= avg <= 100)%Q /\
    att = mean64 (map (field_number "attendance") items) /\
    (0 <= att <= 100)%Q /\
    (0 <= AnalyticsEngine.SubjectStats.passRate st <= 100)%Q /\
    AnalyticsEngine.SubjectStats.count st = List.length items /\
    forall d : obj,
      In d items -> (lo <= field_number "marks" d <= hi)%Q.
Proof.
  intros Hne Hall Hlen. cbv zeta.
  assert (Hm : Forall (percent_field "marks") items).
  { eapply Forall_impl; [|exact Hall]. now intros a [H _]. }
  assert (Ha : Forall (percent_field "attendance") items).
  { eapply Forall_impl; [|exact Hall]. now intros a [_ H]. }
  destruct (average_of_field "marks" items Hm Hne Hlen) as [Eavg Havg].
  destruct (average_of_field "attendance" items Ha Hne Hlen) as [Eatt Hatt].
  destruct items as [|d items]; [congruence|].
  destruct (extremes_of_percent_field "marks" d items Hm)
    as (lo & hi & Elo & Ehi & Hlo & Hhi & Hbetween).
  exists lo, (mean64 (map (field_number "marks") (d :: items))), hi,
         (mean64 (map (field_number "attendance") (d :: items))).
  unfold AnalyticsEngine.subject_stats. cbv zeta.
  cbn [AnalyticsEngine.SubjectStats.minScore
       AnalyticsEngine.SubjectStats.averageScore
       AnalyticsEngine.SubjectStats.maxScore
       AnalyticsEngine.SubjectStats.averageAttendance
       AnalyticsEngine.SubjectStats.passRate
       AnalyticsEngine.SubjectStats.count].
  split; [exact Elo|]. split; [exact Eavg|]. split; [exact Ehi|].
  split; [exact Eatt|]. split; [exact Hlo|].
  split. { pose proof (Hbetween d (or_introl eq_refl)). lra. }
  split; [exact Hhi|]. split; [reflexivity|]. split; [exact Havg|].
  split; [reflexivity|]. split; [exact Hatt|].
  split; [apply percentage_bounds, filter_length_le|].
  split; [reflexivity|exact Hbetween].
Qed.

Lemma subject_stats_range_witness :
  exists lo avg hi : Q,
    AnalyticsEngine.SubjectStats.minScore
      (AnalyticsEngine.subject_stats (processed repeated_marks_csv)) = Fin lo /\
    AnalyticsEngine.SubjectStats.averageScore
      (AnalyticsEngine.subject_stats (processed repeated_marks_csv)) = Fin avg /\
    AnalyticsEngine.SubjectStats.maxScore
      (AnalyticsEngine.subject_stats (processed repeated_marks_csv)) = Fin hi /\
    (0 <= lo)%Q /\ (lo <= hi)%Q /\ (hi < avg)%Q /\ (avg <= 100)%Q.
Proof.
  assert (H : percent_data (processed repeated_marks_csv)).
  { let v := eval vm_compute in (processed repeated_marks_csv) in
    assert (E : processed repeated_marks_csv = v) by (vm_compute; reflexivity).
    rewrite E.
    repeat constructor;
      (eexists; split; [vm_compute; reflexivity|split; discriminate]). }
  assert (Hne : processed repeated_marks_csv <> [])
    by (vm_compute; discriminate).
  assert (Hlen : array_length (processed repeated_marks_csv))
    by (vm_compute; reflexivity).
  destruct (subject_stats_range _ Hne H Hlen)
    as (lo & avg & hi & att & E1 & E2 & E3 & _ & H1 & H2 & H3 & Eavg & H4 & _).
  exists lo, avg, hi. repeat split; try assumption; try tauto.
  vm_compute in E3. injection E3 as <-. rewrite Eavg. vm_compute. reflexivity.
Defined.

(** ** The statistics of the semesters *)

Section SemesterStatistics.

Import AnalyticsEngine.

Lemma Sorted_map {B C} (f : B -> C) (R : C -> C -> Prop) (l : list B) :
  Sorted (fun a b => R (f a) (f b)) l -> Sorted R (map f l).
Proof.
  induction 1 as [|x l _ IH Hhd]; simpl; constructor; [exact IH|].
  destruct Hhd; simpl; constructor. assumption.
Qed.

Lemma index_keys_sorted {B} (o : list (str * B)) :
  Sorted (fun a b => (key_number a <= key_number b)%N)
         (map (fun x => fst (snd x)) (index_entries o)).
Proof.
  apply Sorted_map.
  assert (H : forall x : N * (str * B),
             In x (index_entries o) -> key_number (fst (snd x)) = fst x).
  { intros x Hx. unfold key_number.
    now rewrite (index_entries_index o x Hx). }
  pose proof (index_entries_sorted o) as Hs.
  induction Hs as [|x l Hl IH Hhd]; constructor.
  - apply IH. intros y Hy. apply H. now right.
  - destruct Hhd as [|y l' Hxy]; constructor.
    rewrite (H x (or_introl eq_refl)), (H y (or_intror (or_introl eq_refl))).
    exact Hxy.
Qed.

Lemma index_keys_are_indices {B} (o : list (str * B)) :
  Forall (fun k => array_index k <> None)
         (map (fun x => fst (snd x)) (index_entries o)).
Proof.
  apply Forall_forall. intros k Hk. apply in_map_iff in Hk.
  destruct Hk as (x & <- & Hx). rewrite (index_entries_index o x Hx).
  discriminate.
Qed.

Lemma getSemesterStats_spec (data : list obj) :
  if forallb (plain_key (lit "semester")) data
  then exists (stats : list (str * SemesterStats.t))
              (numbered named : list str),
         getSemesterStats data = Ok stats /\
         NoDup (map fst stats) /\
         (forall (semester : str) (st : SemesterStats.t),
            In (semester, st) stats <->
            of_semester semester data <> [] /\
            st = semester_stats (of_semester semester data)) /\
         map fst stats = numbered ++ named /\
         Forall (fun k => array_index k <> None) numbered /\
         Sorted (fun a b => (key_number a <= key_number b)%N) numbered /\
         Forall (fun k => array_index k = None) named
  else getSemesterStats data
       = Throw (TypeError (lit "result[groupKey].push is not a function")).
Proof.
  pose proof (groupBy_spec data (lit "semester")) as H.
  unfold getSemesterStats.
  destruct (forallb (plain_key (lit "semester")) data);
    [|now rewrite H].
  destruct H as (g & -> & Hnd & Hin & Htotal). cbn [bind].
  pose proof (entries_perm g) as Hp.
  eexists. exists (map (fun x => fst (snd x)) (index_entries g)).
  exists (map fst (filter (fun kv => match array_index (fst kv) with
                                     | Some _ => false
                                     | None => true
                                     end) g)).
  split; [reflexivity|]. split; [|split; [|split; [|split; [|split]]]].
  - rewrite map_map. cbn [fst].
    apply (Permutation_NoDup (l := map fst g)); [|exact Hnd].
    apply Permutation_sym, Permutation_map, Hp.
  - intros semester st. rewrite in_map_iff. unfold of_semester. split.
    + intros ([k items] & E & Hk). cbn [fst snd] in E. injection E as -> <-.
      apply (Permutation_in _ Hp) in Hk. apply Hin in Hk.
      destruct Hk as (Hne & ->). now split.
    + intros (Hne & ->).
      exists (semester, filter (in_group (lit "semester") semester) data).
      split; [reflexivity|].
      apply (Permutation_in _ (Permutation_sym Hp)). now apply Hin.
  - rewrite map_map. cbn [fst]. unfold entries.
    now rewrite map_app, map_map.
  - apply index_keys_are_indices.
  - apply index_keys_sorted.
  - apply Forall_forall. intros k Hk. apply in_map_iff in Hk.
    destruct Hk as (kv & <- & Hkv). apply filter_In in Hkv.
    destruct Hkv as (_ & Hkv). now destruct (array_index (fst kv)).
Qed.

End SemesterStatistics.

(** X19.  [getSemesterStats] lists every semester of the data once,
    with the statistics of the records of that semester.  The semesters
    whose key is an array index, such as 1 and 2, come first, in
    ascending order of their number whatever the order of the records;
    the other semesters follow.  It throws a TypeError exactly when the
    semester of some record is a property name of [Object.prototype]. *)
Theorem semesterStats_in_order (data : list obj) :
  if forallb (plain_key (lit "semester")) data
  then exists (stats : list (str * AnalyticsEngine.SemesterStats.t))
              (numbered named : list str),
         AnalyticsEngine.getSemesterStats data = Ok stats /\
         NoDup (map fst stats) /\
         (forall (semester : str) (st : AnalyticsEngine.SemesterStats.t),
            In (semester, st) stats <->
            of_semester semester data <> [] /\
            st = AnalyticsEngine.semester_stats (of_semester semester data)) /\
         map fst stats = numbered ++ named /\
         Forall (fun k => array_index k <> None) numbered /\
         Sorted (fun a b => (key_number a <= key_number b)%N) numbered /\
         Forall (fun k => array_index k = None) named
  else AnalyticsEngine.getSemesterStats data
       = Throw (TypeError (lit "result[groupKey].push is not a function")).
Proof. exact (getSemesterStats_spec data). Qed.

(** The records of the second semester come first in the text
    [two_semesters_csv]; the statistics list the first semester
    first. *)
Example semesters_listed_by_number :
  map (get (lit "semester")) (processed two_semesters_csv)
  = [VNum (Fin 2); VNum (Fin 1)] /\
  match AnalyticsEngine.getSemesterStats (processed two_semesters_csv) with
  | Ok stats => map fst stats = [lit "1"; lit "2"]
  | Throw _ => False
  end.
Proof. vm_compute. split; reflexivity. Qed.

(** ** The best and the weakest students *)

Section Performers.

Import Utils AnalyticsEngine.

Lemma insert_index_map {B C} (h : str * B -> str * C) (i : N) (kv : str * B)
    (l : list (N * (str * B))) :
  insert_index i (h kv) (map (fun x => (fst x, h (snd x))) l)
  = map (fun x => (fst x, h (snd x))) (insert_index i kv l).
Proof.
  induction l as [|[j kv'] r IH]; simpl; [reflexivity|].
  destruct (i <? j)%N; simpl; [reflexivity|]. now rewrite IH.
Qed.

Lemma entries_map {B C} (h : str * B -> str * C) (o : list (str * B)) :
  (forall kv : str * B, fst (h kv) = fst kv) ->
  entries (map h o) = map h (entries o).
Proof.
  intros Hh. unfold entries. rewrite map_app. f_equal.
  - assert (E : index_entries (map h o)
                = map (fun x => (fst x, h (snd x))) (index_entries o)).
    { induction o as [|kv r IH]; simpl; [reflexivity|].
      rewrite Hh. destruct (array_index (fst kv)); [|exact IH].
      now rewrite IH, insert_index_map. }
    rewrite E, !map_map. reflexivity.
  - induction o as [|kv r IH]; simpl; [reflexivity|].
    rewrite Hh. destruct (array_index (fst kv)); simpl; now rewrite IH.
Qed.

Lemma own_student_entries (k : str) (g : list (str * list obj)) :
  own k (map student_entry g) = own k g.
Proof.
  unfold own. induction g as [|x r IH]; simpl; [reflexivity|].
  now rewrite IH.
Qed.

Lemma push_scores_entries (k : str) (d : obj) (g : list (str * list obj)) :
  Forall (fun x => snd x <> []) g ->
  push_scores k d (map student_entry g) = map student_entry (push_item k d g).
Proof.
  induction 1 as [|[k0 items] r Hx _ IH]; simpl; [reflexivity|].
  destruct (Str.eqb k0 k); simpl.
  - unfold student_entry. cbn [fst snd StudentAverages.studentId
      StudentAverages.name StudentAverages.scores
      StudentAverages.attendances].
    rewrite !map_app. simpl in Hx.
    destruct items as [|x items]; [congruence|]. reflexivity.
  - now rewrite IH.
Qed.

Lemma push_item_nonempty (k : str) (d : obj) (g : list (str * list obj)) :
  Forall (fun x => snd x <> []) g ->
  Forall (fun x => snd x <> []) (push_item k d g).
Proof.
  induction 1 as [|[k0 items] r Hx Hr IH]; simpl; [constructor|].
  destruct (Str.eqb k0 k); constructor; auto.
  simpl. intros E. now destruct items.
Qed.

Lemma averages_step_sim (g : list (str * list obj)) (d : obj) :
  Forall (fun x => snd x <> []) g ->
  match group_step (lit "studentId") g d with
  | Ok g' =>
      averages_step (map student_entry g) d = Ok (map student_entry g') /\
      Forall (fun x => snd x <> []) g'
  | Throw _ =>
      averages_step (map student_entry g) d
      = Throw (TypeError
                 (lit "Cannot read properties of undefined (reading 'push')"))
  end.
Proof.
  intros Hne. unfold group_step, averages_step.
  rewrite own_student_entries.
  destruct (own (to_string (get (lit "studentId") d)) g).
  - split; [now rewrite push_scores_entries|now apply push_item_nonempty].
  - destruct (inherited (to_string (get (lit "studentId") d)));
      [reflexivity|].
    split.
    + now rewrite map_app.
    + apply Forall_app. split; [exact Hne|]. repeat constructor. discriminate.
Qed.

Lemma averages_fold_throw (rest : list obj) (e : exn) :
  fold_left (fun acc d => studentAverages <- acc ;;
                          averages_step studentAverages d)
            rest (Throw e)
  = Throw e.
Proof. induction rest as [|x rest IH]; simpl; [reflexivity|exact IH]. Qed.

Lemma averages_fold_sim (rest : list obj) :
  forall g : list (str * list obj),
    Forall (fun x => snd x <> []) g ->
    match fold_left
            (fun acc item => result <- acc ;;
                             group_step (lit "studentId") result item)
            rest (Ok g) with
    | Ok g' =>
        fold_left (fun acc d => studentAverages <- acc ;;
                                averages_step studentAverages d)
                  rest (Ok (map student_entry g))
        = Ok (map student_entry g')
    | Throw _ =>
        fold_left (fun acc d => studentAverages <- acc ;;
                                averages_step studentAverages d)
                  rest (Ok (map student_entry g))
        = Throw (TypeError
                   (lit "Cannot read properties of undefined (reading 'push')"))
    end.
Proof.
  induction rest as [|d rest IH]; intros g Hg; cbn [fold_left bind];
    [reflexivity|].
  pose proof (averages_step_sim g d Hg) as Hstep.
  destruct (group_step (lit "studentId") g d) as [g1|e].
  - destruct Hstep as (-> & Hg1). now apply IH.
  - rewrite Hstep, group_fold_throw. apply averages_fold_throw.
Qed.

(** The objects of [students] are those of the groups of the records by
    identifier. *)
Lemma performers_spec (data : list obj) :
  if forallb (plain_key (lit "studentId")) data
  then exists groups : list (str * list obj),
         groupBy data (lit "studentId") = Ok groups /\
         performers data
         = Ok (map (fun g => student_performer (snd g)) (entries groups))
  else performers data
       = Throw (TypeError
                  (lit "Cannot read properties of undefined (reading 'push')")).
Proof.
  pose proof (groupBy_spec data (lit "studentId")) as H.
  pose proof (averages_fold_sim data [] (Forall_nil _)) as Hsim.
  unfold performers, student_averages. unfold groupBy in *.
  destruct (forallb (plain_key (lit "studentId")) data).
  - destruct H as (g & Hg & _). rewrite Hg in Hsim. cbn [map] in Hsim.
    exists g. split; [exact Hg|]. rewrite Hsim. cbn [bind].
    rewrite entries_map by reflexivity. rewrite map_map. reflexivity.
  - rewrite H in Hsim. cbn [map] in Hsim. now rewrite Hsim.
Qed.

End Performers.

Section Ranking.

Import Utils AnalyticsEngine.

Lemma num_leb_trans (a b c : num) :
  Num.leb a b = true -> Num.leb b c = true -> Num.leb a c = true.
Proof.
  destruct a as [|[]|x], b as [|[]|y], c as [|[]|z]; simpl;
    try congruence; intros H1 H2.
  apply Qle_bool_iff in H1. apply Qle_bool_iff in H2. apply Qle_bool_iff.
  eapply Qle_trans; eauto.
Qed.

Lemma strongly_sorted_split {B} (R : B -> B -> Prop) (l : list B) (n : nat) :
  StronglySorted R l ->
  StronglySorted R (firstn n l) /\
  forall p q : B, In p (firstn n l) -> In q (skipn n l) -> R p q.
Proof.
  intros Hs. revert n. induction Hs as [|x l Hl IH Hx]; intros n.
  - rewrite firstn_nil, skipn_nil. split; [constructor|]. intros p q [].
  - destruct n as [|n]; cbn [firstn skipn].
    + split; [constructor|]. intros p q [].
    + destruct (IH n) as (Hf & Hr). split.
      * constructor; [exact Hf|]. apply Forall_forall. intros y Hy.
        rewrite Forall_forall in Hx. apply Hx.
        rewrite <- (firstn_skipn n l). apply in_or_app. now left.
      * intros p q [<-|Hp] Hq; [|now apply Hr].
        rewrite Forall_forall in Hx. apply Hx.
        rewrite <- (firstn_skipn n l). apply in_or_app. now right.
Qed.

Section Prefix.

Context {B : Type}.
Variable cmp : B -> B -> num.
Variable P : B -> Prop.
Variable R : B -> B -> Prop.
Hypothesis R_trans : forall x y z : B, R x y -> R y z -> R x z.
Hypothesis R_before :
  forall x y : B, P x -> P y -> comes_after (cmp x y) = false -> R x y.
Hypothesis R_after :
  forall x y : B, P x -> P y -> comes_after (cmp x y) = true -> R y x.

(** The first [limit] elements of the sorted array. *)
Lemma ranked_prefix (l : list B) (limit : nat) :
  Forall P l ->
  let top := firstn limit (array_sort cmp l) in
  let rest := skipn limit (array_sort cmp l) in
  List.length top = Nat.min limit (List.length l) /\
  Permutation (top ++ rest) l /\
  Sorted R top /\
  (forall p q : B, In p top -> In q rest -> R p q) /\
  Forall P top.
Proof.
  intros Hl. cbv zeta.
  pose proof (array_sort_sorted cmp P R R_before R_after l Hl) as Hs.
  apply Sorted_StronglySorted in Hs; [|exact R_trans].
  destruct (strongly_sorted_split R _ limit Hs) as (Hf & Hr).
  split; [now rewrite length_firstn, array_sort_length|].
  split; [rewrite firstn_skipn; apply Permutation_sym, array_sort_perm|].
  split; [now apply StronglySorted_Sorted|]. split; [exact Hr|].
  apply Forall_forall. intros p Hp.
  pose proof (array_sort_all cmp P l Hl) as Hall.
  rewrite Forall_forall in Hall. apply Hall.
  rewrite <- (firstn_skipn limit (array_sort cmp l)).
  apply in_or_app. now left.
Qed.

End Prefix.

Lemma double_average_percent (p : Performer.t) :
  double_average p -> percent_average p.
Proof. intros (q & E & _ & H). exists q. now split. Qed.

Lemma filter_array_length {B} (f : B -> bool) (l : list B) :
  array_length l -> array_length (filter f l).
Proof.
  unfold array_length. pose proof (filter_length_le f l). lia.
Qed.

Lemma student_performer_percent (data : list obj) (k : str) :
  percent_data data ->
  array_length data ->
  filter (in_group (lit "studentId") k) data <> [] ->
  double_average
    (student_performer (filter (in_group (lit "studentId") k) data)).
Proof.
  intros Hall Hlen Hne.
  assert (Hm : Forall (percent_field "marks")
                      (filter (in_group (lit "studentId") k) data)).
  { apply Forall_forall. intros d Hd. apply filter_In in Hd.
    unfold percent_data in Hall. rewrite Forall_forall in Hall.
    now apply Hall. }
  destruct (average_of_field "marks" _ Hm Hne
              (filter_array_length _ _ Hlen)) as [E Hr].
  eexists. split; [exact E|]. split; [apply rnd_double|exact Hr].
Qed.

(** The sign of the difference of two averages. *)
Lemma average_difference (x y : Q) :
  double x -> double y -> (0 <= x <= 100)%Q -> (0 <= y <= 100)%Q ->
  comes_after (Num.sub64 (Fin y) (Fin x)) = Qltb x y.
Proof.
  intros Dx Dy Hx Hy. unfold Num.sub64, Num.sub. cbn [Num.opp Num.add rounded].
  destruct (round64_between (y + - x) (-100) 100) as [E _];
    [simpl; lia|simpl; lia| |].
  { change (inject_Z (-100)) with (-100)%Q.
    change (inject_Z 100) with 100%Q. lra. }
  rewrite E. unfold comes_after. cbn [Num.ltb].
  assert (Eq : rnd (y + - x) = rnd (y - x)) by (apply rnd_comp; ring).
  rewrite Eq. pose proof (rnd_sub_sign x y Dx Dy) as Hs.
  destruct (Qltb x y) eqn:E1.
  - apply Qltb_lt. apply Hs. now apply Qltb_lt.
  - apply not_true_iff_false. intros H. apply Qltb_lt in H.
    apply Hs in H. apply Qltb_lt in H. congruence.
Qed.

(** The objects of [students] on parsed data. *)
Lemma performers_percent (data : list obj) :
  percent_data data ->
  array_length data ->
  if forallb (plain_key (lit "studentId")) data
  then exists (groups : list (str * list obj))
              (students : list Performer.t),
         groupBy data (lit "studentId") = Ok groups /\
         performers data = Ok students /\
         Permutation students
           (map (fun g => student_performer (snd g)) groups) /\
         Forall double_average students
  else performers data
       = Throw (TypeError
                  (lit "Cannot read properties of undefined (reading 'push')")).
Proof.
  intros Hall Hlen. pose proof (performers_spec data) as H.
  pose proof (groupBy_spec data (lit "studentId")) as Hg.
  destruct (forallb (plain_key (lit "studentId")) data); [|exact H].
  destruct H as (g & Eg & Ep). destruct Hg as (g' & Eg' & _ & Hin & _).
  rewrite Eg in Eg'. injection Eg' as <-.
  exists g. eexists. split; [exact Eg|]. split; [exact Ep|]. split.
  - apply Permutation_map, entries_perm.
  - apply Forall_forall. intros p Hp. apply in_map_iff in Hp.
    destruct Hp as ([k items] & <- & Hk).
    apply (Permutation_in _ (entries_perm g)) in Hk. apply Hin in Hk.
    destruct Hk as (Hne & E). cbn [snd]. rewrite E in *.
    now apply student_performer_percent.
Qed.

End Ranking.

(** X20.  On data with marks and attendance between 0 and 100,
    [getTopPerformers] makes one entry for each group of records with
    the same identifier, with the mean of the marks of the group, as
    binary64 computes it, as its average score, and returns the [limit] entries with the highest
    average scores, or all of them if there are fewer, in descending
    order of that average score: no entry that is left out has a higher
    average than one that is returned.  It throws a TypeError exactly
    when the identifier of some record is a property name of
    [Object.prototype]. *)
Theorem topPerformers_ranked (limit : nat) (data : list obj) :
  percent_data data ->
  array_length data ->
  if forallb (plain_key (lit "studentId")) data
  then exists (groups : list (str * list obj))
              (top rest : list AnalyticsEngine.Performer.t),
         Utils.groupBy data (lit "studentId") = Ok groups /\
         AnalyticsEngine.getTopPerformers limit data = Ok top /\
         List.length top = Nat.min limit (List.length groups) /\
         Permutation (top ++ rest)
           (map (fun g => student_performer (snd g)) groups) /\
         Sorted ranks_above top /\
         (forall p q : AnalyticsEngine.Performer.t,
            In p top -> In q rest -> ranks_above p q) /\
         Forall percent_average top
  else AnalyticsEngine.getTopPerformers limit data
       = Throw (TypeError
                  (lit "Cannot read properties of undefined (reading 'push')")).
Proof.
  intros Hall Hlen'. pose proof (performers_percent data Hall Hlen') as H.
  unfold AnalyticsEngine.getTopPerformers.
  destruct (forallb (plain_key (lit "studentId")) data); [|now rewrite H].
  destruct H as (g & students & Eg & -> & Hperm & Hp). cbn [bind].
  set (cmp := fun a b : AnalyticsEngine.Performer.t =>
                Num.sub64 (AnalyticsEngine.Performer.averageScore b)
                          (AnalyticsEngine.Performer.averageScore a)).
  destruct (ranked_prefix cmp double_average ranks_above) with
    (l := students) (limit := limit) as (Hlen & Hpm & Hs & Hdom & Htop).
  - intros x y z. unfold ranks_above. intros H1 H2.
    eapply num_leb_trans; eauto.
  - intros x y (qx & Ex & Dx & Hx) (qy & Ey & Dy & Hy). unfold cmp, ranks_above.
    rewrite Ex, Ey, (average_difference qx qy Dx Dy Hx Hy). cbn [Num.leb].
    rewrite Qltb_ge. intros H. now apply Qle_bool_iff.
  - intros x y (qx & Ex & Dx & Hx) (qy & Ey & Dy & Hy). unfold cmp, ranks_above.
    rewrite Ex, Ey, (average_difference qx qy Dx Dy Hx Hy). cbn [Num.leb].
    rewrite Qltb_lt. intros H. apply Qle_bool_iff. lra.
  - exact Hp.
  - exists g, (firstn limit (array_sort cmp students)),
      (skipn limit (array_sort cmp students)).
    split; [exact Eg|]. split; [reflexivity|].
    split.
    { rewrite Hlen. f_equal. rewrite (Permutation_length Hperm).
      apply length_map. }
    split; [eapply perm_trans; eassumption|].
    split; [exact Hs|]. split; [exact Hdom|].
    eapply Forall_impl; [|exact Htop]. apply double_average_percent.
Qed.

Lemma topPerformers_ranked_witness :
  match AnalyticsEngine.getTopPerformers 2 (processed three_students_csv) with
  | Ok top =>
      map AnalyticsEngine.Performer.name top
      = [VStr (lit "Bob"); VStr (lit "Carol")] /\
      Sorted ranks_above top
  | Throw _ => False
  end.
Proof.
  assert (H : percent_data (processed three_students_csv)).
  { repeat constructor;
      (eexists; split; [vm_compute; reflexivity|split; discriminate]). }
  assert (Hlen : array_length (processed three_students_csv))
    by (vm_compute; reflexivity).
  pose proof (topPerformers_ranked 2 (processed three_students_csv) H Hlen)
    as Ht.
  assert (Hk : forallb (plain_key (lit "studentId"))
                       (processed three_students_csv) = true)
    by (vm_compute; reflexivity).
  rewrite Hk in Ht.
  destruct (AnalyticsEngine.getTopPerformers 2 (processed three_students_csv))
    as [top|e] eqn:E.
  - destruct Ht as (g & top' & rest & _ & Etop & _ & _ & Hs & _).
    injection Etop as <-. vm_compute in E. injection E as <-.
    split; [reflexivity|exact Hs].
  - vm_compute in E. discriminate E.
Defined.

(** X21.  [getBottomPerformers] is the mirror image: on data with marks
    and attendance between 0 and 100 it returns the [limit] entries
    with the lowest average scores, or all of them if there are fewer,
    in ascending order of the average score, and no entry that is left
    out has a lower average than one that is returned. *)
Theorem bottomPerformers_ranked (limit : nat) (data : list obj) :
  percent_data data ->
  array_length data ->
  if forallb (plain_key (lit "studentId")) data
  then exists (groups : list (str * list obj))
              (bottom rest : list AnalyticsEngine.Performer.t),
         Utils.groupBy data (lit "studentId") = Ok groups /\
         AnalyticsEngine.getBottomPerformers limit data = Ok bottom /\
         List.length bottom = Nat.min limit (List.length groups) /\
         Permutation (bottom ++ rest)
           (map (fun g => student_performer (snd g)) groups) /\
         Sorted ranks_below bottom /\
         (forall p q : AnalyticsEngine.Performer.t,
            In p bottom -> In q rest -> ranks_below p q) /\
         Forall percent_average bottom
  else AnalyticsEngine.getBottomPerformers limit data
       = Throw (TypeError
                  (lit "Cannot read properties of undefined (reading 'push')")).
Proof.
  intros Hall Hlen'. pose proof (performers_percent data Hall Hlen') as H.
  unfold AnalyticsEngine.getBottomPerformers.
  destruct (forallb (plain_key (lit "studentId")) data); [|now rewrite H].
  destruct H as (g & students & Eg & -> & Hperm & Hp). cbn [bind].
  set (cmp := fun a b : AnalyticsEngine.Performer.t =>
                Num.sub64 (AnalyticsEngine.Performer.averageScore a)
                          (AnalyticsEngine.Performer.averageScore b)).
  destruct (ranked_prefix cmp double_average ranks_below) with
    (l := students) (limit := limit) as (Hlen & Hpm & Hs & Hdom & Htop).
  - intros x y z. unfold ranks_below, ranks_above. intros H1 H2.
    eapply num_leb_trans; eauto.
  - intros x y (qx & Ex & Dx & Hx) (qy & Ey & Dy & Hy).
    unfold cmp, ranks_below, ranks_above.
    rewrite Ex, Ey, (average_difference qy qx Dy Dx Hy Hx). cbn [Num.leb].
    rewrite Qltb_ge. intros H. now apply Qle_bool_iff.
  - intros x y (qx & Ex & Dx & Hx) (qy & Ey & Dy & Hy).
    unfold cmp, ranks_below, ranks_above.
    rewrite Ex, Ey, (average_difference qy qx Dy Dx Hy Hx). cbn [Num.leb].
    rewrite Qltb_lt. intros H. apply Qle_bool_iff. lra.
  - exact Hp.
  - exists g, (firstn limit (array_sort cmp students)),
      (skipn limit (array_sort cmp students)).
    split; [exact Eg|]. split; [reflexivity|].
    split.
    { rewrite Hlen. f_equal. rewrite (Permutation_length Hperm).
      apply length_map. }
    split; [eapply perm_trans; eassumption|].
    split; [exact Hs|]. split; [exact Hdom|].
    eapply Forall_impl; [|exact Htop]. apply double_average_percent.
Qed.

Lemma bottomPerformers_ranked_witness :
  match AnalyticsEngine.getBottomPerformers 2
          (processed three_students_csv) with
  | Ok bottom =>
      map AnalyticsEngine.Performer.name bottom
      = [VStr (lit "Alice"); VStr (lit "Carol")] /\
      Sorted ranks_below bottom
  | Throw _ => False
  end.
Proof.
  assert (H : percent_data (processed three_students_csv)).
  { repeat constructor;
      (eexists; split; [vm_compute; reflexivity|split; discriminate]). }
  assert (Hlen : array_length (processed three_students_csv))
    by (vm_compute; reflexivity).
  pose proof (bottomPerformers_ranked 2 (processed three_students_csv) H Hlen)
    as Ht.
  assert (Hk : forallb (plain_key (lit "studentId"))
                       (processed three_students_csv) = true)
    by (vm_compute; reflexivity).
  rewrite Hk in Ht.
  destruct (AnalyticsEngine.getBottomPerformers 2
              (processed three_students_csv))
    as [bottom|e] eqn:E.
  - destruct Ht as (g & bottom' & rest & _ & Etop & _ & _ & Hs & _).
    injection Etop as <-. vm_compute in E. injection E as <-.
    split; [reflexivity|exact Hs].
  - vm_compute in E. discriminate E.
Defined.

(** ** The linear forecast *)

Section Forecast.

Import ForecastingEngine.

Lemma clamp_percent_or_NaN (y : num) :
  percent_or_NaN (Num.max (Fin 0) (Num.min (Fin 100) y)).
Proof.
  destruct y as [|[]|q]; cbn [Num.min Num.max].
  - now left.
  - right. exists 0%Q. split; [reflexivity|lra].
  - right. exists (Qmax 0 100). split; [reflexivity|].
    split; [apply Q.le_max_l|apply Q.max_lub; lra].
  - right. exists (Qmax 0 (Qmin 100 q)). split; [reflexivity|]. split.
    + apply Q.le_max_l.
    + apply Q.max_lub; [lra|]. apply Q.le_min_l.
Qed.

Lemma clamp_percent (q : Q) : (0 <= clamp q <= 100)%Q.
Proof.
  unfold clamp. split.
  - apply Q.le_max_l.
  - apply Q.max_lub; [lra|]. apply Q.le_min_l.
Qed.

End Forecast.

(** X22.  [linearForecast] returns one value for each period.  From two
    or more values every value it returns is a number between 0 and
    100, or [NaN]: the forecast is clamped, and [NaN] passes through
    the clamping, as it does when a sum of the regression overflows.
    From a single number it returns that number for every period,
    without clamping it, so that a lone 150 is forecast as 150; from no
    number at all it returns zeros. *)
Theorem linearForecast_shape (data : list num) (periods : nat) :
  let forecast := ForecastingEngine.linearForecast data periods in
  List.length forecast = periods /\
  ((2 <= List.length data)%nat -> Forall percent_or_NaN forecast) /\
  (forall q : Q,
     data = [Fin q] -> ~ (q == 0)%Q -> forecast = repeat (Fin q) periods) /\
  (data = [] -> forecast = repeat (Fin 0) periods).
Proof.
  cbv zeta. destruct data as [|y1 [|y2 rest]].
  - cbn [ForecastingEngine.linearForecast].
    split; [apply repeat_length|]. split; [simpl; lia|].
    split; [discriminate|reflexivity].
  - cbn [ForecastingEngine.linearForecast].
    split; [apply repeat_length|]. split; [simpl; lia|]. split; [|discriminate].
    intros q E Hq. injection E as ->. unfold or_else, truthy.
    destruct (Qeq_bool q 0) eqn:E; [|reflexivity].
    apply Qeq_bool_iff in E. contradiction.
  - unfold ForecastingEngine.linearForecast.
    destruct (ForecastingEngine.regression_sums _ _ _ _ _ _)
      as [numerator denominator].
    split; [now rewrite length_map, length_seq|].
    split; [|split; discriminate]. intros _.
    apply Forall_forall. intros v Hv. apply in_map_iff in Hv.
    destruct Hv as (i & <- & _). apply clamp_percent_or_NaN.
Qed.

(** The forecasts from 60, 65, 70 are 75 and 80; three marks of 99.9
    are continued by 99.90000000000002; a lone 150 stays 150; and three
    times 1e308 give [NaN], their sum being an infinity. *)
Example linearForecast_values :
  ForecastingEngine.linearForecast [Fin 60; Fin 65; Fin 70] 2
  = [Fin 75; Fin 80] /\
  ForecastingEngine.linearForecast
    (map parseFloat [lit "99.9"; lit "99.9"; lit "99.9"]) 2
  = [Fin (7029837543348635 # 70368744177664);
     Fin (7029837543348635 # 70368744177664)] /\
  ForecastingEngine.linearForecast [Fin 150] 3 = repeat (Fin 150) 3 /\
  ForecastingEngine.linearForecast
    (map parseFloat [lit "1e308"; lit "1e308"; lit "1e308"]) 2
  = [NaN; NaN].
Proof.
  split; [vm_compute; reflexivity|].
  split; [vm_compute; reflexivity|].
  split; vm_compute; reflexivity.
Qed.

(** ** The success estimate *)

Section SuccessEstimate.

Lemma rnd_unit (q : Q) : (0 <= q <= 1)%Q -> (0 <= rnd q <= 1)%Q.
Proof.
  intros H. split.
  - apply (rnd_ge_Z q 0); [simpl; lia|apply H].
  - apply (rnd_le_Z q 1); [simpl; lia|apply H].
Qed.

Lemma rnd_between (q : Q) (lo hi : Z) :
  Z.abs lo <= 2 ^ 53 -> Z.abs hi <= 2 ^ 53 ->
  (inject_Z lo <= q <= inject_Z hi)%Q ->
  (inject_Z lo <= rnd q <= inject_Z hi)%Q.
Proof.
  intros Hlo Hhi H. now apply (round64_between q lo hi).
Qed.

Lemma weight_unit (w : Q) : (0 <= w <= 1)%Q -> (0 <= rnd w <= 1)%Q.
Proof. apply rnd_unit. Qed.

Lemma rnd_product_unit (x w : Q) :
  (0 <= x <= 1)%Q -> (0 <= w <= 1)%Q -> (0 <= rnd (x * w) <= 1)%Q.
Proof. intros Hx Hw. apply rnd_unit. split; nra. Qed.

Lemma percent_unit (s : Q) : (0 <= s <= 100)%Q -> (0 <= rnd (s / 100) <= 1)%Q.
Proof.
  intros H. apply rnd_unit. split.
  - apply Qle_shift_div_l; lra.
  - apply Qle_shift_div_r; lra.
Qed.

Lemma weighted64_range (s a p : Q) :
  (0 <= s <= 100)%Q -> (0 <= a <= 100)%Q -> (0 <= p <= 100)%Q ->
  (0 <= weighted64 s a p <= 300)%Q.
Proof.
  intros Hs Ha Hp. unfold weighted64.
  pose proof (percent_unit s Hs) as H1.
  pose proof (percent_unit a Ha) as H2.
  pose proof (percent_unit p Hp) as H3.
  assert (W4 : (0 <= rnd (4 # 10) <= 1)%Q) by (vm_compute; split; discriminate).
  assert (W3 : (0 <= rnd (3 # 10) <= 1)%Q) by (vm_compute; split; discriminate).
  pose proof (rnd_product_unit _ _ H1 W4) as P1.
  pose proof (rnd_product_unit _ _ H2 W3) as P2.
  pose proof (rnd_product_unit _ _ H3 W3) as P3.
  set (x1 := rnd (rnd (s / 100) * rnd (4 # 10))) in *.
  set (x2 := rnd (rnd (a / 100) * rnd (3 # 10))) in *.
  set (x3 := rnd (rnd (p / 100) * rnd (3 # 10))) in *.
  assert (S1 : (0 <= rnd (x1 + x2) <= 2)%Q).
  { apply (rnd_between _ 0 2); [simpl; lia|simpl; lia|].
    change (inject_Z 0) with 0%Q. change (inject_Z 2) with 2%Q. lra. }
  assert (S2 : (0 <= rnd (rnd (x1 + x2) + x3) <= 3)%Q).
  { apply (rnd_between _ 0 3); [simpl; lia|simpl; lia|].
    change (inject_Z 0) with 0%Q. change (inject_Z 3) with 3%Q. lra. }
  apply (rnd_between _ 0 300); [simpl; lia|simpl; lia|].
  change (inject_Z 0) with 0%Q. change (inject_Z 300) with 300%Q. lra.
Qed.

Lemma weighted64_monotone (s a p s' a' p' : Q) :
  (0 <= s <= s')%Q -> (0 <= a <= a')%Q -> (0 <= p <= p')%Q ->
  (weighted64 s a p <= weighted64 s' a' p')%Q.
Proof.
  intros Hs Ha Hp. unfold weighted64.
  assert (W4 : (0 <= rnd (4 # 10))%Q) by (vm_compute; discriminate).
  assert (W3 : (0 <= rnd (3 # 10))%Q) by (vm_compute; discriminate).
  assert (D : forall x y : Q, (0 <= x <= y)%Q ->
                (0 <= rnd (x / 100) <= rnd (y / 100))%Q).
  { intros x y H. split.
    - apply rnd_nonneg. apply Qle_shift_div_l; lra.
    - apply rnd_monotone. apply Qmult_le_compat_r; [apply H|].
      vm_compute. discriminate. }
  pose proof (D s s' Hs) as D1. pose proof (D a a' Ha) as D2.
  pose proof (D p p' Hp) as D3.
  assert (M : forall x y w : Q, (0 <= x <= y)%Q -> (0 <= w)%Q ->
                (rnd (x * w) <= rnd (y * w))%Q).
  { intros x y w H Hw. apply rnd_monotone. nra. }
  pose proof (M _ _ _ D1 W4) as M1. pose proof (M _ _ _ D2 W3) as M2.
  pose proof (M _ _ _ D3 W3) as M3.
  set (w4 := rnd (4 # 10)) in *. set (w3 := rnd (3 # 10)) in *.
  set (x1 := rnd (rnd (s / 100) * w4)) in *.
  set (x2 := rnd (rnd (a / 100) * w3)) in *.
  set (x3 := rnd (rnd (p / 100) * w3)) in *.
  set (y1 := rnd (rnd (s' / 100) * w4)) in *.
  set (y2 := rnd (rnd (a' / 100) * w3)) in *.
  set (y3 := rnd (rnd (p' / 100) * w3)) in *.
  assert (S1 : (rnd (x1 + x2) <= rnd (y1 + y2))%Q)
    by (apply rnd_monotone; lra).
  assert (S2 : (rnd (rnd (x1 + x2) + x3) <= rnd (rnd (y1 + y2) + y3))%Q)
    by (apply rnd_monotone; lra).
  apply rnd_monotone. lra.
Qed.

Lemma to_number_or_0 (q : Q) :
  exists q' : Q,
    to_number (or_else (VNum (Fin q)) (VNum (Fin 0))) = Fin q' /\ (q' == q)%Q.
Proof.
  unfold or_else, truthy. destruct (Qeq_bool q 0) eqn:E; cbn [negb to_number].
  - apply Qeq_bool_iff in E. exists 0%Q. split; [reflexivity|lra].
  - exists q. split; [reflexivity|lra].
Qed.

Lemma weighted64_comp (s a p s' a' p' : Q) :
  (s == s')%Q -> (a == a')%Q -> (p == p')%Q ->
  weighted64 s a p = weighted64 s' a' p'.
Proof.
  intros Es Ea Ep. unfold weighted64.
  rewrite (rnd_comp (s / 100) (s' / 100)) by (now rewrite Es).
  rewrite (rnd_comp (a / 100) (a' / 100)) by (now rewrite Ea).
  rewrite (rnd_comp (p / 100) (p' / 100)) by (now rewrite Ep).
  reflexivity.
Qed.

Lemma round64_unit (q : Q) : (0 <= q <= 1)%Q -> round64 q = Fin (rnd q).
Proof.
  intros H. apply (round64_between q 0 1); [simpl; lia|simpl; lia|exact H].
Qed.

(** The value of [calculateSuccessProbability] on metrics between 0
    and 100. *)
Lemma successProbability_value (d : obj) (data : list obj) (s a p : Q) :
  (0 <= s <= 100)%Q -> (0 <= a <= 100)%Q -> (0 <= p <= 100)%Q ->
  AIAnalyticsEngine.calculateSuccessProbability (d :: data)
    (VNum (Fin s)) (VNum (Fin a)) (VNum (Fin p))
  = Fin (clamp (weighted64 s a p)).
Proof.
  intros Hs Ha Hp.
  unfold AIAnalyticsEngine.calculateSuccessProbability. cbv zeta.
  destruct (to_number_or_0 s) as (s' & -> & Es).
  destruct (to_number_or_0 a) as (a' & -> & Ea).
  destruct (to_number_or_0 p) as (p' & -> & Ep).
  rewrite <- (weighted64_comp s' a' p' s a p Es Ea Ep).
  assert (Hs' : (0 <= s' <= 100)%Q) by (rewrite Es; exact Hs).
  assert (Ha' : (0 <= a' <= 100)%Q) by (rewrite Ea; exact Ha).
  assert (Hp' : (0 <= p' <= 100)%Q) by (rewrite Ep; exact Hp).
  clear Hs Ha Hp Es Ea Ep s a p.
  pose proof (percent_unit s' Hs') as H1.
  pose proof (percent_unit a' Ha') as H2.
  pose proof (percent_unit p' Hp') as H3.
  assert (Dv : forall x : Q, (0 <= x <= 100)%Q ->
                 div64 (Fin x) (Fin 100) = Fin (rnd (x / 100))).
  { intros x Hx. unfold div64, Num.div.
    change (Qeq_bool 100 0) with false. cbn [rounded].
    apply round64_unit. split.
    - apply Qle_shift_div_l; lra.
    - apply Qle_shift_div_r; lra. }
  rewrite (Dv s' Hs'), (Dv a' Ha'), (Dv p' Hp'). clear Dv.
  assert (W4 : (0 <= rnd (4 # 10) <= 1)%Q) by (vm_compute; split; discriminate).
  assert (W3 : (0 <= rnd (3 # 10) <= 1)%Q) by (vm_compute; split; discriminate).
  assert (L4 : literal (4 # 10) = Fin (rnd (4 # 10))) by (vm_compute; reflexivity).
  assert (L3 : literal (3 # 10) = Fin (rnd (3 # 10))) by (vm_compute; reflexivity).
  rewrite L4, L3. clear L4 L3. unfold clamp, weighted64.
  revert W4 W3. generalize (rnd (4 # 10)) (rnd (3 # 10)). intros w4 w3 W4 W3.
  revert H1 H2 H3.
  generalize (rnd (s' / 100)) (rnd (a' / 100)) (rnd (p' / 100)).
  intros xs xa xp H1 H2 H3. clear Hs' Ha' Hp' s' a' p'.
  assert (Ml : forall x w : Q, (0 <= x <= 1)%Q -> (0 <= w <= 1)%Q ->
                 mul64 (Fin x) (Fin w) = Fin (rnd (x * w))).
  { intros x w Hx Hw. unfold mul64. cbn [Num.mul rounded].
    apply round64_unit. split; nra. }
  rewrite (Ml _ _ H1 W4), (Ml _ _ H2 W3), (Ml _ _ H3 W3). clear Ml.
  pose proof (rnd_product_unit _ _ H1 W4) as P1.
  pose proof (rnd_product_unit _ _ H2 W3) as P2.
  pose proof (rnd_product_unit _ _ H3 W3) as P3.
  revert P1 P2 P3.
  generalize (rnd (xs * w4)) (rnd (xa * w3)) (rnd (xp * w3)).
  intros x1 x2 x3 P1 P2 P3. clear H1 H2 H3 W4 W3 xs xa xp w4 w3.
  destruct (round64_between (x1 + x2) 0 2) as [E1 S1];
    [simpl; lia|simpl; lia| |].
  { change (inject_Z 0) with 0%Q. change (inject_Z 2) with 2%Q. lra. }
  change (inject_Z 0) with 0%Q in S1. change (inject_Z 2) with 2%Q in S1.
  replace (add64 (Fin x1) (Fin x2)) with (Fin (rnd (x1 + x2)))
    by (symmetry; exact E1).
  revert S1. generalize (rnd (x1 + x2)). intros y1 S1.
  destruct (round64_between (y1 + x3) 0 3) as [E2 S2];
    [simpl; lia|simpl; lia| |].
  { change (inject_Z 0) with 0%Q. change (inject_Z 3) with 3%Q. lra. }
  change (inject_Z 0) with 0%Q in S2. change (inject_Z 3) with 3%Q in S2.
  replace (add64 (Fin y1) (Fin x3)) with (Fin (rnd (y1 + x3)))
    by (symmetry; exact E2).
  revert S2. generalize (rnd (y1 + x3)). intros y2 S2.
  destruct (round64_between (y2 * 100) 0 300) as [E3 _];
    [simpl; lia|simpl; lia| |].
  { change (inject_Z 0) with 0%Q. change (inject_Z 300) with 300%Q. lra. }
  replace (mul64 (Fin y2) (Fin 100)) with (Fin (rnd (y2 * 100)))
    by (symmetry; exact E3).
  reflexivity.
Qed.

End SuccessEstimate.

(** X24.  For data that are not empty and metrics between 0 and 100,
    the success probability is the sum of the average score, the
    average attendance and the pass rate, each divided by 100 and
    weighted with 0.4, 0.3 and 0.3, times 100, every operation rounded
    to the nearest double, and clamped to the range from 0 to 100.  It
    is a number between 0 and 100, and it does not decrease when a
    metric increases.  It need not be the exact weighted mean: for the
    metrics 55, 70 and 50 it is 58.00000000000001. *)
Theorem successProbability_range (data : list obj) (s a p : Q) :
  data <> [] ->
  (0 <= s <= 100)%Q -> (0 <= a <= 100)%Q -> (0 <= p <= 100)%Q ->
  exists q : Q,
    AIAnalyticsEngine.calculateSuccessProbability data
      (VNum (Fin s)) (VNum (Fin a)) (VNum (Fin p))
    = Fin q /\
    q = clamp (weighted64 s a p) /\
    (0 <= q <= 100)%Q /\
    forall s' a' p' : Q,
      (s <= s' <= 100)%Q -> (a <= a' <= 100)%Q -> (p <= p' <= 100)%Q ->
      exists q' : Q,
        AIAnalyticsEngine.calculateSuccessProbability data
          (VNum (Fin s')) (VNum (Fin a')) (VNum (Fin p'))
        = Fin q' /\
        (q <= q')%Q.
Proof.
  intros Hne Hs Ha Hp. destruct data as [|d data]; [congruence|].
  exists (clamp (weighted64 s a p)).
  split; [now apply successProbability_value|]. split; [reflexivity|].
  split; [apply clamp_percent|].
  intros s' a' p' Hs' Ha' Hp'. exists (clamp (weighted64 s' a' p')).
  split; [apply successProbability_value; lra|].
  assert (Hw : (weighted64 s a p <= weighted64 s' a' p')%Q)
    by (apply weighted64_monotone; lra).
  unfold clamp. apply Q.max_le_compat_l. now apply Q.min_le_compat_l.
Qed.

Lemma successProbability_range_witness :
  exists q : Q,
    AIAnalyticsEngine.calculateSuccessProbability scenario_records
      (VNum (Fin 55)) (VNum (Fin 70)) (VNum (Fin 50))
    = Fin q /\
    (q == 8162774324609025 # 140737488355328)%Q /\
    (58 < q)%Q.
Proof.
  destruct (successProbability_range scenario_records 55 70 50)
    as (q & E & Hq & _);
    [vm_compute; discriminate|split; discriminate..|].
  exists q. split; [exact E|]. rewrite Hq.
  split; vm_compute; reflexivity.
Defined.

(** ** The filter engine: what a successful call leaves *)

Section FilteredView.

Import FilterEngine.

Variable localeCompare : str -> str -> Z.

Lemma filterM_ok {A} (p : A -> result bool) (l l' : list A) :
  filterM p l = Ok l' ->
  l' = filter (fun x => match p x with Ok b => b | Throw _ => false end) l.
Proof.
  revert l'. induction l as [|x r IH]; intros l'; cbn [filterM filter bind].
  - now intros [= <-].
  - destruct (p x) as [b|e]; cbn [bind]; [|discriminate].
    destruct (filterM p r) as [r'|e]; cbn [bind]; [|discriminate].
    intros [= <-]. rewrite (IH r' eq_refl). reflexivity.
Qed.

Lemma filter_filter_and {A} (p q : A -> bool) (l : list A) :
  filter q (filter p l) = filter (fun x => p x && q x) l.
Proof.
  induction l as [|x r IH]; simpl; [reflexivity|].
  destruct (p x); simpl; [|exact IH]. destruct (q x); now rewrite IH.
Qed.

Lemma insert_sorted_ok (cmp : obj -> obj -> result num) (x : obj)
    (l l' : list obj) :
  insert_sorted cmp x l = Ok l' -> Permutation (x :: l) l'.
Proof.
  revert l'. induction l as [|y r IH]; intros l'; cbn [insert_sorted bind].
  - intros [= <-]. apply Permutation_refl.
  - destruct (cmp x y) as [c|e]; cbn [bind]; [|discriminate].
    destruct (positive c); [|intros [= <-]; apply Permutation_refl].
    destruct (insert_sorted cmp x r) as [r'|e]; cbn [bind]; [|discriminate].
    intros [= <-]. eapply perm_trans; [apply perm_swap|].
    apply perm_skip. now apply IH.
Qed.

Lemma sort_with_ok (cmp : obj -> obj -> result num) (l l' : list obj) :
  sort_with cmp l = Ok l' -> Permutation l l'.
Proof.
  revert l'. induction l as [|x r IH]; intros l'; cbn [sort_with bind].
  - intros [= <-]. constructor.
  - destruct (sort_with cmp r) as [r'|e]; cbn [bind]; [|discriminate].
    intros H. apply insert_sorted_ok in H.
    eapply perm_trans; [apply perm_skip, IH; reflexivity|exact H].
Qed.

Lemma filtered_view_ok (this : t) (view : list obj) :
  filtered_view localeCompare this = Ok view ->
  Permutation (filter (passes (currentFilters this)) (originalData this)) view.
Proof.
  unfold filtered_view, sortData. cbv zeta.
  set (f := currentFilters this). set (data := originalData this).
  destruct (if nonempty (search f)
            then filterM (search_matches (search f)) data
            else Ok data) as [l1|e] eqn:E1; cbn [bind]; [|discriminate].
  assert (H1 : l1 = filter (fun item => negb (nonempty (search f)) ||
                                        search_ok (search f) item) data).
  { destruct (nonempty (search f)); cbn [negb orb].
    - now apply filterM_ok in E1.
    - injection E1 as <-. clear. induction data as [|x r IH]; simpl; congruence. }
  intros H. apply sort_with_ok in H.
  eapply perm_trans; [|exact H]. clear H. subst l1.
  assert (Hopt : forall (c : bool) (p : obj -> bool) (l : list obj),
             (if c then filter p l else l)
             = filter (fun item => negb c || p item) l).
  { intros c p l. destruct c; cbn [negb orb]; [reflexivity|].
    clear. induction l as [|x r IH]; simpl; congruence. }
  rewrite !Hopt, !filter_filter_and.
  erewrite filter_ext; [apply Permutation_refl|].
  intros item. unfold passes. fold f. now rewrite !andb_assoc.
Qed.

Lemma filtered_view_view_of (this : t) :
  filtered_view localeCompare this
  = view_of localeCompare (originalData this) (currentFilters this)
            (currentSort this).
Proof. reflexivity. Qed.

End FilteredView.

(** X25.  When [applyFilters] returns, the filtered data are the
    records of the base set that pass every filter that is set, the
    search included, each as often as it occurs in the base set, in the
    order of the sort; the base set, the filters and the sort are left
    as they were, and the summary counts no more filtered records than
    records.  When it throws, it changes nothing, and the filtered data
    stay what they were before the call. *)
Theorem applyFilters_selects (localeCompare : str -> str -> Z)
    (this : FilterEngine.t) :
  let out := FilterEngine.applyFilters localeCompare this in
  match fst out with
  | Ok _ =>
      Permutation
        (filter (passes (FilterEngine.currentFilters this))
                (FilterEngine.originalData this))
        (FilterEngine.getFilteredData (snd out)) /\
      FilterEngine.originalData (snd out) = FilterEngine.originalData this /\
      FilterEngine.currentFilters (snd out)
      = FilterEngine.currentFilters this /\
      FilterEngine.currentSort (snd out) = FilterEngine.currentSort this /\
      (FilterEngine.filtered (FilterEngine.getFilterSummary (snd out))
       <= FilterEngine.total (FilterEngine.getFilterSummary (snd out)))%nat
  | Throw _ => snd out = this
  end.
Proof.
  cbv zeta. unfold FilterEngine.applyFilters.
  destruct (FilterEngine.filtered_view localeCompare this) as [view|e] eqn:E;
    cbn [fst snd]; [|reflexivity].
  pose proof (filtered_view_ok localeCompare this view E) as Hp.
  cbn [FilterEngine.getFilteredData FilterEngine.filteredData
       FilterEngine.originalData FilterEngine.currentFilters
       FilterEngine.currentSort FilterEngine.getFilterSummary
       FilterEngine.filtered FilterEngine.total].
  repeat split; [exact Hp|].
  rewrite <- (Permutation_length Hp). apply filter_length_le.
Qed.

Section Setters.

Import FilterEngine.

Variable localeCompare : str -> str -> Z.

(** The state after a setter call. *)
Lemma do_call_state (c : call) (this : t) :
  let out := do_call localeCompare c this in
  let view :=
    view_of localeCompare (originalData this)
            (filters_after c (currentFilters this))
            (sort_after c (currentSort this)) in
  originalData (snd out) = originalData this /\
  currentFilters (snd out) = filters_after c (currentFilters this) /\
  currentSort (snd out) = sort_after c (currentSort this) /\
  fst out = match view with Ok _ => Ok tt | Throw e => Throw e end /\
  filteredData (snd out)
  = match view with Ok filtered => filtered | Throw _ => filteredData this end.
Proof.
  cbv zeta.
  assert (Hfilters : forall f : filters,
             filters_after c (currentFilters this) = f ->
             sort_after c (currentSort this) = currentSort this ->
             let out := applyFilters localeCompare (with_filters this f) in
             originalData (snd out) = originalData this /\
             currentFilters (snd out) = f /\
             currentSort (snd out) = currentSort this /\
             fst out = match view_of localeCompare (originalData this) f
                                     (currentSort this) with
                       | Ok _ => Ok tt
                       | Throw e => Throw e
                       end /\
             filteredData (snd out)
             = match view_of localeCompare (originalData this) f
                             (currentSort this) with
               | Ok filtered => filtered
               | Throw _ => filteredData this
               end).
  { intros f _ _. cbv zeta. unfold applyFilters.
    rewrite filtered_view_view_of.
    cbn [with_filters originalData currentFilters currentSort].
    destruct (view_of localeCompare (originalData this) f (currentSort this));
      cbn [fst snd originalData currentFilters currentSort filteredData
           with_filters]; repeat split. }
  destruct c as [q|v|v|v|k]; cbn [do_call filters_after sort_after].
  - now apply Hfilters.
  - now apply Hfilters.
  - now apply Hfilters.
  - now apply Hfilters.
  - unfold setSort, applyFilters. cbv zeta. rewrite filtered_view_view_of.
    cbn [with_sort originalData currentFilters currentSort].
    destruct (view_of localeCompare (originalData this) (currentFilters this)
                {| key := hd [] (split_on "-" k);
                   direction := nth_error (split_on "-" k) 1 |});
      cbn [fst snd originalData currentFilters currentSort filteredData
           with_sort]; repeat split.
Qed.

Lemma filters_after_commute (c1 c2 : call) (f : filters) :
  call_kind c1 <> call_kind c2 ->
  filters_after c2 (filters_after c1 f) = filters_after c1 (filters_after c2 f).
Proof.
  destruct c1, c2; cbn [call_kind]; intros H; try congruence; reflexivity.
Qed.

Lemma sort_after_commute (c1 c2 : call) (s : sort) :
  call_kind c1 <> call_kind c2 ->
  sort_after c2 (sort_after c1 s) = sort_after c1 (sort_after c2 s).
Proof.
  destruct c1, c2; cbn [call_kind]; intros H; try congruence; reflexivity.
Qed.

Lemma state_ext (x y : t) :
  originalData x = originalData y ->
  filteredData x = filteredData y ->
  currentFilters x = currentFilters y ->
  currentSort x = currentSort y ->
  x = y.
Proof. destruct x, y. cbn. now intros -> -> -> ->. Qed.

End Setters.

(** X26.  Two setter calls that write different parts of the query
    state (the search, one of the three filters, the sort) can be made
    in either order: the second call throws in the one order exactly
    when it throws in the other, with the same error, the filters and
    the sort are the same afterwards, and when the second call returns,
    the whole state of the engine, the filtered data included, is the
    same. *)
Theorem setters_commute (localeCompare : str -> str -> Z)
    (c1 c2 : FilterEngine.call) (this : FilterEngine.t) :
  call_kind c1 <> call_kind c2 ->
  let a :=
    FilterEngine.do_call localeCompare c2
      (snd (FilterEngine.do_call localeCompare c1 this)) in
  let b :=
    FilterEngine.do_call localeCompare c1
      (snd (FilterEngine.do_call localeCompare c2 this)) in
  fst a = fst b /\
  FilterEngine.currentFilters (snd a) = FilterEngine.currentFilters (snd b) /\
  FilterEngine.currentSort (snd a) = FilterEngine.currentSort (snd b) /\
  (is_ok (fst a) = true -> snd a = snd b).
Proof.
  intros Hk. cbv zeta.
  destruct (do_call_state localeCompare c1 this) as (Ho1 & Hf1 & Hs1 & _ & _).
  destruct (do_call_state localeCompare c2 this) as (Ho2 & Hf2 & Hs2 & _ & _).
  destruct (do_call_state localeCompare c2
              (snd (FilterEngine.do_call localeCompare c1 this)))
    as (Hoa & Hfa & Hsa & Hra & Hda).
  destruct (do_call_state localeCompare c1
              (snd (FilterEngine.do_call localeCompare c2 this)))
    as (Hob & Hfb & Hsb & Hrb & Hdb).
  rewrite Ho1, Hf1, Hs1 in *. rewrite Ho2, Hf2, Hs2 in *.
  rewrite (filters_after_commute c1 c2 _ Hk) in *.
  rewrite (sort_after_commute c1 c2 _ Hk) in *.
  split; [now rewrite Hra, Hrb|]. split; [now rewrite Hfa, Hfb|].
  split; [now rewrite Hsa, Hsb|].
  intros Hok. apply state_ext.
  - now rewrite Hoa, Hob.
  - rewrite Hda, Hdb. rewrite Hra in Hok.
    destruct (view_of localeCompare (FilterEngine.originalData this)
                (filters_after c1
                   (filters_after c2 (FilterEngine.currentFilters this)))
                (sort_after c1
                   (sort_after c2 (FilterEngine.currentSort this))));
      [reflexivity|discriminate Hok].
  - now rewrite Hfa, Hfb.
  - now rewrite Hsa, Hsb.
Qed.

Lemma setters_commute_witness :
  let this :=
    snd (FilterEngine.setData (fun _ _ => 0) (processed scenario_csv)
           FilterEngine.new) in
  let a :=
    FilterEngine.do_call (fun _ _ => 0) (FilterEngine.SetRiskFilter (lit "high"))
      (snd (FilterEngine.do_call (fun _ _ => 0)
              (FilterEngine.SetSearch (lit "Math")) this)) in
  let b :=
    FilterEngine.do_call (fun _ _ => 0) (FilterEngine.SetSearch (lit "Math"))
      (snd (FilterEngine.do_call (fun _ _ => 0)
              (FilterEngine.SetRiskFilter (lit "high")) this)) in
  snd a = snd b /\
  map (get (lit "name")) (FilterEngine.getFilteredData (snd a))
  = [VStr (lit "Alice")].
Proof.
  cbv zeta. split; [|vm_compute; reflexivity].
  apply (setters_commute (fun _ _ => 0)
           (FilterEngine.SetSearch (lit "Math"))
           (FilterEngine.SetRiskFilter (lit "high"))).
  - discriminate.
  - vm_compute. reflexivity.
Defined.

(** ** The lists of the subjects and of the semesters *)

Section UniqueLists.

Import FilterEngine.

Lemma same_value_zero_sym (a b : value) :
  same_value_zero a b = same_value_zero b a.
Proof.
  destruct a as [| |[|s|x]|s|l], b as [| |[|s'|y]|s'|l']; cbn; try reflexivity.
  - now destruct s, s'.
  - destruct (Qeq_bool x y) eqn:E, (Qeq_bool y x) eqn:E'; try reflexivity.
    + apply Qeq_bool_iff in E. symmetry in E. apply Qeq_bool_iff in E.
      congruence.
    + apply Qeq_bool_iff in E'. symmetry in E'. apply Qeq_bool_iff in E'.
      congruence.
  - destruct (Str.eqb s s') eqn:E.
    + apply str_eqb_eq in E. subst. now rewrite str_eqb_refl.
    + destruct (Str.eqb s' s) eqn:E'; [|reflexivity].
      apply str_eqb_eq in E'. subst. now rewrite str_eqb_refl in E.
Qed.

Lemma distinct_values_perm (l l' : list value) :
  Permutation l l' -> distinct_values l -> distinct_values l'.
Proof.
  unfold distinct_values. induction 1 as [|x l l' Hp IH|x y l|l l' l'' _ IH1 _ IH2];
    intros H.
  - exact H.
  - inversion H as [|? ? Hx Hl]; subst. constructor; [|now apply IH].
    eapply Permutation_Forall; eauto.
  - inversion H as [|? ? Hy Hl]; subst.
    inversion Hl as [|? ? Hx Hl']; subst.
    inversion Hy as [|? ? Hyx Hy']; subst.
    constructor; [|constructor; assumption].
    constructor; [|exact Hx]. now rewrite same_value_zero_sym.
  - auto.
Qed.

Lemma ltb_asym (a b : str) : Str.ltb a b = true -> Str.ltb b a = false.
Proof.
  revert b. induction a as [|x a IH]; intros [|y b]; cbn [Str.ltb];
    try congruence.
  rewrite orb_true_iff, andb_true_iff, orb_false_iff, andb_false_iff.
  rewrite N.ltb_lt, N.eqb_eq, N.ltb_ge, N.eqb_neq.
  intros [H|[H1 H2]].
  - split; [lia|left; lia].
  - split; [lia|right; now apply IH].
Qed.

Lemma unique_values_sorted (cmp : value -> value -> num) (k : string)
    (this : t) :
  let unique := array_sort cmp (set_of (present_values k this)) in
  (forall v : value, In v unique -> In v (present_values k this)) /\
  (forall v : value,
     In v (present_values k this) ->
     exists w : value,
       In w unique /\ (w = v \/ same_value_zero w v = true)) /\
  distinct_values unique.
Proof.
  cbv zeta. unfold set_of.
  destruct (set_of_fold (present_values k this) [])
    as (_ & _ & Hin & _ & Hall & Hd).
  pose proof (array_sort_perm cmp
                (fold_left (fun s v => set_add v s) (present_values k this) []))
    as Hp.
  repeat split.
  - intros v Hv. apply (Permutation_in _ (Permutation_sym Hp)) in Hv.
    destruct (Hin v Hv) as [[]|H]. exact H.
  - intros v Hv. destruct (Hall v Hv) as (w & Hw & Hwv).
    exists w. split; [|exact Hwv]. now apply (Permutation_in _ Hp).
  - apply (distinct_values_perm _ _ Hp). apply Hd. constructor.
Qed.

End UniqueLists.

(** X27.  [getUniqueSubjects] lists the truthy subjects of the base
    set, each once: every value it lists is a subject of the base set,
    every truthy subject of the base set is listed or equal to a listed
    one, no two listed values are equal, and the list is in ascending
    order of the texts of the values, compared code unit by code
    unit. *)
Theorem uniqueSubjects_sorted (this : FilterEngine.t) :
  let subjects := FilterEngine.getUniqueSubjects this in
  (forall v : value, In v subjects -> In v (present_values "subject" this)) /\
  (forall v : value,
     In v (present_values "subject" this) ->
     exists w : value,
       In w subjects /\ (w = v \/ same_value_zero w v = true)) /\
  distinct_values subjects /\
  Sorted text_not_after subjects.
Proof.
  cbv zeta. unfold FilterEngine.getUniqueSubjects. cbv zeta.
  destruct (unique_values_sorted FilterEngine.default_compare "subject" this)
    as (H1 & H2 & H3).
  split; [exact H1|]. split; [exact H2|]. split; [exact H3|].
  apply (array_sort_sorted FilterEngine.default_compare (fun _ => True)).
  - intros x y _ _. unfold comes_after, FilterEngine.default_compare,
      text_not_after.
    destruct (Str.ltb (to_string x) (to_string y)) eqn:E.
    + intros _. now apply ltb_asym.
    + destruct (Str.ltb (to_string y) (to_string x)); [discriminate|reflexivity].
  - intros x y _ _. unfold comes_after, FilterEngine.default_compare,
      text_not_after.
    destruct (Str.ltb (to_string x) (to_string y)) eqn:E; [discriminate|].
    reflexivity.
  - apply Forall_forall. intros; exact I.
Qed.

Lemma uniqueSubjects_sorted_witness :
  let this :=
    snd (FilterEngine.setData (fun _ _ => 0) (processed subjects_csv)
           FilterEngine.new) in
  FilterEngine.getUniqueSubjects this
  = [VStr (lit "Art"); VStr (lit "Physics")] /\
  Sorted text_not_after (FilterEngine.getUniqueSubjects this).
Proof.
  cbv zeta. split; [vm_compute; reflexivity|].
  apply (proj2 (proj2 (proj2 (uniqueSubjects_sorted
                                (snd (FilterEngine.setData (fun _ _ => 0)
                                        (processed subjects_csv)
                                        FilterEngine.new)))))).
Defined.

(** X28.  [getUniqueSemesters] lists the truthy semesters of the base
    set, each once, as [getUniqueSubjects] does for the subjects; when
    the semester numbers are finite, the list is in ascending order of
    the semester number, the integer at the head of the text of a
    semester or 0 when there is none: 9 comes before 10. *)
Theorem uniqueSemesters_sorted (this : FilterEngine.t) :
  let semesters := FilterEngine.getUniqueSemesters this in
  (forall v : value, In v semesters -> In v (present_values "semester" this)) /\
  (forall v : value,
     In v (present_values "semester" this) ->
     exists w : value,
       In w semesters /\ (w = v \/ same_value_zero w v = true)) /\
  distinct_values semesters /\
  (Forall finite_semester (present_values "semester" this) ->
   Sorted semester_not_after semesters).
Proof.
  cbv zeta. unfold FilterEngine.getUniqueSemesters. cbv zeta.
  set (cmp := fun a b : value =>
                Num.sub (FilterEngine.semester_number a)
                        (FilterEngine.semester_number b)).
  destruct (unique_values_sorted cmp "semester" this) as (H1 & H2 & H3).
  split; [exact H1|]. split; [exact H2|]. split; [exact H3|].
  intros Hfin.
  apply (array_sort_sorted cmp finite_semester).
  - intros x y Hx Hy. unfold comes_after, cmp, semester_not_after,
      finite_semester in *.
    destruct (FilterEngine.semester_number x) as [| |qx]; try discriminate.
    destruct (FilterEngine.semester_number y) as [| |qy]; try discriminate.
    cbn [Num.sub Num.add Num.opp Num.ltb Num.leb].
    intros H. apply Qle_bool_iff.
    destruct (Qltb 0 (qx + - qy)) eqn:E; [discriminate|].
    apply not_true_iff_false in E. rewrite Qltb_lt in E. lra.
  - intros x y Hx Hy. unfold comes_after, cmp, semester_not_after,
      finite_semester in *.
    destruct (FilterEngine.semester_number x) as [| |qx]; try discriminate.
    destruct (FilterEngine.semester_number y) as [| |qy]; try discriminate.
    cbn [Num.sub Num.add Num.opp Num.ltb Num.leb].
    rewrite Qltb_lt. intros H. apply Qle_bool_iff. lra.
  - apply Forall_forall. intros v Hv. rewrite Forall_forall in Hfin.
    apply Hfin. unfold set_of in Hv.
    destruct (set_of_fold (present_values "semester" this) [])
      as (_ & _ & Hin & _).
    destruct (Hin v Hv) as [[]|H]. exact H.
Qed.

Lemma uniqueSemesters_sorted_witness :
  let this :=
    snd (FilterEngine.setData (fun _ _ => 0) (processed subjects_csv)
           FilterEngine.new) in
  FilterEngine.getUniqueSemesters this = [VNum (Fin 9); VNum (Fin 10)] /\
  Sorted semester_not_after (FilterEngine.getUniqueSemesters this).
Proof.
  cbv zeta. split; [vm_compute; reflexivity|].
  apply (proj2 (proj2 (proj2 (uniqueSemesters_sorted
                                (snd (FilterEngine.setData (fun _ _ => 0)
                                        (processed subjects_csv)
                                        FilterEngine.new)))))).
  assert (E : present_values "semester"
                (snd (FilterEngine.setData (fun _ _ => 0)
                        (processed subjects_csv) FilterEngine.new))
              = [VNum (Fin 10); VNum (Fin 9); VNum (Fin 10)])
    by (vm_compute; reflexivity).
  rewrite E.
  repeat (constructor; [vm_compute; reflexivity|]). constructor.
Defined.

(** ** The trend of a student *)

Section StudentTrend.

Import AnalyticsEngine.

Lemma last_default {B} (l : list B) (x y : B) :
  l <> [] -> last l x = last l y.
Proof.
  induction l as [|a l IH]; [congruence|]. intros _.
  destruct l as [|b l]; [reflexivity|].
  change (last (a :: b :: l) x) with (last (b :: l) x).
  change (last (a :: b :: l) y) with (last (b :: l) y).
  apply IH. discriminate.
Qed.

Lemma last_in {B} (l : list B) (x : B) : l <> [] -> In (last l x) l.
Proof.
  induction l as [|a l IH]; [congruence|]. intros _.
  destruct l as [|b l]; [now left|].
  change (last (a :: b :: l) x) with (last (b :: l) x).
  right. apply IH. discriminate.
Qed.

Lemma strongly_sorted_ends {B} (R : B -> B -> Prop) (l : list B) :
  forall x : B,
    StronglySorted R (x :: l) ->
    (forall d : B, In d (x :: l) -> d = x \/ R x d) /\
    (forall d : B,
       In d (x :: l) -> d = last (x :: l) x \/ R d (last (x :: l) x)).
Proof.
  induction l as [|y l IH]; intros x Hs.
  - split; intros d [<-|[]]; now left.
  - inversion Hs as [|? ? Hs' Hx]; subst. rewrite Forall_forall in Hx. split.
    + intros d [<-|Hd]; [now left|right; now apply Hx].
    + change (last (x :: y :: l) x) with (last (y :: l) x).
      rewrite (last_default (y :: l) x y) by discriminate.
      intros d [<-|Hd].
      * right. apply Hx. apply last_in. discriminate.
      * now apply (proj2 (IH y Hs')).
Qed.

Lemma semester_leb_refl (d : obj) :
  finite_semester_of d -> not_later d d.
Proof.
  unfold finite_semester_of, not_later.
  destruct (semester_of d) as [| |q]; try discriminate.
  intros _. cbn [Num.leb]. apply Qle_bool_iff. lra.
Qed.

(** The records of a student as [getStudentTrend] orders them. *)
Lemma student_data_sorted (data : list obj) (studentId : value) :
  Forall finite_semester_of (records_of studentId data) ->
  Permutation (records_of studentId data) (student_data data studentId) /\
  StronglySorted not_later (student_data data studentId).
Proof.
  intros Hfin. unfold student_data. fold (records_of studentId data).
  split; [apply array_sort_perm|].
  apply Sorted_StronglySorted.
  { intros x y z. unfold not_later. intros H1 H2.
    eapply num_leb_trans; eauto. }
  apply (array_sort_sorted _ finite_semester_of).
  - intros x y Hx Hy. unfold comes_after, not_later, finite_semester_of in *.
    destruct (semester_of x) as [| |qx]; try discriminate.
    destruct (semester_of y) as [| |qy]; try discriminate.
    cbn [Num.sub Num.add Num.opp Num.ltb Num.leb].
    intros H. apply Qle_bool_iff.
    destruct (Qltb 0 (qx + - qy)) eqn:E; [discriminate|].
    apply not_true_iff_false in E. rewrite Qltb_lt in E. lra.
  - intros x y Hx Hy. unfold comes_after, not_later, finite_semester_of in *.
    destruct (semester_of x) as [| |qx]; try discriminate.
    destruct (semester_of y) as [| |qy]; try discriminate.
    cbn [Num.sub Num.add Num.opp Num.ltb Num.leb].
    rewrite Qltb_lt. intros H. apply Qle_bool_iff. lra.
  - exact Hfin.
Qed.

End StudentTrend.

(** X29.  [getStudentTrend] looks at the records whose identifier is
    strictly equal to the one asked for.  With fewer than two of them
    the trend is stable and the change is the number 0.  With two or
    more, marks between 0 and 100 and finite semester numbers, the
    change is the marks of a record of the latest semester minus the
    marks of a record of the earliest semester, rounded to the nearest
    double, whatever the order of the records in the data; it is
    returned as a text with one decimal, and the trend is up when the
    change is above 5, down when it is below -5 and stable in between.
    The text is that of the double: from 60 to 70.05 the change is
    10.0, as the double nearest to 70.05 lies below it. *)
Theorem studentTrend_first_last (data : list obj) (studentId : value) :
  let records := records_of studentId data in
  let result := AnalyticsEngine.getStudentTrend data studentId in
  ((List.length records < 2)%nat ->
   result = {| AnalyticsEngine.Trend.trend := lit "stable";
               AnalyticsEngine.Trend.change := VNum (Fin 0) |}) /\
  ((2 <= List.length records)%nat ->
   percent_data records ->
   Forall finite_semester_of records ->
   exists (first last : obj) (c : Q),
     In first records /\ In last records /\
     (forall d : obj,
        In d records -> not_later first d /\ not_later d last) /\
     c = rnd (field_number "marks" last - field_number "marks" first) /\
     AnalyticsEngine.Trend.change result = VStr (to_fixed 1 (Fin c)) /\
     AnalyticsEngine.Trend.trend result
     = (if Qltb 5 c then lit "up"
        else if Qltb c (-5) then lit "down"
        else lit "stable")).
Proof.
  cbv zeta. unfold AnalyticsEngine.getStudentTrend. cbv zeta.
  pose proof (array_sort_length
                (fun a b => Num.sub (AnalyticsEngine.semester_of a)
                                    (AnalyticsEngine.semester_of b))
                (records_of studentId data)) as Hlen.
  change (array_sort _ (records_of studentId data))
    with (AnalyticsEngine.student_data data studentId) in Hlen.
  split.
  - intros Hlt. rewrite <- Hlen in Hlt.
    destruct (AnalyticsEngine.student_data data studentId) as [|x [|y l]];
      [reflexivity|reflexivity|simpl in Hlt; lia].
  - intros Hge Hpct Hfin.
    destruct (student_data_sorted data studentId Hfin) as (Hperm & Hsorted).
    rewrite <- Hlen in Hge.
    destruct (AnalyticsEngine.student_data data studentId) as [|x [|y l]];
      [simpl in Hge; lia|simpl in Hge; lia|].
    set (sorted := x :: y :: l) in *.
    destruct (strongly_sorted_ends not_later (y :: l) x Hsorted)
      as (Hfirst & Hlast).
    fold sorted in Hfirst, Hlast.
    assert (Hx : In x (records_of studentId data)).
    { apply (Permutation_in _ (Permutation_sym Hperm)). now left. }
    assert (Hl : In (last sorted x) (records_of studentId data)).
    { apply (Permutation_in _ (Permutation_sym Hperm)).
      apply last_in. discriminate. }
    unfold percent_data in Hpct. rewrite Forall_forall in Hpct, Hfin.
    destruct (percent_field_number "marks" x (proj1 (Hpct x Hx)))
      as (Ex & Bx).
    destruct (percent_field_number "marks" (last sorted x)
                (proj1 (Hpct _ Hl))) as (El & Bl).
    unfold RiskDetectionEngine.marks_or_0. rewrite Ex, El.
    destruct (or_else_number (field_number "marks" x)) as (qx & -> & Hqx).
    destruct (or_else_number (field_number "marks" (last sorted x)))
      as (ql & -> & Hql).
    cbn [to_number]. unfold Num.sub64, Num.sub.
    cbn [Num.add Num.opp rounded].
    destruct (round64_between (ql + - qx) (-100) 100) as [E _];
      [simpl; lia|simpl; lia| |].
    { change (inject_Z (-100)) with (-100)%Q.
      change (inject_Z 100) with 100%Q. lra. }
    rewrite E.
    cbn [Num.ltb AnalyticsEngine.Trend.change AnalyticsEngine.Trend.trend].
    exists x, (last sorted x), (rnd (ql + - qx)).
    split; [exact Hx|]. split; [exact Hl|]. split.
    { intros d Hd. apply (Permutation_in _ Hperm) in Hd. split.
      - destruct (Hfirst d Hd) as [->|H]; [|exact H].
        apply semester_leb_refl. now apply Hfin.
      - destruct (Hlast d Hd) as [->|H]; [|exact H].
        apply semester_leb_refl. now apply Hfin. }
    split; [apply rnd_comp; rewrite Hqx, Hql; ring|]. split; reflexivity.
Qed.

Lemma studentTrend_first_last_witness :
  AnalyticsEngine.getStudentTrend (processed trend_csv) (VStr (lit "S1"))
  = {| AnalyticsEngine.Trend.trend := lit "down";
       AnalyticsEngine.Trend.change := VStr (lit "-12.0") |} /\
  AnalyticsEngine.getStudentTrend (processed trend_csv) (VStr (lit "S2"))
  = {| AnalyticsEngine.Trend.trend := lit "stable";
       AnalyticsEngine.Trend.change := VNum (Fin 0) |} /\
  AnalyticsEngine.getStudentTrend (processed trend_rounding_csv)
    (VStr (lit "S1"))
  = {| AnalyticsEngine.Trend.trend := lit "up";
       AnalyticsEngine.Trend.change := VStr (lit "10.0") |}.
Proof.
  split; [vm_compute; reflexivity|]. split; [|vm_compute; reflexivity].
  apply (proj1 (studentTrend_first_last (processed trend_csv)
                  (VStr (lit "S2")))).
  vm_compute. lia.
Defined.

(** ** The cells of a line are trimmed *)

Section TrimmedCells.

Import CSVParser.

Lemma first_char_ok_trimStart (s : str) : first_char_ok (trimStart s).
Proof.
  induction s as [|c s IH]; [exact I|]. cbn [trimStart].
  destruct (is_ws c) eqn:E; [exact IH|]. exact E.
Qed.

Lemma trimStart_suffix (s : str) :
  exists pre : str, s = pre ++ trimStart s.
Proof.
  induction s as [|c s (pre & IH)]; [now exists []|]. cbn [trimStart].
  destruct (is_ws c).
  - exists (c :: pre). cbn [app]. now rewrite <- IH.
  - now exists [].
Qed.

(** [trim] changes nothing the second time. *)
Lemma trim_idempotent (s : str) : trim (trim s) = trim s.
Proof.
  unfold trim, trimEnd.
  set (x := trimStart s). set (y := trimStart (rev x)).
  assert (Hx : first_char_ok x) by apply first_char_ok_trimStart.
  assert (Hy : first_char_ok y) by apply first_char_ok_trimStart.
  assert (Hry : first_char_ok (rev y)).
  { destruct (trimStart_suffix (rev x)) as (pre & E). fold y in E.
    apply (f_equal (@rev ascii)) in E.
    rewrite rev_involutive, rev_app_distr in E.
    destruct (rev y) as [|c t]; [exact I|].
    rewrite E in Hx. exact Hx. }
  rewrite (trimStart_id (rev y) Hry), rev_involutive.
  now rewrite (trimStart_id y Hy).
Qed.

Lemma parseCSVLine_loop_trimmed :
  forall (fuel : nat) (line cur : str) (inQuotes : bool) (vals : list str),
    (List.length line <= fuel)%nat ->
    Forall (fun v => trim v = v) vals ->
    Forall (fun v => trim v = v) (parseCSVLine_loop line cur inQuotes vals).
Proof.
  induction fuel as [|fuel IH]; intros line cur inQuotes vals Hlen Hvals.
  - destruct line; [|simpl in Hlen; lia]. cbn [parseCSVLine_loop].
    apply Forall_app. split; [exact Hvals|].
    constructor; [apply trim_idempotent|constructor].
  - destruct line as [|char rest]; cbn [parseCSVLine_loop].
    + apply Forall_app. split; [exact Hvals|].
      constructor; [apply trim_idempotent|constructor].
    + cbn [List.length] in Hlen.
      destruct (Ascii.eqb char quote).
      * destruct rest as [|nextChar rest'].
        -- apply IH; auto. simpl. lia.
        -- destruct (inQuotes && Ascii.eqb nextChar quote).
           ++ apply IH; auto. cbn [List.length] in Hlen. lia.
           ++ apply IH; auto. lia.
      * destruct (Ascii.eqb char comma && negb inQuotes).
        -- apply IH; [lia|]. apply Forall_app. split; [exact Hvals|].
           constructor; [apply trim_idempotent|constructor].
        -- apply IH; auto. lia.
Qed.

Lemma parseCSVLine_loop_nonempty :
  forall (fuel : nat) (line cur : str) (inQuotes : bool) (vals : list str),
    (List.length line <= fuel)%nat ->
    parseCSVLine_loop line cur inQuotes vals <> [].
Proof.
  induction fuel as [|fuel IH]; intros line cur inQuotes vals Hlen.
  - destruct line; [|simpl in Hlen; lia]. cbn [parseCSVLine_loop].
    now destruct vals.
  - destruct line as [|char rest]; cbn [parseCSVLine_loop].
    + now destruct vals.
    + cbn [List.length] in Hlen.
      destruct (Ascii.eqb char quote).
      * destruct rest as [|nextChar rest'].
        -- apply IH. simpl. lia.
        -- destruct (inQuotes && Ascii.eqb nextChar quote).
           ++ apply IH. cbn [List.length] in Hlen. lia.
           ++ apply IH. lia.
      * destruct (Ascii.eqb char comma && negb inQuotes); apply IH; lia.
Qed.

End TrimmedCells.

(** X30.  Whatever the line, quoted cells and unbalanced quotes
    included, the tokenizer returns at least one cell, and no cell it
    returns begins or ends with white space: trimming a cell again
    changes nothing. *)
Theorem parseCSVLine_cells_trimmed (line : str) :
  CSVParser.parseCSVLine line <> [] /\
  Forall (fun cell => trim cell = cell) (CSVParser.parseCSVLine line).
Proof.
  unfold CSVParser.parseCSVLine. split.
  - now apply (parseCSVLine_loop_nonempty (List.length line)).
  - apply (parseCSVLine_loop_trimmed (List.length line)); [lia|constructor].
Qed.

(** ** The semester filter and the semesters read as numbers *)

(** X7.  The semester filter compares with strict equality, and the
    filter value is a string; a semester that the parser read as a
    number is never equal to it.  So on a base set whose semesters are
    numbers, with no search text set, [setSemesterFilter] with any
    non-empty value returns and leaves no record in the filtered data,
    not even for the value that is the text of the number. *)
Theorem semesterFilter_misses_numbers (localeCompare : str -> str -> Z)
    (v : str) (this : FilterEngine.t) :
  v <> [] ->
  FilterEngine.search (FilterEngine.currentFilters this) = [] ->
  Forall (fun r => exists n : num, get (lit "semester") r = VNum n)
         (FilterEngine.originalData this) ->
  let out := FilterEngine.setSemesterFilter localeCompare v this in
  fst out = Ok tt /\ FilterEngine.getFilteredData (snd out) = [].
Proof.
  intros Hv Hs Hnum. cbv zeta.
  unfold FilterEngine.setSemesterFilter, FilterEngine.applyFilters,
    FilterEngine.filtered_view, FilterEngine.sortData. cbv zeta.
  cbn [FilterEngine.with_filters FilterEngine.currentFilters
       FilterEngine.originalData FilterEngine.search FilterEngine.subject
       FilterEngine.semester FilterEngine.riskLevel].
  rewrite Hs. cbn [FilterEngine.nonempty bind].
  assert (Hne : FilterEngine.nonempty v = true) by (destruct v; [exfalso; now apply Hv|reflexivity]).
  rewrite Hne.
  assert (Hnone : forall l : list obj,
             Forall (fun r => exists n : num, get (lit "semester") r = VNum n)
                    l ->
             filter (fun item => strict_eq_str (get (lit "semester") item) v) l
             = []).
  { induction 1 as [|r l (n & Hr) _ IH]; [reflexivity|].
    cbn [filter]. rewrite Hr. exact IH. }
  assert (Hsub : forall (p : obj -> bool) (l : list obj),
             Forall (fun r => exists n : num, get (lit "semester") r = VNum n)
                    l ->
             Forall (fun r => exists n : num, get (lit "semester") r = VNum n)
                    (filter p l)).
  { intros p l H. apply Forall_forall. intros r Hr. apply filter_In in Hr.
    rewrite Forall_forall in H. now apply H. }
  rewrite Hnone.
  - destruct (FilterEngine.nonempty
                (FilterEngine.riskLevel (FilterEngine.currentFilters this)));
      cbn [filter FilterEngine.sort_with fst snd
           FilterEngine.getFilteredData FilterEngine.filteredData];
      split; reflexivity.
  - destruct (FilterEngine.nonempty
                (FilterEngine.subject (FilterEngine.currentFilters this)));
      [now apply Hsub|exact Hnum].
Qed.

Lemma semesterFilter_misses_numbers_witness :
  let this :=
    snd (FilterEngine.setData (fun _ _ => 0) (processed scenario_csv)
           FilterEngine.new) in
  map (get (lit "semester")) (FilterEngine.getFilteredData this)
  = [VNum (Fin 1); VNum (Fin 1)] /\
  FilterEngine.getFilteredData
    (snd (FilterEngine.setSemesterFilter (fun _ _ => 0) (lit "1") this))
  = [].
Proof.
  cbv zeta. split; [vm_compute; reflexivity|].
  apply (semesterFilter_misses_numbers (fun _ _ => 0) (lit "1")).
  - discriminate.
  - reflexivity.
  - assert (E : FilterEngine.originalData
                  (snd (FilterEngine.setData (fun _ _ => 0)
                          (processed scenario_csv) FilterEngine.new))
                = processed scenario_csv) by reflexivity.
    rewrite E.
    assert (E2 : map (get (lit "semester")) (processed scenario_csv)
                 = [VNum (Fin 1); VNum (Fin 1)]) by (vm_compute; reflexivity).
    destruct (processed scenario_csv) as [|a [|b [|c l]]]; try discriminate E2.
    injection E2 as Ha Hb. repeat constructor; eexists; eassumption.
Defined.
